(* ===== verification/_CoqProject ===== *)
-Q . S2P
Prelude.v
Bytes.v
Address.v
PromiseManager.v
BufferQueue.v
SerializableQueue.v
DataType.v
Message.v
DynamicQueue.v
MessageQueue.v
Channels.v
Connection.v
Receiver.v
Link.v
NetworkConfig.v
RoutingTable.v
NetworkChannel.v
Actor.v
TaskQueue.v
Group.v
Engine.v
TmpBuf.v
ColumnBatch.v
Coordinator.v
ThreadPools.v
Startup.v
NetworkIO.v
Timer.v
Registry.v
GpuPool.v
Machine.v
Cluster.v
Typing.v
ActorBase.v
Tree.v
TreeRun.v
TreeSteps.v
Shutdown.v
Quiescence.v
Samples.v
Harness.v
App.v
