(* ===== verification/Prelude.v ===== *)
(** * Hiactor: a verification library

    Hiactor is a distributed actor framework on Seastar: actors live in a tree of actor
    groups, one tree per shard (reactor thread); a message carries the address of its
    target, whose first part is the global shard id; messages between the shards of a
    machine go through lock-free queues, messages between machines through a proxy shard
    that holds a TCP connection to the other machine.  This library models the C++
    code of [src/include/hiactor] and [src/src] as executable definitions and proves what
    makes its components correct, one file per component:

    - [Prelude], [Bytes]: results with C++ faults, machine integers, memory blocks,
      unaligned integers (util/unaligned_int.hh); the shared tactics and hints.
    - [Address]: addresses and their builders (core/actor_message.hh, core/reference_base.hh,
      core/actor_core.cc).  [DataType], [Message]: payload types and the wire format
      (util/data_type.hh, core/actor_message.hh, net/connection.cc).
    - [BufferQueue] is the interface of the queue of serialized buffers that the codec is
      proved against; [SerializableQueue] (net/serializable_queue.hh) implements it on an
      explicit heap of list nodes.
    - [PromiseManager] (core/promise_manager.hh): the ids of requests in flight.
    - [MessageQueue], [Channels]: the queue between two shards and the matrix of queues
      (core/local_channel.hh, core/local_channel.cc, net/network_channel.cc, core/actor-app.cc), with
      the protocol by which a shard sleeps and is woken (core/actor_pollfn.hh).
    - [NetworkConfig], [RoutingTable]: the cluster, which shard connects to which machine,
      and the table from global shards to proxies (core/actor-app.cc, net/network_config.hh,
      net/network_channel.hh).  [DynamicQueue] (core/dynamic-queue.hh): the buffer of a
      connection.  [NetworkChannel] (net/network_channel.hh, net/network_channel.cc): the way
      of a message to that buffer.  [Connection] (net/connection.hh, net/connection.cc): the
      connection table, the handshake, the sender and receiver loops on a whole stream;
      [Receiver] and [Link] are the same loops at work, with the network between them.
    - [Actor], [TaskQueue], [Group], [Engine]: a leaf actor, the group's queue of runnable
      children, the actor group, the root group of a shard and the client side of requests
      (core/actor-template.cc, core/actor_core.cc, core/actor_scheduling.hh,
      core/root_actor_group.cc, core/actor_client.hh).
    - [TmpBuf], [ColumnBatch]: storage shared by buffers, and the column batches and tables
      that live in it (core/column_batch.hh, core/cb_table.hh).
    - [Coordinator]: the work queue of the coordinator's thread and the barriers
      (core/coordinator.hh, core/coordinator.cc, core/coordinator_worker.hh,
      core/coordinator_worker.cc).
    - [ThreadPools]: the pool of worker threads for blocking functions and the pool of threads
      outside Seastar (core/thread_resource_pool.hh, core/thread_resource_pool.cc,
      core/alien_thread_pool.hh, core/alien_thread_pool.cc).
    - [Startup], [NetworkIO]: accepting and making connections on every shard, the managers of
      the shards, the routing table made from what is connected (net/network_io.hh,
      net/network_io.cc, net/entry.hh, net/connection.hh, net/connection.cc).
    - [Timer]: the clock and the quota by which actors yield (core/actor_timer.hh,
      core/actor_timer.cc, core/actor_core.cc, core/actor-template.cc).  [Registry]: the
      constructors by type id and the service groups of the channels (core/actor_factory.hh,
      core/actor_factory.cc, core/local_channel.cc).
    - [GpuPool]: the streams of a GPU and the tasks on them (core/gpu_resource_pool.hh,
      core/gpu_resource_pool.cc).
    - [Machine]: the engines of all shards of a machine with the queues between them
      (core/root_actor_group.cc, core/local_channel.cc).  [Typing] states and proves the type
      discipline of messages, payloads and promises for it.  [Cluster]: machines with their network
      channels and connections.  [Tree]: the groups and actors below the engine of a shard, the
      way of a message down and of an activation up (core/root_actor_group.cc,
      core/actor-template.cc, core/actor_core.cc).  [TreeRun]: the same tree at work, what the reactor runs,
      the children a running group calls, the stop protocol from the root down and from a deleted child up
      (the same files); [TreeSteps] and [Shutdown] prove what one step and what whole histories do to it,
      [Quiescence] that it comes to rest.
    - [ActorBase]: what all actors have, identity, meta data, exceptions and their report
      (core/actor_core.hh, core/actor_core.cc, core/exception.hh, core/continuation.hh,
      core/actor_message.cc).  [Samples]: two sample applications (demos/bank_account,
      demos/actor_samples).  [Harness]: the actor of the tests, a call of it from the reference to the
      answer, the tests and the calls of the sample programs, evaluated (tests/actor_harness.hh,
      tests/actor_harness.cc, tests/actor_test.cc, tests/column_batch_test.cc, tests/alien_pool_test.cc,
      tests/thread_pool_test.cc, demos/bank_account/bank_account_sample.cc, demos/actor_samples/simple_actor_sample.cc,
      demos/actor_samples/actor_scheduling_sample.cc).
    - [App]: the configuration of the shards,
      the run of an application and its end (core/actor-app.cc, core/root_actor_group.cc).

    ** How the code is modelled

    A definition has the name of the function it models.  Mutable objects are records
    that operations take and return.  Code that can be undefined, or assert, returns
    [res]: [Ok] or a [fault].  Unsigned integers are [Z] with their wrap-around written
    out.  What another thread or a later continuation may interleave is a separate event
    of a [step] function, and invariants are proved over all event sequences.  Pointers are
    explicit where aliasing matters: heap cells in [SerializableQueue], blocks of storage in
    [TmpBuf].

    Seastar, boost and the application are not part of the repository.  What the code
    uses of them is an interface, a class with the documented behaviour as laws and an
    instance that runs: [Spsc], [LfQueue] (boost::lockfree::spsc_queue), [CountSem], [Semaphore]
    (seastar::semaphore), [InputStream], [TmpBuf] (seastar::temporary_buffer), [HeapOps]
    (std::push_heap, std::pop_heap), [MpQueue] (boost::lockfree::queue), [WhenAll]
    (seastar::when_all).  User code (message handlers, continuations) is a parameter that
    says how it ends, or a list of effects of arbitrary order.

    ** What is proved

    Liveness by invariant: no wakeup is lost ([actor_no_lost_work], [group_no_lost_work],
    [sleep_no_lost_wakeup], [dynamic_queue_no_lost_wakeup], [coord_no_lost_item]), accepting
    connections ends on every shard ([server_accepts_all]), a stopped shard at rest has
    no object left and waited for the others once ([stopped_shard_empties]), work given to threads and GPU
    streams is conserved ([pool_work_conserved], [gpu_streams_shared]).  Safety of the
    actor tree: messages are accounted for, children counted, nothing is deleted before
    its time or twice, the engine exits once; on a whole shard the tree stays consistent and the steps that
    can fail are named: a message type the code asserts not to come, a continuation of an actor that was
    deleted, what the engine itself refuses to read ([shard_runs]).  Delivery: mailboxes, queues between shards and
    connections keep order and lose nothing; a message is routed to the machine that owns
    its shard ([route_to_owner]) and put into the mailbox of the one actor its
    address names, which then waits for its turn up to the reactor ([tree_delivers]); a
    connection delivers what was accepted, however its bytes are cut ([link_delivers]), and a prefix of it when it
    breaks ([link_in_order]); across a cluster nothing is lost, doubled or reordered while the connections hold,
    and what an abort drops is accounted for ([cluster_delivers]); requests are answered ([request_response]), and the answer
    is what the actor's method returned ([remote_call]); in a machine as a whole nothing is
    lost, reordered or misrouted between its shards ([machine_messages_conserved]), and [exit] on one shard
    stops all of them ([exit_stops_machine]); the network's start-up makes the routes there can
    be ([network_start_routes], [configured_network_routes]).  Round trips: messages, streams of
    messages, addresses, column batches, tables.  Types: a machine that is given well-typed messages never fails and
    sends well-typed messages only ([machine_well_typed]).  Equivalence: the receiver against the
    loop on the whole stream ([receiver_equals_receive_loop]).  Refinement: the buffer queue and the
    address builder against their specifications, the tables against the buffer queue's
    interface.  Termination and bounds: a shard left alone ([shard_comes_to_rest]), the deserializer, the growth of a batch, the
    length of a time slice ([slice_bounded]).  Faults the
    code has are stated as theorems, too, and listed as findings in the manifest.

    ** Conditions

    A theorem's comment names the conditions it needs.  The recurring ones: the limit of an actor's concurrency may be
    set at any moment between its runs in [Actor], and is fixed when the actor is made in [TreeRun]; the
    children of a group in [Group] are an environment that follows the protocol of actors ([allowed]), which
    [TreeRun] shows for the actors of the same shard; the connections of [Cluster] are aborted
    and closed but do not break, those of [Link] break and fail; network start-up ([NetworkIO]) is described for
    phases that end, with machines that connect within the time limit or break off; the pollers' [pure_poll] reads
    queues that are not started, so [smp_configured] distinguishes the runs in which it is called too
    early; the calls of the GPU pool's promise table overlap only where the theorem says so ([gpu_streams_shared]).

    ** Bounds and fuel

    Loops that are not structural run on fuel that is proved enough: the deserializer
    ([deserialize_terminates]: the number of bytes left), [pop] of the linked list (its number of
    nodes), [receive_loop] (the number of messages popped), routing in [Engine] (the depth
    of the tree), [reserve_loop] (33 doublings of a 32-bit integer; a loop that is not done by
    then never ends, [reserve_loop_fuel]).  Where 32-bit counters could wrap, theorems carry the
    bound as a hypothesis.

    ** Not modelled

    The sockets and timers of Seastar, option parsing, metrics, thread creation and
    signal masks are calls into libraries; a CUDA stream is an opaque handle.  The code
    generator is a Python program; of the tests and sample programs only the main functions, what they print and the
    programs for the two pools are left out.  Storage is never released in [TmpBuf], and a
    buffer in a [BufferQueue] is the bytes it had when it was pushed.  In [TreeRun] a step of
    [run_and_dispose] is one message, one task or the end of the run; what the code assigns or deletes last in such a step, where
    nothing reads it in between, is done with the step, and the messages that user code sends to other actors
    are events between the steps.
*)
From Stdlib Require Export ZArith Lia.
From Stdlib Require Strings.Byte.
From stdpp Require Export base numbers list gmap.

#[global] Open Scope Z_scope.

(** ** Faults

    What the C++ code does on a path the language leaves undefined (or on a
    failed [assert]) is a fault value; every partial operation returns a
    [res]. *)
Inductive fault : Set :=
  | AssertFail      (* assert(...) evaluates to false *)
  | OutOfBounds     (* access outside the object or the array *)
  | NullDeref       (* use of a null or moved-from pointer *)
  | UseAfterFree    (* use of an object that was deleted *)
  | BadCast         (* reinterpret_cast to a type the object does not have *)
  | DivByZero       (* x % 0 *)
  | Uninit          (* use of storage no object was constructed in *)
  | SignedOverflow  (* arithmetic on int that leaves its range *)
  | DataRace        (* two threads access an object at a time, without synchronization *)
  | NoFuel.         (* the model's loop bound ran out: the loop did not finish *)

Inductive res (A : Type) : Type :=
  | Ok (a : A)
  | Fault (f : fault).
Arguments Ok {A} _.
Arguments Fault {A} _.

#[export] Instance fault_eq_dec : EqDecision fault.
Proof. solve_decision. Defined.

#[export] Instance res_ret : MRet res := fun A a => Ok a.
#[export] Instance res_bind : MBind res :=
  fun A B f m => match m with Ok a => f a | Fault e => Fault e end.
#[export] Instance res_fmap : FMap res :=
  fun A B f m => match m with Ok a => Ok (f a) | Fault e => Fault e end.

Definition assert (b : bool) : res unit := if b then Ok tt else Fault AssertFail.
Definition of_option {A} (f : fault) (o : option A) : res A :=
  match o with Some a => Ok a | None => Fault f end.
Definition is_ok {A} (m : res A) : bool := match m with Ok _ => true | Fault _ => false end.

Lemma bind_ok {A B} (m : res A) (k : A -> res B) b :
  (m ≫= k) = Ok b <-> exists a, m = Ok a /\ k a = Ok b.
Proof.
  split.
  - destruct m; cbn; intros H; [eauto | discriminate].
  - intros (a & -> & H). exact H.
Qed.

Lemma Ok_inj {A} (a b : A) : Ok a = Ok b -> a = b.
Proof. congruence. Qed.

Lemma bind_Ok_l {A B} (a : A) (k : A -> res B) : (Ok a ≫= k) = k a.
Proof. reflexivity. Qed.

Lemma assert_ok b u : assert b = Ok u <-> b = true.
Proof. destruct u, b; cbn; split; congruence. Qed.

(** [res_inv] takes apart hypotheses of the shape [m ≫= k = Ok b]. *)
Ltac res_step :=
  match goal with
  | H : (_ ≫= _) = Ok _ |- _ =>
      apply bind_ok in H; destruct H as (? & ? & H)
  | H : assert _ = Ok _ |- _ => apply assert_ok in H
  | H : Ok _ = Ok _ |- _ => apply Ok_inj in H; try subst
  | H : Fault _ = Ok _ |- _ => discriminate H
  | H : Ok _ = Fault _ |- _ => discriminate H
  | H : mret _ = Ok _ |- _ => apply Ok_inj in H; try subst
  end.
Ltac res_inv := repeat (res_step; cbn beta iota zeta in * ).

(** ** Machine integers

    An unsigned w-bit integer is a [Z] in [0, 2^w); arithmetic that can leave
    the range is wrapped explicitly. *)
Definition wrap (w : Z) (z : Z) : Z := z mod 2 ^ w.
Abbreviation u8 := (wrap 8).
Abbreviation u16 := (wrap 16).
Abbreviation u32 := (wrap 32).
Abbreviation u64 := (wrap 64).

Definition in_u (w z : Z) : Prop := 0 <= z < 2 ^ w.

Lemma wrap_range w z : 0 <= w -> in_u w (wrap w z).
Proof. intros. apply Z.mod_pos_bound. lia. Qed.

Lemma wrap_small w z : in_u w z -> wrap w z = z.
Proof. apply Z.mod_small. Qed.

Lemma u32_small z : 0 <= z < 4294967296 -> u32 z = z.
Proof. apply Z.mod_small. Qed.

Lemma u32_range z : 0 <= u32 z < 4294967296.
Proof. apply Z.mod_pos_bound. lia. Qed.

Lemma u8_small z : 0 <= z < 256 -> u8 z = z.
Proof. apply Z.mod_small. Qed.

Lemma wrap_wrap w z : 0 <= w -> wrap w (wrap w z) = wrap w z.
Proof. intros. apply wrap_small, wrap_range. lia. Qed.

Lemma wrap_add_l w a b : wrap w (wrap w a + b) = wrap w (a + b).
Proof. apply Zplus_mod_idemp_l. Qed.

(** ** Bytes and memory blocks

    A memory block is the list of its bytes. [mem_read] and [memcpy] are the
    accesses the code makes, with the bound the C++ object model puts on them. *)
Abbreviation bytes := (list Init.Byte.byte).

#[export] Instance byte_eq_dec : EqDecision Init.Byte.byte := Stdlib.Strings.Byte.byte_eq_dec.

Definition mem_read (m : bytes) (off len : nat) : res bytes :=
  if decide (off + len <= length m)%nat then Ok (take len (drop off m)) else Fault OutOfBounds.

Definition memcpy (m : bytes) (off : nat) (src : bytes) : res bytes :=
  if decide (off + length src <= length m)%nat
  then Ok (take off m ++ src ++ drop (off + length src) m)
  else Fault OutOfBounds.

Lemma mem_read_ok m off len bs :
  mem_read m off len = Ok bs <-> (off + len <= length m)%nat /\ bs = take len (drop off m).
Proof. unfold mem_read. case_decide; split; intros; destruct_and?; simplify_eq; done || (split; done). Qed.

Lemma memcpy_ok m off src m' :
  memcpy m off src = Ok m' <->
  (off + length src <= length m)%nat /\ m' = take off m ++ src ++ drop (off + length src) m.
Proof. unfold memcpy. case_decide; split; intros; destruct_and?; simplify_eq; done || (split; done). Qed.

Lemma mem_read_length m off len bs : mem_read m off len = Ok bs -> length bs = len.
Proof. rewrite mem_read_ok. intros [? ->]. rewrite length_take, length_drop. lia. Qed.

Lemma memcpy_length m off src m' : memcpy m off src = Ok m' -> length m' = length m.
Proof.
  rewrite memcpy_ok. intros [? ->]. rewrite !length_app, length_take, length_drop. lia.
Qed.

Lemma memcpy_total m off src :
  (off + length src <= length m)%nat -> exists m', memcpy m off src = Ok m'.
Proof. unfold memcpy. case_decide; [eauto|easy]. Qed.

Lemma mem_read_total m off len :
  (off + len <= length m)%nat -> exists bs, mem_read m off len = Ok bs.
Proof. unfold mem_read. case_decide; [eauto|easy]. Qed.

(** Reading back what was just copied. *)
Lemma mem_read_memcpy m off src m' :
  memcpy m off src = Ok m' -> mem_read m' off (length src) = Ok src.
Proof.
  intros Hc. pose proof (memcpy_length _ _ _ _ Hc) as Hl.
  apply memcpy_ok in Hc as [Hb ->]. apply mem_read_ok. split; [lia|].
  rewrite drop_app_le, drop_ge, app_nil_l by (rewrite length_take; lia).
  now rewrite take_app_length.
Qed.

(** A copy leaves every disjoint range alone. *)
Lemma mem_read_memcpy_ne m off src m' o n :
  memcpy m off src = Ok m' ->
  (o + n <= off \/ off + length src <= o)%nat ->
  mem_read m' o n = mem_read m o n.
Proof.
  intros Hc Hd. pose proof (memcpy_length _ _ _ _ Hc) as Hl.
  apply memcpy_ok in Hc as [Hb ->]. unfold mem_read. rewrite Hl.
  case_decide; [|done]. f_equal. destruct Hd as [Hd|Hd].
  - rewrite drop_app_le by (rewrite length_take; lia).
    rewrite take_app_le by (rewrite length_drop, length_take; lia).
    rewrite skipn_firstn_comm, take_take. f_equal. lia.
  - rewrite app_assoc, drop_app_ge by (rewrite length_app, length_take; lia).
    rewrite length_app, length_take, drop_drop. f_equal. f_equal. lia.
Qed.

(** Two adjacent reads are one longer read. *)
Lemma mem_read_app m off n1 n2 b1 b2 :
  mem_read m off n1 = Ok b1 -> mem_read m (off + n1) n2 = Ok b2 ->
  mem_read m off (n1 + n2) = Ok (b1 ++ b2).
Proof.
  rewrite !mem_read_ok. intros [? ->] [? ->]. split; [lia|].
  rewrite <-take_take_drop, drop_drop. reflexivity.
Qed.

(** Reading a part of a block that was put together from parts. *)
Lemma mem_read_mid pre b post off len :
  off = length pre -> len = length b -> mem_read (pre ++ b ++ post) off len = Ok b.
Proof.
  intros -> ->. apply mem_read_ok. rewrite !length_app, drop_app_length, take_app_length. split; [lia|done].
Qed.

(** A read that succeeds splits the block. *)
Lemma mem_read_split m off len b :
  mem_read m off len = Ok b -> exists pre post, m = pre ++ b ++ post /\ length pre = off /\ length b = len.
Proof.
  intros H. pose proof (mem_read_length _ _ _ _ H) as Hl. apply mem_read_ok in H as [Hb ->].
  exists (take off m), (drop (off + len) m). split; [|split; [rewrite length_take; lia|done]].
  rewrite <-drop_drop, !take_drop. done.
Qed.

(** A fact about the elements of one list strengthens a relation between two lists. *)
Lemma Forall2_impl_Forall {A B} (P : A -> Prop) (R S : A -> B -> Prop) l k :
  Forall P l -> Forall2 R l k -> (forall x y, P x -> R x y -> S x y) -> Forall2 S l k.
Proof. intros HP HR HS. induction HR; [constructor|]. inversion HP; subst. constructor; auto. Qed.

Lemma app_same {A} (l k : list A) : l ++ k = l -> k = [].
Proof. intros H. rewrite <-(app_nil_r l) in H at 2. now apply app_inv_head in H. Qed.

(** ** Automation

    [len] proves goals on lengths of lists put together from parts; [wrap_small]
    removes the wrap-around of sums and products that stay in range; the [hiactor]
    database carries the range facts that [eauto] uses. *)
Create HintDb hiactor.
#[export] Hint Resolve u32_range mem_read_length memcpy_length : hiactor.
#[export] Hint Extern 4 (in_u _ _) => (unfold in_u; lia) : hiactor.

#[export] Hint Rewrite @length_app @length_take @length_drop @length_insert @length_replicate
  @length_fmap @length_nil @length_cons : len.

Ltac len := autorewrite with len in *; cbn [length] in *; try lia.

Ltac wrap_small := rewrite ?u32_small, ?u8_small, ?wrap_small by (unfold in_u in *; lia).

(** [res_run] evaluates the next steps of a computation whose results are known by
    equations in the context. *)
Ltac res_run :=
  repeat (match goal with
          | E : ?m = Ok _ |- context [?m ≫= _] => rewrite E
          end; cbn [mbind res_bind]).

(** The wrap-around of a [w]-bit machine operation, in the notation of the code. *)
Declare Scope cxx_scope.
Delimit Scope cxx_scope with cxx.
Notation "x +[ w ] y" := (wrap w (x + y)) (at level 50, left associativity) : cxx_scope.
Notation "x -[ w ] y" := (wrap w (x - y)) (at level 50, left associativity) : cxx_scope.
Notation "x *[ w ] y" := (wrap w (x * y)) (at level 40, left associativity) : cxx_scope.
