(* ===== verification/Bytes.v ===== *)
(** * Unaligned integers

    [src/include/hiactor/util/unaligned_int.hh]: little-endian loads and stores
    of fixed-width unsigned integers at any offset of a memory block.  The type
    parameter [T] of the templates is its size in bytes. *)
From coqutil Require Import Byte.
From S2P Require Import Prelude.

(** The object representation of an [n]-byte unsigned integer (x86-64: little
    endian), as [memcpy(dst, &val, sizeof(T))] copies it. *)
Fixpoint enc_uint (n : nat) (z : Z) : bytes :=
  match n with
  | O => []
  | S n => byte.of_Z z :: enc_uint n (z / 256)
  end.

Fixpoint dec_uint (bs : bytes) : Z :=
  match bs with
  | [] => 0
  | b :: bs => byte.unsigned b + 256 * dec_uint bs
  end.

Definition load_unaligned_int (n : nat) (p : bytes) (off : nat) : res Z :=
  bs ← mem_read p off n; Ok (dec_uint bs).

(** [T ret = 0; memcpy(&ret, ptr, len); return ret;] *)
Definition load_unaligned_int_partial (n : nat) (p : bytes) (off len : nat) : res Z :=
  bs ← mem_read p off len;
  r ← memcpy (enc_uint n 0) 0 bs;
  Ok (dec_uint r).

Definition store_unaligned_int (n : nat) (p : bytes) (off : nat) (val : Z) : res bytes :=
  memcpy p off (enc_uint n val).

(** ** Encodings *)
Lemma pow_bytes_S n : 2 ^ (8 * Z.of_nat (S n)) = 256 * 2 ^ (8 * Z.of_nat n).
Proof. rewrite Nat2Z.inj_succ, <-Z.add_1_r, Z.mul_add_distr_l, Z.pow_add_r by lia. lia. Qed.

Lemma pow_bytes_pos n : 0 < 2 ^ (8 * Z.of_nat n).
Proof. apply Z.pow_pos_nonneg; lia. Qed.

Lemma enc_uint_length n z : length (enc_uint n z) = n.
Proof. revert z. induction n; intros z; cbn; auto. Qed.

Lemma dec_enc_uint n z : dec_uint (enc_uint n z) = wrap (8 * Z.of_nat n) z.
Proof.
  unfold wrap. revert z. induction n as [|n IH]; intros z.
  - cbn. now rewrite Z.mod_1_r.
  - cbn [enc_uint dec_uint]. rewrite IH, byte.unsigned_of_Z, pow_bytes_S. unfold byte.wrap.
    change (2 ^ 8) with 256. rewrite (Z.rem_mul_r z 256) by (pose proof (pow_bytes_pos n); lia).
    lia.
Qed.

Lemma dec_enc_uint_small n z :
  in_u (8 * Z.of_nat n) z -> dec_uint (enc_uint n z) = z.
Proof. intros. rewrite dec_enc_uint. now apply wrap_small. Qed.

Lemma enc_dec_uint bs n : length bs = n -> enc_uint n (dec_uint bs) = bs.
Proof.
  intros <-. induction bs as [|b bs IH]; [done|]. cbn [length enc_uint dec_uint].
  pose proof (byte.unsigned_range b) as R. change (2 ^ 8) with 256 in R. f_equal.
  - apply byte.unsigned_inj. rewrite byte.unsigned_of_Z. unfold byte.wrap.
    change (2 ^ 8) with 256. rewrite Z.mul_comm, Z.mod_add by lia. apply Z.mod_small. lia.
  - rewrite Z.mul_comm, Z.div_add, Z.div_small by lia. exact IH.
Qed.

Lemma dec_uint_range bs n : length bs = n -> in_u (8 * Z.of_nat n) (dec_uint bs).
Proof.
  intros <-. unfold in_u. induction bs as [|b bs IH]; [cbn; lia|].
  cbn [length dec_uint]. rewrite pow_bytes_S.
  pose proof (byte.unsigned_range b) as R. change (2 ^ 8) with 256 in R. lia.
Qed.

Lemma enc_uint_inj n a b :
  in_u (8 * Z.of_nat n) a -> in_u (8 * Z.of_nat n) b -> enc_uint n a = enc_uint n b -> a = b.
Proof.
  intros Ha Hb E. apply (f_equal dec_uint) in E. now rewrite !dec_enc_uint_small in E.
Qed.

Lemma dec_uint_app b1 b2 :
  dec_uint (b1 ++ b2) = dec_uint b1 + dec_uint b2 * 2 ^ (8 * Z.of_nat (length b1)).
Proof.
  induction b1 as [|b b1 IH]; [cbn; lia|].
  cbn [app length dec_uint]. rewrite IH, pow_bytes_S. lia.
Qed.

Lemma enc_uint_0 n : enc_uint n 0 = replicate n Byte.x00.
Proof.
  induction n as [|n IH]; [done|]. cbn [enc_uint replicate]. rewrite Z.div_0_l by lia.
  now rewrite IH.
Qed.

(** ** Loads and stores *)
Lemma load_store_unaligned_int n p off v p' :
  store_unaligned_int n p off v = Ok p' ->
  load_unaligned_int n p' off = Ok (wrap (8 * Z.of_nat n) v).
Proof.
  unfold store_unaligned_int, load_unaligned_int. intros H.
  apply mem_read_memcpy in H. rewrite enc_uint_length in H. rewrite H. cbn.
  now rewrite dec_enc_uint.
Qed.

Lemma load_unaligned_int_range n p off v :
  load_unaligned_int n p off = Ok v -> in_u (8 * Z.of_nat n) v.
Proof.
  unfold load_unaligned_int. intros H. res_inv. apply dec_uint_range.
  eapply mem_read_length. eassumption.
Qed.

(** A partial load zero-extends. *)
Lemma load_partial_ok n p off len bs :
  (len <= n)%nat -> mem_read p off len = Ok bs ->
  load_unaligned_int_partial n p off len = Ok (dec_uint bs).
Proof.
  intros Hn Hr. unfold load_unaligned_int_partial. rewrite Hr. cbn [mbind res_bind].
  pose proof (mem_read_length _ _ _ _ Hr) as Hl.
  unfold memcpy. rewrite enc_uint_length, decide_True by lia. cbn [mbind res_bind].
  f_equal. rewrite take_0, app_nil_l, dec_uint_app.
  assert (E : dec_uint (drop (0 + length bs) (enc_uint n 0)) = 0); [|rewrite E; lia].
  rewrite enc_uint_0, drop_replicate, <-enc_uint_0, dec_enc_uint. apply Z.mod_0_l.
  pose proof (pow_bytes_pos (n - (0 + length bs))). lia.
Qed.

(** Loading an integer that was laid out inside a block. *)
Lemma load_mid n pre z post off :
  off = length pre -> in_u (8 * Z.of_nat n) z ->
  load_unaligned_int n (pre ++ enc_uint n z ++ post) off = Ok z.
Proof.
  intros -> Hz. unfold load_unaligned_int.
  rewrite (mem_read_mid pre (enc_uint n z) post) by (done || now rewrite enc_uint_length).
  cbn [mbind res_bind]. now rewrite dec_enc_uint_small.
Qed.

Lemma load_split n m off z :
  load_unaligned_int n m off = Ok z ->
  exists pre post, m = pre ++ enc_uint n z ++ post /\ length pre = off /\ in_u (8 * Z.of_nat n) z.
Proof.
  intros H. pose proof (load_unaligned_int_range _ _ _ _ H). unfold load_unaligned_int in H. res_inv.
  apply mem_read_split in H1 as (pre & post & -> & Hp & Hb). exists pre, post.
  rewrite enc_dec_uint by done. done.
Qed.
