(* ===== verification/Address.v ===== *)
(** * Addresses and scopes

    [struct address] (src/include/hiactor/core/actor_message.hh), [scope_builder]
    and [reference_base] (src/include/hiactor/core/reference_base.hh), and
    [actor_base::get_scope] (src/src/core/actor_core.cc).

    An address is the 4-byte global shard id followed by one 6-byte cell (class
    type, 2 bytes; id, 4 bytes) per actor group and one for the actor.  The
    abstract view is a [path]: the shard and the list of cells; [repr] relates the
    bytes to it. *)
From S2P Require Import Prelude Bytes.

Definition GActorTypeInBytes : nat := 2.
Definition GShardIdInBytes : nat := 4.
Definition GActorIdInBytes : nat := 4.
Definition GMaxAddrLayer : nat := 8.
Definition GLocalActorAddrLength : nat := GActorTypeInBytes + GActorIdInBytes.
Definition GMaxAddrLength : nat := GShardIdInBytes + GMaxAddrLayer * GLocalActorAddrLength.

(** [byte_t length = 0; byte_t data[GMaxAddrLength];] *)
Record address := mk_address { addr_length : Z; addr_data : bytes }.

#[export] Instance address_eq_dec : EqDecision address.
Proof. solve_decision. Defined.

(** [data] has no initializer: after default construction its bytes are
    whatever the storage held, the argument [g]. *)
Definition address_default (g : bytes) : address := mk_address 0 g.

(** [address addr{}] value-initializes, hence zeroes, the object. *)
Definition address_zero : address := mk_address 0 (replicate GMaxAddrLength Byte.x00).

Definition address_of_shard (g : bytes) (shard_id : Z) : res address :=
  d ← memcpy g 0 (enc_uint GShardIdInBytes shard_id);
  Ok (mk_address (Z.of_nat GShardIdInBytes) d).

Definition get_shard_id (a : address) : res Z := load_unaligned_int 4 (addr_data a) 0.

Definition set_method_actor_tid (a : address) (method_actor_type : Z) : res address :=
  d ← memcpy (addr_data a) (GMaxAddrLength - GActorTypeInBytes)
        (enc_uint GActorTypeInBytes method_actor_type);
  Ok (mk_address (addr_length a) d).

Definition get_method_actor_tid (a : address) : res Z :=
  load_unaligned_int 2 (addr_data a) (GMaxAddrLength - GActorTypeInBytes).

(** ** scope_builder *)
Module ScopeBuilder.

(** A [scope<T>]: [get_type()] is the registered type id of [T] (16 bits),
    [get_id()] the 32-bit scope id. *)
Record scope := mk_scope { get_type : Z; get_id : Z }.

Record t := mk { addr : address }.

Definition set_shard (b : t) (shard_id : Z) : res t :=
  d ← memcpy (addr_data (addr b)) 0 (enc_uint GShardIdInBytes shard_id);
  Ok (mk (mk_address (addr_length (addr b)) d)).

Definition set_length (b : t) (n : Z) : t := mk (mk_address n (addr_data (addr b))).

(** [scope_builder()] and [scope_builder(uint32_t)]; the member [addr] is
    default-initialized. *)
Definition scope_builder_shard (g : bytes) (shard_id : Z) : res t :=
  b ← set_shard (mk (address_default g)) shard_id;
  Ok (set_length b (Z.of_nat GShardIdInBytes)).
Definition scope_builder_default (g : bytes) : res t := scope_builder_shard g 0.

Fixpoint foreach_init_scope (scopes : list scope) (b : t) : res t :=
  match scopes with
  | [] => Ok b
  | s :: rest =>
      let offset := Z.to_nat (addr_length (addr b)) in
      d ← memcpy (addr_data (addr b)) offset (enc_uint GActorTypeInBytes (get_type s));
      d ← memcpy d (offset + GActorTypeInBytes) (enc_uint GActorIdInBytes (get_id s));
      foreach_init_scope rest
        (mk (mk_address (u8 (addr_length (addr b) + Z.of_nat GLocalActorAddrLength)) d))
  end.

(** [scope_builder(shard_id, scopes...)]. *)
Definition scope_builder_scopes (g : bytes) (shard_id : Z) (scopes : list scope) : res t :=
  assert (length scopes <? GMaxAddrLayer)%nat ;;
  b ← set_shard (mk (address_default g)) shard_id;
  foreach_init_scope scopes (set_length b (Z.of_nat GShardIdInBytes)).

Definition enter_sub_scope (b : t) (sub : scope) : res t :=
  assert (addr_length (addr b) + Z.of_nat GLocalActorAddrLength <? Z.of_nat GMaxAddrLength) ;;
  let len := Z.to_nat (addr_length (addr b)) in
  d ← memcpy (addr_data (addr b)) len (enc_uint GActorTypeInBytes (get_type sub));
  d ← memcpy d (len + GActorTypeInBytes) (enc_uint GActorIdInBytes (get_id sub));
  Ok (mk (mk_address (u8 (addr_length (addr b) + Z.of_nat GLocalActorAddrLength)) d)).

Definition back_to_parent_scope (b : t) : res t :=
  assert (Z.of_nat (GShardIdInBytes + GLocalActorAddrLength) <=? addr_length (addr b)) ;;
  Ok (set_length b (u8 (addr_length (addr b) - Z.of_nat GLocalActorAddrLength))).

Definition current_scope_id (b : t) : res Z :=
  assert (Z.of_nat (GShardIdInBytes + GLocalActorAddrLength) <=? addr_length (addr b)) ;;
  load_unaligned_int 4 (addr_data (addr b)) (Z.to_nat (addr_length (addr b)) - GActorIdInBytes).

(** [size_t] arithmetic. *)
Definition scope_layer_number (b : t) : Z :=
  u64 (addr_length (addr b) - Z.of_nat GShardIdInBytes) / Z.of_nat GLocalActorAddrLength.

Definition shard (b : t) : res Z := load_unaligned_int 4 (addr_data (addr b)) 0.

(** [reference_base::make_address] on a default-constructed reference whose
    [addr.data] holds [g]; [actor_type] is the reference's (signed) type id. *)
Definition make_address (g : bytes) (actor_type : Z) (src : address) (actor_id : Z) : res address :=
  s ← mem_read (addr_data src) 0 (Z.to_nat (addr_length src));
  d ← memcpy g 0 s;
  let offset := Z.to_nat (addr_length src) in
  d ← memcpy d offset (enc_uint GActorTypeInBytes actor_type);
  d ← memcpy d (offset + GActorTypeInBytes) (enc_uint GActorIdInBytes actor_id);
  Ok (mk_address (u8 (addr_length src + Z.of_nat GLocalActorAddrLength)) d).

(** [build_ref<T>(actor_id)] / [new_ref<T>(actor_id)]: the reference's address. *)
Definition build_ref (b : t) (g : bytes) (actor_type actor_id : Z) : res address :=
  make_address g actor_type (addr b) actor_id.

End ScopeBuilder.

(** ** Walking an address: what the actor groups read from it *)

(** [load_unaligned_int_partial<uint64_t>(addr.data + _total_addr_length,
    GLocalActorAddrLength)]: the key of the child in the actor map. *)
Definition child_id (a : address) (total_addr_length : Z) : res Z :=
  load_unaligned_int_partial 8 (addr_data a) (Z.to_nat total_addr_length) GLocalActorAddrLength.

(** [load_unaligned_int<uint16_t>(addr.data + _total_addr_length)]. *)
Definition child_type (a : address) (total_addr_length : Z) : res Z :=
  load_unaligned_int 2 (addr_data a) (Z.to_nat total_addr_length).

(** ** actor_base::get_scope

    [ancestors] are the [_address] cells of the actor's execution contexts, the
    immediate parent first; the root group's own cell is not among them (it is
    never initialized and never read). *)
Fixpoint get_scope_loop (i : nat) (ancestors : list bytes) (d : bytes) : res bytes :=
  match i with
  | O => Ok d
  | S i' =>
      match ancestors with
      | [] => Fault NullDeref
      | g :: up =>
          d ← memcpy d (GShardIdInBytes + i' * GLocalActorAddrLength) g;
          get_scope_loop i' up d
      end
  end.

Definition get_scope (g : bytes) (local_shard_id total_addr_length : Z) (ancestors : list bytes)
  : res ScopeBuilder.t :=
  b ← ScopeBuilder.scope_builder_shard g local_shard_id;
  let layer_num :=
    u64 (total_addr_length - Z.of_nat GShardIdInBytes - Z.of_nat GLocalActorAddrLength)
      / Z.of_nat GLocalActorAddrLength in
  d ← get_scope_loop (Z.to_nat layer_num) ancestors (addr_data (ScopeBuilder.addr b));
  Ok (ScopeBuilder.mk (mk_address (u8 (total_addr_length - Z.of_nat GLocalActorAddrLength)) d)).

(** ** The abstract view *)
Import ScopeBuilder.

Definition enc_cell (s : scope) : bytes := enc_uint 2 (get_type s) ++ enc_uint 4 (get_id s).
Definition enc_path (sh : Z) (cs : list scope) : bytes := enc_uint 4 sh ++ concat (enc_cell <$> cs).

Definition scope_ok (s : scope) : Prop := in_u 16 (get_type s) /\ in_u 32 (get_id s).

Record repr (a : address) (sh : Z) (cs : list scope) : Prop := {
  repr_size : length (addr_data a) = GMaxAddrLength;
  repr_layers : (length cs <= GMaxAddrLayer)%nat;
  repr_length : addr_length a = Z.of_nat (4 + 6 * length cs);
  repr_bytes : mem_read (addr_data a) 0 (4 + 6 * length cs) = Ok (enc_path sh cs)
}.

(** Arithmetic with the layout constants spelled out. *)
Ltac addr_consts :=
  unfold GMaxAddrLength, GMaxAddrLayer, GLocalActorAddrLength, GActorTypeInBytes,
    GActorIdInBytes, GShardIdInBytes in *.
Ltac addr_lia := addr_consts; lia.

Lemma enc_cell_length s : length (enc_cell s) = 6%nat.
Proof. unfold enc_cell. now rewrite length_app, !enc_uint_length. Qed.

Lemma enc_cells_length cs : length (concat (enc_cell <$> cs)) = (6 * length cs)%nat.
Proof.
  induction cs as [|c cs IH]; [done|]. rewrite fmap_cons. cbn [concat length].
  rewrite length_app, enc_cell_length, IH. lia.
Qed.

Lemma enc_path_snoc sh cs c : enc_path sh (cs ++ [c]) = enc_path sh cs ++ enc_cell c.
Proof.
  unfold enc_path. rewrite fmap_app, concat_app, app_assoc. f_equal.
Qed.

(** The two copies that write a cell. *)
Lemma write_cell d off t i :
  (off + 6 <= length d)%nat ->
  exists d1 d2,
    memcpy d off (enc_uint GActorTypeInBytes t) = Ok d1 /\
    memcpy d1 (off + GActorTypeInBytes) (enc_uint GActorIdInBytes i) = Ok d2 /\
    length d2 = length d /\
    mem_read d2 off 6 = Ok (enc_cell (mk_scope t i)) /\
    (forall o n, (o + n <= off \/ off + 6 <= o)%nat -> mem_read d2 o n = mem_read d o n).
Proof.
  intros Hb. addr_consts.
  destruct (memcpy_total d off (enc_uint 2 t)) as [d1 H1]; [rewrite enc_uint_length; lia|].
  pose proof (memcpy_length _ _ _ _ H1) as L1.
  destruct (memcpy_total d1 (off + 2) (enc_uint 4 i)) as [d2 H2]; [rewrite enc_uint_length; lia|].
  pose proof (memcpy_length _ _ _ _ H2) as L2.
  exists d1, d2. split_and!; [done..|lia| |].
  - apply (mem_read_app _ _ 2 4).
    + rewrite (mem_read_memcpy_ne _ _ _ _ _ _ H2) by (rewrite enc_uint_length; lia).
      apply mem_read_memcpy in H1. now rewrite enc_uint_length in H1.
    + apply mem_read_memcpy in H2. now rewrite enc_uint_length in H2.
  - intros o n Hd.
    rewrite (mem_read_memcpy_ne _ _ _ _ _ _ H2) by (rewrite enc_uint_length; lia).
    apply (mem_read_memcpy_ne _ _ _ _ _ _ H1). rewrite enc_uint_length. lia.
Qed.

(** Writing a cell right after the current end extends the path. *)
Lemma repr_push a sh cs t i :
  repr a sh cs -> (length cs < GMaxAddrLayer)%nat ->
  exists d1 d2,
    memcpy (addr_data a) (Z.to_nat (addr_length a)) (enc_uint GActorTypeInBytes t) = Ok d1 /\
    memcpy d1 (Z.to_nat (addr_length a) + GActorTypeInBytes) (enc_uint GActorIdInBytes i) = Ok d2 /\
    repr (mk_address (u8 (addr_length a + Z.of_nat GLocalActorAddrLength)) d2) sh
      (cs ++ [mk_scope t i]).
Proof.
  intros [Hs Hl Hn Hb] Hlt. rewrite Hn, Nat2Z.id.
  destruct (write_cell (addr_data a) (4 + 6 * length cs) t i) as (d1&d2&H1&H2&L&R&D).
  { addr_lia. }
  exists d1, d2. split_and!; [done..|]. constructor; cbn [addr_data addr_length].
  - now rewrite L.
  - rewrite length_app. cbn. addr_lia.
  - rewrite length_app. cbn [length]. rewrite u8_small by addr_lia. addr_lia.
  - rewrite length_app. cbn [length]. rewrite enc_path_snoc.
    replace (4 + 6 * (length cs + 1))%nat with ((4 + 6 * length cs) + 6)%nat by lia.
    apply mem_read_app; [|exact R]. rewrite D by lia. exact Hb.
Qed.

Lemma concat_fmap_snoc_read a sh cs c :
  repr a sh (cs ++ [c]) -> mem_read (addr_data a) (4 + 6 * length cs) 6 = Ok (enc_cell c).
Proof.
  intros [Hs Hl Hn Hb]. rewrite enc_path_snoc in Hb.
  apply mem_read_ok in Hb as [Hb1 Hb2]. rewrite length_app in *. cbn [length] in *.
  apply mem_read_ok. split; [lia|].
  assert (E : drop (4 + 6 * length cs) (enc_path sh cs ++ enc_cell c) = enc_cell c).
  { apply drop_app_length'. unfold enc_path. rewrite length_app, enc_uint_length, enc_cells_length. lia. }
  rewrite <-E, Hb2, drop_0, skipn_firstn_comm. f_equal. lia.
Qed.

(** Reading the cell at any layer of a path. *)
Lemma repr_read_cell a sh cs k c :
  repr a sh cs -> cs !! k = Some c ->
  mem_read (addr_data a) (4 + 6 * k) 6 = Ok (enc_cell c).
Proof.
  intros [Hs Hl Hn Hb] Hk. pose proof (lookup_lt_Some _ _ _ Hk).
  apply mem_read_ok in Hb as [Hb1 Hb2]. rewrite drop_0 in Hb2.
  apply mem_read_ok. split; [addr_lia|].
  assert (E : take 6 (drop (4 + 6 * k) (enc_path sh cs)) = enc_cell c).
  { rewrite <-(take_drop_middle _ _ _ Hk) at 1. unfold enc_path.
    rewrite fmap_app, concat_app, app_assoc. rewrite drop_app_length'.
    - rewrite fmap_cons. cbn [concat]. now rewrite take_app_length' by now rewrite enc_cell_length.
    - rewrite length_app, enc_uint_length, enc_cells_length, length_take. lia. }
  rewrite <-E, Hb2, skipn_firstn_comm, take_take. f_equal. lia.
Qed.

Lemma repr_read_shard a sh cs : repr a sh cs -> mem_read (addr_data a) 0 4 = Ok (enc_uint 4 sh).
Proof.
  intros [Hs Hl Hn Hb]. apply mem_read_ok in Hb as [Hb1 Hb2]. rewrite drop_0 in Hb2.
  apply mem_read_ok. split; [addr_lia|]. rewrite drop_0.
  assert (E : take 4 (enc_path sh cs) = enc_uint 4 sh) by (apply take_app_length'; now rewrite enc_uint_length).
  rewrite <-E, Hb2, take_take. f_equal.
Qed.

(** Overwriting the first four bytes changes the shard only. *)
Lemma repr_set_shard a sh cs sh' :
  repr a sh cs ->
  exists d, memcpy (addr_data a) 0 (enc_uint GShardIdInBytes sh') = Ok d /\
    repr (mk_address (addr_length a) d) sh' cs.
Proof.
  intros [Hs Hl Hn Hb].
  destruct (memcpy_total (addr_data a) 0 (enc_uint GShardIdInBytes sh')) as [d Hd].
  { rewrite enc_uint_length. addr_lia. }
  exists d. split; [done|]. pose proof (memcpy_length _ _ _ _ Hd) as L.
  constructor; cbn [addr_data addr_length]; [congruence|done|done|].
  apply mem_read_app.
  - apply mem_read_memcpy in Hd. now rewrite enc_uint_length in Hd.
  - rewrite (mem_read_memcpy_ne _ _ _ _ _ _ Hd) by (rewrite enc_uint_length; addr_lia).
    apply mem_read_ok in Hb as [Hb1 Hb2]. apply mem_read_ok. split; [lia|].
    rewrite drop_0 in Hb2. apply (f_equal (drop 4)) in Hb2. unfold enc_path in Hb2.
    rewrite drop_app_length' in Hb2 by now rewrite enc_uint_length.
    rewrite Hb2, skipn_firstn_comm. f_equal. lia.
Qed.

Lemma repr_shard_only g sh :
  length g = GMaxAddrLength ->
  exists d, memcpy g 0 (enc_uint GShardIdInBytes sh) = Ok d /\
    repr (mk_address (Z.of_nat GShardIdInBytes) d) sh [].
Proof.
  intros Hg. destruct (memcpy_total g 0 (enc_uint GShardIdInBytes sh)) as [d Hd].
  { rewrite enc_uint_length. addr_lia. }
  exists d. split; [done|]. pose proof (memcpy_length _ _ _ _ Hd) as L.
  constructor; cbn [addr_data addr_length length]; [congruence|lia|done|].
  apply mem_read_memcpy in Hd. rewrite enc_uint_length in Hd. unfold enc_path.
  cbn [fmap list_fmap concat]. rewrite app_nil_r. exact Hd.
Qed.

(** ** The builder refines a stack of scopes *)

(** The invariant of a [scope_builder]: a represented path that leaves one layer
    for the actor. *)
Definition builder_ok (b : t) (sh : Z) (cs : list scope) : Prop :=
  repr (addr b) sh cs /\ (length cs < GMaxAddrLayer)%nat.

Inductive op :=
  | OpEnter (s : scope)
  | OpBack
  | OpSetShard (shard_id : Z).

Definition exec_op (b : t) (o : op) : res t :=
  match o with
  | OpEnter s => enter_sub_scope b s
  | OpBack => back_to_parent_scope b
  | OpSetShard s => set_shard b s
  end.
Fixpoint exec_ops (ops : list op) (b : t) : res t :=
  match ops with
  | [] => Ok b
  | o :: ops => b ← exec_op b o; exec_ops ops b
  end.

(** The specification: a shard id and a stack of scopes of bounded height;
    [None] is a failed assertion. *)
Definition spec_op (p : Z * list scope) (o : op) : option (Z * list scope) :=
  match o with
  | OpEnter s => if decide (length p.2 < GMaxAddrLayer - 1)%nat then Some (p.1, p.2 ++ [s]) else None
  | OpBack => if decide (p.2 = []) then None else Some (p.1, removelast p.2)
  | OpSetShard s => Some (s, p.2)
  end.
Fixpoint spec_ops (ops : list op) (p : Z * list scope) : option (Z * list scope) :=
  match ops with
  | [] => Some p
  | o :: ops => p ← spec_op p o; spec_ops ops p
  end.
Definition spec_init (sh : Z) (ss : list scope) : option (Z * list scope) :=
  if decide (length ss < GMaxAddrLayer)%nat then Some (sh, ss) else None.

Definition refines (c : res t) (s : option (Z * list scope)) : Prop :=
  match s with
  | Some (sh, cs) => exists b, c = Ok b /\ builder_ok b sh cs
  | None => c = Fault AssertFail
  end.

Lemma enter_refines b sh cs s :
  builder_ok b sh cs -> refines (enter_sub_scope b s) (spec_op (sh, cs) (OpEnter s)).
Proof.
  intros [Hr Hl]. cbn. unfold enter_sub_scope, assert. rewrite (repr_length _ _ _ Hr).
  case_decide as H; cbn in H.
  - rewrite (proj2 (Z.ltb_lt _ _)) by addr_lia. cbn [mbind res_bind].
    destruct s as [ty id]. rewrite <-(repr_length _ _ _ Hr).
    destruct (repr_push _ _ _ ty id Hr Hl) as (d1&d2&H1&H2&R). cbn [get_type get_id].
    rewrite H1. cbn [mbind res_bind]. rewrite H2. cbn [mbind res_bind].
    eexists. split; [reflexivity|]. split; [exact R|]. rewrite length_app. cbn. addr_lia.
  - rewrite (proj2 (Z.ltb_ge _ _)) by addr_lia. reflexivity.
Qed.

Lemma repr_pop a sh cs c :
  repr a sh (cs ++ [c]) ->
  repr (mk_address (u8 (addr_length a - Z.of_nat GLocalActorAddrLength)) (addr_data a)) sh cs.
Proof.
  intros [Hs Hl Hn Hb]. rewrite length_app in *. cbn [length] in *.
  constructor; cbn [addr_data addr_length]; [done|addr_lia| |].
  - rewrite u8_small by addr_lia. addr_lia.
  - rewrite enc_path_snoc in Hb. apply mem_read_ok in Hb as [Hb1 Hb2].
    apply mem_read_ok. split; [lia|]. rewrite drop_0 in *.
    apply (f_equal (take (4 + 6 * length cs))) in Hb2.
    rewrite take_app_length' in Hb2.
    + rewrite Hb2, take_take. f_equal. lia.
    + unfold enc_path. rewrite length_app, enc_uint_length, enc_cells_length. lia.
Qed.

Lemma back_refines b sh cs :
  builder_ok b sh cs -> refines (back_to_parent_scope b) (spec_op (sh, cs) OpBack).
Proof.
  intros [Hr Hl]. cbn. unfold back_to_parent_scope, assert. rewrite (repr_length _ _ _ Hr).
  destruct cs as [|c cs _] using rev_ind.
  - rewrite decide_True by done. reflexivity.
  - rewrite decide_False by (intros E; now apply app_nil in E).
    rewrite removelast_last. rewrite length_app in *. cbn [length] in *.
    rewrite (proj2 (Z.leb_le _ _)) by addr_lia. cbn [mbind res_bind].
    eexists. split; [reflexivity|]. split; [|addr_lia].
    apply repr_pop in Hr as Hr'. rewrite (repr_length _ _ _ Hr) in Hr'.
    unfold set_length. cbn [addr]. rewrite length_app in Hr'. exact Hr'.
Qed.

Lemma set_shard_refines b sh cs s :
  builder_ok b sh cs -> refines (set_shard b s) (spec_op (sh, cs) (OpSetShard s)).
Proof.
  intros [Hr Hl]. cbn. unfold set_shard.
  destruct (repr_set_shard _ _ _ s Hr) as (d & Hd & R). rewrite Hd. cbn [mbind res_bind].
  eexists. split; [reflexivity|]. now split.
Qed.

Lemma op_refines b sh cs o :
  builder_ok b sh cs -> refines (exec_op b o) (spec_op (sh, cs) o).
Proof.
  destruct o; [apply enter_refines|apply back_refines|apply set_shard_refines].
Qed.

Lemma ops_refine ops b sh cs :
  builder_ok b sh cs -> refines (exec_ops ops b) (spec_ops ops (sh, cs)).
Proof.
  revert b sh cs. induction ops as [|o ops IH]; intros b sh cs Hb.
  - exists b. now split.
  - cbn [exec_ops spec_ops]. pose proof (op_refines b sh cs o Hb) as H.
    destruct (spec_op (sh, cs) o) as [[sh' cs']|].
    + destruct H as (b' & -> & Hb'). apply IH, Hb'.
    + rewrite H. reflexivity.
Qed.

Lemma foreach_init_scope_ok ss b sh cs :
  repr (addr b) sh cs -> (length cs + length ss < GMaxAddrLayer)%nat ->
  exists b', foreach_init_scope ss b = Ok b' /\ builder_ok b' sh (cs ++ ss).
Proof.
  revert b cs. induction ss as [|[ty id] ss IH]; intros b cs Hr Hl; cbn [length] in Hl.
  - exists b. rewrite app_nil_r. split; [done|]. split; [done|]. addr_lia.
  - cbn [foreach_init_scope]. destruct (repr_push _ _ _ ty id Hr) as (d1&d2&H1&H2&R); [lia|].
    cbn [get_type get_id]. rewrite H1. cbn [mbind res_bind]. rewrite H2. cbn [mbind res_bind].
    destruct (IH (mk (mk_address (u8 (addr_length (addr b) + Z.of_nat GLocalActorAddrLength)) d2))
                 (cs ++ [mk_scope ty id])) as (b' & -> & Hb').
    + exact R.
    + rewrite length_app. cbn. lia.
    + exists b'. rewrite <-app_assoc in Hb'. now split.
Qed.

Lemma init_refines g sh ss :
  length g = GMaxAddrLength -> refines (scope_builder_scopes g sh ss) (spec_init sh ss).
Proof.
  intros Hg. unfold scope_builder_scopes, spec_init, assert.
  case_decide as H; [|rewrite (proj2 (Nat.ltb_ge _ _)) by lia; done].
  rewrite (proj2 (Nat.ltb_lt _ _)) by lia. cbn [mbind res_bind]. unfold set_shard. cbn [addr_data addr address_default].
  destruct (repr_shard_only g sh Hg) as (d & Hd & R). rewrite Hd. cbn [mbind res_bind].
  destruct (foreach_init_scope_ok ss (mk (mk_address (Z.of_nat GShardIdInBytes) d)) sh []) as (b & Hb & Hok);
    [exact R|exact H|].
  exists b. split; [exact Hb|exact Hok].
Qed.

Lemma load_of_read n p off bs :
  mem_read p off n = Ok bs -> load_unaligned_int n p off = Ok (dec_uint bs).
Proof. intros H. unfold load_unaligned_int. now rewrite H. Qed.

Lemma repr_get_shard a sh cs : repr a sh cs -> get_shard_id a = Ok (u32 sh).
Proof.
  intros Hr. unfold get_shard_id. rewrite (load_of_read _ _ _ _ (repr_read_shard _ _ _ Hr)).
  now rewrite dec_enc_uint.
Qed.

(** The two halves of a cell. *)
Lemma read_cell_halves p off c :
  mem_read p off 6 = Ok (enc_cell c) ->
  mem_read p off 2 = Ok (enc_uint 2 (get_type c)) /\
  mem_read p (off + 2) 4 = Ok (enc_uint 4 (get_id c)).
Proof.
  rewrite !mem_read_ok. unfold enc_cell. intros [Hl E]. split; (split; [lia|]).
  - apply (f_equal (take 2)) in E. rewrite take_app_length', take_take in E by now rewrite enc_uint_length.
    exact E.
  - apply (f_equal (drop 2)) in E.
    rewrite drop_app_length', skipn_firstn_comm, drop_drop in E by now rewrite enc_uint_length.
    exact E.
Qed.

(** The 8-byte key of a cell in the actor maps. *)
Definition cell_key (c : scope) : Z := get_type c + 65536 * get_id c.

Lemma dec_enc_cell c : scope_ok c -> dec_uint (enc_cell c) = cell_key c.
Proof.
  intros [Ht Hi]. unfold enc_cell. rewrite dec_uint_app, enc_uint_length.
  rewrite !dec_enc_uint_small by assumption. unfold cell_key. lia.
Qed.

Lemma cell_key_inj c1 c2 : scope_ok c1 -> scope_ok c2 -> cell_key c1 = cell_key c2 -> c1 = c2.
Proof.
  intros [T1 I1] [T2 I2]. unfold cell_key, in_u in *. intros E.
  destruct c1, c2; cbn [get_type get_id] in *. f_equal; lia.
Qed.

Lemma repr_child a sh cs k c :
  repr a sh cs -> cs !! k = Some c -> scope_ok c ->
  child_id a (Z.of_nat (4 + 6 * k)) = Ok (cell_key c) /\
  child_type a (Z.of_nat (4 + 6 * k)) = Ok (get_type c).
Proof.
  intros Hr Hk Hok. pose proof (repr_read_cell _ _ _ _ _ Hr Hk) as Hc.
  unfold child_id, child_type. rewrite !Nat2Z.id. split.
  - rewrite (load_partial_ok _ _ _ _ (enc_cell c)) by (addr_lia || exact Hc).
    now rewrite dec_enc_cell.
  - rewrite (load_of_read _ _ _ _ (proj1 (read_cell_halves _ _ _ Hc))).
    now rewrite dec_enc_uint_small by apply Hok.
Qed.

Lemma enc_cells_inj cs1 cs2 :
  Forall scope_ok cs1 -> Forall scope_ok cs2 ->
  concat (enc_cell <$> cs1) = concat (enc_cell <$> cs2) -> cs1 = cs2.
Proof.
  intros H1. revert cs2. induction H1 as [|c1 cs1 Hc1 H1 IH]; intros [|c2 cs2] H2 E.
  - done.
  - apply (f_equal length) in E. rewrite !enc_cells_length in E. cbn [length] in E. lia.
  - apply (f_equal length) in E. rewrite !enc_cells_length in E. cbn [length] in E. lia.
  - rewrite !fmap_cons in E. cbn [concat] in E. apply Forall_cons in H2 as [Hc2 H2].
    apply app_inj_1 in E as [E1 E2]; [|now rewrite !enc_cell_length].
    apply (f_equal dec_uint) in E1. rewrite !dec_enc_cell in E1 by done.
    rewrite (cell_key_inj _ _ Hc1 Hc2 E1), (IH _ H2 E2). done.
Qed.

(** ** Properties *)

(** C29: Whatever bytes the builder's storage held, constructing a
    [scope_builder] with a list of scopes and applying any sequence of
    [enter_sub_scope], [back_to_parent_scope] and [set_shard] behaves as a stack
    of at most seven scopes with a shard id: the bytes always encode the stack,
    every write stays inside the 52-byte array, and the run stops exactly at the
    first operation the assertions of the code refuse. *)
Theorem scope_builder_refines (g : bytes) (sh : Z) (ss : list scope) (ops : list op) :
  length g = GMaxAddrLength ->
  refines (scope_builder_scopes g sh ss ≫= exec_ops ops) (spec_init sh ss ≫= spec_ops ops).
Proof.
  intros Hg. pose proof (init_refines g sh ss Hg) as H. unfold refines in H.
  destruct (spec_init sh ss) as [[sh' cs']|]; cbn [mbind option_bind].
  - destruct H as (b & -> & Hb). cbn [mbind res_bind]. apply ops_refine, Hb.
  - rewrite H. reflexivity.
Qed.

Definition ex_garbage : bytes := replicate 52 Byte.xff.
Definition ex_group1 : scope := mk_scope 61440 1.
Definition ex_group2 : scope := mk_scope 61440 2.

Lemma scope_builder_refines_witness :
  length ex_garbage = GMaxAddrLength /\
  refines (scope_builder_scopes ex_garbage 7 [ex_group1] ≫= exec_ops [OpEnter ex_group2; OpBack; OpSetShard 3])
          (Some (3, [ex_group1])).
Proof.
  split; [reflexivity|].
  exact (scope_builder_refines ex_garbage 7 [ex_group1] [OpEnter ex_group2; OpBack; OpSetShard 3] eq_refl).
Defined.

(** The observers of a [scope_builder] read the stack back: [shard()] is the
    32-bit shard id, [scope_layer_number()] the height of the stack, and
    [current_scope_id()] the id of the innermost scope, a failed assertion when
    there is none. *)
Theorem builder_observers (b : t) (sh : Z) (cs : list scope) :
  builder_ok b sh cs ->
  shard b = Ok (u32 sh) /\
  scope_layer_number b = Z.of_nat (length cs) /\
  current_scope_id b =
    match last cs with Some c => Ok (u32 (get_id c)) | None => Fault AssertFail end.
Proof.
  intros [Hr Hl]. split_and!.
  - exact (repr_get_shard _ _ _ Hr).
  - unfold scope_layer_number. rewrite (repr_length _ _ _ Hr).
    rewrite wrap_small by (unfold in_u; addr_lia). addr_consts.
    replace (Z.of_nat (4 + 6 * length cs) - Z.of_nat 4) with (Z.of_nat (length cs) * 6) by lia.
    apply Z.div_mul. lia.
  - unfold current_scope_id, assert. rewrite (repr_length _ _ _ Hr).
    destruct cs as [|c cs _] using rev_ind; [reflexivity|].
    rewrite last_snoc, length_app. cbn [length].
    rewrite (proj2 (Z.leb_le _ _)) by addr_lia. cbn [mbind res_bind].
    pose proof (concat_fmap_snoc_read _ _ _ _ Hr) as Hc.
    apply read_cell_halves in Hc as [_ Hc]. rewrite Nat2Z.id. addr_consts.
    replace (4 + 6 * (length cs + 1) - 4)%nat with (4 + 6 * length cs + 2)%nat by lia.
    rewrite (load_of_read _ _ _ _ Hc). now rewrite dec_enc_uint.
Qed.

Definition ex_builder : t :=
  mk (mk_address 16 (enc_path 3 [ex_group1; ex_group2] ++ replicate 36 Byte.xff)).

Lemma ex_builder_ok : builder_ok ex_builder 3 [ex_group1; ex_group2].
Proof. split; [constructor; (reflexivity || cbn; addr_lia) | cbn; addr_lia]. Qed.

Lemma builder_observers_witness :
  builder_ok ex_builder 3 [ex_group1; ex_group2] /\
  shard ex_builder = Ok (u32 3) /\ scope_layer_number ex_builder = 2 /\
  current_scope_id ex_builder = Ok (u32 2).
Proof.
  split; [exact ex_builder_ok|].
  exact (builder_observers ex_builder 3 [ex_group1; ex_group2] ex_builder_ok).
Defined.

(** [build_ref]/[new_ref] never write outside the reference's address array:
    from a builder at shard [sh] and scopes [cs] the reference's address is [sh],
    the scopes [cs], then the actor's cell, whatever the array held before. *)
Theorem build_ref_address (b : t) (g : bytes) (sh : Z) (cs : list scope) (actor_type actor_id : Z) :
  builder_ok b sh cs -> length g = GMaxAddrLength ->
  exists a, build_ref b g actor_type actor_id = Ok a /\
    repr a sh (cs ++ [mk_scope actor_type actor_id]) /\ get_shard_id a = Ok (u32 sh).
Proof.
  intros [Hr Hl] Hg. unfold build_ref, make_address.
  rewrite (repr_length _ _ _ Hr), Nat2Z.id, (repr_bytes _ _ _ Hr). cbn [mbind res_bind].
  pose proof (mem_read_length _ _ _ _ (repr_bytes _ _ _ Hr)) as Hlen.
  destruct (memcpy_total g 0 (enc_path sh cs)) as [d Hd]; [rewrite Hlen; addr_lia|].
  rewrite Hd. cbn [mbind res_bind]. pose proof (memcpy_length _ _ _ _ Hd) as L.
  assert (Hr' : repr (mk_address (Z.of_nat (4 + 6 * length cs)) d) sh cs).
  { constructor; cbn [addr_data addr_length]; [congruence|addr_lia|done|].
    apply mem_read_memcpy in Hd. now rewrite Hlen in Hd. }
  destruct (repr_push _ _ _ actor_type actor_id Hr' Hl) as (d1&d2&H1&H2&R).
  cbn [addr_data addr_length] in *. rewrite Nat2Z.id in *. rewrite H1. cbn [mbind res_bind].
  rewrite H2. cbn [mbind res_bind]. eexists. split_and!; [reflexivity|exact R|].
  exact (repr_get_shard _ _ _ R).
Qed.

Lemma build_ref_address_witness :
  builder_ok ex_builder 3 [ex_group1; ex_group2] /\
  exists a, build_ref ex_builder ex_garbage 5 10 = Ok a /\
    repr a 3 [ex_group1; ex_group2; mk_scope 5 10] /\ get_shard_id a = Ok (u32 3).
Proof.
  split; [exact ex_builder_ok|].
  exact (build_ref_address ex_builder ex_garbage 3 [ex_group1; ex_group2] 5 10 ex_builder_ok eq_refl).
Defined.

(** Addresses are unique: two addresses whose first [length] bytes agree
    denote the same shard and the same sequence of cells (ids in range). *)
Theorem address_unique (a1 a2 : address) (sh1 sh2 : Z) (cs1 cs2 : list scope) :
  repr a1 sh1 cs1 -> repr a2 sh2 cs2 ->
  in_u 32 sh1 -> in_u 32 sh2 -> Forall scope_ok cs1 -> Forall scope_ok cs2 ->
  mem_read (addr_data a1) 0 (Z.to_nat (addr_length a1)) =
  mem_read (addr_data a2) 0 (Z.to_nat (addr_length a2)) ->
  sh1 = sh2 /\ cs1 = cs2.
Proof.
  intros R1 R2 S1 S2 C1 C2 E.
  rewrite (repr_length _ _ _ R1), (repr_length _ _ _ R2), !Nat2Z.id in E.
  rewrite (repr_bytes _ _ _ R1), (repr_bytes _ _ _ R2) in E. apply Ok_inj in E.
  unfold enc_path in E. apply app_inj_1 in E as [E1 E2]; [|now rewrite !enc_uint_length].
  split; [now apply (enc_uint_inj 4)|now apply enc_cells_inj].
Qed.

Definition ex_addr (sh : Z) (cs : list scope) : address :=
  mk_address (Z.of_nat (4 + 6 * length cs))
    (enc_path sh cs ++ replicate (52 - (4 + 6 * length cs)) Byte.x00).

Lemma address_unique_witness :
  let cs := [ex_group1; mk_scope 5 10] in
  (repr (ex_addr 3 cs) 3 cs /\ in_u 32 3 /\ Forall scope_ok cs) /\ (3 = 3 /\ cs = cs).
Proof.
  intros cs.
  assert (R : repr (ex_addr 3 cs) 3 cs) by (constructor; (reflexivity || cbn; addr_lia)).
  assert (S : in_u 32 3) by (unfold in_u; lia).
  assert (F : Forall scope_ok cs).
  { repeat (apply Forall_cons; split); [..|done]; split; unfold in_u; cbn [get_type get_id ex_group1]; lia. }
  split; [now split_and!|].
  exact (address_unique (ex_addr 3 cs) (ex_addr 3 cs) 3 3 cs cs R R S S F F eq_refl).
Defined.

(** Routing reads the right cell: at the layer of a group with
    [_total_addr_length = 4 + 6k], the key the group looks up in its actor map and
    the type it creates a missing child with are those of the [k]-th cell, and
    different cells have different keys. *)
Theorem route_reads_cell (a : address) (sh : Z) (cs : list scope) (k : nat) (c : scope) :
  repr a sh cs -> cs !! k = Some c -> scope_ok c ->
  child_id a (Z.of_nat (4 + 6 * k)) = Ok (cell_key c) /\
  child_type a (Z.of_nat (4 + 6 * k)) = Ok (get_type c) /\
  (forall c', scope_ok c' -> cell_key c' = cell_key c -> c' = c).
Proof.
  intros Hr Hk Hok. destruct (repr_child _ _ _ _ _ Hr Hk Hok). split_and!; [done..|].
  intros c' Hc' E. now apply cell_key_inj.
Qed.

Lemma route_reads_cell_witness :
  let cs := [ex_group1; mk_scope 5 10] in
  repr (ex_addr 3 cs) 3 cs /\ child_id (ex_addr 3 cs) (Z.of_nat (4 + 6 * 1)) = Ok (5 + 65536 * 10).
Proof.
  intros cs.
  assert (R : repr (ex_addr 3 cs) 3 cs) by (constructor; (reflexivity || cbn; addr_lia)).
  split; [exact R|].
  refine (proj1 (route_reads_cell (ex_addr 3 cs) 3 cs 1 (mk_scope 5 10) R eq_refl _)).
  split; unfold in_u; cbn [get_type get_id]; lia.
Defined.

(** [set_method_actor_tid] stores the method's type in the last two bytes of
    the array and [get_method_actor_tid] returns it.  Up to seven layers this
    leaves the address intact; with eight layers, which [build_ref] accepts, those
    bytes are the upper half of the actor id, which is overwritten: the message is
    routed to another actor. *)
Theorem method_tid_overlaps_layer8 (a : address) (sh : Z) (cs : list scope) (tid : Z) :
  repr a sh cs ->
  exists a', set_method_actor_tid a tid = Ok a' /\
    get_method_actor_tid a' = Ok (u16 tid) /\
    ((length cs < GMaxAddrLayer)%nat -> repr a' sh cs) /\
    (forall cs0 c, cs = cs0 ++ [c] -> scope_ok c -> in_u 16 tid -> length cs = GMaxAddrLayer ->
       child_id a' (Z.of_nat (4 + 6 * length cs0)) =
         Ok (cell_key (mk_scope (get_type c) (get_id c mod 65536 + 65536 * tid)))).
Proof.
  intros Hr. pose proof Hr as [Hs Hl Hn Hb].
  destruct (memcpy_total (addr_data a) (GMaxAddrLength - GActorTypeInBytes)
              (enc_uint GActorTypeInBytes tid)) as [d Hd].
  { rewrite enc_uint_length. addr_lia. }
  pose proof (memcpy_length _ _ _ _ Hd) as L.
  exists (mk_address (addr_length a) d). split_and!.
  - unfold set_method_actor_tid. rewrite Hd. reflexivity.
  - unfold get_method_actor_tid. cbn [addr_data].
    apply (load_store_unaligned_int 2) in Hd. exact Hd.
  - intros Hlt. constructor; cbn [addr_data addr_length]; [congruence|done|done|].
    rewrite (mem_read_memcpy_ne _ _ _ _ _ _ Hd) by addr_lia. exact Hb.
  - intros cs0 c -> Hc Ht H8. rewrite length_app in *. cbn [length] in *.
    destruct (read_cell_halves _ _ _ (concat_fmap_snoc_read _ _ _ _ Hr)) as [H1 H2].
    set (off := (4 + 6 * length cs0)%nat) in *.
    assert (Eoff : off = 46%nat) by (unfold off; addr_lia).
    assert (Hid : mem_read d (off + 2) 4 = Ok (enc_uint 2 (get_id c) ++ enc_uint 2 tid)).
    { apply (mem_read_app _ _ 2 2).
      - rewrite (mem_read_memcpy_ne _ _ _ _ _ _ Hd) by (rewrite enc_uint_length; addr_lia).
        rewrite mem_read_ok in H2 |- *. destruct H2 as [B2 E2]. split; [addr_lia|].
        apply (f_equal (take 2)) in E2. rewrite take_take in E2. cbn [Nat.min] in E2.
        rewrite <-E2. reflexivity.
      - apply mem_read_memcpy in Hd. rewrite enc_uint_length in Hd. rewrite Eoff. exact Hd. }
    assert (Hty : mem_read d off 2 = Ok (enc_uint 2 (get_type c))).
    { rewrite (mem_read_memcpy_ne _ _ _ _ _ _ Hd) by (rewrite ?enc_uint_length; addr_lia). exact H1. }
    pose proof (mem_read_app _ _ _ _ _ _ Hty Hid) as Hcell.
    unfold child_id. rewrite Nat2Z.id. cbn [addr_data].
    rewrite (load_partial_ok _ _ _ _ (enc_uint 2 (get_type c) ++ enc_uint 2 (get_id c) ++ enc_uint 2 tid))
      by (addr_lia || exact Hcell).
    f_equal. rewrite !dec_uint_app, !enc_uint_length, !dec_enc_uint. unfold cell_key, wrap.
    cbn [get_type get_id]. destruct Hc as [Hty1 Hid1]. unfold in_u in *.
    change (2 ^ (8 * Z.of_nat 2)) with 65536. change (2 ^ 16) with 65536 in *.
    rewrite (Z.mod_small (get_type c)), (Z.mod_small tid) by lia. lia.
Qed.

Definition ex_deep : list scope :=
  [ex_group1; ex_group1; ex_group1; ex_group1; ex_group1; ex_group1; ex_group1; mk_scope 5 65546].

Lemma method_tid_overlaps_layer8_witness :
  repr (ex_addr 0 ex_deep) 0 ex_deep /\
  exists a', set_method_actor_tid (ex_addr 0 ex_deep) 5 = Ok a' /\
    child_id a' 46 = Ok (cell_key (mk_scope 5 (10 + 65536 * 5))).
Proof.
  assert (R : repr (ex_addr 0 ex_deep) 0 ex_deep) by (constructor; (reflexivity || cbn; addr_lia)).
  split; [exact R|].
  destruct (method_tid_overlaps_layer8 (ex_addr 0 ex_deep) 0 ex_deep 5 R) as (a' & H1 & _ & _ & H4).
  exists a'. split; [exact H1|].
  refine (H4 (take 7 ex_deep) (mk_scope 5 65546) eq_refl _ _ eq_refl);
    [split|]; unfold in_u; cbn [get_type get_id]; lia.
Defined.

Lemma get_scope_loop_ok cs d :
  (4 + 6 * length cs <= length d)%nat ->
  exists d', get_scope_loop (length cs) (rev (enc_cell <$> cs)) d = Ok d' /\
    length d' = length d /\
    mem_read d' 4 (6 * length cs) = Ok (concat (enc_cell <$> cs)) /\
    (forall o n, (o + n <= 4 \/ 4 + 6 * length cs <= o)%nat -> mem_read d' o n = mem_read d o n).
Proof.
  revert d. induction cs as [|c cs IH] using rev_ind; intros d Hd.
  - exists d. split_and!; try done. apply mem_read_ok. split; [cbn in *; lia|done].
  - rewrite fmap_app, length_app in *. cbn [fmap list_fmap length] in *.
    rewrite rev_app_distr. cbn [rev app].
    replace (length cs + 1)%nat with (S (length cs)) in * by lia. cbn [get_scope_loop].
    destruct (memcpy_total d (GShardIdInBytes + length cs * GLocalActorAddrLength) (enc_cell c))
      as [d1 H1]; [rewrite enc_cell_length; addr_lia|].
    rewrite H1. cbn [mbind res_bind]. pose proof (memcpy_length _ _ _ _ H1) as L1.
    destruct (IH d1) as (d' & E & L & R & D); [lia|].
    exists d'. split_and!; [exact E|lia| |].
    + replace (6 * S (length cs))%nat with (6 * length cs + 6)%nat by lia.
      rewrite concat_app. apply mem_read_app; [exact R|]. cbn [concat]. rewrite app_nil_r.
      rewrite D by lia. apply mem_read_memcpy in H1. rewrite enc_cell_length in H1.
      replace (4 + 6 * length cs)%nat with (GShardIdInBytes + length cs * GLocalActorAddrLength)%nat by addr_lia.
      exact H1.
    + intros o n Ho. rewrite D by lia.
      apply (mem_read_memcpy_ne _ _ _ _ _ _ H1). rewrite enc_cell_length. addr_lia.
Qed.

(** [get_scope] of an actor below the groups [cs] (its ancestors' cells, read
    parent first) is a builder for exactly the scopes [cs], whose shard id is the
    one passed in; the code passes [local_shard_id()], the shard's index within its
    machine, where an address holds the global shard id. *)
Theorem get_scope_path (g : bytes) (local_shard_id : Z) (cs : list scope) :
  length g = GMaxAddrLength -> (length cs < GMaxAddrLayer)%nat ->
  exists b,
    get_scope g local_shard_id (Z.of_nat (4 + 6 * (length cs + 1))) (rev (enc_cell <$> cs)) = Ok b /\
    builder_ok b local_shard_id cs.
Proof.
  intros Hg Hl. unfold get_scope, scope_builder_shard, set_shard. cbn [addr_data addr address_default].
  destruct (repr_shard_only g local_shard_id Hg) as (d & Hd & R). rewrite Hd.
  cbn [mbind res_bind addr_data addr set_length].
  replace (u64 (Z.of_nat (4 + 6 * (length cs + 1)) - Z.of_nat GShardIdInBytes -
             Z.of_nat GLocalActorAddrLength) / Z.of_nat GLocalActorAddrLength)
    with (Z.of_nat (length cs)).
  2:{ rewrite wrap_small by (unfold in_u; addr_lia). addr_consts.
      replace (Z.of_nat (4 + 6 * (length cs + 1)) - Z.of_nat 4 - Z.of_nat (2 + 4))
        with (Z.of_nat (length cs) * 6) by lia. symmetry. apply Z.div_mul. lia. }
  rewrite Nat2Z.id. pose proof (memcpy_length _ _ _ _ Hd) as L.
  destruct (get_scope_loop_ok cs d) as (d' & E & L' & R' & D); [addr_lia|].
  rewrite E. cbn [mbind res_bind]. eexists. split; [reflexivity|]. split; [|exact Hl].
  constructor; cbn [addr_data addr_length addr].
  - congruence.
  - addr_lia.
  - rewrite u8_small by addr_lia. addr_lia.
  - apply mem_read_app; [|exact R']. rewrite D by lia. exact (repr_read_shard _ _ _ R).
Qed.

Lemma get_scope_path_witness :
  length ex_garbage = GMaxAddrLength /\
  exists b, get_scope ex_garbage 1 16 [enc_cell ex_group1] = Ok b /\ builder_ok b 1 [ex_group1].
Proof.
  split; [reflexivity|].
  refine (get_scope_path ex_garbage 1 [ex_group1] eq_refl _). cbn. addr_lia.
Defined.
