(* ===== verification/PromiseManager.v ===== *)
(** * The promise table

    [pr_manager] (src/include/hiactor/core/promise_manager.hh): a growing table of
    promises, indexed by the 32-bit id that travels in a request message, with the
    released entries chained through [next_avl] from [available]; entry 0 is
    reserved, id 0 means "no response expected" and ends the chain.

    The promise itself is Seastar's: its type and operations are parameters. *)
From S2P Require Import Prelude.

Section PrManager.
Set Default Proof Using "Type".
Context {P V Ex : Type}.
(** [seastar::promise<T>{}], [promise::set_value], [promise::set_exception]. *)
Variable new_promise : P.
Variable promise_set_value : P -> V -> P.
Variable promise_set_exception : P -> Ex -> P.
(** [value_type{}] *)
Variable default_value : V.

Record node := mk_node { pr : P; next_avl : Z; active : bool }.

Definition node_new : node := mk_node new_promise 0 true.
Definition occupy (n : node) : node := mk_node new_promise (next_avl n) true.
Definition release (n : node) : node := mk_node (pr n) (next_avl n) false.
Definition set_next (n : node) (a : Z) : node := mk_node (pr n) a (active n).
Definition set_pr (n : node) (p : P) : node := mk_node p (next_avl n) (active n).

Record pr_manager := mk_pr_manager { pr_array : list node; available : Z }.

(** The constructor; [reserve] only affects capacity. *)
Definition pr_manager_new : pr_manager :=
  mk_pr_manager [release (set_pr node_new (promise_set_value new_promise default_value))] 0.

(** [pr_array[pr_id]] of a [std::vector]: out of range is undefined. *)
Definition at_id (m : pr_manager) (pr_id : Z) : res node :=
  of_option OutOfBounds (pr_array m !! Z.to_nat pr_id).

Definition acquire_pr (m : pr_manager) : res (Z * pr_manager) :=
  if available m =? 0 then
    let arr := pr_array m ++ [node_new] in
    Ok (u32 (Z.of_nat (length arr) - 1), mk_pr_manager arr (available m))
  else
    let pr_id := available m in
    n ← at_id m pr_id;
    Ok (pr_id, mk_pr_manager (<[Z.to_nat pr_id := occupy n]> (pr_array m)) (next_avl n)).

Definition remove_pr (m : pr_manager) (pr_id : Z) : res pr_manager :=
  n ← at_id m pr_id;
  Ok (mk_pr_manager (<[Z.to_nat pr_id := set_next (release n) (available m)]> (pr_array m)) pr_id).

Definition pr_size (m : pr_manager) : Z := Z.of_nat (length (pr_array m)).

Definition is_active (m : pr_manager) (pr_id : Z) : res bool :=
  n ← at_id m pr_id; Ok (active n).

(** The promise whose future [get_future] returns. *)
Definition get_future (m : pr_manager) (pr_id : Z) : res P :=
  n ← at_id m pr_id; Ok (pr n).

Definition set_value (m : pr_manager) (pr_id : Z) (v : V) : res pr_manager :=
  n ← at_id m pr_id;
  Ok (mk_pr_manager (<[Z.to_nat pr_id := set_pr n (promise_set_value (pr n) v)]> (pr_array m))
        (available m)).

Definition set_exception (m : pr_manager) (pr_id : Z) (ex : Ex) : res pr_manager :=
  n ← at_id m pr_id;
  Ok (mk_pr_manager (<[Z.to_nat pr_id := set_pr n (promise_set_exception (pr n) ex)]> (pr_array m))
        (available m)).

(** ** The free list *)

Fixpoint chain (arr : list node) (start : Z) (fl : list nat) : Prop :=
  match fl with
  | [] => start = 0
  | i :: fl => start = Z.of_nat i /\ i <> O /\
      exists n, arr !! i = Some n /\ active n = false /\ chain arr (next_avl n) fl
  end.

(** An id with a request outstanding. *)
Definition live (m : pr_manager) (id : nat) : bool :=
  match pr_array m !! id with Some n => active n | None => false end.

(** Well-formed table: the chain from [available] visits every released entry
    except the reserved one, once, and nothing else. *)
Record wf_with (m : pr_manager) (fl : list nat) : Prop := {
  wf_chain : chain (pr_array m) (available m) fl;
  wf_nodup : NoDup fl;
  wf_free : forall i n, pr_array m !! i = Some n -> active n = false -> i = O \/ i ∈ fl;
  wf_zero : exists n, pr_array m !! O = Some n /\ active n = false;
  wf_size : pr_size m <= 2 ^ 32
}.
Definition wf (m : pr_manager) : Prop := exists fl, wf_with m fl.

Lemma chain_lookup arr s fl i :
  chain arr s fl -> i ∈ fl -> i <> O /\ exists n, arr !! i = Some n /\ active n = false.
Proof.
  revert s. induction fl as [|j fl IH]; intros s H Hi; [now apply not_elem_of_nil in Hi|].
  cbn in H. destruct H as (-> & Hj & n & Hn & Ha & Hc).
  apply elem_of_cons in Hi as [->|Hi]; eauto.
Qed.

Lemma chain_insert arr s fl i n : i ∉ fl -> chain arr s fl -> chain (<[i:=n]> arr) s fl.
Proof.
  revert s. induction fl as [|j fl IH]; intros s Hi H; [done|].
  cbn in *. apply not_elem_of_cons in Hi as [Hij Hi].
  destruct H as (-> & Hj & n' & Hn & Ha & Hc). split_and!; [done..|].
  exists n'. rewrite list_lookup_insert_ne by congruence. auto.
Qed.

Lemma chain_app arr arr' s fl : chain arr s fl -> chain (arr ++ arr') s fl.
Proof.
  revert s. induction fl as [|j fl IH]; intros s H; [done|].
  cbn in *. destruct H as (-> & Hj & n' & Hn & Ha & Hc). split_and!; [done..|].
  exists n'. rewrite lookup_app_l by (eapply lookup_lt_Some; eassumption). auto.
Qed.

Lemma at_id_ok m i n : pr_array m !! i = Some n -> at_id m (Z.of_nat i) = Ok n.
Proof. intros H. unfold at_id. now rewrite Nat2Z.id, H. Qed.

Lemma wf_new : wf_with pr_manager_new [].
Proof.
  constructor; cbn; [done|constructor| |eauto|].
  - intros [|[|i]] n H; [auto|discriminate..].
  - unfold pr_size. cbn. lia.
Qed.

(** The two branches of [acquire_pr]. *)
Lemma acquire_reuse m i fl :
  wf_with m (i :: fl) ->
  exists n, pr_array m !! i = Some n /\ active n = false /\
    let m' := mk_pr_manager (<[i := occupy n]> (pr_array m)) (next_avl n) in
    acquire_pr m = Ok (Z.of_nat i, m') /\ wf_with m' fl.
Proof.
  intros [Hc Hd Hf Hz Hs]. cbn in Hc. destruct Hc as (Hav & Hi & n & Hn & Ha & Hc).
  apply NoDup_cons in Hd as [Hni Hd]. exists n. split; [done|]. split; [done|].
  cbn zeta. split.
  - unfold acquire_pr. rewrite Hav. destruct (Z.eqb_spec (Z.of_nat i) 0) as [|_]; [lia|].
    rewrite (at_id_ok _ _ _ Hn).
    cbn [mbind res_bind]. now rewrite Nat2Z.id.
  - constructor; cbn [pr_array available].
    + now apply chain_insert.
    + done.
    + intros j k Hj Hk. destruct (decide (j = i)) as [->|Hne].
      * rewrite list_lookup_insert_eq in Hj by (eapply lookup_lt_Some; eassumption).
        injection Hj as <-. discriminate.
      * rewrite list_lookup_insert_ne in Hj by congruence.
        destruct (Hf _ _ Hj Hk) as [?|Hin]; [now left|].
        apply elem_of_cons in Hin as [?|?]; [congruence|now right].
    + destruct Hz as (z & Hz & Hza). exists z. now rewrite list_lookup_insert_ne by congruence.
    + unfold pr_size in *. cbn. now rewrite length_insert.
Qed.

Lemma acquire_grow m :
  wf_with m [] -> pr_size m < 2 ^ 32 ->
  let m' := mk_pr_manager (pr_array m ++ [node_new]) 0 in
  acquire_pr m = Ok (pr_size m, m') /\ wf_with m' [].
Proof.
  intros [Hc Hd Hf Hz Hs] Hroom. cbn in Hc. unfold pr_size in *. split.
  - unfold acquire_pr. rewrite Hc. cbn [Z.eqb]. f_equal. f_equal.
    rewrite length_app. cbn [length]. rewrite u32_small by lia. lia.
  - constructor; cbn [pr_array available].
    + done.
    + constructor.
    + intros j k Hj Hk. apply lookup_app_Some in Hj as [Hj|[Hle Hj]]; [eauto|].
      apply list_lookup_singleton_Some in Hj as [_ <-]. discriminate.
    + destruct Hz as (z & Hz & Hza). exists z.
      now rewrite lookup_app_l by (eapply lookup_lt_Some; eassumption).
    + unfold pr_size. cbn. rewrite length_app. cbn. lia.
Qed.

Lemma remove_live m i fl :
  wf_with m fl -> live m i = true ->
  exists n, pr_array m !! i = Some n /\ active n = true /\
    let m' := mk_pr_manager (<[i := set_next (release n) (available m)]> (pr_array m)) (Z.of_nat i) in
    remove_pr m (Z.of_nat i) = Ok m' /\ wf_with m' (i :: fl).
Proof.
  intros [Hc Hd Hf Hz Hs] Hl. unfold live in Hl.
  destruct (pr_array m !! i) as [n|] eqn:Hn; [|done]. exists n. split; [done|]. split; [done|].
  assert (Hni : i ∉ fl).
  { intros Hi. destruct (chain_lookup _ _ _ _ Hc Hi) as (_ & n' & Hn' & Ha). congruence. }
  assert (Hi0 : i <> O).
  { intros ->. destruct Hz as (z & Hz & Hza). congruence. }
  cbn zeta. split.
  - unfold remove_pr. rewrite (at_id_ok _ _ _ Hn). cbn [mbind res_bind]. now rewrite Nat2Z.id.
  - pose proof (lookup_lt_Some _ _ _ Hn) as Hlt.
    constructor; cbn [pr_array available].
    + cbn [chain]. split_and!; [done..|]. eexists. rewrite list_lookup_insert_eq by done.
      split; [done|]. split; [done|]. now apply chain_insert.
    + now constructor.
    + intros j k Hj Hk. destruct (decide (j = i)) as [->|Hne]; [right; left|].
      rewrite list_lookup_insert_ne in Hj by congruence.
      destruct (Hf _ _ Hj Hk) as [?|?]; [now left|right; now right].
    + destruct Hz as (z & Hz & Hza). exists z. now rewrite list_lookup_insert_ne by congruence.
    + unfold pr_size in *. cbn. now rewrite length_insert.
Qed.

Lemma live_insert m i n a j :
  (i < length (pr_array m))%nat ->
  live (mk_pr_manager (<[i := n]> (pr_array m)) a) j = if decide (j = i) then active n else live m j.
Proof.
  intros Hi. unfold live. cbn [pr_array]. case_decide as Hj.
  - subst. now rewrite list_lookup_insert_eq.
  - now rewrite list_lookup_insert_ne by congruence.
Qed.

Lemma live_grow m j :
  live (mk_pr_manager (pr_array m ++ [node_new]) 0) j =
  if decide (j = length (pr_array m)) then true else live m j.
Proof.
  unfold live. cbn [pr_array]. case_decide as Hj.
  - subst. now rewrite lookup_app_r, Nat.sub_diag.
  - destruct (decide (j < length (pr_array m))%nat) as [Hlt|Hge].
    + now rewrite lookup_app_l.
    + rewrite lookup_app_r by lia. rewrite (lookup_ge_None_2 (pr_array m)) by lia.
      rewrite lookup_ge_None_2; [done|]. cbn. lia.
Qed.

(** Room for one more entry: ids are 32 bits wide. *)
Definition room (m : pr_manager) : Prop := pr_size m < 2 ^ 32.

Lemma acquire_ok m :
  wf m -> room m ->
  exists i m', acquire_pr m = Ok (Z.of_nat i, m') /\ wf m' /\ i <> O /\ live m i = false /\
    get_future m' (Z.of_nat i) = Ok new_promise /\
    (forall j, live m' j = if decide (j = i) then true else live m j).
Proof.
  intros [[|i fl] Hwf] Hroom.
  - destruct (acquire_grow m Hwf Hroom) as [E W]. pose proof (wf_zero _ _ Hwf) as (z & Hz & _).
    pose proof (lookup_lt_Some _ _ _ Hz).
    exists (length (pr_array m)). eexists. split; [exact E|]. split; [now exists []|].
    split; [lia|]. split.
    { unfold live. now rewrite lookup_ge_None_2. }
    split; [|apply live_grow].
    unfold get_future, at_id. cbn [pr_array]. now rewrite Nat2Z.id, lookup_app_r, Nat.sub_diag.
  - destruct (acquire_reuse m i fl Hwf) as (n & Hn & Ha & E & W).
    pose proof (lookup_lt_Some _ _ _ Hn). pose proof (wf_chain _ _ Hwf) as Hc.
    exists i. eexists. split; [exact E|]. split; [now exists fl|].
    split; [exact (proj1 (chain_lookup _ _ _ i Hc ltac:(left)))|]. split.
    { unfold live. now rewrite Hn. }
    split; [|intros j; now apply live_insert].
    unfold get_future, at_id. cbn [pr_array]. now rewrite Nat2Z.id, list_lookup_insert_eq.
Qed.

Lemma remove_ok m i :
  wf m -> live m i = true ->
  exists m', remove_pr m (Z.of_nat i) = Ok m' /\ wf m' /\ pr_size m' = pr_size m /\
    (forall j, live m' j = if decide (j = i) then false else live m j).
Proof.
  intros [fl Hwf] Hl. destruct (remove_live m i fl Hwf Hl) as (n & Hn & Ha & E & W).
  eexists. split; [exact E|]. split; [now exists (i :: fl)|]. split.
  - unfold pr_size. cbn. now rewrite length_insert.
  - intros j. apply live_insert. eapply lookup_lt_Some. eassumption.
Qed.

(** ** A client that releases only what it holds *)

Inductive client_op := Acquire | Remove (k : nat).

(** [out] are the outstanding ids; [Remove k] releases the [k]-th of them; [peak]
    is the largest number of ids held at once so far. *)
Fixpoint run_client (ops : list client_op) (m : pr_manager) (out : list nat) (peak : nat)
  : res (pr_manager * list nat * nat) :=
  match ops with
  | [] => Ok (m, out, peak)
  | Acquire :: ops =>
      '(id, m) ← acquire_pr m;
      run_client ops m (Z.to_nat id :: out) (Nat.max peak (S (length out)))
  | Remove k :: ops =>
      match out !! k with
      | Some id => m ← remove_pr m (Z.of_nat id); run_client ops m (delete k out) peak
      | None => run_client ops m out peak
      end
  end.

Record client_inv (m : pr_manager) (out : list nat) (peak : nat) (fl : list nat) : Prop := {
  ci_wf : wf_with m fl;
  ci_nodup : NoDup out;
  ci_live : forall j, j ∈ out <-> live m j = true;
  ci_count : (length out + length fl = peak)%nat;
  ci_size : length (pr_array m) = S peak
}.

Lemma client_acquire m out peak fl :
  client_inv m out peak fl -> room m ->
  exists i m' fl', acquire_pr m = Ok (Z.of_nat i, m') /\ (i ∉ out) /\ i <> O /\
    client_inv m' (i :: out) (Nat.max peak (S (length out))) fl'.
Proof.
  intros [Hwf Hnd Hlive Hc Hs] Hroom. destruct fl as [|i fl].
  - destruct (acquire_grow m Hwf Hroom) as [E W]. cbn [length] in Hc.
    assert (Hni : length (pr_array m) ∉ out).
    { rewrite Hlive. unfold live. now rewrite lookup_ge_None_2. }
    exists (length (pr_array m)). eexists _, []. split; [exact E|]. split; [exact Hni|].
    split; [lia|]. constructor.
    + exact W.
    + now constructor.
    + intros j. rewrite live_grow, elem_of_cons, Hlive. case_decide; split; intros; destruct_or?; auto; congruence.
    + cbn. lia.
    + cbn. rewrite length_app. cbn. lia.
  - destruct (acquire_reuse m i fl Hwf) as (n & Hn & Ha & E & W). cbn [length] in Hc.
    assert (Hni : i ∉ out).
    { rewrite Hlive. unfold live. rewrite Hn, Ha. done. }
    exists i. eexists _, fl. split; [exact E|]. split; [exact Hni|].
    split; [exact (proj1 (chain_lookup _ _ _ i (wf_chain _ _ Hwf) ltac:(left)))|]. constructor.
    + exact W.
    + now constructor.
    + intros j. rewrite live_insert by (eapply lookup_lt_Some; eassumption).
      rewrite elem_of_cons, Hlive. case_decide; split; intros; destruct_or?; auto; congruence.
    + cbn. lia.
    + cbn. rewrite length_insert. lia.
Qed.

Lemma client_remove m out peak fl k i :
  client_inv m out peak fl -> out !! k = Some i ->
  exists m', remove_pr m (Z.of_nat i) = Ok m' /\ client_inv m' (delete k out) peak (i :: fl).
Proof.
  intros [Hwf Hnd Hlive Hc Hs] Hk.
  assert (Hl : live m i = true) by (apply Hlive; eapply list_elem_of_lookup_2; eassumption).
  destruct (remove_live m i fl Hwf Hl) as (n & Hn & Ha & E & W).
  pose proof (lookup_lt_Some _ _ _ Hk). pose proof (delete_Permutation _ _ _ Hk) as Hp.
  eexists. split; [exact E|]. constructor.
  - exact W.
  - rewrite Hp in Hnd. now apply NoDup_cons in Hnd as [_ Hnd].
  - intros j. rewrite live_insert by (eapply lookup_lt_Some; eassumption).
    rewrite Hp in Hnd. apply NoDup_cons in Hnd as [Hni _].
    specialize (Hlive j). rewrite Hp, elem_of_cons in Hlive. cbn [active release set_next].
    case_decide as Hji; [subst j; split; [done|discriminate]|].
    rewrite <-Hlive. split; [now right|]. intros [?|?]; done.
  - rewrite length_delete by eauto. cbn [length]. lia.
  - cbn. rewrite length_insert. lia.
Qed.

Lemma run_client_inv ops m out peak fl :
  client_inv m out peak fl -> Z.of_nat (length (pr_array m) + length ops) <= 2 ^ 32 ->
  exists m' out' peak' fl', run_client ops m out peak = Ok (m', out', peak') /\
    client_inv m' out' peak' fl'.
Proof.
  revert m out peak fl. induction ops as [|[|k] ops IH]; intros m out peak fl Hi Hb.
  - cbn. eauto 10.
  - cbn [run_client length] in *.
    destruct (client_acquire m out peak fl Hi) as (i & m' & fl' & E & _ & _ & Hi').
    { unfold room, pr_size. lia. }
    rewrite E. cbn [mbind res_bind]. rewrite Nat2Z.id. apply (IH _ _ _ _ Hi').
    pose proof (ci_size _ _ _ _ Hi). pose proof (ci_size _ _ _ _ Hi').
    pose proof (ci_count _ _ _ _ Hi). lia.
  - cbn [run_client length] in *. destruct (out !! k) as [i|] eqn:Hk.
    + destruct (client_remove _ _ _ _ _ _ Hi Hk) as (m' & E & Hi'). rewrite E.
      cbn [mbind res_bind]. apply (IH _ _ _ _ Hi').
      pose proof (ci_size _ _ _ _ Hi). pose proof (ci_size _ _ _ _ Hi'). lia.
    + apply (IH _ _ _ _ Hi). lia.
Qed.

Lemma client_inv_new : client_inv pr_manager_new [] 0 [].
Proof.
  constructor; cbn; [apply wf_new|constructor| |done..].
  intros j. split; [intros H; now apply not_elem_of_nil in H|].
  unfold live. destruct j as [|[|j]]; cbn; discriminate.
Qed.

(** ** Releasing an id that is not outstanding *)

Fixpoint acquires (k : nat) (m : pr_manager) : res (list Z * pr_manager) :=
  match k with
  | O => Ok ([], m)
  | S k =>
      '(id, m) ← acquire_pr m;
      '(ids, m) ← acquires k m;
      Ok (id :: ids, m)
  end.

(** The chain from [start] through [a] arrives at [last]. *)
Fixpoint chain_to (arr : list node) (start : Z) (a : list nat) (last : nat) : Prop :=
  match a with
  | [] => start = Z.of_nat last
  | i :: a => start = Z.of_nat i /\ i <> O /\
      exists n, arr !! i = Some n /\ chain_to arr (next_avl n) a last
  end.

Lemma chain_split arr s a i b :
  chain arr s (a ++ i :: b) -> chain_to arr s a i.
Proof.
  revert s. induction a as [|j a IH]; intros s H; cbn in *; [exact (proj1 H)|].
  destruct H as (-> & Hj & n & Hn & _ & Hc). split; [done|]. split; [done|]. exists n. auto.
Qed.

Lemma chain_to_insert arr s a last i n :
  i ∉ a -> chain_to arr s a last -> chain_to (<[i:=n]> arr) s a last.
Proof.
  revert s. induction a as [|j a IH]; intros s Hi H; [done|].
  cbn in *. apply not_elem_of_cons in Hi as [Hij Hi].
  destruct H as (-> & Hj & n' & Hn & Hc). split_and!; [done..|].
  exists n'. rewrite list_lookup_insert_ne by congruence. auto.
Qed.

Lemma acquire_at m i n :
  available m = Z.of_nat i -> i <> O -> pr_array m !! i = Some n ->
  acquire_pr m = Ok (Z.of_nat i, mk_pr_manager (<[i := occupy n]> (pr_array m)) (next_avl n)).
Proof.
  intros Hav Hi Hn. unfold acquire_pr. rewrite Hav.
  destruct (Z.eqb_spec (Z.of_nat i) 0) as [|_]; [lia|].
  rewrite (at_id_ok _ _ _ Hn). cbn [mbind res_bind]. now rewrite Nat2Z.id.
Qed.

Lemma acquires_chain a m last :
  chain_to (pr_array m) (available m) a last -> NoDup a -> last ∉ a -> last <> O ->
  (last < length (pr_array m))%nat ->
  exists m', acquires (length a + 1) m = Ok (Z.of_nat <$> (a ++ [last]), m').
Proof.
  revert m. induction a as [|i a IH]; intros m Hc Hd Hl Hl0 Hlt; cbn in Hc.
  - destruct (lookup_lt_is_Some_2 _ _ Hlt) as [n Hn]. cbn [length Nat.add acquires].
    rewrite (acquire_at _ _ _ Hc Hl0 Hn). cbn. eauto.
  - destruct Hc as (Hav & Hi0 & n & Hn & Hc). apply NoDup_cons in Hd as [Hni Hd].
    apply not_elem_of_cons in Hl as [Hli Hl]. cbn [length Nat.add acquires].
    rewrite (acquire_at _ _ _ Hav Hi0 Hn). cbn [mbind res_bind].
    destruct (IH (mk_pr_manager (<[i:=occupy n]> (pr_array m)) (next_avl n))) as (m' & E);
      cbn [pr_array available]; [now apply chain_to_insert|done..|now rewrite length_insert|].
    rewrite E. cbn. eauto.
Qed.

Lemma remove_free_cycle m fl i :
  wf_with m fl -> i ∈ fl ->
  exists m1 k ids m2, remove_pr m (Z.of_nat i) = Ok m1 /\
    acquires (S k) m1 = Ok (Z.of_nat i :: ids, m2) /\ Z.of_nat i ∈ ids.
Proof.
  intros [Hc Hd Hf Hz Hs] Hi. destruct (chain_lookup _ _ _ _ Hc Hi) as (Hi0 & n & Hn & Ha).
  pose proof (lookup_lt_Some _ _ _ Hn) as Hlt.
  apply list_elem_of_split in Hi as (a & b & ->).
  apply NoDup_app in Hd as (Hda & Hab & _). specialize (fun x H => Hab x H).
  assert (Hni : i ∉ a) by (intros H; apply (Hab _ H); left).
  set (m1 := mk_pr_manager (<[i := set_next (release n) (available m)]> (pr_array m)) (Z.of_nat i)).
  set (n1 := set_next (release n) (available m)).
  set (m2 := mk_pr_manager (<[i := occupy n1]> (pr_array m1)) (available m)).
  destruct (acquires_chain a m2 i) as (m3 & E).
  - subst m2 m1. cbn [pr_array available]. do 2 (apply chain_to_insert; [done|]).
    eapply chain_split. eassumption.
  - done.
  - done.
  - done.
  - subst m2 m1. cbn [pr_array]. now rewrite !length_insert.
  - exists m1, (length a + 1)%nat, (Z.of_nat <$> (a ++ [i])), m3. split_and!.
    + unfold remove_pr. rewrite (at_id_ok _ _ _ Hn). cbn [mbind res_bind]. now rewrite Nat2Z.id.
    + change (acquires (S (length a + 1)) m1) with
        ('(id, m) ← acquire_pr m1; '(ids, m) ← acquires (length a + 1) m; Ok (id :: ids, m)).
      rewrite (acquire_at m1 i n1) by (done || (subst m1; cbn; now rewrite list_lookup_insert_eq)).
      cbn [mbind res_bind]. fold m2. change (next_avl n1) with (available m). fold m2.
      rewrite E. reflexivity.
    + rewrite fmap_app. apply elem_of_app. right. left.
Qed.

(** ** root_actor_group::stop_actor_system: failing the uncompleted promises

    The loop of src/src/core/root_actor_group.cc over all ids: an active one gets
    the cancellation exception and is removed.  Its counter has 32 bits: it ends for tables of fewer than 2^32 entries. *)
Fixpoint cancel_loop (ex : Ex) (fuel : nat) (id : nat) (m : pr_manager) : res pr_manager :=
  match fuel with
  | O => Ok m
  | S fuel =>
      a ← is_active m (Z.of_nat id);
      m ← (if a : bool then
             m ← set_exception m (Z.of_nat id) ex;
             remove_pr m (Z.of_nat id)
           else Ok m);
      cancel_loop ex fuel (S id) m
  end.
Definition cancel_uncompleted (ex : Ex) (m : pr_manager) : res pr_manager :=
  cancel_loop ex (length (pr_array m)) 0 m.

(** It fails on no table. *)
Lemma cancel_loop_total ex fuel : forall id m, (id + fuel <= length (pr_array m))%nat -> exists m', cancel_loop ex fuel id m = Ok m'.
Proof.
  induction fuel as [|fuel IH]; intros id m Hl; cbn [cancel_loop]; [eauto|].
  destruct (lookup_lt_is_Some_2 (pr_array m) id) as [n En]; [lia|]. unfold is_active. rewrite (at_id_ok _ _ _ En). cbn [mbind res_bind].
  destruct (active n); cbn [mbind res_bind]; [|apply IH; lia]. unfold set_exception. rewrite (at_id_ok _ _ _ En). cbn [mbind res_bind].
  unfold remove_pr. rewrite (at_id_ok _ _ (set_pr n (promise_set_exception (pr n) ex))) by
    (cbn [pr_array]; rewrite Nat2Z.id; apply list_lookup_insert_eq; eapply lookup_lt_Some; exact En).
  cbn [mbind res_bind]. apply IH. cbn [pr_array]. rewrite !length_insert. lia.
Qed.

Lemma chain_set_pr arr s fl i n p :
  arr !! i = Some n -> chain arr s fl -> chain (<[i := set_pr n p]> arr) s fl.
Proof.
  intros Hi. revert s. induction fl as [|j fl IH]; intros s H; [done|].
  cbn in *. destruct H as (-> & Hj & n' & Hn & Ha & Hc). split_and!; [done..|].
  destruct (decide (i = j)) as [->|Hne].
  - exists (set_pr n p). rewrite list_lookup_insert_eq by (eapply lookup_lt_Some; eassumption).
    assert (n' = n) as -> by congruence. auto.
  - exists n'. rewrite list_lookup_insert_ne by congruence. auto.
Qed.

Lemma wf_set_pr m fl i n p :
  wf_with m fl -> pr_array m !! i = Some n ->
  wf_with (mk_pr_manager (<[i := set_pr n p]> (pr_array m)) (available m)) fl.
Proof.
  intros [Hc Hd Hf Hz Hs] Hi. pose proof (lookup_lt_Some _ _ _ Hi) as Hlt.
  constructor; cbn [pr_array available]; [now apply chain_set_pr|done| | |].
  - intros j k Hj Hk. destruct (decide (j = i)) as [->|Hne].
    + rewrite list_lookup_insert_eq in Hj by done. injection Hj as <-. eauto.
    + rewrite list_lookup_insert_ne in Hj by congruence. eauto.
  - destruct Hz as (z & Hz & Hza). destruct (decide (i = O)) as [->|Hne].
    + eexists. rewrite list_lookup_insert_eq by done. split; [done|]. cbn. congruence.
    + exists z. now rewrite list_lookup_insert_ne by congruence.
  - unfold pr_size in *. cbn. now rewrite length_insert.
Qed.

(** One turn of the loop on an active id. *)
Lemma cancel_one ex m i :
  wf m -> live m i = true ->
  exists n m1 m2, pr_array m !! i = Some n /\
    set_exception m (Z.of_nat i) ex = Ok m1 /\ remove_pr m1 (Z.of_nat i) = Ok m2 /\ wf m2 /\
    length (pr_array m2) = length (pr_array m) /\
    get_future m2 (Z.of_nat i) = Ok (promise_set_exception (pr n) ex) /\
    live m2 i = false /\
    (forall j, j <> i -> pr_array m2 !! j = pr_array m !! j) /\
    available m2 = Z.of_nat i.
Proof.
  intros [fl Hwf] Hl. pose proof Hl as Hl'. unfold live in Hl.
  destruct (pr_array m !! i) as [n|] eqn:Hn; [|done].
  pose proof (lookup_lt_Some _ _ _ Hn) as Hlt.
  set (n1 := set_pr n (promise_set_exception (pr n) ex)).
  set (m1 := mk_pr_manager (<[i := n1]> (pr_array m)) (available m)).
  assert (W1 : wf_with m1 fl) by now apply wf_set_pr.
  assert (L1 : live m1 i = true).
  { unfold live, m1. cbn. now rewrite list_lookup_insert_eq. }
  destruct (remove_live m1 i fl W1 L1) as (n2 & Hn2 & Ha & E & W2).
  assert (n2 = n1) as ->.
  { unfold m1 in Hn2. cbn in Hn2. rewrite list_lookup_insert_eq in Hn2 by done. congruence. }
  exists n, m1. eexists. split; [done|]. split.
  { unfold set_exception. rewrite (at_id_ok _ _ _ Hn). cbn [mbind res_bind]. now rewrite Nat2Z.id. }
  split; [exact E|]. split; [now exists (i :: fl)|]. subst m1. cbn [pr_array available].
  rewrite !length_insert. split; [done|]. split.
  { unfold get_future, at_id. cbn [pr_array]. rewrite Nat2Z.id, list_lookup_insert_eq; [done|].
    now rewrite length_insert. }
  split.
  { unfold live. cbn [pr_array]. rewrite list_lookup_insert_eq; [done|]. now rewrite length_insert. }
  split; [|done]. intros j Hj. now rewrite !list_lookup_insert_ne by congruence.
Qed.

Lemma cancel_loop_ok ex fuel id m :
  wf m -> (id + fuel = length (pr_array m))%nat ->
  exists m', cancel_loop ex fuel id m = Ok m' /\ wf m' /\
    length (pr_array m') = length (pr_array m) /\
    (forall j, (j < id)%nat -> pr_array m' !! j = pr_array m !! j) /\
    (forall j, (id <= j)%nat -> live m' j = false) /\
    (forall j n, (id <= j)%nat -> live m j = true -> pr_array m !! j = Some n ->
       get_future m' (Z.of_nat j) = Ok (promise_set_exception (pr n) ex)).
Proof.
  revert id m. induction fuel as [|fuel IH]; intros id m Hwf Hlen.
  - exists m. split_and!; try done.
    + intros j Hj. unfold live. now rewrite lookup_ge_None_2 by lia.
    + intros j n Hj _ Hn. apply lookup_lt_Some in Hn. lia.
  - cbn [cancel_loop]. destruct (lookup_lt_is_Some_2 (pr_array m) id) as [n Hn]; [lia|].
    unfold is_active. rewrite (at_id_ok _ _ _ Hn). cbn [mbind res_bind].
    destruct (active n) eqn:Ha.
    + assert (Hl : live m id = true) by (unfold live; now rewrite Hn).
      destruct (cancel_one ex m id Hwf Hl) as (n' & m1 & m2 & Hn' & E1 & E2 & W & L & F & D & S & _).
      rewrite E1. cbn [mbind res_bind]. rewrite E2. cbn [mbind res_bind].
      destruct (IH (Datatypes.S id) m2 W) as (m' & E & W' & L' & Lo & Hi & Fu); [lia|].
      exists m'. split_and!; [done..|congruence| | |].
      * intros j Hj. rewrite Lo by lia. apply S. lia.
      * intros j Hj. destruct (decide (j = id)) as [->|]; [|apply Hi; lia].
        unfold live in D |- *. now rewrite Lo by lia.
      * intros j k Hj Hlj Hk. destruct (decide (j = id)) as [->|Hne].
        -- unfold get_future, at_id in F |- *. rewrite Lo by lia.
           assert (k = n') as -> by congruence. exact F.
        -- apply Fu; [lia| |now rewrite S]. unfold live in Hlj |- *. now rewrite S.
    + cbn [mbind res_bind].
      destruct (IH (S id) m Hwf) as (m' & E & W' & L' & Lo & Hi & Fu); [lia|].
      exists m'. split_and!; [done..| | |].
      * intros j Hj. apply Lo. lia.
      * intros j Hj. destruct (decide (j = id)) as [->|]; [|apply Hi; lia].
        unfold live. rewrite Lo by lia. now rewrite Hn.
      * intros j k Hj Hlj Hk. destruct (decide (j = id)) as [->|Hne].
        -- unfold live in Hlj. rewrite Hn in Hlj. congruence.
        -- apply Fu; [lia|done..].
Qed.

(** ** Properties *)

(** A client that acquires ids and releases only ids it holds never sees an
    id twice at the same time: for any sequence of such calls on a fresh table no
    access leaves the array, the ids held are distinct, none is the reserved 0,
    they are exactly the active entries, and the table never grows beyond the
    largest number of ids held at once, plus the reserved entry. *)
Theorem client_ids_distinct (ops : list client_op) :
  Z.of_nat (length ops) < 2 ^ 32 ->
  exists m out peak, run_client ops pr_manager_new [] 0 = Ok (m, out, peak) /\
    NoDup out /\ (O ∉ out) /\ (forall j, j ∈ out <-> live m j = true) /\
    pr_size m = 1 + Z.of_nat peak.
Proof.
  intros Hb. destruct (run_client_inv ops _ _ _ _ client_inv_new) as (m&out&peak&fl&E&I).
  { cbn [pr_array pr_manager_new length]. lia. }
  exists m, out, peak. destruct I as [Hwf Hnd Hl Hc Hs]. split_and!; try done.
  - rewrite Hl. unfold live. destruct (wf_zero _ _ Hwf) as (z & -> & ->). done.
  - unfold pr_size. rewrite Hs. lia.
Qed.

(** [acquire_pr] on a well-formed table with room returns an id that is not
    0 and not outstanding, whose promise is a new one, and marks that id only. *)
Theorem acquire_pr_fresh (m : pr_manager) :
  wf m -> room m ->
  exists i m', acquire_pr m = Ok (Z.of_nat i, m') /\ wf m' /\ i <> O /\ live m i = false /\
    get_future m' (Z.of_nat i) = Ok new_promise /\
    (forall j, live m' j = if decide (j = i) then true else live m j).
Proof. apply acquire_ok. Qed.

(** [remove_pr] of an id that was already released corrupts the table: the
    free list becomes cyclic and, with no further release in between, a later run
    of [acquire_pr] calls hands out the same id to two callers. *)
Theorem double_remove_aliases (m : pr_manager) (i : nat) :
  wf m -> live m i = true ->
  exists m1 m2 k ids m3, remove_pr m (Z.of_nat i) = Ok m1 /\ remove_pr m1 (Z.of_nat i) = Ok m2 /\
    acquires (S k) m2 = Ok (Z.of_nat i :: ids, m3) /\ Z.of_nat i ∈ ids.
Proof.
  intros [fl Hwf] Hl. destruct (remove_live m i fl Hwf Hl) as (n & Hn & Ha & E & W).
  destruct (remove_free_cycle _ (i :: fl) i W) as (m2 & k & ids & m3 & E2 & E3 & Hin); [left|].
  eauto 10.
Qed.

(** When the actor system stops, every uncompleted request fails with the
    cancellation exception and its id is released; the table stays well formed.
    The failed request's own continuation then releases the same id again
    ([actor_client::send_and_wait], [root_actor_group::cancel_scope_request]), after
    which later requests receive one id twice. *)
Theorem stop_cancels_then_continuation_aliases (m : pr_manager) (ex : Ex) :
  wf m ->
  exists m', cancel_uncompleted ex m = Ok m' /\ wf m' /\ pr_size m' = pr_size m /\
    (forall j, live m' j = false) /\
    (forall j n, live m j = true -> pr_array m !! j = Some n ->
       get_future m' (Z.of_nat j) = Ok (promise_set_exception (pr n) ex) /\
       exists m1 k ids m2, remove_pr m' (Z.of_nat j) = Ok m1 /\
         acquires (S k) m1 = Ok (Z.of_nat j :: ids, m2) /\ Z.of_nat j ∈ ids).
Proof.
  intros Hwf. destruct (cancel_loop_ok ex (length (pr_array m)) 0 m Hwf) as (m' & E & W & L & _ & Hd & Hf);
    [lia|].
  exists m'. split_and!; [exact E|done| |intros j; apply Hd; lia|].
  { unfold pr_size. now rewrite L. }
  intros j n Hl Hn. split; [apply Hf; (lia || done)|].
  destruct W as [fl W]. apply (remove_free_cycle m' fl j W).
  specialize (Hd j ltac:(lia)). destruct (lookup_lt_is_Some_2 (pr_array m') j) as [n' Hn'].
  { rewrite L. eapply lookup_lt_Some. eassumption. }
  unfold live in Hd. rewrite Hn' in Hd. destruct (wf_free _ _ W _ _ Hn' Hd) as [->|]; [|done].
  destruct Hwf as [fl0 Hwf]. destruct (wf_zero _ _ Hwf) as (z & Hz & Hza).
  unfold live in Hl. rewrite Hz in Hl. congruence.
Qed.

End PrManager.

(** ** Witnesses: a promise that records what it was resolved with *)
Definition ex_promise : Type := option (nat + nat).
Definition ex_new : ex_promise := None.
Definition ex_set_value (p : ex_promise) (v : nat) : ex_promise := Some (inl v).
Definition ex_set_exception (p : ex_promise) (e : nat) : ex_promise := Some (inr e).

(** A table with one request outstanding, under id 1. *)
Definition ex_table0 : pr_manager (P := ex_promise) := pr_manager_new ex_new ex_set_value O.
Definition ex_table : pr_manager (P := ex_promise) :=
  mk_pr_manager (pr_array ex_table0 ++ [node_new ex_new]) 0.

Lemma ex_table0_wf : wf ex_table0.
Proof. exists []. apply wf_new. Qed.
Lemma ex_table0_room : room ex_table0.
Proof. unfold room, pr_size. cbn. lia. Qed.
Lemma ex_table_wf : wf ex_table.
Proof. exists []. exact (proj2 (acquire_grow ex_new ex_table0 (wf_new _ _ _) ex_table0_room)). Qed.

Lemma client_ids_distinct_witness :
  Z.of_nat (length [Acquire; Acquire; Remove 1; Acquire]) < 2 ^ 32 /\
  exists m out peak,
    run_client ex_new [Acquire; Acquire; Remove 1; Acquire] ex_table0 [] 0 = Ok (m, out, peak) /\
    NoDup out /\ (O ∉ out) /\ (forall j, j ∈ out <-> live m j = true) /\
    pr_size m = 1 + Z.of_nat peak.
Proof.
  assert (H : Z.of_nat (length [Acquire; Acquire; Remove 1; Acquire]) < 2 ^ 32) by (cbn; lia).
  split; [exact H|].
  exact (client_ids_distinct ex_new ex_set_value O [Acquire; Acquire; Remove 1; Acquire] H).
Defined.

Lemma acquire_pr_fresh_witness :
  (wf ex_table /\ room ex_table) /\
  exists i m', acquire_pr ex_new ex_table = Ok (Z.of_nat i, m') /\ wf m' /\ i <> O /\
    live ex_table i = false /\ get_future m' (Z.of_nat i) = Ok ex_new /\
    (forall j, live m' j = if decide (j = i) then true else live ex_table j).
Proof.
  assert (R : room ex_table) by (unfold room, pr_size; cbn; lia).
  split; [exact (conj ex_table_wf R)|].
  exact (acquire_pr_fresh ex_new ex_table ex_table_wf R).
Defined.

Lemma double_remove_aliases_witness :
  (wf ex_table /\ live ex_table 1 = true) /\
  exists m1 m2 k ids m3, remove_pr ex_table 1 = Ok m1 /\ remove_pr m1 1 = Ok m2 /\
    acquires ex_new (S k) m2 = Ok (1 :: ids, m3) /\ 1 ∈ ids.
Proof.
  split; [exact (conj ex_table_wf eq_refl)|].
  exact (double_remove_aliases ex_new ex_table 1 ex_table_wf eq_refl).
Defined.

Lemma stop_cancels_then_continuation_aliases_witness :
  wf ex_table /\
  exists m', cancel_uncompleted ex_set_exception 7%nat ex_table = Ok m' /\ wf m' /\
    pr_size m' = pr_size ex_table.
Proof.
  split; [exact ex_table_wf|].
  destruct (stop_cancels_then_continuation_aliases ex_new ex_set_exception ex_table 7%nat ex_table_wf)
    as (m' & H1 & H2 & H3 & _).
  exists m'. split_and!; assumption.
Defined.
