(* ===== verification/BufferQueue.v ===== *)
(** * What a queue of buffers promises to the message codec

    [actor_message_with_payload::serialize] and [network_delegater::deserialize] use
    [serializable_queue] only through the operations below.  [BufferQueueLaws] states
    what they rely on: [bq_rel q s n] says that the queue holds the buffers [s] after
    [n] pushes, [bq_drains q s] that [s] is what its pops will return (a queue that was
    moved can only be drained). *)
From S2P Require Import Prelude.

Abbreviation tmpbuf := bytes.

(** The number of bytes in a list of buffers. *)
Definition total (l : list tmpbuf) : Z := Z.of_nat (length (mjoin l)).

Lemma total_cons b l : total (b :: l) = Z.of_nat (length b) + total l.
Proof. unfold total. change (mjoin (b :: l)) with (b ++ mjoin l). rewrite length_app. lia. Qed.

Lemma total_app l1 l2 : total (l1 ++ l2) = total l1 + total l2.
Proof. unfold total. rewrite join_app, length_app. lia. Qed.

Lemma total_nonneg l : 0 <= total l.
Proof. unfold total. lia. Qed.

Class BufferQueue (Q : Type) := {
  bq_new : Q;
  bq_push : Q -> tmpbuf -> res Q;
  bq_pop : Q -> res (tmpbuf * Q);
  bq_empty : Q -> bool;
  bq_size : Q -> Z;
  bq_get_buffer_size : Q -> res Z;
  bq_move : Q -> Q
}.

Class BufferQueueLaws (Q : Type) {BQ : BufferQueue Q} := {
  bq_rel : Q -> list tmpbuf -> Z -> Prop;
  bq_drains : Q -> list tmpbuf -> Prop;
  bq_new_rel : bq_rel bq_new [] 0;
  bq_push_rel q s n b :
    bq_rel q s n -> n < 4294967295 -> exists q', bq_push q b = Ok q' /\ bq_rel q' (s ++ [b]) (n + 1);
  bq_pop_rel q b s n :
    bq_rel q (b :: s) n -> n < 4294967296 -> exists q', bq_pop q = Ok (b, q') /\ bq_rel q' s n;
  bq_empty_rel q s n : bq_rel q s n -> bq_empty q = true <-> s = [];
  bq_size_rel q s n : bq_rel q s n -> bq_size q = Z.of_nat (length s);
  bq_len_rel q s n : bq_rel q s n -> Z.of_nat (length s) <= n;
  bq_bytes_rel q s n : bq_rel q s n -> bq_get_buffer_size q = Ok (u32 (total s));
  bq_move_drains q s : bq_rel q s (Z.of_nat (length s)) -> bq_drains (bq_move q) s;
  bq_pop_drains q b s : bq_drains q (b :: s) -> exists q', bq_pop q = Ok (b, q') /\ bq_drains q' s
}.

Section Derived.
Context {Q : Type} {BQ : BufferQueue Q} {BQL : BufferQueueLaws Q}.

Fixpoint push_all (q : Q) (bs : list tmpbuf) : res Q :=
  match bs with
  | [] => Ok q
  | b :: bs => q ← bq_push q b; push_all q bs
  end.

Fixpoint pop_n (k : nat) (q : Q) : res (list tmpbuf * Q) :=
  match k with
  | O => Ok ([], q)
  | S k => '(b, q) ← bq_pop q; '(bs, q) ← pop_n k q; Ok (b :: bs, q)
  end.

Lemma push_all_rel bs : forall q s n,
  bq_rel q s n -> n + Z.of_nat (length bs) < 4294967296 ->
  exists q', push_all q bs = Ok q' /\ bq_rel q' (s ++ bs) (n + Z.of_nat (length bs)).
Proof.
  induction bs as [|b bs IH]; intros q s n H Hn; cbn [push_all length] in *.
  - exists q. rewrite app_nil_r, Z.add_0_r. done.
  - destruct (bq_push_rel q s n b H) as (q1 & E & H1); [lia|]. rewrite E. cbn [mbind res_bind].
    destruct (IH q1 _ _ H1) as (q2 & E2 & H2); [lia|]. exists q2. rewrite <-app_assoc in H2.
    split; [done|]. replace (n + Z.of_nat (S (length bs))) with (n + 1 + Z.of_nat (length bs)) by lia. done.
Qed.

Lemma pop_n_drains s : forall q, bq_drains q s -> exists q', pop_n (length s) q = Ok (s, q').
Proof.
  induction s as [|b s IH]; intros q H; cbn [pop_n length]; [eauto|].
  destruct (bq_pop_drains q b s H) as (q1 & E & H1). rewrite E. cbn [mbind res_bind].
  destruct (IH q1 H1) as (q2 & E2). rewrite E2. cbn. eauto.
Qed.

Lemma pop_n_rel s1 : forall q s2 n,
  bq_rel q (s1 ++ s2) n -> n < 4294967296 -> exists q', pop_n (length s1) q = Ok (s1, q') /\ bq_rel q' s2 n.
Proof.
  induction s1 as [|b s IH]; intros q s2 n H Hn; cbn [pop_n length app] in *; [eauto|].
  destruct (bq_pop_rel q b _ n H Hn) as (q1 & E & H1). rewrite E. cbn [mbind res_bind].
  destruct (IH q1 _ _ H1 Hn) as (q2 & E2 & H2). rewrite E2. cbn. eauto.
Qed.

End Derived.

(** ** The specification as an implementation

    A plain list, on which the codec's definitions can be evaluated. *)
#[export] Instance list_queue : BufferQueue (list tmpbuf) := {
  bq_new := [];
  bq_push q b := Ok (q ++ [b]);
  bq_pop q := match q with [] => Fault NullDeref | b :: q => Ok (b, q) end;
  bq_empty q := match q with [] => true | _ => false end;
  bq_size q := Z.of_nat (length q);
  bq_get_buffer_size q := Ok (u32 (total q));
  bq_move q := q
}.

#[export, refine] Instance list_queue_laws : BufferQueueLaws (list tmpbuf) := {
  bq_rel q s n := q = s /\ Z.of_nat (length s) <= n;
  bq_drains q s := q = s
}.
Proof.
  - cbn. done.
  - intros q s n b [-> H] Hn. eexists. split; [reflexivity|]. split; [done|].
    rewrite length_app. cbn [length]. lia.
  - intros q b s n [-> H] Hn. eexists. split; [reflexivity|]. split; [done|].
    cbn [length] in H. lia.
  - intros q s n [-> H]. cbn. destruct s; split; done.
  - intros q s n [-> H]. done.
  - intros q s n [-> H]. done.
  - intros q s n [-> H]. done.
  - intros q s [-> _]. done.
  - intros q b s ->. eexists. split; reflexivity.
Defined.
