(* ===== verification/SerializableQueue.v ===== *)
(** * The queue of serialized buffers

    [serializable_queue] (src/include/hiactor/net/serializable_queue.hh): the first
    four buffers live in an array inside the object, the rest in a linked list of
    such arrays.  List nodes live in a heap of cells indexed by allocation order
    ([None]: freed), so that sharing, the stale pointers of a moved-from list and
    what is never deleted are visible.

    A [seastar::temporary_buffer<char>] is its bytes; a moved-from or
    default-constructed one is empty. *)
From S2P Require Import Prelude.
From S2P Require Import BufferQueue.

Definition ARRAY_BUFFER_SIZE : nat := 4.

(** ** tmpbuf_array *)
Module Array.

Record tmpbuf_array := mk { size : Z; cap : Z; buffers : list tmpbuf; cur_idx : Z }.

Definition new : tmpbuf_array :=
  mk 0 (Z.of_nat ARRAY_BUFFER_SIZE) (replicate ARRAY_BUFFER_SIZE []) 0.

Definition is_full (a : tmpbuf_array) : bool := size a =? cap a.
Definition empty (a : tmpbuf_array) : bool := cur_idx a =? size a.

Definition push (a : tmpbuf_array) (buf : tmpbuf) : res tmpbuf_array :=
  _ ← of_option OutOfBounds (buffers a !! Z.to_nat (size a));
  Ok (mk (u32 (size a + 1)) (cap a) (<[Z.to_nat (size a) := buf]> (buffers a)) (cur_idx a)).

Definition pop (a : tmpbuf_array) : res (tmpbuf * tmpbuf_array) :=
  let tmp_idx := Z.to_nat (cur_idx a) in
  b ← of_option OutOfBounds (buffers a !! tmp_idx);
  Ok (b, mk (size a) (cap a) (<[tmp_idx := []]> (buffers a)) (u32 (cur_idx a + 1))).

Definition peek (a : tmpbuf_array) : res tmpbuf :=
  of_option OutOfBounds (buffers a !! Z.to_nat (cur_idx a)).

Fixpoint size_loop (fuel : nat) (i : Z) (a : tmpbuf_array) (total : Z) : res Z :=
  if i <? size a then
    match fuel with
    | O => Fault NoFuel
    | S fuel =>
        b ← of_option OutOfBounds (buffers a !! Z.to_nat i);
        size_loop fuel (u32 (i + 1)) a (u32 (total + Z.of_nat (length b)))
    end
  else Ok total.
Definition get_buffer_size (a : tmpbuf_array) : res Z :=
  size_loop ARRAY_BUFFER_SIZE (cur_idx a) a 0.

(** [tmpbuf_array(tmpbuf_array&&)]: [cur_idx] of the new object is its default. *)
Definition move (a : tmpbuf_array) : tmpbuf_array := mk (size a) (cap a) (buffers a) 0.

(** The buffers still to be popped. *)
Definition contents (a : tmpbuf_array) : list tmpbuf :=
  drop (Z.to_nat (cur_idx a)) (take (Z.to_nat (size a)) (buffers a)).

Record wf (a : tmpbuf_array) : Prop := {
  wf_cap : cap a = 4;
  wf_len : length (buffers a) = 4%nat;
  wf_cur : 0 <= cur_idx a;
  wf_le : cur_idx a <= size a;
  wf_size : size a <= 4
}.

Lemma array_wf_new : wf new.
Proof. constructor; cbn; (lia || reflexivity). Qed.

Lemma contents_length a : wf a -> Z.of_nat (length (contents a)) = size a - cur_idx a.
Proof. intros [Hc Hl H0 H1 H2]. unfold contents. rewrite length_drop, length_take. lia. Qed.

Lemma empty_spec a : wf a -> empty a = true <-> contents a = [].
Proof.
  intros Hw. unfold empty. rewrite Z.eqb_eq, <-length_zero_iff_nil.
  pose proof (contents_length a Hw). lia.
Qed.

Lemma push_ok a buf :
  wf a -> is_full a = false ->
  exists a', push a buf = Ok a' /\ wf a' /\ contents a' = contents a ++ [buf] /\
    size a' = size a + 1 /\ cur_idx a' = cur_idx a.
Proof.
  intros [Hc Hl H0 H1 H2] Hf. unfold is_full in Hf. apply Z.eqb_neq in Hf.
  destruct (lookup_lt_is_Some_2 (buffers a) (Z.to_nat (size a))) as [x Hx]; [lia|].
  unfold push. rewrite Hx. cbn [of_option mbind res_bind]. rewrite u32_small by lia.
  eexists. split; [reflexivity|]. split; [|split; [|done]].
  - constructor; cbn; rewrite ?length_insert; lia.
  - unfold contents. cbn [cur_idx size buffers].
    replace (Z.to_nat (size a + 1)) with (S (Z.to_nat (size a))) by lia.
    rewrite (take_S_r _ _ buf) by (rewrite list_lookup_insert_eq; [done|lia]).
    rewrite take_insert_ge by lia. rewrite drop_app_le; [done|]. rewrite length_take. lia.
Qed.

Lemma pop_ok a b rest :
  wf a -> contents a = b :: rest ->
  exists a', pop a = Ok (b, a') /\ wf a' /\ contents a' = rest /\
    size a' = size a /\ cur_idx a' = cur_idx a + 1.
Proof.
  intros Hw E. pose proof (contents_length a Hw) as Hlen. rewrite E in Hlen. cbn [length] in Hlen.
  destruct Hw as [Hc Hl H0 H1 H2].
  assert (Hb : buffers a !! Z.to_nat (cur_idx a) = Some b).
  { apply (f_equal (fun l => l !! 0%nat)) in E. unfold contents in E.
    rewrite lookup_drop, Nat.add_0_r, lookup_take_lt in E by lia. exact E. }
  unfold pop. rewrite Hb. cbn [of_option mbind res_bind]. rewrite u32_small by lia.
  eexists. split; [reflexivity|]. split; [|split; [|done]].
  - constructor; cbn; rewrite ?length_insert; lia.
  - unfold contents in *. cbn [cur_idx size buffers].
    replace (Z.to_nat (cur_idx a + 1)) with (S (Z.to_nat (cur_idx a))) by lia.
    apply (f_equal (drop 1)) in E. rewrite drop_drop in E. cbn [drop] in E.
    rewrite drop_0 in E. rewrite <-E, Nat.add_1_r.
    rewrite !skipn_firstn_comm. f_equal. rewrite drop_insert_lt by lia. done.
Qed.

Lemma peek_ok a b rest : wf a -> contents a = b :: rest -> peek a = Ok b.
Proof.
  intros Hw E. pose proof (contents_length a Hw) as Hlen. rewrite E in Hlen. cbn [length] in Hlen.
  destruct Hw as [Hc Hl H0 H1 H2]. apply (f_equal (fun l => l !! 0%nat)) in E. unfold contents in E.
  rewrite lookup_drop, Nat.add_0_r, lookup_take_lt in E by lia. unfold peek. now rewrite E.
Qed.

End Array.

(** ** tmpbuf_linked_list *)
Module LinkedList.
Import Array.

Abbreviation loc := nat.
Record node := mk_node { buffer_array : tmpbuf_array; next : option loc }.
Abbreviation heap := (list (option node)).

Record tmpbuf_linked_list := mk { node_count : Z; head : option loc; tail : option loc }.

Definition new : tmpbuf_linked_list := mk 0 None None.

(** [*p], [p->f = ..], [new tmpbuf_list_node()], [delete p]. *)
Definition deref (h : heap) (p : option loc) : res node :=
  match p with
  | None => Fault NullDeref
  | Some l => match h !! l with
              | Some (Some n) => Ok n
              | Some None => Fault UseAfterFree
              | None => Fault OutOfBounds
              end
  end.
Definition store (h : heap) (p : option loc) (n : node) : res heap :=
  match p with
  | None => Fault NullDeref
  | Some l => _ ← deref h p; Ok (<[l := Some n]> h)
  end.
Definition alloc (h : heap) (n : node) : loc * heap := (length h, h ++ [Some n]).
Definition free (h : heap) (l : loc) : res heap := _ ← deref h (Some l); Ok (<[l := None]> h).

Definition push (h : heap) (L : tmpbuf_linked_list) (buf : tmpbuf) : res (heap * tmpbuf_linked_list) :=
  full ← (if node_count L =? 0 then Ok true
          else t ← deref h (tail L); Ok (is_full (buffer_array t)));
  if full : bool then
    a ← Array.push Array.new buf;
    let '(node, h) := alloc h (mk_node a None) in
    if node_count L =? 0 then
      Ok (h, mk (u32 (node_count L + 1)) (Some node) (Some node))
    else
      t ← deref h (tail L);
      h ← store h (tail L) (mk_node (buffer_array t) (Some node));
      Ok (h, mk (u32 (node_count L + 1)) (head L) (Some node))
  else
    t ← deref h (tail L);
    a ← Array.push (buffer_array t) buf;
    h ← store h (tail L) (mk_node a (next t));
    Ok (h, L).

Fixpoint pop_loop (fuel : nat) (h : heap) (L : tmpbuf_linked_list)
    : res (tmpbuf * heap * tmpbuf_linked_list) :=
  match head L with
  | None => Ok ([], h, L)
  | Some l =>
      match fuel with
      | O => Fault NoFuel
      | S fuel =>
          n ← deref h (head L);
          if negb (Array.empty (buffer_array n)) then
            '(b, a) ← Array.pop (buffer_array n);
            h ← store h (head L) (mk_node a (next n));
            Ok (b, h, L)
          else pop_loop fuel h (mk (u32 (node_count L - 1)) (next n) (tail L))
      end
  end.
Definition pop (h : heap) (L : tmpbuf_linked_list) := pop_loop (S (length h)) h L.

Definition peek (h : heap) (L : tmpbuf_linked_list) : res tmpbuf :=
  n ← deref h (head L); Array.peek (buffer_array n).

Fixpoint size_loop (fuel : nat) (h : heap) (tmp : option loc) (total : Z) : res Z :=
  match tmp with
  | None => Ok total
  | Some l =>
      match fuel with
      | O => Fault NoFuel
      | S fuel =>
          n ← deref h tmp;
          s ← Array.get_buffer_size (buffer_array n);
          size_loop fuel h (next n) (u32 (total + s))
      end
  end.
Definition get_buffer_size (h : heap) (L : tmpbuf_linked_list) : res Z :=
  size_loop (S (length h)) h (head L) 0.

(** The move constructor: the new list, and the moved-from one. *)
Definition move (L : tmpbuf_linked_list) : tmpbuf_linked_list * tmpbuf_linked_list :=
  (mk 0 (head L) (tail L), mk (node_count L) None None).

Fixpoint destroy_loop (fuel : nat) (h : heap) (cur : option loc) : res heap :=
  match cur with
  | None => Ok h
  | Some l =>
      match fuel with
      | O => Fault NoFuel
      | S fuel =>
          n ← deref h cur;
          h ← free h l;
          destroy_loop fuel h (next n)
      end
  end.
Definition destroy (h : heap) (L : tmpbuf_linked_list) : res heap :=
  destroy_loop (S (length h)) h (head L).

End LinkedList.

(** ** serializable_queue *)
Module Queue.

Record serializable_queue := mk {
  _array : Array.tmpbuf_array;
  _list : LinkedList.tmpbuf_linked_list;
  _size : Z
}.
Definition new : serializable_queue := mk Array.new LinkedList.new 0.

Abbreviation heap := LinkedList.heap.

Definition push (h : heap) (q : serializable_queue) (buf : tmpbuf) : res (heap * serializable_queue) :=
  let size := u32 (_size q + 1) in
  if Array.is_full (_array q) then
    '(h, l) ← LinkedList.push h (_list q) buf;
    Ok (h, mk (_array q) l size)
  else
    a ← Array.push (_array q) buf;
    Ok (h, mk a (_list q) size).

Definition peek (h : heap) (q : serializable_queue) : res tmpbuf :=
  if Array.empty (_array q) then LinkedList.peek h (_list q) else Array.peek (_array q).

Definition pop (h : heap) (q : serializable_queue) : res (tmpbuf * heap * serializable_queue) :=
  let size := u32 (_size q - 1) in
  if Array.empty (_array q) then
    '(b, h, l) ← LinkedList.pop h (_list q);
    Ok (b, h, mk (_array q) l size)
  else
    '(b, a) ← Array.pop (_array q);
    Ok (b, h, mk a (_list q) size).

Definition empty (q : serializable_queue) : bool := _size q =? 0.
Definition size (q : serializable_queue) : Z := _size q.

Definition get_buffer_size (h : heap) (q : serializable_queue) : res Z :=
  a ← Array.get_buffer_size (_array q);
  l ← LinkedList.get_buffer_size h (_list q);
  Ok (u32 (a + l)).

(** The implicit move constructor, member by member. *)
Definition move (q : serializable_queue) : serializable_queue :=
  mk (Array.move (_array q)) (fst (LinkedList.move (_list q))) (_size q).

(** The implicit destructor. *)
Definition destroy (h : heap) (q : serializable_queue) : res heap := LinkedList.destroy h (_list q).

End Queue.

(** ** Representation *)
Module Repr.
Import Array LinkedList.

(** The nodes from [p] up to (not including) [q]. *)
Fixpoint lseg (h : heap) (p : option loc) (ns : list (loc * tmpbuf_array)) (q : option loc) : Prop :=
  match ns with
  | [] => p = q
  | (l, a) :: ns => p = Some l /\ exists nx, h !! l = Some (Some (mk_node a nx)) /\ lseg h nx ns q
  end.

Definition locs (ns : list (loc * tmpbuf_array)) : list loc := ns.*1.
Definition list_contents (ns : list (loc * tmpbuf_array)) : list tmpbuf :=
  mjoin ((fun n => contents (snd n)) <$> ns).

(** A node behind the head has never been popped from and is not empty. *)
Definition node_fresh (n : loc * tmpbuf_array) : Prop := cur_idx (snd n) = 0 /\ 0 < size (snd n).

Record list_ok (h : heap) (p : option loc) (ns : list (loc * tmpbuf_array)) : Prop := {
  ok_seg : lseg h p ns None;
  ok_nodup : NoDup (locs ns);
  ok_wf : Forall (fun n => wf (snd n)) ns;
  ok_fresh : Forall node_fresh (List.tl ns)
}.

Lemma lseg_app h ns1 : forall p ns2 q,
  lseg h p (ns1 ++ ns2) q <-> exists r, lseg h p ns1 r /\ lseg h r ns2 q.
Proof.
  induction ns1 as [|[l a] ns1 IH]; intros p ns2 q; cbn.
  - split; [intros H; exists p; auto | intros (r & -> & H); done].
  - split.
    + intros (-> & nx & Hl & H). apply IH in H as (r & H1 & H2). exists r. eauto 6.
    + intros (r & (-> & nx & Hl & H1) & H2). split; [done|]. exists nx. split; [done|].
      apply IH. eauto.
Qed.

Lemma lseg_frame h h' ns : forall p q,
  (forall l, l ∈ locs ns -> h' !! l = h !! l) -> lseg h p ns q -> lseg h' p ns q.
Proof.
  induction ns as [|[l a] ns IH]; intros p q Hf; cbn; [done|].
  intros (-> & nx & Hl & H). split; [done|]. exists nx.
  split; [rewrite Hf; [done|left]|]. apply IH; [|done]. intros. apply Hf. now right.
Qed.

Lemma lseg_bound h ns : forall p q l, lseg h p ns q -> l ∈ locs ns -> (l < length h)%nat.
Proof.
  induction ns as [|[l' a] ns IH]; intros p q l; cbn; [set_solver|].
  intros (-> & nx & Hl & H) [->|Hin]%elem_of_cons; [now apply lookup_lt_Some in Hl | eauto].
Qed.

Lemma lseg_snoc_inv h p ns l a : lseg h p (ns ++ [(l, a)]) None ->
  lseg h p ns (Some l) /\ h !! l = Some (Some (mk_node a None)).
Proof. intros (r & H & -> & nx & Hl & ->)%lseg_app. done. Qed.

Lemma locs_app n1 n2 : locs (n1 ++ n2) = locs n1 ++ locs n2.
Proof. apply fmap_app. Qed.

Lemma list_contents_app n1 n2 : list_contents (n1 ++ n2) = list_contents n1 ++ list_contents n2.
Proof. unfold list_contents. now rewrite fmap_app, join_app. Qed.

Lemma locs_length h p ns q : lseg h p ns q -> NoDup (locs ns) -> (length ns <= length h)%nat.
Proof.
  intros H Hn. rewrite <-(length_fmap fst ns), <-(length_seq (length h) 0).
  apply submseteq_length, NoDup_submseteq; [done|]. intros l Hl.
  apply elem_of_seq. pose proof (lseg_bound _ _ _ _ _ H Hl). lia.
Qed.

Lemma deref_ok h l n : deref h (Some l) = Ok n <-> h !! l = Some (Some n).
Proof. cbn. destruct (h !! l) as [[m|]|]; split; congruence. Qed.

Lemma store_ok h l n m : h !! l = Some (Some m) -> store h (Some l) n = Ok (<[l := Some n]> h).
Proof. intros H. unfold store. rewrite (proj2 (deref_ok h l m) H). done. Qed.

(** Changing the last node, given the invariant of the nodes before it. *)
Lemma lseg_set_last h p ns l a n :
  lseg h p (ns ++ [(l, a)]) None -> NoDup (locs (ns ++ [(l, a)])) ->
  lseg (<[l := Some n]> h) p (ns ++ [(l, buffer_array n)]) (next n).
Proof.
  intros H Hn. pose proof (lseg_snoc_inv _ _ _ _ _ H) as [H1 H2].
  apply lseg_app. exists (Some l). split.
  - eapply lseg_frame; [|exact H1]. intros l' Hl'. rewrite list_lookup_insert_ne; [done|].
    intros ->. rewrite locs_app in Hn. apply NoDup_app in Hn as (_ & Hd & _).
    eapply Hd; [exact Hl'|left].
  - cbn. split; [done|]. exists (next n). destruct n. split; [|done].
    rewrite list_lookup_insert_eq; [done|]. now apply lookup_lt_Some in H2.
Qed.

Lemma list_ok_app_alloc h p ns x : list_ok h p ns -> list_ok (h ++ [x]) p ns.
Proof.
  intros [H1 H2 H3 H4]. split; [|done..]. eapply lseg_frame; [|exact H1].
  intros l Hl. pose proof (lseg_bound _ _ _ _ _ H1 Hl). now rewrite lookup_app_l by lia.
Qed.

Lemma tl_app_cons {A} (l1 l2 : list A) x : List.tl ((x :: l1) ++ l2) = List.tl (x :: l1) ++ l2.
Proof. reflexivity. Qed.

End Repr.

(** ** What the list operations do *)
Module ListSpec.
Import Array LinkedList Repr.

(** [pushed] counts the buffers pushed so far.  Every node but the last is full, and
    once a node was unlinked the head has been popped from. *)
Record inv (h : heap) (L : tmpbuf_linked_list) (ns : list (loc * tmpbuf_array)) (pushed : Z) : Prop := {
  inv_ok : list_ok h (head L) ns;
  inv_tail : tail L = last (locs ns);
  inv_count : node_count L = Z.of_nat (length ns);
  inv_pushed : 4 * Z.of_nat (length h) = pushed + match last ns with Some (_, a) => 4 - size a | None => 0 end;
  inv_size : match last ns with Some (_, a) => 0 < size a | None => h = [] end;
  inv_live : Forall is_Some h;
  inv_full : Forall (fun n => size (snd n) = 4) (removelast ns);
  inv_head : match ns with (_, a) :: _ => (length ns < length h)%nat -> 0 < cur_idx a | [] => True end
}.

Lemma list_inv_new : inv [] new [] 0.
Proof. split; cbn; try done; try constructor; cbn; try done; try constructor. Qed.

Lemma new_node_ok buf :
  exists a, Array.push Array.new buf = Ok a /\ wf a /\ contents a = [buf] /\ size a = 1 /\ cur_idx a = 0.
Proof. destruct (push_ok Array.new buf array_wf_new eq_refl) as (a & ? & ? & ? & ? & ?). exists a. done. Qed.

Lemma inv_bound h L ns pushed :
  inv h L ns pushed -> Z.of_nat (length ns) <= Z.of_nat (length h) <= pushed.
Proof.
  intros [[H1 H2 H3 H4] Ht Hc Hp Hs Hl _ _]. pose proof (locs_length _ _ _ _ H1 H2).
  destruct (last ns) as [[l a]|] eqn:El; [|subst h; cbn in *; lia]. split; [lia|].
  destruct h as [|x h]; cbn [length] in *; [|lia].
  apply last_Some in El as [n0 ->]. rewrite length_app in H. cbn in H. lia.
Qed.

Lemma live_app h (x : node) : Forall is_Some h -> Forall is_Some (h ++ [Some x]).
Proof. intros. apply Forall_app; split; [done|]. apply Forall_singleton. eauto. Qed.

Lemma live_cells_insert h l (x : node) : Forall is_Some h -> Forall is_Some (<[l := Some x]> h).
Proof. intros. apply Forall_insert; eauto. Qed.

Lemma tail_snoc n0 (l : loc) (a : tmpbuf_array) : last (locs (n0 ++ [(l, a)])) = Some l.
Proof. rewrite locs_app. cbn. apply last_snoc. Qed.

(** [push] into an empty list, into a full last node, into a last node with room. *)
Lemma push_first h L pushed buf :
  inv h L [] pushed ->
  exists h' L' ns', push h L buf = Ok (h', L') /\ inv h' L' ns' (pushed + 1) /\
    list_contents ns' = [buf].
Proof.
  intros [Hok Ht Hc Hp Hs Hl _ _]. cbn in Hs, Hp, Hc. subst h. cbn in Hp.
  destruct (new_node_ok buf) as (a & Ea & Hw & Hcont & Hsz & Hcur).
  unfold push. rewrite Hc. cbn [Z.eqb Z.of_nat length mbind res_bind]. rewrite Ea.
  cbn. do 2 eexists. exists [(0%nat, a)]. split; [reflexivity|]. split.
  - split; cbn; try done; [|lia|lia|by apply Forall_singleton; eauto|lia].
    split; cbn; [eauto|by repeat constructor; set_solver|by apply Forall_singleton|done].
  - cbn. now rewrite app_nil_r.
Qed.

Lemma push_new_node h L n0 l a pushed buf :
  inv h L (n0 ++ [(l, a)]) pushed -> is_full a = true -> pushed < 4294967295 ->
  exists h' L' ns', push h L buf = Ok (h', L') /\ inv h' L' ns' (pushed + 1) /\
    list_contents ns' = list_contents (n0 ++ [(l, a)]) ++ [buf].
Proof.
  intros Hi Hf Hb. pose proof (inv_bound _ _ _ _ Hi) as Hbd.
  destruct Hi as [[H1 H2 H3 H4] Ht Hc Hp Hs Hl Hfu Hh]. rewrite removelast_last in Hfu.
  assert (Hsa : size a = 4).
  { apply Forall_app in H3 as [_ H3]. rewrite Forall_singleton in H3. cbn [snd] in H3.
    destruct H3. unfold is_full in Hf. lia. }
  rewrite last_snoc in Hp, Hs. rewrite tail_snoc in Ht.
  pose proof (lseg_snoc_inv _ _ _ _ _ H1) as [Hs1 Hs2].
  pose proof (lookup_lt_Some _ _ _ Hs2) as Hlt.
  destruct (new_node_ok buf) as (a' & Ea & Hw & Hcont & Hsz & Hcur).
  rewrite length_app in Hc, Hbd. cbn [length] in Hc, Hbd.
  unfold push. rewrite Hc, (proj2 (Z.eqb_neq _ _)) by lia. rewrite Ht, (proj2 (deref_ok _ _ _) Hs2).
  cbn [mbind res_bind buffer_array]. rewrite Hf, Ea. cbn [mbind res_bind alloc].
  assert (Hs3 : (h ++ [Some (mk_node a' None)]) !! l = Some (Some (mk_node a None)))
    by (rewrite lookup_app_l by lia; done).
  rewrite (proj2 (deref_ok _ _ _) Hs3). cbn [mbind res_bind buffer_array].
  rewrite (store_ok _ _ _ _ Hs3). cbn [mbind res_bind].
  do 2 eexists. exists ((n0 ++ [(l, a)]) ++ [(length h, a')]). split; [reflexivity|].
  assert (Hnin : length h ∉ locs (n0 ++ [(l, a)])).
  { intros Hin. pose proof (lseg_bound _ _ _ _ _ H1 Hin). lia. }
  split; [|rewrite list_contents_app; cbn; now rewrite Hcont, app_nil_r].
  split; cbn [head tail node_count].
  - split.
    + apply lseg_app. exists (Some (length h)). split.
      * apply lseg_app. exists (Some l). split.
        -- eapply lseg_frame; [|exact Hs1]. intros l' Hl'.
           assert (l' <> l).
           { intros ->. rewrite locs_app in H2. apply NoDup_app in H2 as (_ & Hd & _).
             eapply Hd; [exact Hl'|left]. }
           pose proof (lseg_bound _ _ _ _ _ Hs1 Hl').
           rewrite list_lookup_insert_ne by done. now rewrite lookup_app_l by lia.
        -- cbn. split; [done|]. exists (Some (length h)). split; [|done].
           apply list_lookup_insert_eq. rewrite length_app. cbn. lia.
      * cbn. split; [done|]. exists None. split; [|done].
        rewrite list_lookup_insert_ne by lia.
        rewrite lookup_app_r by lia. now rewrite Nat.sub_diag.
    + rewrite locs_app. apply NoDup_app. split; [done|]. split; [|apply NoDup_singleton].
      intros x Hx ->%list_elem_of_singleton. done.
    + apply Forall_app. split; [done|]. now apply Forall_singleton.
    + destruct n0 as [|x n0]; cbn in *; [|rewrite !Forall_app in *; destruct H4];
        repeat split; try done; rewrite ?Forall_singleton; split; cbn; lia.
  - now rewrite tail_snoc.
  - rewrite !length_app. cbn [length]. rewrite u32_small; lia.
  - rewrite last_snoc, length_insert, length_app. cbn [length]. lia.
  - rewrite last_snoc. lia.
  - apply live_cells_insert, live_app, Hl.
  - rewrite removelast_last. apply Forall_app. split; [done|]. now apply Forall_singleton.
  - rewrite length_insert, (length_app h), (length_app (_ ++ _)). cbn [length].
    destruct n0 as [|[l0 a0] n0]; cbn [app length] in *; intros; apply Hh; lia.
Qed.

Lemma push_room h L n0 l a pushed buf :
  inv h L (n0 ++ [(l, a)]) pushed -> is_full a = false ->
  exists h' L' ns', push h L buf = Ok (h', L') /\ inv h' L' ns' (pushed + 1) /\
    list_contents ns' = list_contents (n0 ++ [(l, a)]) ++ [buf].
Proof.
  intros [[H1 H2 H3 H4] Ht Hc Hp Hs Hl Hfu Hh] Hf. rewrite removelast_last in Hfu.
  rewrite last_snoc in Hp, Hs. rewrite tail_snoc in Ht.
  pose proof (lseg_snoc_inv _ _ _ _ _ H1) as [Hs1 Hs2].
  rewrite length_app in Hc. cbn [length] in Hc.
  apply Forall_app in H3 as [H3 Hwa]. rewrite Forall_singleton in Hwa. cbn in Hwa.
  destruct (push_ok a buf Hwa Hf) as (a' & Ea & Hw & Hcont & Hsz & Hcur).
  unfold push. rewrite Hc, (proj2 (Z.eqb_neq _ _)) by lia. rewrite Ht, (proj2 (deref_ok _ _ _) Hs2).
  cbn [mbind res_bind buffer_array]. rewrite Hf, Ea. cbn [mbind res_bind].
  rewrite (store_ok _ _ _ _ Hs2). cbn [mbind res_bind next].
  do 2 eexists. exists (n0 ++ [(l, a')]). split; [reflexivity|]. split.
  - split.
    + split.
      * apply (lseg_set_last _ _ _ _ _ (mk_node a' None) H1 H2).
      * rewrite locs_app in *. exact H2.
      * apply Forall_app. split; [done|]. now apply Forall_singleton.
      * destruct n0 as [|x n0]; cbn in *; [constructor|]. rewrite !Forall_app in *.
        destruct H4 as [H4 H5]. split; [done|]. rewrite Forall_singleton in *.
        destruct H5. cbn in *. split; cbn; lia.
    + rewrite tail_snoc. exact Ht.
    + rewrite length_app. exact Hc.
    + rewrite last_snoc, length_insert. lia.
    + rewrite last_snoc. lia.
    + apply live_cells_insert, Hl.
    + now rewrite removelast_last.
    + rewrite length_insert. destruct n0 as [|[l0 a0] n0]; cbn [app length] in *; [lia|].
      rewrite length_app in *. exact Hh.
  - rewrite !list_contents_app. cbn. rewrite !app_nil_r, Hcont. now rewrite app_assoc.
Qed.

Lemma push_spec h L ns pushed buf :
  inv h L ns pushed -> pushed < 4294967295 ->
  exists h' L' ns', push h L buf = Ok (h', L') /\ inv h' L' ns' (pushed + 1) /\
    list_contents ns' = list_contents ns ++ [buf].
Proof.
  intros Hi Hb. destruct ns as [|[l a] n0 _] using rev_ind; [eapply push_first; eauto|].
  destruct (is_full a) eqn:Hf; [eapply push_new_node | eapply push_room]; eauto.
Qed.

(** What [pop] leaves of the nodes: their addresses and sizes at the tail end,
    and, of a heap, its cells. *)
Definition shape (ns : list (loc * tmpbuf_array)) : option (loc * Z) :=
  last ((fun n => (fst n, size (snd n))) <$> ns).

Record popped (h : heap) (L : tmpbuf_linked_list) (ns : list (loc * tmpbuf_array))
    (h' : heap) (L' : tmpbuf_linked_list) (ns' : list (loc * tmpbuf_array)) : Prop := {
  po_ok : list_ok h' (head L') ns';
  po_tail : tail L' = tail L;
  po_count : wrap 32 (node_count L' - Z.of_nat (length ns')) = wrap 32 (node_count L - Z.of_nat (length ns));
  po_in : 0 <= node_count L < 4294967296 -> 0 <= node_count L' < 4294967296;
  po_shape : shape ns' = shape ns;
  po_len : length h' = length h;
  po_live : Forall is_Some h -> Forall is_Some h';
  po_full : Forall (fun n => size (snd n) = 4) (removelast ns) ->
            Forall (fun n => size (snd n) = 4) (removelast ns');
  po_head : match ns' with (_, a) :: _ => 0 < cur_idx a | [] => True end
}.

Lemma list_ok_tail h l a nx ns :
  list_ok h (Some l) ((l, a) :: ns) -> h !! l = Some (Some (mk_node a nx)) -> list_ok h nx ns.
Proof.
  intros [(_ & nx' & Hl & H1) H2 H3 H4] Hl'. rewrite Hl in Hl'. simplify_eq.
  apply NoDup_cons in H2 as [_ H2]. apply Forall_cons in H3 as [_ H3]. cbn in H4.
  split; try done. destruct ns; [done|]. now apply Forall_cons in H4 as [_ H4].
Qed.

Lemma pop_here h L l a ns b rest :
  list_ok h (head L) ((l, a) :: ns) -> contents a = b :: rest ->
  exists a' nx h', h !! l = Some (Some (mk_node a nx)) /\ Array.pop a = Ok (b, a') /\
    store h (Some l) (mk_node a' nx) = Ok h' /\
    popped h L ((l, a) :: ns) h' L ((l, a') :: ns) /\ contents a' = rest.
Proof.
  intros [(Hh & nx & Hl & H1) H2 H3 H4] Ec.
  apply Forall_cons in H3 as [Hw H3]. cbn in Hw. apply NoDup_cons in H2 as [H2 H2'].
  destruct (pop_ok a b rest Hw Ec) as (a' & Ep & Hw' & Ec' & Es & Ei).
  exists a', nx, (<[l := Some (mk_node a' nx)]> h). do 2 (split; [done|]).
  split; [now apply store_ok with (mk_node a nx)|]. split; [|done].
  pose proof (lookup_lt_Some _ _ _ Hl) as Hlt. split; try done.
  - split; cbn.
    + split; [done|]. exists nx. split; [now rewrite list_lookup_insert_eq|].
      eapply lseg_frame; [|exact H1]. intros l' Hl'. rewrite list_lookup_insert_ne; [done|].
      intros ->. done.
    + now apply NoDup_cons.
    + now apply Forall_cons.
    + done.
  - unfold shape. cbn. rewrite Es. done.
  - apply length_insert.
  - apply live_cells_insert.
  - destruct ns; [done|]. cbn [removelast]. rewrite !Forall_cons. cbn [snd]. now rewrite Es.
  - destruct Hw. lia.
Qed.

Lemma popped_skip h L l a nx ns h' L' ns' :
  ns <> [] ->
  popped h (mk (u32 (node_count L - 1)) nx (tail L)) ns h' L' ns' -> popped h L ((l, a) :: ns) h' L' ns'.
Proof.
  intros Hne [H1 H2 H3 H3' H4 H5 H6 H7 H8]. cbn in H2, H3, H3'. split; try done.
  - rewrite H3. unfold wrap. rewrite Zminus_mod_idemp_l. f_equal. cbn [length]. lia.
  - intros _. apply H3'. apply u32_range.
  - rewrite H4. unfold shape. destruct ns; [done|reflexivity].
  - intros Hf. apply H7. destruct ns; [done|]. now apply Forall_cons in Hf as [_ Hf].
Qed.

Lemma pop_loop_spec ns : forall fuel h L b rest,
  list_ok h (head L) ns -> list_contents ns = b :: rest -> (length ns <= fuel)%nat ->
  exists h' L' ns', pop_loop fuel h L = Ok (b, h', L') /\ popped h L ns h' L' ns' /\
    list_contents ns' = rest.
Proof.
  induction ns as [|[l a] ns IH]; intros fuel h L b rest Hok Ec Hf; [discriminate|].
  destruct fuel as [|fuel]; cbn [length] in Hf; [lia|].
  pose proof Hok as [(Hh & nx & Hl & Hseg) Hnd Hwf Hfr].
  pose proof Hwf as [Hw _]%Forall_cons. cbn in Hw.
  cbn [pop_loop]. rewrite Hh, (proj2 (deref_ok _ _ _) Hl). cbn [mbind res_bind buffer_array next].
  destruct (contents a) as [|x ca] eqn:Eca.
  - rewrite (proj2 (empty_spec a Hw)) by done. cbn [negb].
    rewrite Hh in Hok. pose proof (list_ok_tail _ _ _ _ _ Hok Hl) as Hok'.
    assert (Hne : ns <> []).
    { intros ->. unfold list_contents in Ec. cbn in Ec. rewrite Eca in Ec. discriminate. }
    assert (Ec' : list_contents ns = b :: rest).
    { unfold list_contents in *. cbn in Ec. rewrite Eca in Ec. exact Ec. }
    destruct (IH fuel h (mk (u32 (node_count L - 1)) nx (tail L)) b rest Hok' Ec')
      as (h' & L' & ns' & E & Hp & Hc); [lia|].
    exists h', L', ns'. split; [exact E|]. split; [|done]. eapply popped_skip; eauto.
  - destruct (Array.empty a) eqn:Ee; [apply empty_spec in Ee; congruence|]. cbn [negb].
    destruct (pop_here h L l a ns x ca Hok Eca) as (a' & nx' & h' & Hl' & Ep & Es & Hp & Ec').
    rewrite Hl in Hl'. simplify_eq. rewrite Ep. cbn [mbind res_bind]. rewrite Es.
    cbn [mbind res_bind]. unfold list_contents in Ec. cbn in Ec. rewrite Eca in Ec.
    cbn in Ec. simplify_eq. do 2 eexists. exists ((l, a') :: ns). split; [reflexivity|].
    split; [done|]. reflexivity.
Qed.

Lemma pop_spec h L ns b rest :
  list_ok h (head L) ns -> list_contents ns = b :: rest ->
  exists h' L' ns', pop h L = Ok (b, h', L') /\ popped h L ns h' L' ns' /\ list_contents ns' = rest.
Proof.
  intros H E. apply pop_loop_spec with (ns := ns); [done..|].
  pose proof (locs_length _ _ _ _ (ok_seg _ _ _ H) (ok_nodup _ _ _ H)). lia.
Qed.

Lemma shape_last ns ns' : shape ns = shape ns' -> last (locs ns) = last (locs ns').
Proof.
  intros H. unfold shape, locs in *. apply (f_equal (fmap fst)) in H.
  rewrite <-!fmap_last, <-!list_fmap_compose in H. exact H.
Qed.

Lemma shape_size (ns : list (loc * tmpbuf_array)) :
  fmap snd (shape ns) = fmap (fun n => size (snd n)) (last ns).
Proof. unfold shape. rewrite fmap_last. now destruct (last ns). Qed.

Lemma inv_popped h L ns h' L' ns' pushed :
  inv h L ns pushed -> pushed < 4294967296 -> popped h L ns h' L' ns' -> inv h' L' ns' pushed.
Proof.
  intros Hi Hb [Hok Ht Hc Hin Hs Hlen Hlive Hfu Hhd]. pose proof (inv_bound _ _ _ _ Hi) as Hbd.
  destruct Hi as [Hok0 Ht0 Hc0 Hp0 Hs0 Hl0 Hf0 Hh0].
  pose proof (locs_length _ _ _ _ (ok_seg _ _ _ Hok) (ok_nodup _ _ _ Hok)) as Hln.
  pose proof (shape_size ns) as E1. pose proof (shape_size ns') as E2. rewrite Hs in E2.
  rewrite E1 in E2. split; try done.
  - rewrite Ht, Ht0. now apply shape_last.
  - rewrite Hc0, Z.sub_diag in Hc. specialize (Hin ltac:(lia)).
    apply Z.mod_divide in Hc as [k Hk]; [|done]. change (2 ^ 32) with 4294967296 in Hk. lia.
  - rewrite Hlen. destruct (last ns) as [[? ?]|], (last ns') as [[? ?]|]; cbn in E2; simplify_eq; lia.
  - destruct (last ns) as [[? ?]|], (last ns') as [[? ?]|]; cbn in E2; simplify_eq; [lia|].
    now apply length_zero_iff_nil in Hlen.
  - auto.
  - auto.
  - destruct ns' as [|[? ?] ?]; auto.
Qed.

(** *** get_buffer_size *)
Lemma array_size_loop a : wf a -> forall fuel i t,
  0 <= i <= size a -> size a - i <= Z.of_nat fuel -> 0 <= t < 4294967296 ->
  Array.size_loop fuel i a t = Ok (u32 (t + total (drop (Z.to_nat i) (take (Z.to_nat (size a)) (buffers a))))).
Proof.
  intros [Hc Hl H0 H1 H2]. induction fuel as [|fuel IH]; intros i t Hi Hf Ht; cbn [Array.size_loop];
    destruct (Z.ltb_spec i (size a)) as [Hlt|Hge]; try lia.
  1,3: rewrite drop_ge by (rewrite length_take; lia);
       unfold total; cbn; rewrite Z.add_0_r, u32_small by lia; done.
  destruct (lookup_lt_is_Some_2 (buffers a) (Z.to_nat i)) as [b Hb]; [lia|].
  rewrite Hb. cbn [of_option mbind res_bind].
  rewrite IH; [|rewrite (u32_small (i + 1)) by lia; lia|rewrite (u32_small (i + 1)) by lia; lia|apply u32_range].
  f_equal. rewrite wrap_add_l, (u32_small (i + 1)) by lia. f_equal.
  replace (Z.to_nat (i + 1)) with (S (Z.to_nat i)) by lia.
  rewrite (drop_S (take (Z.to_nat (size a)) (buffers a)) b (Z.to_nat i))
    by (rewrite lookup_take_lt by lia; done).
  rewrite total_cons. lia.
Qed.

Lemma array_get_buffer_size a : wf a -> Array.get_buffer_size a = Ok (u32 (total (contents a))).
Proof.
  intros Hw. unfold Array.get_buffer_size. destruct (Hw).
  rewrite (array_size_loop a Hw); [done|lia|unfold ARRAY_BUFFER_SIZE; lia|lia].
Qed.

Lemma list_size_loop ns : forall fuel h p t,
  lseg h p ns None -> Forall (fun n => wf (snd n)) ns -> (length ns <= fuel)%nat ->
  0 <= t < 4294967296 ->
  LinkedList.size_loop fuel h p t = Ok (u32 (t + total (list_contents ns))).
Proof.
  induction ns as [|[l a] ns IH]; intros fuel h p t H Hw Hf Ht.
  - cbn in H. subst p. unfold total. cbn. rewrite Z.add_0_r, u32_small by lia. now destruct fuel.
  - destruct H as (-> & nx & Hl & H). destruct fuel as [|fuel]; cbn [length] in Hf; [lia|].
    apply Forall_cons in Hw as [Hw Hws]. cbn [LinkedList.size_loop].
    rewrite (proj2 (deref_ok _ _ _) Hl). cbn [mbind res_bind buffer_array next].
    rewrite (array_get_buffer_size a Hw). cbn [mbind res_bind].
    rewrite (IH fuel h nx _ H Hws) by (lia || apply u32_range). f_equal.
    rewrite wrap_add_l, (Z.add_comm t), <-Z.add_assoc, wrap_add_l. f_equal.
    change (list_contents ((l, a) :: ns)) with (contents a ++ list_contents ns).
    rewrite total_app. lia.
Qed.

Lemma list_get_buffer_size h L ns :
  list_ok h (head L) ns -> LinkedList.get_buffer_size h L = Ok (u32 (total (list_contents ns))).
Proof.
  intros H. pose proof (locs_length _ _ _ _ (ok_seg _ _ _ H) (ok_nodup _ _ _ H)).
  unfold LinkedList.get_buffer_size.
  rewrite (list_size_loop ns) by (apply H || lia). done.
Qed.

(** *** The destructor *)
Definition live_cells (h : heap) : nat :=
  length (List.filter (fun c => match c with Some _ => true | None => false end) h).

Lemma live_cells_free h : forall l n, h !! l = Some (Some n) -> live_cells h = S (live_cells (<[l := None]> h)).
Proof.
  unfold live_cells. induction h as [|[c|] h IH]; intros [|l] n; cbn; intros H; simplify_eq; try done.
  - f_equal. eauto.
  - eauto.
Qed.

Lemma live_cells_all h : Forall is_Some h -> live_cells h = length h.
Proof.
  unfold live_cells. induction 1 as [|c h [x ->] _ IH]; cbn; [done|]. now f_equal.
Qed.

Lemma destroy_spec ns : forall fuel h p,
  lseg h p ns None -> NoDup (locs ns) -> (length ns <= fuel)%nat ->
  exists h', destroy_loop fuel h p = Ok h' /\ (live_cells h' + length ns = live_cells h)%nat.
Proof.
  induction ns as [|[l a] ns IH]; intros fuel h p H Hn Hf.
  - cbn in H. subst p. exists h. destruct fuel; cbn; split; (done || lia).
  - destruct H as (-> & nx & Hl & H). destruct fuel as [|fuel]; cbn [length] in Hf; [lia|].
    apply NoDup_cons in Hn as [Hin Hn]. cbn [destroy_loop].
    rewrite (proj2 (deref_ok _ _ _) Hl). cbn [mbind res_bind next]. unfold free.
    rewrite (proj2 (deref_ok _ _ _) Hl). cbn [mbind res_bind].
    destruct (IH fuel (<[l := None]> h) nx) as (h' & E & Hlive); [|done|lia|].
    + eapply lseg_frame; [|exact H]. intros l' Hl'. rewrite list_lookup_insert_ne; [done|].
      intros ->. done.
    + exists h'. split; [exact E|]. rewrite (live_cells_free h l _ Hl). cbn [length]. lia.
Qed.

End ListSpec.

(** ** The queue refines a list of buffers *)
Module QueueSpec.
Import Array Repr ListSpec Queue.

(** [n] is the number of buffers pushed since the queue was made. *)
Record queue_rel (h : heap) (q : serializable_queue) (s : list tmpbuf) (n : Z) : Prop := {
  q_array : wf (_array q);
  q_list : exists ns, inv h (_list q) ns (n - Array.size (_array q)) /\
             s = contents (_array q) ++ list_contents ns /\
             (is_full (_array q) = false -> ns = []);
  q_size : _size q = Z.of_nat (length s);
  q_len : Z.of_nat (length s) <= n;
  q_cur : cur_idx (_array q) < 4 -> n - Z.of_nat (length s) = cur_idx (_array q)
}.

Lemma queue_rel_new : queue_rel [] new [] 0.
Proof.
  split; [apply array_wf_new| |done|cbn; lia|done]. exists []. split; [apply list_inv_new|done].
Qed.

Lemma queue_push h q s n b :
  queue_rel h q s n -> n < 4294967295 ->
  exists h' q', push h q b = Ok (h', q') /\ queue_rel h' q' (s ++ [b]) (n + 1).
Proof.
  intros [Hw (ns & Hi & -> & Hfull) Hs Hn Hcur] Hb.
  assert (Hsz : u32 (_size q + 1) = Z.of_nat (length ((contents (_array q) ++ list_contents ns) ++ [b]))).
  { rewrite Hs, u32_small by lia. rewrite (length_app _ [b]). cbn [length]. lia. }
  assert (Hlen : Z.of_nat (length ((contents (_array q) ++ list_contents ns) ++ [b])) <= n + 1)
    by (rewrite (length_app _ [b]); cbn [length]; lia).
  destruct (Hw) as [Hc _ H0 H1 H2].
  unfold push. destruct (is_full (_array q)) eqn:Hf.
  - destruct (push_spec h (_list q) ns _ b Hi) as (h' & L' & ns' & E & Hi' & Ec); [lia|].
    rewrite E. cbn [mbind res_bind]. do 2 eexists. split; [reflexivity|].
    split; cbn [_array _list _size]; try done; [|rewrite (length_app _ [b]); cbn [length]; lia].
    exists ns'. rewrite Ec, app_assoc.
    split; [|split; [done|congruence]].
    now replace (n + 1 - Array.size (_array q)) with (n - Array.size (_array q) + 1) by lia.
  - rewrite (Hfull eq_refl) in *. destruct (push_ok (_array q) b Hw Hf) as (a' & E & Hw' & Ec & Es & Ei).
    rewrite E. cbn [mbind res_bind]. do 2 eexists. split; [reflexivity|].
    split; cbn [_array _list _size]; try done;
      [|rewrite Ei, (length_app _ [b]); cbn [length]; lia].
    exists []. rewrite Ec, Es. split; [|split; [|done]].
    + now replace (n + 1 - (Array.size (_array q) + 1)) with (n - Array.size (_array q)) by lia.
    + change (list_contents []) with (@nil tmpbuf). now rewrite !app_nil_r.
Qed.

Lemma queue_pop h q s n b :
  queue_rel h q (b :: s) n -> n < 4294967296 ->
  exists h' q', pop h q = Ok (b, h', q') /\ queue_rel h' q' s n.
Proof.
  intros [Hw (ns & Hi & Hcont & Hfull) Hs Hn Hcur] Hb. cbn [length] in Hs, Hn, Hcur.
  assert (Hsz : u32 (_size q - 1) = Z.of_nat (length s)) by (rewrite Hs, u32_small by lia; lia).
  destruct (Hw) as [Hc _ H0 H1 H2]. unfold pop. destruct (Array.empty (_array q)) eqn:He.
  - apply empty_spec in He; [|done]. rewrite He in Hcont. cbn in Hcont.
    destruct (ListSpec.pop_spec h (_list q) ns b s (inv_ok _ _ _ _ Hi) (eq_sym Hcont))
      as (h' & L' & ns' & E & Hp & Ec).
    rewrite E. cbn [mbind res_bind]. do 2 eexists. split; [reflexivity|].
    assert (Hf4 : cur_idx (_array q) = 4).
    { pose proof (contents_length _ Hw) as Hl. rewrite He in Hl. cbn in Hl.
      destruct (is_full (_array q)) eqn:Hf; [unfold is_full in Hf; lia|].
      rewrite (Hfull eq_refl) in Hcont. discriminate. }
    split; cbn [_array _list _size]; try done; [|lia|lia]. exists ns'. split; [|split].
    + eapply inv_popped; [exact Hi| lia |exact Hp].
    + now rewrite He, Ec.
    + intros Hf. rewrite (Hfull Hf) in Hcont. discriminate.
  - destruct (contents (_array q)) as [|x c] eqn:Ec.
    { apply (empty_spec _ Hw) in Ec. congruence. }
    cbn in Hcont. simplify_eq. destruct (pop_ok (_array q) x c Hw Ec) as (a' & E & Hw' & Ec' & Es & Ei).
    rewrite E. cbn [mbind res_bind]. do 2 eexists. split; [reflexivity|].
    split; cbn [_array _list _size]; try done; [|lia|lia]. exists ns. rewrite Es, Ec'. repeat split; try apply Hi.
    intros Hf. apply Hfull. unfold is_full in *. rewrite Es in Hf. rewrite (wf_cap _ Hw') in Hf. now rewrite Hc.
Qed.

Lemma queue_get_buffer_size h q s n :
  queue_rel h q s n -> get_buffer_size h q = Ok (u32 (total s)).
Proof.
  intros [Hw (ns & Hi & -> & _) _ _ _]. unfold get_buffer_size.
  rewrite (array_get_buffer_size _ Hw), (list_get_buffer_size _ _ _ (inv_ok _ _ _ _ Hi)).
  cbn [mbind res_bind]. f_equal. rewrite total_app, wrap_add_l.
  rewrite (Z.add_comm (total (contents _))), wrap_add_l. f_equal. lia.
Qed.

Lemma queue_empty h q s n : queue_rel h q s n -> empty q = true <-> s = [].
Proof.
  intros [_ _ Hs _ _]. unfold empty. rewrite Hs, Z.eqb_eq, <-length_zero_iff_nil. lia.
Qed.

(** *** Draining, and the move constructor *)
Record drain_rel (h : heap) (q : serializable_queue) (s : list tmpbuf) : Prop := {
  d_array : wf (_array q);
  d_list : exists ns, list_ok h (LinkedList.head (_list q)) ns /\
             s = contents (_array q) ++ list_contents ns
}.

Lemma drain_pop h q b s :
  drain_rel h q (b :: s) -> exists h' q', pop h q = Ok (b, h', q') /\ drain_rel h' q' s.
Proof.
  intros [Hw (ns & Hok & Hcont)]. unfold pop. destruct (Array.empty (_array q)) eqn:He.
  - apply empty_spec in He; [|done]. rewrite He in Hcont. cbn in Hcont.
    destruct (ListSpec.pop_spec h (_list q) ns b s Hok (eq_sym Hcont)) as (h' & L' & ns' & E & Hp & Ec).
    rewrite E. cbn [mbind res_bind]. do 2 eexists. split; [reflexivity|]. split; [done|].
    exists ns'. split; [apply Hp|]. cbn [_array]. now rewrite He, Ec.
  - destruct (contents (_array q)) as [|x c] eqn:Ec.
    { apply (empty_spec _ Hw) in Ec. congruence. }
    cbn in Hcont. simplify_eq. destruct (pop_ok (_array q) x c Hw Ec) as (a' & E & Hw' & Ec' & Es & Ei).
    rewrite E. cbn [mbind res_bind]. do 2 eexists. split; [reflexivity|]. split; [done|].
    exists ns. cbn [_array _list]. now rewrite Ec'.
Qed.

Lemma contents_le ns :
  Forall (fun n => wf (snd n)) ns ->
  Z.of_nat (length (list_contents ns)) + match last ns with Some (_, a) => 4 - Array.size a | None => 0 end
    <= 4 * Z.of_nat (length ns).
Proof.
  induction ns as [|[l a] ns _] using rev_ind; intros Hw; [cbn; lia|].
  apply Forall_app in Hw as [Hws Hw]. rewrite Forall_singleton in Hw. cbn [snd] in Hw.
  rewrite last_snoc, list_contents_app, !length_app.
  change (list_contents [(l, a)]) with (contents a ++ []). rewrite app_nil_r.
  pose proof (contents_length a Hw). destruct Hw. cbn [length].
  assert (Z.of_nat (length (list_contents ns)) <= 4 * Z.of_nat (length ns)); [|lia].
  clear -Hws. induction Hws as [|[l a] ns Hw _ IH]; [done|].
  change (list_contents ((l, a) :: ns)) with (contents a ++ list_contents ns).
  cbn [snd] in Hw. pose proof (contents_length a Hw). destruct Hw. rewrite length_app. cbn [length]. lia.
Qed.

Lemma unpopped_cur h q s : queue_rel h q s (Z.of_nat (length s)) -> cur_idx (_array q) = 0.
Proof.
  intros [Hw (ns & Hi & Hcont & _) _ _ _].
  pose proof (contents_le ns (ok_wf _ _ _ (inv_ok _ _ _ _ Hi))) as Hle.
  pose proof (inv_bound _ _ _ _ Hi). pose proof (inv_pushed _ _ _ _ Hi).
  pose proof (contents_length _ Hw) as Hlen. rewrite Hcont, length_app in *.
  destruct (Hw). destruct (last ns) as [[? ?]|]; lia.
Qed.

Lemma array_move_same a : cur_idx a = 0 -> Array.move a = a.
Proof. destruct a; cbn. now intros ->. Qed.

(** A queue nothing was popped from is moved without loss. *)
Lemma move_drains h q s : queue_rel h q s (Z.of_nat (length s)) -> drain_rel h (move q) s.
Proof.
  intros Hr. pose proof (unpopped_cur _ _ _ Hr) as H0. destruct Hr as [Hw (ns & Hi & Hcont & _) _ _ _].
  unfold move. split; cbn [_array _list]; rewrite (array_move_same _ H0); [done|].
  exists ns. split; [apply Hi|done].
Qed.

(** *** [peek] *)
(** How many buffers the list holds, from the position of its head. *)
Lemma list_length_pos ns : forall l a,
  Forall (fun n => wf (snd n)) ((l, a) :: ns) -> Forall node_fresh ns ->
  Forall (fun n => Array.size (snd n) = 4) (removelast ((l, a) :: ns)) ->
  Z.of_nat (length (list_contents ((l, a) :: ns))) + cur_idx a
    + match last ((l, a) :: ns) with Some (_, z) => 4 - Array.size z | None => 0 end
  = 4 * (Z.of_nat (length ns) + 1).
Proof.
  induction ns as [|[l' a'] ns IH]; intros l a [Hw Hws]%Forall_cons Hfr Hfu; cbn [snd] in Hw;
    change (list_contents ((l, a) :: ?x)) with (contents a ++ list_contents x); rewrite length_app;
    pose proof (contents_length a Hw).
  - cbn. destruct Hw. lia.
  - change (removelast ((l, a) :: (l', a') :: ns)) with ((l, a) :: removelast ((l', a') :: ns)) in Hfu.
    apply Forall_cons in Hfu as [Ha Hfu]. apply Forall_cons in Hfr as [[Hf0 _] Hfr]. cbn [snd] in *.
    specialize (IH l' a' Hws Hfr Hfu). change (last ((l, a) :: (l', a') :: ns)) with (last ((l', a') :: ns)).
    cbn [length]. lia.
Qed.

(** The number of buffers popped so far at which the head node of the list is used up
    but still linked. *)
Definition exhausted (popped : Z) : bool := (4 <? popped) && (popped mod 4 =? 0).

(** [peek] looks at the head node only. *)
Lemma list_peek h L ns pushed b s :
  inv h L ns pushed -> list_contents ns = b :: s ->
  LinkedList.peek h L =
    if exhausted (4 + pushed - Z.of_nat (length (b :: s))) then Fault OutOfBounds else Ok b.
Proof.
  intros Hi Hcont. destruct ns as [|[l a] ns]; [discriminate|].
  destruct (Hi) as [[(Hh & nx & Hl & H1) H2 H3 H4] _ _ Hp _ _ Hfu Hhd].
  pose proof (list_length_pos ns l a H3 H4 Hfu) as Hpos. rewrite Hcont in Hpos.
  pose proof (inv_bound _ _ _ _ Hi) as [Hle _]. cbn [length] in Hle, Hhd.
  apply Forall_cons in H3 as [Hwa _]. cbn [snd] in Hwa. pose proof (contents_length a Hwa) as Hla.
  unfold LinkedList.peek. rewrite Hh, (proj2 (deref_ok h l _) Hl).
  cbn [mbind res_bind LinkedList.buffer_array].
  set (k := Z.of_nat (length h) - Z.of_nat (length ns)).
  replace (4 + pushed - Z.of_nat (length (b :: s))) with (cur_idx a + 4 * k) by lia.
  change (contents a ++ list_contents ns = b :: s) in Hcont.
  destruct (Hwa) as [_ Hlen H0 Hcs Hs4]. destruct (contents a) as [|x c] eqn:Eca; cbn [length] in Hla.
  - assert (Array.size a = 4).
    { destruct ns; [discriminate|]. now apply Forall_cons in Hfu as [? _]. }
    unfold Array.peek. rewrite lookup_ge_None_2 by lia.
    replace (cur_idx a + 4 * k) with ((k + 1) * 4) by lia. unfold exhausted.
    rewrite Z_mod_mult, (proj2 (Z.ltb_lt _ _)) by lia. done.
  - rewrite (peek_ok a x c Hwa Eca). injection Hcont as -> _.
    destruct (exhausted _) eqn:He; [exfalso|done]. unfold exhausted in He.
    apply andb_prop in He as [He1%Z.ltb_lt He2%Z.eqb_eq].
    rewrite (Z.mul_comm 4), Z_mod_plus_full, Z.mod_small in He2 by lia.
    assert (0 < cur_idx a) by (apply Hhd; lia). lia.
Qed.

Lemma queue_peek h q b s n :
  queue_rel h q (b :: s) n ->
  peek h q = if exhausted (n - Z.of_nat (length (b :: s))) then Fault OutOfBounds else Ok b.
Proof.
  intros [Hw (ns & Hi & Hcont & Hfull) _ _ Hcur]. unfold peek.
  pose proof (contents_length _ Hw) as Hlen. destruct (Array.empty (_array q)) eqn:He.
  - apply empty_spec in He; [|done]. rewrite He in Hcont. cbn [app] in Hcont.
    rewrite (list_peek _ _ _ _ _ _ Hi (eq_sym Hcont)).
    assert (Array.size (_array q) = 4) as ->.
    { destruct (is_full (_array q)) eqn:Hf; [unfold is_full in Hf; destruct Hw; lia|].
      rewrite Hfull in Hcont by done. discriminate. }
    now replace (4 + (n - 4) - _) with (n - Z.of_nat (length (b :: s))) by lia.
  - destruct (contents (_array q)) as [|x c] eqn:Ec.
    { apply (empty_spec _ Hw) in Ec. congruence. }
    cbn in Hcont. simplify_eq. rewrite (peek_ok _ x c Hw Ec). cbn [length] in *. destruct Hw.
    unfold exhausted. rewrite (proj2 (Z.ltb_ge _ _)) by lia. done.
Qed.

(** *** The queue is a [BufferQueue] *)
#[export] Instance serializable_queue_ops : BufferQueue (heap * serializable_queue) := {
  bq_new := ([], new);
  bq_push hq b := push (fst hq) (snd hq) b;
  bq_pop hq := '(b, h, q) ← pop (fst hq) (snd hq); Ok (b, (h, q));
  bq_empty hq := empty (snd hq);
  bq_size hq := size (snd hq);
  bq_get_buffer_size hq := get_buffer_size (fst hq) (snd hq);
  bq_move hq := (fst hq, move (snd hq))
}.

#[export, program] Instance serializable_queue_laws : BufferQueueLaws (heap * serializable_queue) := {
  bq_rel hq := queue_rel (fst hq) (snd hq);
  bq_drains hq := drain_rel (fst hq) (snd hq)
}.
Next Obligation. exact queue_rel_new. Qed.
Next Obligation.
  intros [h q] s n b H Hn. destruct (queue_push h q s n b H Hn) as (h' & q' & E & H').
  exists (h', q'). done.
Qed.
Next Obligation.
  intros [h q] b s n H Hn. destruct (queue_pop h q s n b H Hn) as (h' & q' & E & H').
  exists (h', q'). cbn. rewrite E. done.
Qed.
Next Obligation. intros [h q] s n H. exact (queue_empty h q s n H). Qed.
Next Obligation. intros [h q] s n H. apply H. Qed.
Next Obligation. intros [h q] s n H. apply H. Qed.
Next Obligation. intros [h q] s n H. exact (queue_get_buffer_size h q s n H). Qed.
Next Obligation. intros [h q] s H. exact (move_drains h q s H). Qed.
Next Obligation.
  intros [h q] b s H. destruct (drain_pop h q b s H) as (h' & q' & E & H').
  exists (h', q'). cbn. rewrite E. done.
Qed.

(** *** A queue whose list was moved

    The move constructor of the list forgets [node_count], which only [push] reads. *)
Definition with_count (c : Z) (q : serializable_queue) : serializable_queue :=
  mk (_array q) (LinkedList.mk c (LinkedList.head (_list q)) (LinkedList.tail (_list q))) (_size q).

Lemma with_count_id q : with_count (LinkedList.node_count (_list q)) q = q.
Proof. now destruct q as [? [] ?]. Qed.

Lemma pop_loop_count fuel : forall h c d hd tl b h' L,
  LinkedList.pop_loop fuel h (LinkedList.mk c hd tl) = Ok (b, h', L) ->
  exists d', LinkedList.pop_loop fuel h (LinkedList.mk d hd tl) =
    Ok (b, h', LinkedList.mk d' (LinkedList.head L) (LinkedList.tail L)).
Proof.
  induction fuel as [|fuel IH]; intros h c d [l|] tl b h' L E; cbn in E |- *; simplify_eq; cbn; eauto.
  destruct (h !! l) as [[nd|]|]; cbn in *; try discriminate.
  destruct (Array.empty (LinkedList.buffer_array nd)); cbn in *; [eauto|].
  destruct (Array.pop (LinkedList.buffer_array nd)) as [[b1 a]|]; cbn in *; [|discriminate].
  unfold LinkedList.store in *. cbn in *. destruct (h !! l) as [[?|]|]; cbn in *; simplify_eq; cbn; eauto.
Qed.

Lemma pop_with_count c q h b h' q1 :
  pop h (with_count c q) = Ok (b, h', q1) ->
  exists q' c', pop h q = Ok (b, h', q') /\ q1 = with_count c' q'.
Proof.
  unfold pop, LinkedList.pop, with_count. destruct q as [a [d hd tl] z].
  cbn [_array _list _size LinkedList.head LinkedList.tail]. generalize (S (length h)); intros fuel.
  destruct (Array.empty a).
  - destruct (LinkedList.pop_loop fuel h (LinkedList.mk c hd tl)) as [[[b1 h1] [c' hd' tl']]|] eqn:E;
      cbn; [|discriminate]. intros [= -> -> <-].
    destruct (pop_loop_count _ _ _ d _ _ _ _ _ E) as (d' & ->).
    do 2 eexists. split; reflexivity.
  - destruct (Array.pop a) as [[b1 a']|]; cbn; [|discriminate]. intros [= -> -> <-].
    do 2 eexists. split; reflexivity.
Qed.

(** [moved]: the list had nodes when the queue was moved. *)
Definition moved_rel (h : heap) (q : serializable_queue) (s : list tmpbuf) (n : Z) (moved : bool) : Prop :=
  exists c, queue_rel h (with_count c q) s n /\ (moved = false -> c = LinkedList.node_count (_list q)).

Lemma moved_rel_false h q s n : moved_rel h q s n false <-> queue_rel h q s n.
Proof.
  split.
  - intros (c & Hr & Hc). rewrite (Hc eq_refl) in Hr. now rewrite with_count_id in Hr.
  - intros Hr. exists (LinkedList.node_count (_list q)). now rewrite with_count_id.
Qed.

Lemma moved_pop h q b s n m :
  moved_rel h q (b :: s) n m -> n < 4294967296 ->
  exists h' q', pop h q = Ok (b, h', q') /\ moved_rel h' q' s n m.
Proof.
  destruct m.
  - intros (c & Hr & _) Hn. destruct (queue_pop h _ s n b Hr Hn) as (h' & q1 & E & Hr').
    destruct (pop_with_count _ _ _ _ _ _ E) as (q' & c' & E' & ->).
    exists h', q'. split; [done|]. now exists c'.
  - rewrite moved_rel_false. intros Hr Hn.
    destruct (queue_pop h q s n b Hr Hn) as (h' & q' & E & Hr'). exists h', q'.
    now rewrite moved_rel_false.
Qed.

Lemma moved_move h q s m :
  moved_rel h q s (Z.of_nat (length s)) m ->
  moved_rel h (move q) s (Z.of_nat (length s)) (m || (4 <? Z.of_nat (length s))).
Proof.
  intros (c & Hr & Hc). pose proof (unpopped_cur _ _ _ Hr) as H0.
  assert (Heq : with_count c (move q) = with_count c q).
  { unfold with_count, move. cbn. now rewrite array_move_same. }
  exists c. rewrite Heq. split; [done|]. intros [-> Hle%Z.ltb_ge]%orb_false_iff. cbn.
  destruct Hr as [Hw (ns & Hi & Hcont & Hfull) _ _ _]. cbn [_array _list with_count] in *.
  pose proof (inv_count _ _ _ _ Hi) as Hn. cbn in Hn.
  pose proof (inv_bound _ _ _ _ Hi). destruct Hw. destruct (is_full (_array q)) eqn:Hf.
  - unfold is_full in Hf. lia.
  - rewrite Hfull in Hn by done. exact Hn.
Qed.

(** *** Operation sequences

    [OpMove]: the client goes on with a queue move-constructed from its own. *)
Inductive op := OpPush (b : tmpbuf) | OpPop | OpPeek | OpEmpty | OpSize | OpBytes | OpMove.
Inductive out := OutUnit | OutBuf (b : tmpbuf) | OutBool (b : bool) | OutNum (z : Z).

Definition step (h : heap) (q : serializable_queue) (o : op) : res (out * heap * serializable_queue) :=
  match o with
  | OpPush b => '(h, q) ← push h q b; Ok (OutUnit, h, q)
  | OpPop => '(b, h, q) ← pop h q; Ok (OutBuf b, h, q)
  | OpPeek => b ← peek h q; Ok (OutBuf b, h, q)
  | OpEmpty => Ok (OutBool (empty q), h, q)
  | OpSize => Ok (OutNum (size q), h, q)
  | OpBytes => n ← get_buffer_size h q; Ok (OutNum n, h, q)
  | OpMove => Ok (OutUnit, h, move q)
  end.

Fixpoint run (h : heap) (q : serializable_queue) (os : list op) : res (list out * heap * serializable_queue) :=
  match os with
  | [] => Ok ([], h, q)
  | o :: os => '(r, h, q) ← step h q o; '(rs, h, q) ← run h q os; Ok (r :: rs, h, q)
  end.

(** The specification: a list of buffers, the number of pushes, and whether the queue
    was moved with more than four buffers in it.  Not specified ([None]): popping or
    peeking at an empty queue, moving a queue that was popped from
    ([pop_then_move_repeats]) and pushing after such a move ([push_after_move_loses]).
    Peeking when the head node is used up faults. *)
Record spec := mk_spec { items : list tmpbuf; pushes : Z; was_moved : bool }.
Definition spec_new : spec := mk_spec [] 0 false.
Definition popped_of (s : spec) : Z := pushes s - Z.of_nat (length (items s)).

Definition spec_step (s : spec) (o : op) : option (res (out * spec)) :=
  match o, items s with
  | OpPush b, l =>
      if was_moved s then None else Some (Ok (OutUnit, mk_spec (l ++ [b]) (pushes s + 1) false))
  | OpPop, b :: l => Some (Ok (OutBuf b, mk_spec l (pushes s) (was_moved s)))
  | OpPeek, b :: _ =>
      Some (if exhausted (popped_of s) then Fault OutOfBounds else Ok (OutBuf b, s))
  | OpPop, [] | OpPeek, [] => None
  | OpEmpty, l => Some (Ok (OutBool (bool_decide (l = [])), s))
  | OpSize, l => Some (Ok (OutNum (Z.of_nat (length l)), s))
  | OpBytes, l => Some (Ok (OutNum (u32 (total l)), s))
  | OpMove, l =>
      if popped_of s =? 0
      then Some (Ok (OutUnit, mk_spec l (pushes s) (was_moved s || (4 <? Z.of_nat (length l)))))
      else None
  end.

Fixpoint spec_run (s : spec) (os : list op) : option (res (list out)) :=
  match os with
  | [] => Some (Ok [])
  | o :: os =>
      match spec_step s o with
      | None => None
      | Some (Fault f) => Some (Fault f)
      | Some (Ok (r, s)) => (fun rs => rs ← rs; Ok (r :: rs)) <$> spec_run s os
      end
  end.

Definition spec_rel (h : heap) (q : serializable_queue) (s : spec) : Prop :=
  moved_rel h q (items s) (pushes s) (was_moved s).

(** What a step returns, against what the specification says. *)
Definition agrees (r : res (out * heap * serializable_queue)) (n : Z) (r' : res (out * spec)) : Prop :=
  match r' with
  | Ok (o, s') => exists h' q', r = Ok (o, h', q') /\ spec_rel h' q' s' /\ pushes s' <= n + 1
  | Fault f => r = Fault f
  end.

Lemma agrees_same h q s o : spec_rel h q s -> agrees (Ok (o, h, q)) (pushes s) (Ok (o, s)).
Proof. intros H. exists h, q. split; [done|]. split; [done|lia]. Qed.

Lemma step_refines h q s o r :
  spec_rel h q s -> pushes s < 4294967295 -> spec_step s o = Some r ->
  agrees (step h q o) (pushes s) r.
Proof.
  intros Hr Hn Hs. destruct s as [l n m], o as [b| | | | | |];
    cbn [spec_step items pushes was_moved] in Hs; cbn [step pushes] in *.
  - destruct m; [discriminate|]. simplify_eq. apply moved_rel_false in Hr.
    destruct (queue_push h q l n b Hr Hn) as (h' & q' & E & H'). rewrite E.
    exists h', q'. split; [done|]. split; [now apply moved_rel_false|cbn; lia].
  - destruct l as [|b l]; [discriminate|]. simplify_eq.
    destruct (moved_pop h q b l n m Hr) as (h' & q' & E & H'); [lia|]. rewrite E.
    exists h', q'. split; [done|]. split; [done|cbn; lia].
  - destruct l as [|b l]; [discriminate|]. simplify_eq. unfold popped_of. cbn [items pushes].
    destruct (Hr) as (c & Hc & _). change (peek h q) with (peek h (with_count c q)).
    rewrite (queue_peek _ _ _ _ _ Hc). cbn [items pushes]. destruct (exhausted _); [done|].
    now apply agrees_same.
  - simplify_eq. destruct (Hr) as (c & Hc & _).
    replace (empty q) with (bool_decide (l = [])); [now apply agrees_same|].
    apply eq_true_iff_eq. rewrite bool_decide_eq_true. symmetry. exact (queue_empty h _ l n Hc).
  - simplify_eq. destruct (Hr) as (c & Hc & _). pose proof (q_size _ _ _ _ Hc) as E. cbn in E.
    unfold size. rewrite E. now apply agrees_same.
  - simplify_eq. destruct (Hr) as (c & Hc & _).
    change (get_buffer_size h q) with (get_buffer_size h (with_count c q)).
    rewrite (queue_get_buffer_size h _ l n Hc). now apply agrees_same.
  - unfold popped_of in Hs. cbn [items pushes] in Hs. destruct (Z.eqb_spec (n - Z.of_nat (length l)) 0); [|discriminate].
    simplify_eq. assert (n = Z.of_nat (length l)) as -> by lia.
    exists h, (move q). split; [done|]. split; [now apply moved_move|cbn; lia].
Qed.

Lemma run_refines os : forall h q s r,
  spec_rel h q s -> pushes s + Z.of_nat (length os) < 4294967296 -> spec_run s os = Some r ->
  match r with Ok rs => exists h' q', run h q os = Ok (rs, h', q') | Fault f => run h q os = Fault f end.
Proof.
  induction os as [|o os IH]; intros h q s r Hr Hn Hs; cbn [spec_run run length] in *; [simplify_eq; eauto|].
  destruct (spec_step s o) as [r1|] eqn:E1; [|discriminate].
  pose proof (step_refines h q s o r1 Hr ltac:(lia) E1) as Ha.
  destruct r1 as [[x s1]|f]; cbn [agrees] in Ha.
  - destruct Ha as (h1 & q1 & E & Hr1 & Hn1). rewrite E. cbn [mbind res_bind].
    destruct (spec_run s1 os) as [r2|] eqn:E2; [|discriminate]. cbn in Hs. simplify_eq.
    specialize (IH h1 q1 s1 r2 Hr1 ltac:(lia) E2). destruct r2; cbn.
    + destruct IH as (h2 & q2 & ->). cbn. eauto.
    + now rewrite IH.
  - rewrite Ha. now simplify_eq.
Qed.



(** A queue from which nothing was popped (what [deserialize] builds) can be moved
    into a message without loss: popping the moved queue returns every buffer that was
    pushed, in order. *)
Theorem pushed_moved_popped bs :
  Z.of_nat (length bs) < 4294967296 ->
  exists h q, push_all (bq_new : heap * serializable_queue) bs = Ok (h, q) /\
    exists hq', pop_n (length bs) (h, move q) = Ok (bs, hq').
Proof.
  intros Hn. destruct (push_all_rel bs _ _ 0 bq_new_rel Hn) as ([h q] & E & Hr).
  exists h, q. split; [exact E|]. apply pop_n_drains. 
  change (h, move q) with (bq_move (h, q)). apply bq_move_drains. exact Hr.
Qed.

Lemma pushed_moved_popped_witness :
  exists h q, push_all (bq_new : heap * serializable_queue) (replicate 6 [Byte.x07]) = Ok (h, q) /\
    exists hq', pop_n 6 (h, move q) = Ok (replicate 6 [Byte.x07], hq').
Proof. apply (pushed_moved_popped (replicate 6 [Byte.x07])). reflexivity. Defined.

(** The move constructor of the list drops [node_count]: pushing to a queue that was
    moved while it had a list node makes that node unreachable, so its buffers are lost
    (here the fifth of six) and the pops return an empty buffer in their place. *)
Theorem push_after_move_loses b1 b2 b3 b4 b5 b6 :
  exists h q h' q' hq',
    push_all (bq_new : heap * serializable_queue) [b1; b2; b3; b4; b5] = Ok (h, q) /\
    push h (move q) b6 = Ok (h', q') /\ size q' = 6 /\
    pop_n 6 (h', q') = Ok ([b1; b2; b3; b4; b6; []], hq').
Proof. do 5 eexists. split; [cbv; reflexivity|]. repeat (split; [cbv; reflexivity|]). cbv. reflexivity. Qed.

(** The move constructor of the array does not copy [cur_idx]: moving a queue from
    which a buffer was popped makes the popped slot (now an empty buffer) the head
    again, and the last buffer is never returned by the [size] pops that remain. *)
Theorem pop_then_move_repeats b1 b2 :
  exists h q h1 q1 hq',
    push_all (bq_new : heap * serializable_queue) [b1; b2] = Ok (h, q) /\
    pop h q = Ok (b1, h1, q1) /\ size (move q1) = 1 /\
    pop_n 1 (h1, move q1) = Ok ([[]], hq').
Proof. do 5 eexists. split; [cbv; reflexivity|]. repeat (split; [cbv; reflexivity|]). cbv. reflexivity. Qed.

(** [peek] does not skip a list node whose buffers were all popped: with nine buffers
    pushed and eight popped, [empty] is false and [pop] returns the ninth buffer, but
    [peek] reads one past the end of the exhausted node's array. *)
Theorem peek_exhausted_node b1 b2 b3 b4 b5 b6 b7 b8 b9 :
  exists hq h q h' q',
    push_all (bq_new : heap * serializable_queue) [b1; b2; b3; b4; b5; b6; b7; b8; b9] = Ok hq /\
    pop_n 8 hq = Ok ([b1; b2; b3; b4; b5; b6; b7; b8], (h, q)) /\
    empty q = false /\ pop h q = Ok (b9, h', q') /\ peek h q = Fault OutOfBounds.
Proof. do 5 eexists. split; [cbv; reflexivity|]. repeat (split; [cbv; reflexivity|]). cbv. reflexivity. Qed.

(** [pop] unlinks exhausted list nodes without deleting them and the destructor only
    deletes what is still linked: after [n] > 4 buffers were pushed and all popped, the
    destructor succeeds and all but one of the list nodes ever allocated remain. *)
Theorem drained_queue_leaks bs :
  4 < Z.of_nat (length bs) < 4294967296 ->
  exists hq h q h', push_all (bq_new : heap * serializable_queue) bs = Ok hq /\
    pop_n (length bs) hq = Ok (bs, (h, q)) /\ destroy h q = Ok h' /\
    ListSpec.live_cells h' = (length h - 1)%nat /\ (4 * length h >= length bs - 4)%nat.
Proof.
  intros Hn. destruct (push_all_rel bs _ _ 0 bq_new_rel) as (hq & E & Hr); [lia|].
  assert (Hr' : bq_rel hq (bs ++ []) (Z.of_nat (length bs))) by (rewrite app_nil_r; exact Hr).
  destruct (pop_n_rel bs hq [] _ Hr') as ([h q] & E' & [Hw (ns & Hi & Hcont & Hfull) Hs _ _]); [lia|].
  cbn [fst snd] in *. symmetry in Hcont. apply app_eq_nil in Hcont as [Ea Ens].
  destruct (Hi) as [[H1 H2 H3 H4] _ _ Hp Hsz Hlive _ _].
  destruct (destroy_spec ns (S (length h)) h _ H1 H2) as (h' & E2 & Hl).
  { pose proof (locs_length _ _ _ _ H1 H2). lia. }
  exists hq, h, q, h'. do 3 (split; [done|]). rewrite (live_cells_all h Hlive) in Hl.
  assert (Hne : (length h > 0)%nat).
  { destruct h; [|cbn; lia]. destruct Hw. cbn [length] in Hp. destruct (last ns) as [[? ?]|] eqn:El; [|lia].
    apply last_Some in El as [n0 ->]. cbn in H1. now apply lseg_snoc_inv in H1 as [_ ?]. }
  assert (length ns = 1%nat).
  { destruct ns as [|n1 ns]; [cbn in Hsz; subst h; cbn in Hne; lia|].
    destruct ns as [|[l a] ns]; [done|]. exfalso.
    cbn [List.tl] in H4. apply Forall_cons in H4 as [[Hf1 Hf2] _].
    apply Forall_cons in H3 as [_ [Hw2 _]%Forall_cons]. cbn [snd] in *.
    pose proof (contents_length a Hw2) as Hc. destruct n1 as [l1 a1].
    change (contents a1 ++ contents a ++ list_contents ns = []) in Ens.
    apply app_eq_nil in Ens as [_ [Ens _]%app_eq_nil]. rewrite Ens in Hc. cbn in Hc. lia. }
  split; [lia|]. destruct ns as [|[l a] [|]]; [discriminate| |discriminate].
  apply Forall_cons in H3 as [Hwa _]. cbn in Hwa, Hp. destruct Hwa, Hw. lia.
Qed.

Lemma drained_queue_leaks_witness :
  exists hq h q h', push_all (bq_new : heap * serializable_queue) (replicate 9 [Byte.x07]) = Ok hq /\
    pop_n 9 hq = Ok (replicate 9 [Byte.x07], (h, q)) /\ destroy h q = Ok h' /\
    ListSpec.live_cells h' = (length h - 1)%nat /\ (4 * length h >= 9 - 4)%nat.
Proof. apply (drained_queue_leaks (replicate 9 [Byte.x07])). cbn. lia. Defined.

End QueueSpec.
