(* ===== verification/DataType.v ===== *)
(** * Serializable payload types

    [SerializablePrimitive] and [simple_string]
    (src/include/hiactor/util/data_type.hh).  A payload type writes itself into a
    buffer queue ([dump_to]) and is rebuilt from one ([load_from]); [Serializable] is
    that interface, [SerializableLaws] the round trip its users rely on.  The integer,
    boolean and void types satisfy the laws; [simple_string] does not. *)
From S2P Require Import Prelude Bytes.
From S2P Require Import BufferQueue.

Class Serializable (T : Type) := {
  dump_to {Q : Type} {BQ : BufferQueue Q} : T -> Q -> res Q;
  load_from {Q : Type} {BQ : BufferQueue Q} : Q -> res (T * Q)
}.

(** [payload_bufs v] are the buffers [v] is written as; [payload_valid] the values the
    C++ type can hold. *)
Class SerializableLaws (T : Type) {S : Serializable T} := {
  payload_valid : T -> Prop;
  payload_bufs : T -> list tmpbuf;
  dump_to_bufs {Q} {BQ : BufferQueue Q} {BQL : BufferQueueLaws Q} v (q : Q) s n :
    payload_valid v -> bq_rel q s n -> n + Z.of_nat (length (payload_bufs v)) < 4294967296 ->
    exists q', dump_to v q = Ok q' /\
      bq_rel q' (s ++ payload_bufs v) (n + Z.of_nat (length (payload_bufs v)));
  load_from_bufs {Q} {BQ : BufferQueue Q} {BQL : BufferQueueLaws Q} v (q : Q) s :
    payload_valid v -> bq_drains q (payload_bufs v ++ s) ->
    exists q', load_from q = Ok (v, q') /\ bq_drains q' s
}.

(** ** SerializablePrimitive *)
Module SerializablePrimitive.

(** The bytes of an object of an integral type of [n] bytes, as an unsigned number:
    [to_u] on the way out, [of_u] on the way in. *)
Section Primitive.
Context {T : Type} (n : nat) (to_u : T -> Z) (of_u : Z -> T).
Context {Q : Type} {BQ : BufferQueue Q}.

Definition dump_to_prim (val : T) (qu : Q) : res Q :=
  buf ← memcpy (replicate n Byte.x00) 0 (enc_uint n (to_u val));
  bq_push qu buf.

(** [*reinterpret_cast<const Type*>(qu.pop().get())]: the first [sizeof(Type)] bytes of
    the buffer. *)
Definition load_from_prim (qu : Q) : res (T * Q) :=
  '(buf, qu) ← bq_pop qu;
  u ← load_unaligned_int n buf 0;
  Ok (of_u u, qu).

End Primitive.

(** [Integer]: 32-bit two's complement. *)
Record Integer := mk_Integer { int_val : Z }.
Definition int_to_u (v : Integer) : Z := u32 (int_val v).
Definition int_of_u (u : Z) : Integer := mk_Integer (if u <? 2147483648 then u else u - 4294967296).
Definition int_valid (v : Integer) : Prop := -2147483648 <= int_val v < 2147483648.

(** [Boolean]: one byte, 0 or 1. *)
Record Boolean := mk_Boolean { bool_val : bool }.
Definition bool_to_u (v : Boolean) : Z := Z.b2z (bool_val v).
Definition bool_of_u (u : Z) : Boolean := mk_Boolean (negb (u =? 0)).

(** [Void]: no buffer at all. *)
Record Void := mk_Void {}.

#[export] Instance Integer_serializable : Serializable Integer := {
  dump_to Q BQ := dump_to_prim 4 int_to_u;
  load_from Q BQ := load_from_prim 4 int_of_u
}.
#[export] Instance Boolean_serializable : Serializable Boolean := {
  dump_to Q BQ := dump_to_prim 1 bool_to_u;
  load_from Q BQ := load_from_prim 1 bool_of_u
}.
#[export] Instance Void_serializable : Serializable Void := {
  dump_to Q BQ _ q := Ok q;
  load_from Q BQ q := Ok (mk_Void, q)
}.

Lemma memcpy_whole n bs : length bs = n -> memcpy (replicate n Byte.x00) 0 bs = Ok bs.
Proof.
  intros <-. apply memcpy_ok. rewrite length_replicate. split; [lia|].
  rewrite take_0, drop_ge by (rewrite length_replicate; lia). cbn. now rewrite app_nil_r.
Qed.

Section Laws.
Context {T : Type} (n : nat) (to_u : T -> Z) (of_u : Z -> T) (valid : T -> Prop).
Context (Hrange : forall v, valid v -> in_u (8 * Z.of_nat n) (to_u v)).
Context (Hround : forall v, valid v -> of_u (to_u v) = v).
Context {Q : Type} {BQ : BufferQueue Q} {BQL : BufferQueueLaws Q}.

Lemma dump_prim_bufs v (q : Q) s k :
  bq_rel q s k -> k + 1 < 4294967296 ->
  exists q', dump_to_prim n to_u v q = Ok q' /\ bq_rel q' (s ++ [enc_uint n (to_u v)]) (k + 1).
Proof.
  intros H Hk. unfold dump_to_prim. rewrite memcpy_whole by apply enc_uint_length.
  cbn [mbind res_bind]. apply bq_push_rel; [done|lia].
Qed.

Lemma load_prim_bufs v (q : Q) s :
  valid v -> bq_drains q (enc_uint n (to_u v) :: s) ->
  exists q', load_from_prim n of_u q = Ok (v, q') /\ bq_drains q' s.
Proof.
  intros Hv H. destruct (bq_pop_drains q _ s H) as (q' & E & H'). exists q'. split; [|done].
  unfold load_from_prim. rewrite E. cbn [mbind res_bind]. unfold load_unaligned_int.
  replace (mem_read (enc_uint n (to_u v)) 0 n) with (Ok (enc_uint n (to_u v))).
  - cbn [mbind res_bind]. rewrite dec_enc_uint_small, Hround by auto. done.
  - symmetry. apply mem_read_ok. rewrite enc_uint_length, drop_0, take_ge; [auto|].
    rewrite enc_uint_length. lia.
Qed.

End Laws.

Lemma int_round v : int_valid v -> int_of_u (int_to_u v) = v.
Proof.
  destruct v as [z]. unfold int_valid, int_of_u, int_to_u. cbn [int_val]. intros H. f_equal.
  unfold wrap. change (2 ^ 32) with 4294967296. destruct (decide (0 <= z)).
  - rewrite Z.mod_small by lia. destruct (Z.ltb_spec z 2147483648); lia.
  - rewrite (Z.mod_eq z) by lia. replace (z / 4294967296) with (-1) by (apply Z.div_unique with (z + 4294967296); lia).
    destruct (Z.ltb_spec (z - 4294967296 * -1) 2147483648); lia.
Qed.

#[export, refine] Instance Integer_laws : SerializableLaws Integer := {
  payload_valid := int_valid;
  payload_bufs v := [enc_uint 4 (int_to_u v)]
}.
Proof.
  - intros. cbn in *. eapply dump_prim_bufs; eauto.
  - intros Q BQ BQL v q s Hv H. cbn. eapply (load_prim_bufs 4 int_to_u int_of_u int_valid); eauto.
    + intros. apply wrap_range. lia.
    + apply int_round.
Defined.

#[export, refine] Instance Boolean_laws : SerializableLaws Boolean := {
  payload_valid _ := True;
  payload_bufs v := [enc_uint 1 (bool_to_u v)]
}.
Proof.
  - intros. cbn in *. eapply dump_prim_bufs; eauto.
  - intros Q BQ BQL v q s Hv H. cbn.
    eapply (load_prim_bufs 1 bool_to_u bool_of_u (fun _ => True)); eauto.
    + intros [[]] _; done.
    + intros [[]] _; done.
Defined.

#[export, refine] Instance Void_laws : SerializableLaws Void := {
  payload_valid _ := True;
  payload_bufs _ := []
}.
Proof.
  - intros Q BQ BQL v q s n _ H _. exists q. cbn. rewrite app_nil_r, Z.add_0_r. done.
  - intros Q BQ BQL [] q s _ H. exists q. done.
Defined.

End SerializablePrimitive.

(** ** simple_string

    Character arrays live in a heap of blocks indexed by allocation order ([None]:
    deleted); [addr_of] gives the machine address of a block. *)
Module SimpleString.

Abbreviation heap := (list (option bytes)).
Record simple_string := mk { str : option nat; len : Z }.

Definition simple_string_default : simple_string := mk None 0.

Definition block (h : heap) (p : option nat) : res bytes :=
  match p with
  | None => Fault NullDeref
  | Some l => match h !! l with
              | Some (Some b) => Ok b
              | Some None => Fault UseAfterFree
              | None => Fault OutOfBounds
              end
  end.

(** [delete[] p] *)
Definition delete_array (h : heap) (p : option nat) : res heap :=
  match p with
  | None => Ok h
  | Some l => _ ← block h p; Ok (<[l := None]> h)
  end.

(** [simple_string(const char* data, size_t len)], the source being readable bytes. *)
Definition simple_string_data (h : heap) (data : bytes) (n : nat) : res (simple_string * heap) :=
  src ← mem_read data 0 n;
  Ok (mk (Some (length h)) (Z.of_nat n), h ++ [Some src]).

(** [strlen]: the bytes before the first NUL, which must be there. *)
Fixpoint strlen (c_str : bytes) : res nat :=
  match c_str with
  | [] => Fault OutOfBounds
  | Byte.x00 :: _ => Ok 0%nat
  | _ :: rest => n ← strlen rest; Ok (S n)
  end.
Definition simple_string_c_str (h : heap) (c_str : bytes) : res (simple_string * heap) :=
  n ← strlen c_str; simple_string_data h c_str n.

(** Move construction returns the new object and the moved-from one. *)
Definition move_construct (x : simple_string) : simple_string * simple_string :=
  (mk (str x) (len x), mk None 0).

(** [memcpy] of no bytes from a null pointer does nothing. *)
Definition copy_construct (h : heap) (x : simple_string) : res (simple_string * heap) :=
  if (len x =? 0) then simple_string_data h [] 0
  else b ← block h (str x); simple_string_data h b (Z.to_nat (len x)).

(** [*this = std::move(x)] for distinct objects: [this], [x] after it. *)
Definition move_assign (self x : simple_string) : simple_string * simple_string :=
  (mk (str x) (len x), mk None 0).

Definition destroy (h : heap) (x : simple_string) : res heap := delete_array h (str x).

(** The object representation: the pointer, then the length. *)
Definition object_bytes (addr_of : nat -> Z) (x : simple_string) : bytes :=
  enc_uint 8 (match str x with Some l => addr_of l | None => 0 end) ++ enc_uint 8 (len x).

(** [memcpy(buf.get_write(), &str, len)]: the source is the object itself. *)
Definition string_dump_to {Q} {BQ : BufferQueue Q} (addr_of : nat -> Z) (x : simple_string) (qu : Q) : res Q :=
  let buf := replicate (Z.to_nat (len x)) Byte.x00 in
  buf ← (if match str x with Some _ => 0 <? len x | None => false end
         then src ← mem_read (object_bytes addr_of x) 0 (Z.to_nat (len x)); memcpy buf 0 src
         else Ok buf);
  bq_push qu buf.

Definition string_load_from {Q} {BQ : BufferQueue Q} (h : heap) (qu : Q) : res (simple_string * heap * Q) :=
  '(q, qu) ← bq_pop qu;
  '(s, h) ← simple_string_data h q (length q);
  Ok (s, h, qu).

(** The characters a string holds. *)
Definition chars (h : heap) (x : simple_string) : res bytes :=
  if len x =? 0 then Ok [] else b ← block h (str x); mem_read b 0 (Z.to_nat (len x)).

Lemma simple_string_data_chars h data n s h' :
  simple_string_data h data n = Ok (s, h') -> chars h' s = Ok (take n data) /\ len s = Z.of_nat n.
Proof.
  unfold simple_string_data. intros H. res_inv. rename x into src.
  apply mem_read_ok in H0 as [Hb ->]. injection H as <- <-. split; [|done].
  unfold chars. cbn [len str block]. destruct (Z.eqb_spec (Z.of_nat n) 0) as [Hn|Hn].
  - assert (n = 0%nat) as -> by lia. done.
  - rewrite lookup_app_r, Nat.sub_diag by lia. cbn [lookup list_lookup mbind res_bind].
    apply mem_read_ok. rewrite Nat2Z.id, !drop_0, length_take. split; [lia|].
    rewrite take_take. f_equal. lia.
Qed.

(** [load_from] is right: the string it builds from a queue holds exactly the bytes of
    the buffer at the front, which is consumed. *)
Theorem string_load_from_chars {Q} {BQ : BufferQueue Q} {BQL : BufferQueueLaws Q} h (q : Q) b s :
  bq_drains q (b :: s) ->
  exists x h' q', string_load_from h q = Ok (x, h', q') /\ chars h' x = Ok b /\ bq_drains q' s.
Proof.
  intros H. destruct (bq_pop_drains q b s H) as (q' & E & H').
  unfold string_load_from. rewrite E. cbn [mbind res_bind].
  destruct (simple_string_data h b (length b)) as [[x h']|] eqn:E1.
  - cbn [mbind res_bind]. exists x, h', q'. split; [done|]. split; [|done].
    apply simple_string_data_chars in E1 as [-> _]. now rewrite take_ge by lia.
  - exfalso. unfold simple_string_data in E1.
    destruct (mem_read_total b 0 (length b)) as [bs E2]; [lia|]. rewrite E2 in E1. discriminate.
Qed.

Lemma string_load_from_chars_witness :
  exists x h' q', string_load_from [] [[Byte.x61]; []] = Ok (x, h', q') /\
    chars h' x = Ok [Byte.x61] /\ bq_drains q' [[]].
Proof. apply (string_load_from_chars (Q := list tmpbuf) [] [[Byte.x61]; []] [Byte.x61] [[]]). reflexivity. Defined.

(** [dump_to] is not: it copies from the address of the pointer member instead of from
    the characters.  The buffer it pushes for a non-empty string of up to 16 characters
    is made of the machine address of the string and of its length, whatever its
    characters are; a longer string makes it read past the end of the object. *)
Theorem string_dump_copies_pointer {Q} {BQ : BufferQueue Q} addr_of l n (q : Q) :
  0 < n ->
  string_dump_to addr_of (mk (Some l) n) q =
    if n <=? 16 then bq_push q (take (Z.to_nat n) (enc_uint 8 (addr_of l) ++ enc_uint 8 n))
    else Fault OutOfBounds.
Proof.
  intros Hn. unfold string_dump_to, object_bytes. cbn [str len].
  rewrite (proj2 (Z.ltb_lt 0 n)) by lia.
  set (o := enc_uint 8 (addr_of l) ++ enc_uint 8 n).
  assert (Ho : length o = 16%nat) by (unfold o; now rewrite length_app, !enc_uint_length).
  destruct (Z.leb_spec n 16) as [Hle|Hgt].
  - replace (mem_read o 0 (Z.to_nat n)) with (Ok (take (Z.to_nat n) o)).
    + cbn [mbind res_bind]. rewrite SerializablePrimitive.memcpy_whole; [done|].
      rewrite length_take. lia.
    + symmetry. apply mem_read_ok. rewrite drop_0. split; [lia|done].
  - unfold mem_read. rewrite decide_False by lia. reflexivity.
Qed.

Lemma string_dump_copies_pointer_witness :
  0 < 2 /\ string_dump_to (fun _ => 4660) (mk (Some 0%nat) 2) ([] : list tmpbuf) = Ok [[Byte.x34; Byte.x12]].
Proof.
  split; [lia|]. exact (string_dump_copies_pointer (fun _ => 4660) 0 2 ([] : list tmpbuf) ltac:(lia)).
Defined.

(** Move assignment overwrites the pointer without deleting the array it held: after
    it, the old array is still allocated although neither object points to it, and
    destroying both objects does not free it. *)
Theorem move_assign_leaks h a b old la lb self x :
  a <> b -> h !! a = Some (Some old) -> is_Some (mjoin (h !! b)) ->
  move_assign (mk (Some a) la) (mk (Some b) lb) = (self, x) ->
  exists h1 h2, destroy h self = Ok h1 /\ destroy h1 x = Ok h2 /\ h2 !! a = Some (Some old).
Proof.
  intros Hab Ha [nb Hb] H. unfold move_assign in H. injection H as <- <-.
  unfold destroy, delete_array. cbn [str len block].
  destruct (h !! b) as [[b'|]|] eqn:E; cbn in Hb; try discriminate.
  cbn [mbind res_bind]. do 2 eexists. do 2 (split; [reflexivity|]).
  now rewrite list_lookup_insert_ne.
Qed.

Lemma move_assign_leaks_witness :
  let h := [Some [Byte.x61]; Some [Byte.x62]] in
  exists h1 h2, destroy h (fst (move_assign (mk (Some 0%nat) 1) (mk (Some 1%nat) 1))) = Ok h1 /\
    destroy h1 (mk None 0) = Ok h2 /\ h2 !! 0%nat = Some (Some [Byte.x61]).
Proof.
  apply (move_assign_leaks _ 0 1 [Byte.x61] 1 1); [done|reflexivity|eexists; reflexivity|reflexivity].
Defined.

End SimpleString.
