(* ===== verification/Message.v ===== *)
(** * Messages on the wire

    [actor_message], its constructors and [serialize]
    (src/include/hiactor/core/actor_message.hh), and [network_delegater::deserialize]
    (src/src/net/connection.cc).

    A message is written as its length (4 bytes), the bytes of its header object, the
    number of payload buffers (4 bytes) and, for each of them, its length (4 bytes) and
    its bytes.  The codec is proved against the [BufferQueue], [Serializable] and
    [OutputStream] interfaces. *)
From S2P Require Import Prelude Bytes Address.
From S2P Require Import BufferQueue DataType.

(** ** message_type

    An enum with underlying type [uint8_t]: any byte is a value, five have names. *)
Definition USER : Z := 1.
Definition RESPONSE : Z := 2.
Definition EXCEPTION_RESPONSE : Z := 3.
Definition FORCE_STOP : Z := 4.
Definition PEACE_STOP : Z := 8.

(** ** Headers *)
Record header := mk_header {
  addr : address;
  behavior_tid : Z;
  src_shard_id : Z;
  pr_id : Z;
  m_type : Z;
  from_network : bool
}.

#[export] Instance header_eq_dec : EqDecision header.
Proof. solve_decision. Defined.

(** Layout of the object: [addr] at 0 (53 bytes), [behavior_tid] at 53, two bytes of
    padding, [src_shard_id] at 56, [pr_id] at 60, [m_type] at 64, [from_network] at 65,
    two bytes of padding.  Padding bytes are whatever the storage held. *)
Record padding := mk_padding { pad54 : Init.Byte.byte; pad55 : Init.Byte.byte; pad66 : Init.Byte.byte; pad67 : Init.Byte.byte }.
Definition sizeof_header : nat := 68.

Definition header_bytes (g : padding) (h : header) : bytes :=
  enc_uint 1 (addr_length (addr h)) ++ addr_data (addr h) ++ enc_uint 1 (behavior_tid h) ++
  [pad54 g; pad55 g] ++ enc_uint 4 (src_shard_id h) ++ enc_uint 4 (pr_id h) ++
  enc_uint 1 (m_type h) ++ enc_uint 1 (Z.b2z (from_network h)) ++ [pad66 g; pad67 g].

(** [*reinterpret_cast<const actor_message::header*>(ptr)], member by member. *)
Definition load_header (m : bytes) : res header :=
  len ← load_unaligned_int 1 m 0;
  data ← mem_read m 1 GMaxAddrLength;
  behv ← load_unaligned_int 1 m 53;
  src ← load_unaligned_int 4 m 56;
  pr ← load_unaligned_int 4 m 60;
  mt ← load_unaligned_int 1 m 64;
  net ← load_unaligned_int 1 m 65;
  Ok (mk_header (mk_address len data) behv src pr mt (negb (net =? 0))).

Record header_ok (h : header) : Prop := {
  ho_len : in_u 8 (addr_length (addr h));
  ho_data : length (addr_data (addr h)) = GMaxAddrLength;
  ho_behv : in_u 8 (behavior_tid h);
  ho_src : in_u 32 (src_shard_id h);
  ho_pr : in_u 32 (pr_id h);
  ho_mt : in_u 8 (m_type h)
}.

(** ** Messages

    [Payload] is [actor_message_with_payload<T>] for a serializable [T], [NetPayload]
    its specialization [actor_message_with_payload<serializable_queue>]. *)
Inductive payload (Q : Type) : Type :=
  | NoPayload
  | Payload (T : Type) (SE : Serializable T) (v : T)
  | NetPayload (q : Q).
Arguments NoPayload {Q}.
Arguments Payload {Q} T SE v.
Arguments NetPayload {Q} q.

Record actor_message (Q : Type) := mk_msg { hdr : header; data : payload Q }.
Arguments mk_msg {Q} _ _.
Arguments hdr {Q} _.
Arguments data {Q} _.

Section Constructors.
Context {Q : Type}.

Definition make_actor_message (a : address) (behv_tid : Z) (p : payload Q) (src_s_id pr_id m_type : Z) : actor_message Q :=
  mk_msg (mk_header a behv_tid src_s_id pr_id m_type false) p.

Definition make_system_message (a : address) (m_type : Z) : actor_message Q :=
  make_actor_message a 0 NoPayload 0 0 m_type.
Definition make_request_message (a : address) (behv_tid : Z) (p : payload Q) (src_s_id pr_id m_type : Z) :=
  make_actor_message a behv_tid p src_s_id pr_id m_type.
Definition make_one_way_request_message (a : address) (behv_tid : Z) (p : payload Q) (src_s_id m_type : Z) :=
  make_actor_message a behv_tid p src_s_id 0 m_type.
Definition make_response_message (s_id : Z) (p : payload Q) (pr_id m_type : Z) : res (actor_message Q) :=
  d ← memcpy (addr_data address_zero) 0 (enc_uint GShardIdInBytes s_id);
  Ok (make_actor_message (mk_address (Z.of_nat GShardIdInBytes) d) 0 p 0 pr_id m_type).

End Constructors.

(** ** Output streams

    [seastar::output_stream]: what was written so far, in order. *)
Class OutputStream (O : Type) := {
  written : O -> bytes;
  out_write : O -> bytes -> O;
  written_write o b : written (out_write o b) = written o ++ b
}.
#[export, refine] Instance bytes_output : OutputStream bytes := {
  written o := o;
  out_write o b := o ++ b
}.
Proof. done. Defined.

Section Codec.
Context {Q : Type} {BQ : BufferQueue Q}.
Context {Out : Type} {OS : OutputStream Out}.

(** ** serialize *)
Definition serialize_without_payload (g : padding) (h : header) (out : Out) : Out :=
  let msg_len := u32 (Z.of_nat sizeof_header + 4) in
  let out := out_write out (enc_uint 4 msg_len) in
  let out := out_write out (header_bytes g h) in
  out_write out (enc_uint 4 0).

(** [do_until([&su] { return su.empty(); }, ...)] *)
Fixpoint write_buffers (fuel : nat) (su : Q) (out : Out) : res Out :=
  if bq_empty su then Ok out
  else match fuel with
       | O => Fault NoFuel
       | S fuel =>
           '(buf, su) ← bq_pop su;
           let out := out_write out (enc_uint 4 (u32 (Z.of_nat (length buf)))) in
           write_buffers fuel su (out_write out buf)
       end.

Definition serialize_with_payload {T} {SE : Serializable T} (g : padding) (h : header) (v : T) (out : Out) : res Out :=
  su ← dump_to v bq_new;
  let msg_len := u32 (Z.of_nat sizeof_header + 4 + u32 (bq_size su * 4)) in
  n ← bq_get_buffer_size su;
  let msg_len := u32 (msg_len + n) in
  let out := out_write out (enc_uint 4 msg_len) in
  let out := out_write out (header_bytes g h) in
  let out := out_write out (enc_uint 4 (u32 (bq_size su))) in
  write_buffers (Z.to_nat (bq_size su)) su out.

Definition serialize (g : padding) (m : actor_message Q) (out : Out) : res Out :=
  match data m with
  | NoPayload => Ok (serialize_without_payload g (hdr m) out)
  | Payload T SE v => serialize_with_payload g (hdr m) v out
  | NetPayload _ => Ok out   (* "deprecated & useless" *)
  end.

(** ** deserialize *)
Fixpoint deserialize_loop (fuel : nat) (buf : bytes) (i nr_payload : Z) (ptr : nat) (qu : Q) : res Q :=
  if i <? nr_payload then
    match fuel with
    | O => Fault NoFuel
    | S fuel =>
        len ← load_unaligned_int 4 buf ptr;
        b ← mem_read buf (ptr + 4) (Z.to_nat len);
        qu ← bq_push qu b;
        deserialize_loop fuel buf (u32 (i + 1)) nr_payload (ptr + Z.to_nat (u32 (len + 4))) qu
    end
  else Ok qu.

Definition deserialize (buf : bytes) : res (actor_message Q) :=
  am_hdr ← load_header buf;
  nr_payload ← load_unaligned_int 4 buf sizeof_header;
  qu ← deserialize_loop (S (length buf)) buf 0 nr_payload (sizeof_header + 4) bq_new;
  Ok (mk_msg (mk_header (addr am_hdr) (behavior_tid am_hdr) (src_shard_id am_hdr) (pr_id am_hdr)
                (m_type am_hdr) true)
        (NetPayload (bq_move qu))).

End Codec.

(** ** Layout lemmas *)
Lemma header_bytes_length g h : header_ok h -> length (header_bytes g h) = sizeof_header.
Proof.
  intros H. unfold header_bytes. rewrite !length_app, !enc_uint_length. cbn [length].
  rewrite (ho_data h H). reflexivity.
Qed.

Lemma load_at n m pre z post off :
  m = pre ++ enc_uint n z ++ post -> off = length pre -> in_u (8 * Z.of_nat n) z ->
  load_unaligned_int n m off = Ok z.
Proof. intros ->. apply load_mid. Qed.

Lemma load_header_bytes g h rest : header_ok h -> load_header (header_bytes g h ++ rest) = Ok h.
Proof.
  intros H. pose proof (ho_data h H) as Hd. destruct h as [[al ad] be sr pr mt nt].
  pose proof (ho_len _ H) as H1. pose proof (ho_behv _ H) as H2. pose proof (ho_src _ H) as H3.
  pose proof (ho_pr _ H) as H4. pose proof (ho_mt _ H) as H5.
  unfold load_header, header_bytes. cbn [addr addr_length addr_data behavior_tid src_shard_id pr_id m_type from_network] in *.
  set (P1 := [pad54 g; pad55 g]). set (P2 := [pad66 g; pad67 g]).
  assert (L1 : length P1 = 2%nat) by done.
  pose (pre1 := enc_uint 1 al ++ ad). pose (pre2 := pre1 ++ enc_uint 1 be ++ P1).
  pose (pre3 := pre2 ++ enc_uint 4 sr). pose (pre4 := pre3 ++ enc_uint 4 pr). pose (pre5 := pre4 ++ enc_uint 1 mt).
  rewrite (load_at 1 _ [] al (ad ++ enc_uint 1 be ++ P1 ++ enc_uint 4 sr ++ enc_uint 4 pr ++ enc_uint 1 mt ++ enc_uint 1 (Z.b2z nt) ++ P2 ++ rest) 0)
    by (rewrite <-?app_assoc; done).
  cbn [mbind res_bind]. rewrite <-!app_assoc, (mem_read_mid (enc_uint 1 al) ad) by (done || now rewrite enc_uint_length).
  cbn [mbind res_bind].
  rewrite (load_at 1 _ pre1 be (P1 ++ enc_uint 4 sr ++ enc_uint 4 pr ++ enc_uint 1 mt ++ enc_uint 1 (Z.b2z nt) ++ P2 ++ rest) 53);
    [|unfold pre1; now rewrite <-!app_assoc|unfold pre1; now rewrite length_app, enc_uint_length, Hd|done].
  cbn [mbind res_bind].
  rewrite (load_at 4 _ pre2 sr (enc_uint 4 pr ++ enc_uint 1 mt ++ enc_uint 1 (Z.b2z nt) ++ P2 ++ rest) 56);
    [|unfold pre2, pre1; now rewrite <-!app_assoc|unfold pre2, pre1; now rewrite !length_app, !enc_uint_length, Hd, L1|done].
  cbn [mbind res_bind].
  rewrite (load_at 4 _ pre3 pr (enc_uint 1 mt ++ enc_uint 1 (Z.b2z nt) ++ P2 ++ rest) 60);
    [|unfold pre3, pre2, pre1; now rewrite <-!app_assoc|unfold pre3, pre2, pre1; now rewrite !length_app, !enc_uint_length, Hd, L1|done].
  cbn [mbind res_bind].
  rewrite (load_at 1 _ pre4 mt (enc_uint 1 (Z.b2z nt) ++ P2 ++ rest) 64);
    [|unfold pre4, pre3, pre2, pre1; now rewrite <-!app_assoc|unfold pre4, pre3, pre2, pre1; now rewrite !length_app, !enc_uint_length, Hd, L1|done].
  cbn [mbind res_bind].
  rewrite (load_at 1 _ pre5 (Z.b2z nt) (P2 ++ rest) 65);
    [|unfold pre5, pre4, pre3, pre2, pre1; now rewrite <-!app_assoc|unfold pre5, pre4, pre3, pre2, pre1; now rewrite !length_app, !enc_uint_length, Hd, L1|now destruct nt].
  cbn [mbind res_bind]. now destruct nt.
Qed.

(** ** Frames: what a message looks like on the wire *)
Definition frame_buffers (bs : list tmpbuf) : bytes :=
  mjoin ((fun b => enc_uint 4 (Z.of_nat (length b)) ++ b) <$> bs).
Definition frame (g : padding) (h : header) (bs : list tmpbuf) : bytes :=
  header_bytes g h ++ enc_uint 4 (Z.of_nat (length bs)) ++ frame_buffers bs.
(** A frame behind its length. *)
Definition packet (f : bytes) : bytes := enc_uint 4 (Z.of_nat (length f)) ++ f.

Lemma frame_buffers_cons b bs :
  frame_buffers (b :: bs) = enc_uint 4 (Z.of_nat (length b)) ++ b ++ frame_buffers bs.
Proof.
  rewrite app_assoc. reflexivity.
Qed.

Lemma frame_buffers_length bs :
  Z.of_nat (length (frame_buffers bs)) = 4 * Z.of_nat (length bs) + total bs.
Proof.
  induction bs as [|b bs IH]; [done|].
  rewrite frame_buffers_cons, total_cons, !length_app, enc_uint_length. cbn [length]. lia.
Qed.

Lemma frame_length g h bs : header_ok h ->
  Z.of_nat (length (frame g h bs)) = 72 + 4 * Z.of_nat (length bs) + total bs.
Proof.
  intros H. unfold frame. pose proof (frame_buffers_length bs).
  rewrite !length_app, enc_uint_length, (header_bytes_length g h H). unfold sizeof_header. lia.
Qed.

Section CodecProofs.
Context {Q : Type} {BQ : BufferQueue Q} {BQL : BufferQueueLaws Q}.
Context {Out : Type} {OS : OutputStream Out}.

Lemma write_buffers_spec bs : forall (q : Q) n (out : Out),
  bq_rel q bs n -> n < 4294967296 -> total bs < 4294967296 ->
  exists out', write_buffers (length bs) q out = Ok out' /\
    written out' = written out ++ frame_buffers bs.
Proof.
  induction bs as [|b bs IH]; intros q n out Hr Hn Ht; cbn [length write_buffers].
  - rewrite (proj2 (bq_empty_rel q [] n Hr)) by done. exists out. cbn. now rewrite app_nil_r.
  - destruct (bq_empty q) eqn:He; [now apply (bq_empty_rel q _ n Hr) in He|].
    destruct (bq_pop_rel q b bs n Hr Hn) as (q' & E & Hr'). rewrite E. cbn [mbind res_bind].
    rewrite total_cons in Ht. pose proof (total_nonneg bs).
    rewrite u32_small by lia.
    destruct (IH q' n (out_write (out_write out (enc_uint 4 (Z.of_nat (length b)))) b) Hr' Hn)
      as (out' & E' & Hw); [lia|].
    exists out'. split; [done|]. rewrite Hw, !written_write, frame_buffers_cons.
    now rewrite <-!app_assoc.
Qed.

Lemma deserialize_loop_spec bs : forall fuel pre post (q : Q) s i nr,
  bq_rel q s i -> nr = i + Z.of_nat (length bs) -> 0 <= i -> nr < 4294967296 ->
  total bs < 4294967292 -> (length bs <= fuel)%nat ->
  exists q', deserialize_loop fuel (pre ++ frame_buffers bs ++ post) i nr (length pre) q = Ok q' /\
    bq_rel q' (s ++ bs) nr.
Proof.
  induction bs as [|b bs IH]; intros fuel pre post q s i nr Hr Hnr Hi Hn Ht Hf; cbn [length] in *.
  - exists q. rewrite app_nil_r. replace nr with i by lia. split; [|done].
    destruct fuel; cbn [deserialize_loop]; now rewrite Z.ltb_irrefl.
  - destruct fuel as [|fuel]; [lia|]. cbn [deserialize_loop].
    rewrite (proj2 (Z.ltb_lt i nr)) by lia.
    rewrite total_cons in Ht. pose proof (total_nonneg bs).
    rewrite frame_buffers_cons, <-!app_assoc.
    rewrite (load_mid 4 pre (Z.of_nat (length b)) _ (length pre))
      by (done || (unfold in_u; change (2 ^ _) with 4294967296; lia)).
    cbn [mbind res_bind]. rewrite Nat2Z.id.
    replace (mem_read _ (length pre + 4) (length b)) with (Ok b).
    2: { symmetry. rewrite app_assoc. apply mem_read_mid; [|done].
         rewrite length_app, enc_uint_length. lia. }
    cbn [mbind res_bind]. destruct (bq_push_rel q s i b Hr) as (q1 & E & Hr1); [lia|].
    rewrite E. cbn [mbind res_bind].
    rewrite (u32_small (i + 1)), (u32_small (Z.of_nat (length b) + 4)) by lia.
    destruct (IH fuel (pre ++ enc_uint 4 (Z.of_nat (length b)) ++ b) post q1 (s ++ [b]) (i + 1) nr Hr1)
      as (q' & E' & Hr'); try lia.
    exists q'. split; [|now rewrite <-app_assoc in Hr'].
    rewrite <-E', !length_app, enc_uint_length, <-!app_assoc. f_equal. lia.
Qed.

(** The loop reads nothing but well-formed buffers, or faults. *)
Lemma deserialize_loop_sound fuel : forall pre m i nr (q q' : Q) s,
  deserialize_loop fuel (pre ++ m) i nr (length pre) q = Ok q' -> bq_rel q s i ->
  0 <= i <= nr -> nr < 4294967296 -> Z.of_nat (length (pre ++ m)) < 4294967296 ->
  exists bs post, m = frame_buffers bs ++ post /\ Z.of_nat (length bs) = nr - i /\ bq_rel q' (s ++ bs) nr.
Proof.
  induction fuel as [|fuel IH]; intros pre m i nr q q' s E Hr Hi Hn Hl; cbn [deserialize_loop] in E;
    destruct (Z.ltb_spec i nr) as [Hlt|Hge].
  1: discriminate.
  1,3: injection E as <-; exists [], m; rewrite app_nil_r; replace nr with i in * by lia;
       split; [done|split; [cbn; lia|done]].
  apply bind_ok in E as (len & El & E). apply bind_ok in E as (b & Eb & E).
  apply bind_ok in E as (q1 & Eq & E).
  apply load_split in El as (p1 & post1 & Em & Hp1 & Hlen).
  apply app_inj_1 in Em as [<- ->]; [|done]. clear Hp1.
  rewrite app_assoc in Eb. apply mem_read_split in Eb as (p2 & post2 & Em & Hp2 & Hb).
  apply app_inj_1 in Em as [<- ->]; [|rewrite length_app, enc_uint_length; lia].
  rewrite !length_app, !enc_uint_length in Hl.
  assert (Hlz : len = Z.of_nat (length b)) by (rewrite Hb; destruct Hlen; lia).
  destruct (bq_push_rel q s i b Hr) as (q2 & Eq2 & Hr2); [lia|].
  rewrite Eq in Eq2. injection Eq2 as <-. rewrite (u32_small (i + 1)) in E by lia.
  rewrite (u32_small (len + 4)) in E by lia.
  destruct (IH (pre ++ enc_uint 4 len ++ b) post2 (i + 1) nr q1 q' (s ++ [b])) as (bs & post & -> & Hbs & Hr'); try done; try lia.
  - rewrite <-E, !length_app, enc_uint_length, <-!app_assoc. f_equal; lia.
  - rewrite !length_app, enc_uint_length. lia.
  - exists (b :: bs), post. rewrite frame_buffers_cons, <-!app_assoc, Hlz. split; [done|].
    split; [cbn [length]; lia|]. now rewrite <-app_assoc in Hr'.
Qed.

Lemma load_fault n m off e : load_unaligned_int n m off = Fault e -> e = OutOfBounds.
Proof. unfold load_unaligned_int, mem_read. case_decide; cbn; congruence. Qed.

Lemma mem_read_fault m off n e : mem_read m off n = Fault e -> e = OutOfBounds.
Proof. unfold mem_read. case_decide; congruence. Qed.

(** Each round consumes at least the four bytes of a length. *)
Lemma deserialize_loop_fault fuel : forall pre m i nr (q : Q) s e,
  (length m < fuel)%nat -> bq_rel q s i -> 0 <= i -> nr < 4294967296 ->
  Z.of_nat (length (pre ++ m)) < 4294967296 ->
  deserialize_loop fuel (pre ++ m) i nr (length pre) q = Fault e -> e = OutOfBounds.
Proof.
  induction fuel as [|fuel IH]; intros pre m i nr q s e Hf Hr Hi Hn Hl E; [lia|].
  cbn [deserialize_loop] in E. destruct (Z.ltb_spec i nr) as [Hlt|]; [|discriminate].
  destruct (load_unaligned_int 4 (pre ++ m) (length pre)) as [len|] eqn:El;
    [|cbn in E; apply load_fault in El; congruence].
  cbn [mbind res_bind] in E. destruct (mem_read _ _ _) as [b|] eqn:Eb in E;
    [|cbn in E; apply mem_read_fault in Eb; congruence].
  cbn [mbind res_bind] in E. destruct (bq_push_rel q s i b Hr) as (q2 & Eq2 & Hr2); [lia|].
  rewrite Eq2 in E. cbn [mbind res_bind] in E. rewrite (u32_small (i + 1)) in E by lia.
  apply load_split in El as (p1 & post1 & Em & Hp1 & Hlen). apply app_inj_1 in Em as [<- ->]; [|done].
  rewrite app_assoc in Eb. apply mem_read_split in Eb as (p2 & post2 & Em & Hp2 & Hb).
  apply app_inj_1 in Em as [<- ->]; [|rewrite length_app, enc_uint_length; lia].
  rewrite !length_app, !enc_uint_length in Hl. rewrite !length_app, !enc_uint_length in Hf.
  rewrite ?length_app in Hl, Hf. destruct Hlen as [Hl0 _].
  rewrite (u32_small (len + 4)) in E by lia.
  apply (IH (pre ++ enc_uint 4 len ++ b) post2 (i + 1) nr q2 (s ++ [b])); try done; try lia.
  - rewrite !length_app, enc_uint_length. lia.
  - rewrite <-E, !length_app, enc_uint_length, <-!app_assoc. f_equal; lia.
Qed.

(** *** Whole messages *)

(** [dumps v bs]: [dump_to] writes [v] as the buffers [bs]. *)
Definition dumps {T} (SE : Serializable T) (v : T) (bs : list tmpbuf) : Prop :=
  forall (q : Q) s n, bq_rel q s n -> n + Z.of_nat (length bs) < 4294967296 ->
    exists q', dump_to v q = Ok q' /\ bq_rel q' (s ++ bs) (n + Z.of_nat (length bs)).

Definition msg_bufs (m : actor_message Q) (bs : list tmpbuf) : Prop :=
  match data m with
  | NoPayload => bs = []
  | Payload T SE v => dumps SE v bs
  | NetPayload _ => False
  end.

(** A message that fits the 32-bit lengths of the format. *)
Record wire_ok (m : actor_message Q) (bs : list tmpbuf) : Prop := {
  wo_hdr : header_ok (hdr m);
  wo_bufs : msg_bufs m bs;
  wo_len : 72 + 4 * Z.of_nat (length bs) + total bs < 4294967296
}.

Definition as_received (h : header) : header :=
  mk_header (addr h) (behavior_tid h) (src_shard_id h) (pr_id h) (m_type h) true.

Lemma serialize_spec g m bs (out : Out) :
  wire_ok m bs ->
  exists out', serialize g m out = Ok out' /\ written out' = written out ++ packet (frame g (hdr m) bs).
Proof.
  intros [Hh Hb Hl]. pose proof (total_nonneg bs) as Ht0.
  assert (Hp : packet (frame g (hdr m) bs) =
    enc_uint 4 (72 + 4 * Z.of_nat (length bs) + total bs) ++ header_bytes g (hdr m) ++
    enc_uint 4 (Z.of_nat (length bs)) ++ frame_buffers bs).
  { unfold packet. rewrite frame_length by done. done. }
  unfold msg_bufs, serialize in *. destruct (data m) as [|T SE v|q]; [..|done].
  - subst bs. eexists. split; [reflexivity|]. unfold serialize_without_payload.
    rewrite Hp, !written_write, <-!app_assoc. cbn [length frame_buffers]. now rewrite app_nil_r.
  - unfold serialize_with_payload. destruct (Hb bq_new [] 0 bq_new_rel) as (q & E & Hr); [lia|].
    rewrite E. cbn [mbind res_bind app] in *. rewrite (bq_bytes_rel _ _ _ Hr). cbn [mbind res_bind].
    rewrite (bq_size_rel _ _ _ Hr), Nat2Z.id. unfold sizeof_header.
    rewrite (u32_small (Z.of_nat (length bs) * 4)), (u32_small (Z.of_nat (length bs))) by lia.
    rewrite (u32_small (total bs)) by lia.
    change (Z.of_nat 68 + 4) with 72. rewrite (u32_small (72 + Z.of_nat (length bs) * 4)) by lia.
    rewrite (u32_small (72 + Z.of_nat (length bs) * 4 + total bs)) by lia.
    edestruct (write_buffers_spec bs q) as (out' & E' & Hw); [exact Hr|lia|lia|].
    exists out'. split; [exact E'|]. rewrite Hw, Hp, !written_write, <-!app_assoc. do 3 f_equal. lia.
Qed.

Lemma deserialize_spec g h bs :
  header_ok h -> 72 + 4 * Z.of_nat (length bs) + total bs < 4294967296 ->
  exists q : Q, deserialize (frame g h bs) = Ok (mk_msg (as_received h) (NetPayload q)) /\ bq_drains q bs.
Proof.
  intros Hh Hl. pose proof (total_nonneg bs) as Ht0. unfold deserialize, frame.
  rewrite load_header_bytes by done. cbn [mbind res_bind].
  rewrite (load_mid 4 (header_bytes g h) (Z.of_nat (length bs)))
    by ((now rewrite header_bytes_length) || (unfold in_u; change (2 ^ _) with 4294967296; lia)).
  cbn [mbind res_bind].
  destruct (deserialize_loop_spec bs (S (length (frame g h bs)))
    (header_bytes g h ++ enc_uint 4 (Z.of_nat (length bs))) [] bq_new [] 0 (Z.of_nat (length bs)) bq_new_rel)
    as (q & E & Hr); try lia.
  { pose proof (frame_length g h bs Hh). lia. }
  rewrite app_nil_r, <-app_assoc, length_app, enc_uint_length, header_bytes_length in E by done.
  unfold frame in E. rewrite E. cbn [mbind res_bind]. eexists. split; [reflexivity|].
  apply bq_move_drains. exact Hr.
Qed.

(** Nothing but an access outside the buffer stops [deserialize]. *)
Lemma deserialize_fault f e :
  Z.of_nat (length f) < 4294967296 -> deserialize (Q := Q) f = Fault e -> e = OutOfBounds.
Proof.
  intros Hl E. unfold deserialize in E.
  destruct (load_header f) as [h|e'] eqn:Eh.
  2: { cbn in E. assert (e' = e) by congruence. subst e'. clear E. unfold load_header in Eh.
       repeat match type of Eh with
         | (?x ≫= _) = _ => let E := fresh "E" in destruct x eqn:E;
             [cbn [mbind res_bind] in Eh | cbn in Eh; (apply load_fault in E || apply mem_read_fault in E); congruence]
         end. discriminate. }
  cbn [mbind res_bind] in E. destruct (load_unaligned_int 4 f sizeof_header) as [nr|] eqn:En;
    [|cbn in E; apply load_fault in En; congruence].
  cbn [mbind res_bind] in E. destruct (deserialize_loop _ _ _ _ _ _) as [q|e'] eqn:El in E; [discriminate|].
  assert (e' = e) by (cbn in E; congruence). subst e'. clear E.
  apply load_split in En as (pre & m0 & -> & Hp & Hnr). destruct Hnr as [Hn0 Hn1].
  change (2 ^ _) with 4294967296 in Hn1. rewrite app_assoc in El.
  replace (sizeof_header + 4)%nat with (length (pre ++ enc_uint 4 nr)) in El
    by (rewrite length_app, enc_uint_length, Hp; done).
  eapply (deserialize_loop_fault _ (pre ++ enc_uint 4 nr) m0 0 nr bq_new []); [..|exact El]; try done.
  - rewrite !length_app. lia.
  - apply bq_new_rel.
  - now rewrite <-app_assoc.
Qed.

End CodecProofs.

(** ** What the codec guarantees *)
Section Claims.
Context {Q : Type} {BQ : BufferQueue Q} {BQL : BufferQueueLaws Q}.
Context {Out : Type} {OS : OutputStream Out}.

(** C22: Serializing any message whose frame length fits 32 bits appends to the stream the
    length of a frame and the frame, and deserializing that frame gives back the
    message: the same address, behavior, source shard, promise id and type, marked as
    coming from the network, with a queue from which exactly the buffers the payload
    was dumped as can be popped, in order. *)
Theorem message_roundtrip g (m : actor_message Q) bs (out : Out) :
  wire_ok m bs ->
  exists out' f (q : Q), serialize g m out = Ok out' /\ written out' = written out ++ packet f /\
    deserialize f = Ok (mk_msg (as_received (hdr m)) (NetPayload q)) /\ bq_drains q bs.
Proof.
  intros H. destruct (serialize_spec g m bs out H) as (out' & E & Hw).
  destruct (deserialize_spec g (hdr m) bs) as (q & E' & Hd); [apply H..|]. eauto 8.
Qed.

(** A request, response or exception message carrying a value of a serializable type
    crosses the network unchanged: what the receiver's [load_from] reads from the
    deserialized payload is the value that was sent. *)
Theorem typed_payload_roundtrip {T} {SE : Serializable T} {SL : SerializableLaws T} g h (v : T) (out : Out) :
  header_ok h -> payload_valid v ->
  72 + 4 * Z.of_nat (length (payload_bufs v)) + total (payload_bufs v) < 4294967296 ->
  exists out' f (q q' : Q),
    serialize g (mk_msg h (Payload T SE v) : actor_message Q) out = Ok out' /\
    written out' = written out ++ packet f /\
    deserialize f = Ok (mk_msg (as_received h) (NetPayload q)) /\ load_from q = Ok (v, q').
Proof.
  intros Hh Hv Hl. set (m := mk_msg h (Payload T SE v) : actor_message Q).
  assert (Hw : wire_ok m (payload_bufs v)).
  { split; [exact Hh| |exact Hl]. intros q s n Hr Hn. now apply dump_to_bufs. }
  destruct (serialize_spec g m _ out Hw) as (out' & E & Hw').
  destruct (deserialize_spec g h (payload_bufs v) Hh Hl) as (q & E' & Hd).
  destruct (load_from_bufs v q []) as (q' & E2 & _); [done|now rewrite app_nil_r|].
  exists out', (frame g h (payload_bufs v)), q, q'. done.
Qed.

(** C23: On arbitrary received bytes, [deserialize] either reads outside the buffer or
    finds exactly a header, a buffer count and that many length-prefixed buffers at
    its front; what it builds then carries those header fields and those buffers.
    In particular it never returns a payload made of other bytes. *)
Theorem deserialize_sound f (m : actor_message Q) :
  Z.of_nat (length f) < 4294967296 -> deserialize f = Ok m ->
  exists hb h bs rest (q : Q),
    f = hb ++ enc_uint 4 (Z.of_nat (length bs)) ++ frame_buffers bs ++ rest /\
    length hb = sizeof_header /\ load_header f = Ok h /\
    m = mk_msg (as_received h) (NetPayload q) /\ bq_drains q bs.
Proof.
  intros Hl E. unfold deserialize in E. apply bind_ok in E as (h & Eh & E).
  apply bind_ok in E as (nr & En & E). apply bind_ok in E as (q & Eq & E).
  apply Ok_inj in E. apply load_split in En as (pre & m0 & -> & Hp & Hnr).
  rewrite app_assoc in Eq. replace (sizeof_header + 4)%nat with (length (pre ++ enc_uint 4 nr)) in Eq
    by (rewrite length_app, enc_uint_length, Hp; done).
  destruct Hnr as [Hn0 Hn1]. change (2 ^ _) with 4294967296 in Hn1.
  apply (deserialize_loop_sound _ _ _ 0 nr bq_new q []) in Eq as (bs & rest & -> & Hbs & Hr);
    [|apply bq_new_rel|lia|lia|now rewrite <-app_assoc].
  rewrite Z.sub_0_r in Hbs. subst nr.
  exists pre, h, bs, rest, (bq_move q). split; [done|]. split; [done|]. split; [done|].
  split; [now subst m|]. apply bq_move_drains, Hr.
Qed.

(** C24: [deserialize] terminates on every buffer shorter than 2^32 bytes, whatever buffer
    count it announces: the only fault is an access outside the buffer. *)
Theorem deserialize_terminates f e :
  Z.of_nat (length f) < 4294967296 -> deserialize (Q := Q) f = Fault e -> e = OutOfBounds.
Proof. apply deserialize_fault. Qed.

End Claims.

(** ** Concrete runs *)
Import SerializablePrimitive.

Definition sample_header : header := mk_header address_zero 7 3 9 USER false.
Definition sample_padding : padding := mk_padding Byte.x00 Byte.x00 Byte.x00 Byte.x00.

Lemma sample_header_ok : header_ok sample_header.
Proof. split; cbn; done. Qed.

Lemma message_roundtrip_witness :
  exists out' f (q : list tmpbuf),
    serialize sample_padding (mk_msg sample_header NoPayload : actor_message (list tmpbuf)) ([] : bytes) = Ok out' /\
    written out' = packet f /\
    deserialize f = Ok (mk_msg (as_received sample_header) (NetPayload q)) /\ bq_drains q [].
Proof.
  destruct (message_roundtrip (Q := list tmpbuf) sample_padding (mk_msg sample_header NoPayload) [] ([] : bytes))
    as (out' & f & q & H1 & H2 & H3 & H4); [split; [exact sample_header_ok|reflexivity|reflexivity]|].
  exists out', f, q. do 3 (split; [assumption|]). assumption.
Defined.

Lemma typed_payload_roundtrip_witness :
  let v := SerializablePrimitive.mk_Integer (-5) in
  exists out' f (q q' : list tmpbuf),
    serialize sample_padding (mk_msg sample_header (Payload _ _ v) : actor_message (list tmpbuf)) ([] : bytes) = Ok out' /\
    written out' = packet f /\
    deserialize f = Ok (mk_msg (as_received sample_header) (NetPayload q)) /\ load_from q = Ok (v, q').
Proof.
  intros v.
  destruct (typed_payload_roundtrip (Q := list tmpbuf) sample_padding sample_header v ([] : bytes))
    as (out' & f & q & q' & H1 & H2 & H3 & H4).
  - exact sample_header_ok.
  - cbn. unfold SerializablePrimitive.int_valid. cbn. lia.
  - reflexivity.
  - exists out', f, q, q'. do 3 (split; [assumption|]). assumption.
Defined.

Definition sample_frame : bytes := frame sample_padding sample_header [[Byte.x01; Byte.x02]].

Lemma deserialize_sound_witness :
  exists hb h bs rest (q : list tmpbuf),
    sample_frame = hb ++ enc_uint 4 (Z.of_nat (length bs)) ++ frame_buffers bs ++ rest /\
    length hb = sizeof_header /\ load_header sample_frame = Ok h /\
    mk_msg (as_received sample_header) (NetPayload [[Byte.x01; Byte.x02]]) = mk_msg (as_received h) (NetPayload q) /\
    bq_drains q bs.
Proof. apply (deserialize_sound (Q := list tmpbuf)); vm_compute; reflexivity. Defined.

Lemma deserialize_terminates_witness :
  deserialize (Q := list tmpbuf) (take 10 sample_frame) = Fault OutOfBounds /\ OutOfBounds = OutOfBounds.
Proof.
  assert (E : deserialize (Q := list tmpbuf) (take 10 sample_frame) = Fault OutOfBounds) by reflexivity.
  split; [exact E|]. eapply (deserialize_terminates (take 10 sample_frame)); [reflexivity|exact E].
Defined.
