(* ===== verification/DynamicQueue.v ===== *)
(** * dynamic_queue

    The asynchronous single-producer single-consumer queue between the shard that
    sends a network message and the sender loop of a connection
    (src/include/hiactor/core/dynamic-queue.hh).

    A [seastar::promise<>] is a cell of a promise store; a future is a value, an
    exception or the promise it waits for.  The continuation a waiting pop leaves
    behind runs as a task of its own, so other operations can come between the
    moment the promise is resolved and the moment the continuation runs: [step] takes
    them as separate events. *)
From S2P Require Import Prelude.

Section DynamicQueue.
Context {T E : Type}.

Inductive pstate := Pending | Resolved | Failed (e : E).

Inductive fut (A : Type) := Ready (a : A) | FailedFut (e : E) | Wait (p : nat).
Arguments Ready {A} _.
Arguments FailedFut {A} _.
Arguments Wait {A} _.

Record dynamic_queue := mk {
  _q : list T;
  _not_empty : option nat;
  _ex : option E;
  promises : list pstate
}.

(** The constructor ignores its [size] argument. *)
Definition dynamic_queue_new (size : Z) : dynamic_queue := mk [] None None [].

Definition notify_not_empty (d : dynamic_queue) : dynamic_queue :=
  match _not_empty d with
  | Some p => mk (_q d) None (_ex d) (<[p := Resolved]> (promises d))
  | None => d
  end.

Definition push (d : dynamic_queue) (a : T) : bool * dynamic_queue :=
  (true, notify_not_empty (mk (_q d ++ [a]) (_not_empty d) (_ex d) (promises d))).

(** [_q.front()] of an empty queue is undefined. *)
Definition pop (d : dynamic_queue) : res (T * dynamic_queue) :=
  match _q d with
  | [] => Fault OutOfBounds
  | a :: q => Ok (a, mk q (_not_empty d) (_ex d) (promises d))
  end.

Definition empty (d : dynamic_queue) : bool := match _q d with [] => true | _ => false end.
Definition size (d : dynamic_queue) : Z := Z.of_nat (length (_q d)).

Definition not_empty (d : dynamic_queue) : fut unit * dynamic_queue :=
  match _ex d with
  | Some e => (FailedFut e, d)
  | None =>
      if negb (empty d) then (Ready tt, d)
      else let p := length (promises d) in
           (Wait p, mk (_q d) (Some p) (_ex d) (promises d ++ [Pending]))
  end.

(** The lambda of [not_empty().then(...)]. *)
Definition pop_continuation (d : dynamic_queue) : res (fut T * dynamic_queue) :=
  match _ex d with
  | Some e => Ok (FailedFut e, d)
  | None => '(a, d) ← pop d; Ok (Ready a, d)
  end.

Definition pop_eventually (d : dynamic_queue) : res (fut T * dynamic_queue) :=
  match _ex d with
  | Some e => Ok (FailedFut e, d)
  | None =>
      if empty d then
        match not_empty d with
        | (Ready _, d) => pop_continuation d
        | (FailedFut e, d) => Ok (FailedFut e, d)
        | (Wait p, d) => Ok (Wait p, d)
        end
      else '(a, d) ← pop d; Ok (Ready a, d)
  end.

(** What seastar does with the continuation once promise [p] is resolved: the lambda
    only runs on a value. *)
Definition resume (d : dynamic_queue) (p : nat) : res (fut T * dynamic_queue) :=
  match promises d !! p with
  | Some Resolved => pop_continuation d
  | Some (Failed e) => Ok (FailedFut e, d)
  | _ => Ok (Wait p, d)
  end.

Definition push_eventually (d : dynamic_queue) (a : T) : fut unit * dynamic_queue :=
  match _ex d with
  | Some e => (FailedFut e, d)
  | None => (Ready tt, notify_not_empty (mk (_q d ++ [a]) (_not_empty d) (_ex d) (promises d)))
  end.

(** [consume]: the items handed to [func], its verdict, what is left; [inr e] when it
    rethrows. *)
Fixpoint consume_loop (func : T -> bool) (q : list T) : list T * bool * list T :=
  match q with
  | [] => ([], true, [])
  | a :: q =>
      if func a then let '(used, running, rest) := consume_loop func q in (a :: used, running, rest)
      else ([a], false, q)
  end.
Definition consume (func : T -> bool) (d : dynamic_queue) : (list T * bool * dynamic_queue) + E :=
  match _ex d with
  | Some e => inr e
  | None => let '(used, running, rest) := consume_loop func (_q d) in
            inl (used, running, mk rest (_not_empty d) (_ex d) (promises d))
  end.

Definition abort (d : dynamic_queue) (e : E) : dynamic_queue :=
  match _not_empty d with
  | Some p => mk [] None (Some e) (<[p := Failed e]> (promises d))
  | None => mk [] None (Some e) (promises d)
  end.

(** ** One producer, one consumer

    The consumer calls [pop_eventually] again only once its last future resolved.
    [EStop] is [buffers_helper::abort] (src/src/net/connection.cc), the only other user
    of the consumer side: it deletes what is queued with [consume], then aborts. *)
Inductive event := EPush (a : T) | EPop | EResume | EStop (e : E).

Record sys := mk_sys {
  queue : dynamic_queue;
  waiting : option nat;      (* the promise the consumer waits for *)
  delivered : list T;        (* what its pops returned *)
  deleted : list T;          (* what [EStop] deleted *)
  failed : bool              (* the consumer saw the exception *)
}.

Definition sys_new : sys := mk_sys (dynamic_queue_new 16) None [] [] false.

Definition consumer_got (s : sys) (r : fut T * dynamic_queue) : sys :=
  match r with
  | (Ready a, d) => mk_sys d None (delivered s ++ [a]) (deleted s) (failed s)
  | (FailedFut e, d) => mk_sys d None (delivered s) (deleted s) true
  | (Wait p, d) => mk_sys d (Some p) (delivered s) (deleted s) (failed s)
  end.

Definition step (s : sys) (ev : event) : res sys :=
  match ev with
  | EPush a => Ok (mk_sys (snd (push_eventually (queue s) a)) (waiting s) (delivered s) (deleted s) (failed s))
  | EPop =>
      match waiting s with
      | Some _ => Ok s
      | None => r ← pop_eventually (queue s); Ok (consumer_got s r)
      end
  | EResume =>
      match waiting s with
      | Some p => r ← resume (queue s) p; Ok (consumer_got s r)
      | None => Ok s
      end
  | EStop e =>
      match consume (fun _ => true) (queue s) with
      | inl (used, _, d) => Ok (mk_sys (abort d e) (waiting s) (delivered s) (deleted s ++ used) (failed s))
      | inr _ => Ok s      (* rethrown to [connection_manager::stop] *)
      end
  end.

Fixpoint run (s : sys) (evs : list event) : res sys :=
  match evs with
  | [] => Ok s
  | ev :: evs => s ← step s ev; run s evs
  end.

(** The items pushed while the queue was not aborted. *)
Fixpoint accepted (stopped : bool) (evs : list event) : list T :=
  match evs with
  | [] => []
  | EPush a :: evs => if stopped then accepted stopped evs else a :: accepted stopped evs
  | EStop _ :: evs => accepted true evs
  | _ :: evs => accepted stopped evs
  end.

(** ** The invariant *)
Record inv (s : sys) (acc : list T) : Prop := {
  i_items : acc = delivered s ++ deleted s ++ _q (queue s);
  i_deleted : _ex (queue s) = None -> deleted s = [];
  i_aborted : _ex (queue s) <> None -> _q (queue s) = [];
  i_pending : forall p, _not_empty (queue s) = Some p <->
                (waiting s = Some p /\ promises (queue s) !! p = Some Pending);
  i_waiting : forall p, waiting s = Some p ->
                match promises (queue s) !! p with
                | Some Pending => _q (queue s) = [] /\ _ex (queue s) = None
                | Some Resolved => _ex (queue s) = None -> _q (queue s) <> []
                | Some (Failed _) => _ex (queue s) <> None
                | None => False
                end
}.

Lemma inv_new : inv sys_new [].
Proof. split; cbn; try done. intros p. split; [done|]. now intros [? _]. Qed.

Lemma consume_loop_all q : consume_loop (fun _ => true) q = (q, true, []).
Proof. induction q as [|a q IH]; cbn; [done|]. now rewrite IH. Qed.

Lemma inv_push s acc a : inv s acc ->
  exists s', step s (EPush a) = Ok s' /\
    inv s' (match _ex (queue s) with None => acc ++ [a] | Some _ => acc end) /\ _ex (queue s') = _ex (queue s).
Proof.
  intros [Hi Hd Ha Hp Hw]. eexists. split; [reflexivity|]. unfold push_eventually.
  destruct (_ex (queue s)) as [e|] eqn:Ee; cbn [snd queue].
  { split; [|done]. split; cbn [queue waiting delivered deleted]; rewrite ?Ee; auto. }
  unfold notify_not_empty. cbn [_not_empty]. destruct (_not_empty (queue s)) as [p|] eqn:En;
    (split; [|cbn; done]); split; cbn [queue waiting delivered deleted _q _ex _not_empty promises]; rewrite ?Ee; try done.
  - rewrite Hi, (Hd eq_refl), <-!app_assoc. done.
  - intros p'. split; [done|]. intros [Hwp Hpp].
    pose proof (proj1 (Hp p) eq_refl) as [Hwp' Hpp']. rewrite Hwp' in Hwp. simplify_eq.
    pose proof (lookup_lt_Some _ _ _ Hpp') as Hlt. rewrite list_lookup_insert_eq in Hpp by exact Hlt. done.
  - intros p' Hwp. pose proof (proj1 (Hp p) eq_refl) as [Hwp' Hpp']. rewrite Hwp' in Hwp. simplify_eq.
    pose proof (lookup_lt_Some _ _ _ Hpp') as Hlt. rewrite list_lookup_insert_eq by exact Hlt. intros _. now destruct (_q (queue s)).
  - rewrite Hi, (Hd eq_refl), <-!app_assoc. done.
  - intros p Hwp. specialize (Hw p Hwp). destruct (promises (queue s) !! p) as [[]|] eqn:Epp; try done.
    { exfalso. assert (None = Some p) by (apply Hp; done). done. }
    intros _. now destruct (_q (queue s)).
Qed.

Lemma inv_pop s acc : inv s acc ->
  exists s', step s EPop = Ok s' /\ inv s' acc /\ _ex (queue s') = _ex (queue s).
Proof.
  intros Hinv. pose proof Hinv as [Hi Hd Ha Hp Hw]. cbn [step].
  destruct (waiting s) as [w|] eqn:Ew; [eauto|].
  assert (Hn : _not_empty (queue s) = None).
  { destruct (_not_empty (queue s)) as [p|]; [|done]. destruct (proj1 (Hp p) eq_refl) as [? _]. done. }
  unfold pop_eventually, empty. destruct (_ex (queue s)) as [e|] eqn:Ee.
  { eexists. split; [reflexivity|]. cbn [consumer_got]. split; [|cbn; done].
    split; cbn [queue waiting delivered deleted]; rewrite ?Ee, ?Hn; auto; try done.
    intros p. split; [done|]. now intros [? _]. }
  destruct (_q (queue s)) as [|a q] eqn:Eq.
  - unfold not_empty, empty. rewrite Ee, Eq. cbn [negb mbind res_bind consumer_got].
    eexists. split; [reflexivity|]. split; [|cbn; done]. split; cbn; try done.
    + intros p. rewrite lookup_app. split.
      * intros [= <-]. split; [done|]. rewrite lookup_ge_None_2 by lia. now rewrite Nat.sub_diag.
      * now intros [[= <-] _].
    + intros p [= <-]. rewrite lookup_app_r, Nat.sub_diag by lia. cbn. done.
  - unfold pop. rewrite Eq. cbn [mbind res_bind consumer_got]. eexists. split; [reflexivity|].
    split; [|cbn; done]. split; cbn; try done.
    + rewrite Hi, (Hd eq_refl), <-app_assoc. done.
    + now rewrite Ee.
Qed.

Lemma inv_resume s acc : inv s acc ->
  exists s', step s EResume = Ok s' /\ inv s' acc /\ _ex (queue s') = _ex (queue s).
Proof.
  intros Hinv. pose proof Hinv as [Hi Hd Ha Hp Hw]. cbn [step].
  destruct (waiting s) as [w|] eqn:Ew; [|eauto]. unfold resume. specialize (Hw w eq_refl) as Hw'.
  destruct (promises (queue s) !! w) as [[| |e]|] eqn:Epr; [..|done].
  - cbn [mbind res_bind consumer_got]. eexists. split; [reflexivity|]. split; [|done].
    split; cbn [queue waiting delivered deleted]; auto; rewrite <-Ew in *; auto.
  - assert (Hn : _not_empty (queue s) = None).
    { destruct (_not_empty (queue s)) as [p|]; [|done]. destruct (proj1 (Hp p) eq_refl) as [E1 E2]. injection E1 as ->. rewrite Epr in E2. discriminate. }
    unfold pop_continuation. destruct (_ex (queue s)) as [e|] eqn:Ee.
    + cbn [mbind res_bind consumer_got]. eexists. split; [reflexivity|]. split; [|cbn; done].
      split; cbn [queue waiting delivered deleted]; rewrite ?Ee, ?Hn; auto; try done.
      intros p. split; [done|]. now intros [? _].
    + destruct (_q (queue s)) as [|a q] eqn:Eq; [now destruct (Hw' eq_refl)|].
      unfold pop. rewrite Eq. cbn [mbind res_bind consumer_got]. eexists. split; [reflexivity|].
      split; [|cbn; done]. split; cbn; try done.
      * rewrite Hi, (Hd eq_refl), <-app_assoc. done.
      * now rewrite Ee.
      * intros p. rewrite Hn. split; [done|]. now intros [? _].
  - assert (Hn : _not_empty (queue s) = None).
    { destruct (_not_empty (queue s)) as [p|]; [|done]. destruct (proj1 (Hp p) eq_refl) as [E1 E2]. injection E1 as ->. rewrite Epr in E2. discriminate. }
    cbn [mbind res_bind consumer_got]. eexists. split; [reflexivity|]. split; [|done].
    split; cbn [queue waiting delivered deleted]; rewrite ?Hn; auto; try done.
    intros p. split; [done|]. now intros [? _].
Qed.

(** On a live queue the consumer's next step takes the item at the front, if there is one. *)
Lemma consumer_pops s acc : inv s acc -> _ex (queue s) = None ->
  exists s', step s (match waiting s with Some _ => EResume | None => EPop end) = Ok s' /\ inv s' acc /\
    _ex (queue s') = None /\ failed s' = failed s /\ _q (queue s') = tail (_q (queue s)).
Proof.
  intros H Hx. destruct (waiting s) as [p|] eqn:Ew.
  - destruct (inv_resume s acc H) as (s' & Es & Hi & Hx'). exists s'. split; [done|]. split; [done|]. split; [congruence|].
    pose proof (i_waiting _ _ H p Ew) as Hw. cbn [step] in Es. rewrite Ew in Es. unfold resume in Es.
    destruct (promises (queue s) !! p) as [[| |e]|]; [|unfold pop_continuation, pop in Es|done|done].
    + injection Es as <-. cbn. destruct Hw as [-> _]. done.
    + rewrite Hx in Es. specialize (Hw Hx). destruct (_q (queue s)); [done|]. injection Es as <-. done.
  - destruct (inv_pop s acc H) as (s' & Es & Hi & Hx'). exists s'. split; [done|]. split; [done|]. split; [congruence|].
    cbn [step] in Es. rewrite Ew in Es. unfold pop_eventually, not_empty, empty, pop in Es. rewrite Hx in Es.
    destruct (_q (queue s)) eqn:Eq; cbn in Es; injection Es as <-; cbn; rewrite ?Eq; done.
Qed.

Lemma inv_stop s acc e : inv s acc ->
  exists s', step s (EStop e) = Ok s' /\ inv s' acc /\ _ex (queue s') <> None /\ waiting s' = waiting s.
Proof.
  intros Hinv. pose proof Hinv as [Hi Hd Ha Hp Hw]. cbn [step]. unfold consume.
  destruct (_ex (queue s)) as [e0|] eqn:Ee; [exists s; rewrite Ee; done|].
  rewrite consume_loop_all. unfold abort. cbn [_not_empty].
  destruct (_not_empty (queue s)) as [p|] eqn:En;
    (eexists; split; [reflexivity|]; split; [|done]); split; cbn; try done.
  - rewrite Hi, (Hd eq_refl), app_nil_r. done.
  - intros p'. split; [done|]. intros [Hwp Hpp]. destruct (proj1 (Hp p) eq_refl) as [Hwp' Hpp'].
    rewrite Hwp' in Hwp. simplify_eq. pose proof (lookup_lt_Some _ _ _ Hpp') as Hlt.
    rewrite list_lookup_insert_eq in Hpp by exact Hlt. done.
  - intros p' Hwp. destruct (proj1 (Hp p) eq_refl) as [Hwp' Hpp'].
    rewrite Hwp' in Hwp. simplify_eq. pose proof (lookup_lt_Some _ _ _ Hpp') as Hlt.
    now rewrite list_lookup_insert_eq by exact Hlt.
  - rewrite Hi, (Hd eq_refl), app_nil_r. done.
  - intros p Hwp. specialize (Hw p Hwp). destruct (promises (queue s) !! p) as [[]|] eqn:Epp; try done.
    exfalso. assert (None = Some p) by (apply Hp; done). done.
Qed.

Lemma run_inv evs : forall s acc, inv s acc ->
  exists s', run s evs = Ok s' /\
    inv s' (acc ++ accepted (match _ex (queue s) with Some _ => true | None => false end) evs).
Proof.
  induction evs as [|ev evs IH]; intros s acc Hinv; cbn [run accepted].
  - rewrite app_nil_r. eauto.
  - destruct ev as [a| | |e].
    + destruct (inv_push s acc a Hinv) as (s' & Est & H' & Ex). rewrite Est. cbn [mbind res_bind].
      destruct (IH s' _ H') as (s2 & E2 & H2). exists s2. split; [done|]. rewrite Ex in H2.
      destruct (_ex (queue s)); [done|]. now rewrite <-app_assoc in H2.
    + destruct (inv_pop s acc Hinv) as (s' & Est & H' & Ex). rewrite Est. cbn [mbind res_bind].
      destruct (IH s' _ H') as (s2 & E2 & H2). exists s2. rewrite Ex in H2. done.
    + destruct (inv_resume s acc Hinv) as (s' & Est & H' & Ex). rewrite Est. cbn [mbind res_bind].
      destruct (IH s' _ H') as (s2 & E2 & H2). exists s2. rewrite Ex in H2. done.
    + destruct (inv_stop s acc e Hinv) as (s' & Est & H' & Ex & _). rewrite Est. cbn [mbind res_bind].
      destruct (IH s' _ H') as (s2 & E2 & H2). exists s2. split; [done|].
      destruct (_ex (queue s')); [|done]. destruct (_ex (queue s)); done.
Qed.

(** Whatever the interleaving of pushes, pops, resumed continuations and aborts, no
    operation touches an empty queue, and the items accepted before the abort are,
    in the order they were pushed, those the consumer's pops returned, then those
    the abort deleted, then those still queued: none is lost, duplicated or
    reordered. *)
Theorem dynamic_queue_fifo evs :
  exists s, run sys_new evs = Ok s /\ accepted false evs = delivered s ++ deleted s ++ _q (queue s).
Proof. destruct (run_inv evs sys_new [] inv_new) as (s & Est & Hinv). exists s. split; [done|]. apply Hinv. Qed.

(** C27: No wakeup is lost: a consumer that waits after any run waits on an empty,
    live queue, or the continuation of its future is due and ends the wait, with the
    item at the front if the queue is live and with the exception if not. *)
Theorem dynamic_queue_no_lost_wakeup evs s p :
  run sys_new evs = Ok s -> waiting s = Some p ->
  (_q (queue s) = [] /\ _ex (queue s) = None) \/
  exists s', step s EResume = Ok s' /\ waiting s' = None /\
    match _ex (queue s) with
    | None => exists a q, _q (queue s) = a :: q /\ delivered s' = delivered s ++ [a] /\ _q (queue s') = q
    | Some _ => failed s' = true
    end.
Proof.
  intros Hrun Hwait. destruct (run_inv evs sys_new [] inv_new) as (s0 & Est & Hinv).
  rewrite Hrun in Est. apply Ok_inj in Est. subst s0.
  pose proof (i_waiting _ _ Hinv p Hwait) as Hw. cbn [step]. rewrite Hwait. unfold resume.
  destruct (promises (queue s) !! p) as [[| |e]|]; [by left|right|right|done].
  - unfold pop_continuation. destruct (_ex (queue s)) as [e|] eqn:Ee.
    + eexists. split; [reflexivity|]. cbn. done.
    + unfold pop. destruct (_q (queue s)) as [|a q]; [now destruct (Hw eq_refl)|].
      eexists. split; [reflexivity|]. cbn. eauto 6.
  - eexists. split; [reflexivity|]. cbn. split; [done|]. now destruct (_ex (queue s)).
Qed.

(** After the abort of a connection every pop fails: a consumer that is not waiting
    gets the exception at once and no item is delivered any more. *)
Theorem dynamic_queue_stopped evs e s :
  run sys_new (evs ++ [EStop e]) = Ok s -> waiting s = None ->
  _q (queue s) = [] /\
  exists s', step s EPop = Ok s' /\ failed s' = true /\ delivered s' = delivered s.
Proof.
  intros Hrun Hwait. destruct (run_inv (evs ++ [EStop e]) sys_new [] inv_new) as (s0 & Est & Hinv).
  rewrite Hrun in Est. apply Ok_inj in Est. subst s0.
  assert (Hex : _ex (queue s) <> None).
  { destruct (run_inv evs sys_new [] inv_new) as (s1 & E1 & H1).
    destruct (inv_stop s1 _ e H1) as (s2 & E2 & _ & Hx & _).
    enough (run sys_new (evs ++ [EStop e]) = Ok s2) by congruence.
    clear -E1 E2. revert E1. generalize sys_new. induction evs as [|ev evs IH]; intros s0 E1; cbn [run app] in *.
    - injection E1 as ->. now rewrite E2.
    - destruct (step s0 ev) as [s3|]; [|discriminate]. cbn [mbind res_bind] in *. auto. }
  split; [now apply (i_aborted _ _ Hinv)|]. cbn [step]. rewrite Hwait. unfold pop_eventually.
  destruct (_ex (queue s)); [|done]. eexists. split; [reflexivity|]. done.
Qed.

(** The capacity given to the constructor bounds nothing: a queue made with any size
    accepts every push and holds all of the items. *)
Theorem dynamic_queue_unbounded n (items : list T) :
  let d := foldl (fun d a => snd (push d a)) (dynamic_queue_new n) items in
  _q d = items /\ (forall a, fst (push d a) = true).
Proof.
  cbn. split; [|done]. rewrite <-(app_nil_l items) at 2. change [] with (_q (dynamic_queue_new n)) at 2.
  generalize (dynamic_queue_new n). induction items as [|a items IH]; intros d; cbn [foldl].
  - now rewrite app_nil_r.
  - rewrite IH. unfold push, notify_not_empty. cbn. destruct (_not_empty d); cbn; now rewrite <-app_assoc.
Qed.

End DynamicQueue.
Arguments fut {E} A.

Lemma dynamic_queue_no_lost_wakeup_witness :
  let evs := [EPop; EPush 7; EPush 8] : list (event (T := Z) (E := unit)) in
  exists s', (s ← run sys_new evs; step s EResume) = Ok s' /\ delivered s' = [7] /\ _q (queue s') = [8].
Proof.
  intros evs. destruct (run sys_new evs) as [s|] eqn:E; [|discriminate].
  assert (Hw : waiting s = Some 0%nat) by (vm_compute in E; injection E as <-; reflexivity).
  destruct (dynamic_queue_no_lost_wakeup evs s 0 E Hw) as [[Hq _]|(s' & Es & _ & H)].
  - vm_compute in E. injection E as <-. discriminate.
  - exists s'. split; [exact Es|]. vm_compute in E. injection E as <-. vm_compute in Es.
    injection Es as <-. split; reflexivity.
Defined.

Lemma dynamic_queue_stopped_witness :
  exists s, run sys_new ([EPush 7] ++ [EStop tt]) = Ok s /\ _q (queue s) = [] /\
    exists s', step s EPop = Ok s' /\ failed s' = true /\ delivered s' = delivered s.
Proof.
  eexists. split; [reflexivity|]. apply (dynamic_queue_stopped [EPush 7] tt); reflexivity.
Defined.
