(* ===== verification/MessageQueue.v ===== *)
(** * The cross-shard message queues

    [actor_message_queue] (src/src/core/local_channel.cc) and [network_message_queue]
    (src/src/net/network_channel.cc).  The two classes have the same code, one for
    [actor_message*] and one for [message_item]: here they are one development over the
    type [M] of what is queued.

    The ring buffer between the two shards is [boost::lockfree::spsc_queue]; [Spsc] is
    what its documentation promises: [push(begin, end)] moves as many elements as
    there is room for, [pop(ret)] and [pop(array)] take from the front.  Producer
    and consumer run on different shards, so [event] has a case for each of their
    accesses to the ring buffer, in any interleaving. *)
From S2P Require Import Prelude.

Definition queue_length : nat := 128.
Definition batch_size : nat := 16.
Definition prefetch_cnt : nat := 2.

(** ** boost::lockfree::spsc_queue *)
Class Spsc (R M : Type) := {
  ring_new : R;
  ring : R -> list M;
  ring_push : R -> list M -> nat * R;
  ring_pop : R -> option (M * R);
  ring_pop_array : R -> nat -> list M * R;
  ring_new_empty : ring ring_new = [];
  ring_push_spec r l :
    let n := Nat.min (length l) (queue_length - length (ring r)) in
    fst (ring_push r l) = n /\ ring (snd (ring_push r l)) = ring r ++ take n l;
  ring_pop_spec r :
    match ring_pop r with
    | None => ring r = []
    | Some (m, r') => ring r = m :: ring r'
    end;
  ring_pop_array_spec r n :
    fst (ring_pop_array r n) = take n (ring r) /\ ring (snd (ring_pop_array r n)) = drop n (ring r)
}.

(** A bounded list is one. *)
#[export, refine] Instance list_spsc (M : Type) : Spsc (list M) M := {
  ring_new := [];
  ring r := r;
  ring_push r l := (Nat.min (length l) (queue_length - length r), r ++ take (queue_length - length r) l);
  ring_pop r := match r with [] => None | m :: r => Some (m, r) end;
  ring_pop_array r n := (take n r, drop n r)
}.
Proof.
  - done.
  - intros r l n. split; [done|]. subst n. cbn [snd]. f_equal.
    destruct (Nat.le_gt_cases (length l) (queue_length - length r)).
    + rewrite Nat.min_l by lia. rewrite !take_ge by lia. done.
    + now rewrite Nat.min_r by lia.
  - intros [|m r]; done.
  - done.
Defined.

Section MessageQueue.
Context {R M : Type} {SQ : Spsc R M}.

Record message_queue := mk {
  _pending : R;
  pending_fifo : option (list M);   (* [_tx]: [None] until [start] constructs it *)
  _sent : Z;
  _last_snt_batch : Z;
  _current_queue_length : Z;
  _received : Z;
  _last_rcv_batch : Z
}.

Definition message_queue_new : message_queue := mk ring_new None 0 0 0 0 0.

Definition set_pending r q :=
  mk r (pending_fifo q) (_sent q) (_last_snt_batch q) (_current_queue_length q) (_received q) (_last_rcv_batch q).
Definition set_fifo l q :=
  mk (_pending q) (Some l) (_sent q) (_last_snt_batch q) (_current_queue_length q) (_received q) (_last_rcv_batch q).

Definition start (q : message_queue) : message_queue := set_fifo [] q.

Definition fifo (q : message_queue) : res (list M) := of_option Uninit (pending_fifo q).

(** [maybe_wakeup]: the [_sleeping] flag of the remote shard and whether it is woken. *)
Definition maybe_wakeup (sleeping : bool) : bool * bool :=
  if sleeping then (false, true) else (sleeping, false).

(** [move_pending] returns the number of messages moved; it wakes the remote shard
    ([maybe_wakeup]) when that is not zero. *)
Definition move_pending (q : message_queue) : res (Z * message_queue) :=
  l ← fifo q;
  match ring_push (_pending q) l return res (Z * message_queue) with
  | (nr, r) =>
      if (nr =? 0)%nat then Ok (0, set_pending r q)
      else
        let n := Z.of_nat nr in
        Ok (n, mk r (Some (drop nr l)) (u64 (_sent q + n)) n (u64 (_current_queue_length q + n))
                 (_received q) (_last_rcv_batch q))
  end.

Definition send (q : message_queue) (msg : M) : res (Z * message_queue) :=
  l ← fifo q;
  let q := set_fifo (l ++ [msg]) q in
  if (batch_size <=? length (l ++ [msg]))%nat then move_pending q else Ok (0, q).

Definition send_urgent (q : message_queue) (msg : M) : res (Z * message_queue) :=
  l ← fifo q;
  let q := set_fifo (msg :: l) q in
  if (batch_size <=? length (msg :: l))%nat then move_pending q else Ok (0, q).

Definition flush_request_batch (q : message_queue) : res (Z * message_queue) :=
  l ← fifo q;
  match l with [] => Ok (0, q) | _ => move_pending q end.

Definition pure_poll_rx (q : message_queue) : bool :=
  match ring (_pending q) with [] => false | _ => true end.

(** [std::fill(messages + nr, messages + nr + prefetch_cnt, v)] on the array, whose
    elements are indeterminate ([None]) until written. *)
Definition fill_messages (messages : list (option M)) (nr : nat) (v : M) : res (list (option M)) :=
  if decide (nr + prefetch_cnt <= length messages)%nat
  then Ok (take nr messages ++ replicate prefetch_cnt (Some v) ++ drop (nr + prefetch_cnt) messages)
  else Fault OutOfBounds.

(** [do { receive(tm); tm = messages[i++]; } while (i <= nr);] *)
Fixpoint receive_loop (fuel : nat) (messages : list (option M)) (nr i : nat) (tm : M) : res (list M) :=
  match fuel with
  | O => Fault NoFuel
  | S fuel =>
      next ← of_option OutOfBounds (messages !! i);
      if (S i <=? nr)%nat then
        tm' ← of_option Uninit next;
        rest ← receive_loop fuel messages nr (S i) tm';
        Ok (tm :: rest)
      else Ok [tm]
  end.

(** The first half of [process_incoming]: [if (!q.pop(tm)) return 0;] *)
Definition process_pop (q : message_queue) : option (M * message_queue) :=
  match ring_pop (_pending q) with
  | Some (tm, r) => Some (tm, set_pending r q)
  | None => None
  end.

(** The rest: the messages handed to [receive] (resp. [push_to_buffer]), in order, and
    the number returned. *)
Definition process_rest (tm : M) (q : message_queue) : res (list M * Z * message_queue) :=
  let messages := replicate (queue_length + prefetch_cnt) None in
  let '(popped, r) := ring_pop_array (_pending q) (queue_length + prefetch_cnt) in
  let nr := length popped in
  let messages := (Some <$> popped) ++ drop nr messages in
  last ← (if (nr =? 0)%nat then Ok tm else of_option OutOfBounds (popped !! (nr - 1)%nat));
  messages ← fill_messages messages nr last;
  received ← receive_loop (S nr) messages nr 0 tm;
  let n := Z.of_nat (nr + 1) in
  Ok (received, n,
      mk r (pending_fifo q) (_sent q) (_last_snt_batch q) (_current_queue_length q)
         (u64 (_received q + n)) n).

Definition process_incoming (q : message_queue) : res (list M * Z * message_queue) :=
  match process_pop q with
  | None => Ok ([], 0, q)
  | Some (tm, q) => process_rest tm q
  end.

(** ** Lemmas *)
Lemma receive_loop_spec messages nr popped : forall k i tm,
  length popped = nr -> (forall j, (j < nr)%nat -> messages !! j = Some (popped !! j)) ->
  (exists v, messages !! nr = Some v) -> (i + k = nr)%nat ->
  receive_loop (S k) messages nr i tm = Ok (tm :: drop i popped).
Proof.
  intros k i tm Hl Hm [v Hv]. revert i tm. induction k as [|k IH]; intros i tm Hik; cbn [receive_loop].
  - replace i with nr by lia. rewrite Hv. cbn [of_option mbind res_bind].
    rewrite (proj2 (Nat.leb_gt (S nr) nr)) by lia. rewrite drop_ge by lia. done.
  - rewrite (Hm i) by lia. cbn [of_option mbind res_bind]. rewrite (proj2 (Nat.leb_le (S i) nr)) by lia.
    destruct (lookup_lt_is_Some_2 popped i) as [m Hmi]; [lia|]. rewrite Hmi. cbn [of_option mbind res_bind].
    change (receive_loop (S k) messages nr (S i) m ≫= (fun rest => Ok (tm :: rest)) = Ok (tm :: drop i popped)).
    rewrite IH by lia. cbn [mbind res_bind]. do 2 f_equal. now rewrite (drop_S popped m i).
Qed.

Lemma process_rest_spec tm q :
  (length (ring (_pending q)) <= queue_length)%nat ->
  exists q', process_rest tm q = Ok (tm :: ring (_pending q), Z.of_nat (length (ring (_pending q)) + 1), q') /\
    ring (_pending q') = [] /\ pending_fifo q' = pending_fifo q /\ _sent q' = _sent q /\
    _current_queue_length q' = _current_queue_length q /\
    _received q' = u64 (_received q + Z.of_nat (length (ring (_pending q)) + 1)).
Proof.
  intros Hlen. unfold process_rest.
  pose proof (ring_pop_array_spec (_pending q) (queue_length + prefetch_cnt)) as [H1 H2].
  destruct (ring_pop_array _ _) as [popped r]. cbn [fst snd] in *. subst popped.
  rewrite take_ge by (unfold prefetch_cnt; lia). rewrite drop_ge in H2 by (unfold prefetch_cnt; lia).
  set (p := ring (_pending q)) in *. set (nr := length p).
  assert (Hlast : exists l, (if (nr =? 0)%nat then Ok tm else of_option OutOfBounds (p !! (nr - 1)%nat)) = Ok l).
  { destruct (Nat.eqb_spec nr 0); [eauto|].
    destruct (lookup_lt_is_Some_2 p (nr - 1)) as [m ->]; [unfold nr in *; lia|]. cbn. eauto. }
  destruct Hlast as [l ->]. cbn [mbind res_bind]. unfold fill_messages.
  rewrite decide_True by (rewrite length_app, length_fmap, length_drop, length_replicate; unfold prefetch_cnt, nr; lia).
  cbn [mbind res_bind].
  rewrite (receive_loop_spec _ nr p nr 0 tm); try done.
  - cbn [mbind res_bind]. eexists. split; [reflexivity|]. cbn. done.
  - intros j Hj. rewrite lookup_app_l by (rewrite length_take, length_app, length_fmap; unfold nr in *; lia).
    rewrite lookup_take_lt by lia. rewrite lookup_app_l by (rewrite length_fmap; unfold nr in *; lia).
    rewrite list_lookup_fmap. destruct (lookup_lt_is_Some_2 p j) as [m ->]; [unfold nr in *; lia|]. done.
  - exists (Some l). rewrite lookup_app_r by (rewrite length_take; lia).
    rewrite length_take, length_app, length_fmap, Nat.min_l by (unfold nr; lia).
    now rewrite Nat.sub_diag.
Qed.

Lemma move_pending_spec q l :
  pending_fifo q = Some l -> (length (ring (_pending q)) <= queue_length)%nat ->
  exists n q', move_pending q = Ok (Z.of_nat n, q') /\
    (n = Nat.min (length l) (queue_length - length (ring (_pending q))))%nat /\
    ring (_pending q') = ring (_pending q) ++ take n l /\ pending_fifo q' = Some (drop n l) /\
    _received q' = _received q /\
    _sent q' = (if (n =? 0)%nat then _sent q else u64 (_sent q + Z.of_nat n)) /\
    _current_queue_length q' =
      (if (n =? 0)%nat then _current_queue_length q else u64 (_current_queue_length q + Z.of_nat n)).
Proof.
  intros Hl Hb. unfold move_pending, fifo. rewrite Hl. cbn [of_option mbind res_bind].
  pose proof (ring_push_spec (_pending q) l) as [H1 H2].
  destruct (ring_push (_pending q) l) as [nr r]. cbn [fst snd] in *. subst nr.
  set (n := Nat.min _ _) in *. exists n. destruct (Nat.eqb_spec n 0) as [E|E].
  - exists (set_pending r q). rewrite E in *. cbn. rewrite drop_0. done.
  - eexists. split; [reflexivity|]. cbn. done.
Qed.

(** ** Producer and consumer interleaved *)
Inductive event := ESend (m : M) | EUrgent (m : M) | EFlush | EPop | EDrain.

Record sys := mk_sys {
  mq : message_queue;
  tm : option M;          (* popped by [process_pop], not yet received *)
  delivered : list M      (* handed to [receive], in order *)
}.
Definition sys_new : sys := mk_sys (start message_queue_new) None [].

Definition step (s : sys) (ev : event) : res sys :=
  match ev with
  | ESend m => '(_, q) ← send (mq s) m; Ok (mk_sys q (tm s) (delivered s))
  | EUrgent m => '(_, q) ← send_urgent (mq s) m; Ok (mk_sys q (tm s) (delivered s))
  | EFlush => '(_, q) ← flush_request_batch (mq s); Ok (mk_sys q (tm s) (delivered s))
  | EPop =>
      match tm s, process_pop (mq s) with
      | None, Some (m, q) => Ok (mk_sys q (Some m) (delivered s))
      | _, _ => Ok s
      end
  | EDrain =>
      match tm s with
      | Some m => '(l, _, q) ← process_rest m (mq s); Ok (mk_sys q None (delivered s ++ l))
      | None => Ok s
      end
  end.

Fixpoint run (s : sys) (evs : list event) : res sys :=
  match evs with [] => Ok s | ev :: evs => s ← step s ev; run s evs end.

Definition waiting_fifo (s : sys) : list M := default [] (pending_fifo (mq s)).
(** What left the sender's deque, and everything. *)
Definition passed (s : sys) : list M := delivered s ++ option_list (tm s) ++ ring (_pending (mq s)).
Definition all (s : sys) : list M := passed s ++ waiting_fifo s.

Definition sent_of (ev : event) : list M :=
  match ev with ESend m | EUrgent m => [m] | _ => [] end.
Definition sent (evs : list event) : list M := mjoin (sent_of <$> evs).

Record inv (s : sys) : Prop := {
  i_started : is_Some (pending_fifo (mq s));
  i_room : (length (ring (_pending (mq s))) <= queue_length)%nat;
  i_sent : _sent (mq s) = u64 (Z.of_nat (length (passed s)));
  i_received : _received (mq s) = u64 (Z.of_nat (length (delivered s)));
  i_current : _current_queue_length (mq s) = _sent (mq s)
}.

Definition all_after (s : sys) (ev : event) : list M :=
  match ev with
  | ESend m => all s ++ [m]
  | EUrgent m => passed s ++ m :: waiting_fifo s
  | _ => all s
  end.

Lemma u64_add a b : u64 (u64 a + b) = u64 (a + b).
Proof. apply wrap_add_l. Qed.

(** Moving the front of the deque [l] into the ring buffer. *)
Lemma moved_inv s l (q0 : message_queue) :
  inv s -> q0 = set_fifo l (mq s) ->
  exists n q, move_pending q0 = Ok (n, q) /\ inv (mk_sys q (tm s) (delivered s)) /\
    all (mk_sys q (tm s) (delivered s)) = passed s ++ l.
Proof.
  intros [Hs Hr H1 H2 H3] ->.
  destruct (move_pending_spec (set_fifo l (mq s)) l eq_refl Hr) as (n & q & E & Hn & Hring & Hf & Hrec & Hsent & Hcur).
  cbn [_pending set_fifo _received _sent _current_queue_length] in *.
  exists (Z.of_nat n), q. split; [exact E|].
  assert (Hp : passed (mk_sys q (tm s) (delivered s)) = passed s ++ take n l).
  { unfold passed. cbn [mq tm delivered]. rewrite Hring, <-!app_assoc. done. }
  split.
  - split; cbn [mq tm delivered].
    + rewrite Hf. eauto.
    + rewrite Hring, length_app, length_take. lia.
    + rewrite Hp, length_app, length_take, Nat.min_l by lia. rewrite Hsent, H1.
      destruct (Nat.eqb_spec n 0) as [->|]; [f_equal; lia|]. rewrite u64_add. f_equal. lia.
    + now rewrite Hrec.
    + rewrite Hcur, Hsent, H3. done.
  - unfold all. rewrite Hp, <-app_assoc. unfold waiting_fifo. cbn [mq]. rewrite Hf.
    change (default [] (Some (drop n l))) with (drop n l). now rewrite take_drop.
Qed.

Lemma kept_inv s l : inv s -> inv (mk_sys (set_fifo l (mq s)) (tm s) (delivered s)).
Proof. intros [Hs Hr H1 H2 H3]. split; cbn; eauto. Qed.

Lemma step_spec s ev : inv s -> exists s', step s ev = Ok s' /\ inv s' /\ all s' = all_after s ev.
Proof.
  intros Hinv. pose proof (i_started _ Hinv) as [l Hl].
  assert (Hw : waiting_fifo s = l) by (unfold waiting_fifo; now rewrite Hl).
  destruct ev as [m|m| | |]; cbn [step all_after].
  - unfold send, fifo. rewrite Hl. cbn [of_option mbind res_bind].
    destruct (batch_size <=? _)%nat.
    + destruct (moved_inv s (l ++ [m]) _ Hinv eq_refl) as (n & q & E & Hi & Ha).
      rewrite E. cbn [mbind res_bind]. eexists. split; [reflexivity|]. split; [done|].
      rewrite Ha. unfold all. now rewrite Hw, app_assoc.
    + cbn [mbind res_bind]. eexists. split; [reflexivity|]. split; [now apply kept_inv|].
      unfold all, passed, waiting_fifo. cbn [mq tm delivered pending_fifo set_fifo _pending default].
      rewrite Hl. cbn. now rewrite !app_assoc.
  - unfold send_urgent, fifo. rewrite Hl. cbn [of_option mbind res_bind].
    destruct (batch_size <=? _)%nat.
    + destruct (moved_inv s (m :: l) _ Hinv eq_refl) as (n & q & E & Hi & Ha).
      rewrite E. cbn [mbind res_bind]. eexists. split; [reflexivity|]. split; [done|].
      now rewrite Ha, Hw.
    + cbn [mbind res_bind]. eexists. split; [reflexivity|]. split; [now apply kept_inv|].
      now rewrite Hw.
  - unfold flush_request_batch, fifo. rewrite Hl. cbn [of_option mbind res_bind].
    destruct l as [|m l].
    + cbn [mbind res_bind]. exists s. split; [now destruct s|]. done.
    + destruct (moved_inv s (m :: l) (mq s) Hinv) as (n & q & E & Hi & Ha).
      { destruct (mq s). cbn in *. now subst. }
      rewrite E. cbn [mbind res_bind]. eexists. split; [reflexivity|]. split; [done|].
      rewrite Ha. unfold all. now rewrite Hw.
  - destruct (tm s) as [m0|] eqn:Et; [eauto|]. unfold process_pop.
    pose proof (ring_pop_spec (_pending (mq s))) as Hp.
    destruct (ring_pop (_pending (mq s))) as [[m r]|]; [|eauto].
    eexists. split; [reflexivity|]. destruct Hinv as [Hs Hr H1 H2 H3].
    assert (Hpass : passed (mk_sys (set_pending r (mq s)) (Some m) (delivered s)) = passed s).
    { unfold passed. cbn. rewrite Et, Hp. done. }
    split; [|unfold all; rewrite Hpass; done].
    split; cbn [mq tm delivered set_pending pending_fifo _pending _sent _received _current_queue_length]; auto.
    + rewrite Hp in Hr. cbn [length] in Hr. lia.
    + rewrite H1. now rewrite <-Hpass.
  - destruct (tm s) as [m|] eqn:Et; [|eauto].
    destruct (process_rest_spec m (mq s) (i_room _ Hinv)) as (q & E & Hring & Hf & Hsent & Hcur & Hrec).
    rewrite E. cbn [mbind res_bind]. eexists. split; [reflexivity|]. destruct Hinv as [Hs Hr H1 H2 H3].
    assert (Hpass : passed (mk_sys q None (delivered s ++ m :: ring (_pending (mq s)))) = passed s).
    { unfold passed. cbn [mq tm delivered option_list]. rewrite Et, Hring, app_nil_r. done. }
    split.
    + split; cbn [mq tm delivered]; rewrite ?Hring, ?Hf, ?Hsent; auto.
      * cbn. lia.
      * now rewrite Hpass.
      * rewrite Hrec, H2, u64_add, length_app. cbn [length]. f_equal. lia.
      * now rewrite Hcur.
    + unfold all. rewrite Hpass. unfold waiting_fifo. cbn [mq]. now rewrite Hf.
Qed.

Lemma mq_inv_new : inv sys_new.
Proof. split; cbn; try done; rewrite ?ring_new_empty; eauto; cbn; unfold queue_length; try lia; done. Qed.

Lemma all_new : all sys_new = [].
Proof. unfold all, passed. cbn. now rewrite ring_new_empty. Qed.

Lemma run_step evs : forall s, inv s -> exists s', run s evs = Ok s' /\ inv s' /\ Permutation (all s') (all s ++ sent evs).
Proof.
  induction evs as [|ev evs IH]; intros s Hinv; cbn [run].
  - exists s. rewrite app_nil_r. done.
  - destruct (step_spec s ev Hinv) as (s1 & E & H1 & Ha). rewrite E. cbn [mbind res_bind].
    destruct (IH s1 H1) as (s2 & E2 & H2 & Hp). exists s2. split; [done|]. split; [done|].
    rewrite Hp, Ha. change (sent (ev :: evs)) with (sent_of ev ++ sent evs).
    destruct ev as [m|m| | |]; cbn [all_after sent_of app]; try done.
    + now rewrite <-app_assoc.
    + unfold all. rewrite <-!app_assoc. f_equiv. cbn [app].
      now rewrite Permutation_middle.
Qed.

Definition urgent (ev : event) : bool := match ev with EUrgent _ => true | _ => false end.

Lemma run_fifo evs : forall s, inv s -> forallb (fun ev => negb (urgent ev)) evs = true ->
  exists s', run s evs = Ok s' /\ all s' = all s ++ sent evs.
Proof.
  induction evs as [|ev evs IH]; intros s Hinv Hu; cbn [run forallb] in *.
  - exists s. rewrite app_nil_r. done.
  - apply andb_prop in Hu as [Hev Hu].
    destruct (step_spec s ev Hinv) as (s1 & E & H1 & Ha). rewrite E. cbn [mbind res_bind].
    destruct (IH s1 H1 Hu) as (s2 & E2 & H2). exists s2. split; [done|].
    rewrite H2, Ha. change (sent (ev :: evs)) with (sent_of ev ++ sent evs).
    destruct ev as [m|m| | |]; cbn [all_after sent_of app]; try done.
    now rewrite <-app_assoc.
Qed.

(** Between two shards no message is lost or duplicated, for every interleaving of
    normal and urgent sends, flushes and polls: what was delivered, what is in flight in
    the ring buffer and what waits in the sender's deque is a permutation of what was
    sent.  The ring buffer never overflows, the receiver's array is only accessed
    inside its bounds and where it was written, and the counters [_sent] and
    [_received] count, modulo 2^64, the messages that left the deque and those received. *)
Theorem queue_no_loss evs :
  exists s, run sys_new evs = Ok s /\ Permutation (all s) (sent evs) /\
    (length (ring (_pending (mq s))) <= queue_length)%nat /\
    _sent (mq s) = u64 (Z.of_nat (length (passed s))) /\
    _received (mq s) = u64 (Z.of_nat (length (delivered s))).
Proof.
  destruct (run_step evs sys_new mq_inv_new) as (s & E & [] & Hp). exists s.
  rewrite all_new in Hp. done.
Qed.

(** Without urgent messages the channel is first-in-first-out: what is delivered is a
    prefix of what was sent, and the rest is still on its way in the same order. *)
Theorem queue_fifo evs :
  forallb (fun ev => negb (urgent ev)) evs = true ->
  exists s, run sys_new evs = Ok s /\
    sent evs = delivered s ++ option_list (tm s) ++ ring (_pending (mq s)) ++ waiting_fifo s.
Proof.
  intros Hu. destruct (run_fifo evs sys_new mq_inv_new Hu) as (s & E & Ha). exists s. split; [done|].
  rewrite all_new in Ha. cbn [app] in Ha. rewrite <-Ha. unfold all, passed. now rewrite <-!app_assoc.
Qed.

(** A poll of the receiver after a flush of the sender delivers everything that was
    sent before, as long as the ring buffer can hold it. *)
Theorem poll_delivers evs s :
  run sys_new evs = Ok s -> (length (all s) - length (delivered s) <= queue_length)%nat ->
  exists s', run s [EDrain; EFlush; EPop; EDrain] = Ok s' /\ delivered s' = all s.
Proof.
  intros Hrun Hb. destruct (run_step evs sys_new mq_inv_new) as (s0 & E & Hinv & _).
  rewrite Hrun in E. apply Ok_inj in E. subst s0.
  destruct (step_spec s EDrain Hinv) as (s1 & E1 & H1 & A1).
  assert (T1 : tm s1 = None).
  { cbn [step] in E1. destruct (tm s) eqn:Et; [|apply Ok_inj in E1; now subst].
    apply bind_ok in E1 as ([[l n] q] & _ & E1). apply Ok_inj in E1. now subst. }
  assert (B1 : (length (ring (_pending (mq s1))) + length (waiting_fifo s1) <= queue_length)%nat).
  { cbn [all_after] in A1.
    assert (length (delivered s) <= length (delivered s1))%nat.
    { cbn [step] in E1. destruct (tm s); [|apply Ok_inj in E1; now subst].
      apply bind_ok in E1 as ([[l n] q] & _ & E1). apply Ok_inj in E1. subst s1.
      cbn [delivered]. rewrite length_app. lia. }
    rewrite <-A1 in Hb. unfold all, passed in Hb. rewrite !length_app in Hb. lia. }
  destruct (step_spec s1 EFlush H1) as (s2 & E2 & H2 & A2).
  assert (B2 : waiting_fifo s2 = [] /\ tm s2 = None).
  { cbn [step] in E2. unfold flush_request_batch, fifo in E2.
    destruct (i_started _ H1) as [l Hl]. unfold waiting_fifo in B1. rewrite Hl in *. cbn in B1.
    cbn [of_option mbind res_bind] in E2. destruct l as [|m l].
    - cbn in E2. apply Ok_inj in E2. subst s2. cbn. unfold waiting_fifo. cbn. now rewrite Hl.
    - destruct (move_pending_spec (mq s1) _ Hl (i_room _ H1)) as (n & q & E & Hn & _ & Hf & _).
      rewrite E in E2. cbn in E2. apply Ok_inj in E2. subst s2. unfold waiting_fifo. cbn [mq tm].
      rewrite Hf. split; [|done]. cbn [length] in B1. change (drop n (m :: l) = []). apply drop_ge. cbn [length].
      rewrite Hn. cbn [length]. lia. }
  destruct B2 as [W2 T2].
  destruct (step_spec s2 EPop H2) as (s3 & E3 & H3 & A3).
  destruct (step_spec s3 EDrain H3) as (s4 & E4 & H4 & A4).
  exists s4. cbn [run]. rewrite E1. cbn [mbind res_bind]. rewrite E2. cbn [mbind res_bind].
  rewrite E3. cbn [mbind res_bind]. rewrite E4. cbn [mbind res_bind]. split; [done|].
  cbn [all_after] in *. rewrite <-A1, <-A2, <-A3, <-A4. unfold all, passed.
  cbn [step] in E3. rewrite T2 in E3. unfold process_pop in E3.
  pose proof (ring_pop_spec (_pending (mq s2))) as Hp.
  destruct (ring_pop (_pending (mq s2))) as [[m r]|]; apply Ok_inj in E3; subst s3; cbn [step tm mq] in E4.
  - destruct (process_rest_spec m (set_pending r (mq s2)) (i_room _ H3)) as (q & E & Hring & Hf & _).
    rewrite E in E4. cbn in E4. apply Ok_inj in E4. subst s4. cbn [delivered tm mq option_list].
    rewrite Hring. unfold waiting_fifo in *. cbn [mq]. rewrite Hf. cbn [pending_fifo set_pending].
    rewrite W2. now rewrite !app_nil_r.
  - rewrite T2 in E4. apply Ok_inj in E4. subst s4. rewrite T2, Hp, W2. cbn. now rewrite !app_nil_r.
Qed.

(** Two urgent messages sent one after the other to an idle queue arrive in the reverse
    order: each is put in front of the deque. *)
Theorem urgent_reversed m1 m2 :
  exists s, run sys_new [EUrgent m1; EUrgent m2; EFlush; EPop; EDrain] = Ok s /\ delivered s = [m2; m1].
Proof.
  destruct (step_spec sys_new (EUrgent m1) mq_inv_new) as (s1 & E1 & H1 & A1).
  assert (s1 = mk_sys (set_fifo [m1] (mq sys_new)) None []) as -> by (apply Ok_inj; rewrite <-E1; done).
  assert (Hr : run sys_new [EUrgent m1; EUrgent m2] = Ok (mk_sys (set_fifo [m2; m1] (mq sys_new)) None [])) by done.
  destruct (poll_delivers _ _ Hr) as (s' & Es & Hd).
  { unfold all, passed, waiting_fifo. cbn. rewrite ring_new_empty. cbn. unfold queue_length. lia. }
  exists s'. split.
  - change (run sys_new [EUrgent m1; EUrgent m2; EFlush; EPop; EDrain]) with
      (run (mk_sys (set_fifo [m2; m1] (mq sys_new)) None []) [EFlush; EPop; EDrain]).
    rewrite <-Es. reflexivity.
  - rewrite Hd. unfold all, passed, waiting_fifo. cbn. now rewrite ring_new_empty.
Qed.

End MessageQueue.

(** ** Concrete runs *)
Lemma queue_fifo_witness :
  exists s, run (sys_new (R := list Z)) [ESend 1; EFlush; ESend 2; EPop; EDrain] = Ok s /\
    [1; 2] = delivered s ++ option_list (tm s) ++ ring (_pending (mq s)) ++ waiting_fifo s.
Proof. apply (queue_fifo (R := list Z) [ESend 1; EFlush; ESend 2; EPop; EDrain]). reflexivity. Defined.

Lemma poll_delivers_witness :
  exists s s', run (sys_new (R := list Z)) [ESend 1; EUrgent 2] = Ok s /\
    run s [EDrain; EFlush; EPop; EDrain] = Ok s' /\ delivered s' = [2; 1].
Proof.
  destruct (run (sys_new (R := list Z)) [ESend 1; EUrgent 2]) as [s|] eqn:E; [|discriminate].
  destruct (poll_delivers (R := list Z) [ESend 1; EUrgent 2] s E) as (s' & Es & Hd).
  - vm_compute in E. injection E as <-. vm_compute. lia.
  - exists s, s'. split; [reflexivity|]. split; [exact Es|]. rewrite Hd. vm_compute in E. injection E as <-. reflexivity.
Defined.
