(* ===== verification/Channels.v ===== *)
(** * The channels between shards

    [local_channel] (src/src/core/local_channel.cc, src/include/hiactor/core/local_channel.hh)
    and the queue matrix of [network_channel] (src/src/net/network_channel.cc): queue
    [_qs[i][j]] carries messages to shard [i] from shard [j]; the start of the queues
    ([actor_smp], src/src/core/actor-app.cc) and the poller that drains them and puts the
    shard to sleep ([actor_smp_pollfn], src/include/hiactor/core/actor_pollfn.hh). *)
From S2P Require Import Prelude.
From S2P Require Import MessageQueue.

Section Channel.
Context {R M : Type} {SQ : Spsc R M}.
Abbreviation queue := (message_queue (R := R) (M := M)).

Record channel := mk_channel { count : nat; _qs : nat -> nat -> queue }.

(** [_qs[i][j]], and assigning it. *)
Definition at_ (c : channel) (i j : nat) : res queue :=
  if ((i <? count c) && (j <? count c))%nat then Ok (_qs c i j) else Fault OutOfBounds.
Definition upd (c : channel) (i j : nat) (q : queue) : channel :=
  mk_channel (count c) (fun i' j' => if decide (i' = i /\ j' = j) then q else _qs c i' j').

Definition create_qs (nr_cpu : nat) : channel := mk_channel nr_cpu (fun _ _ => message_queue_new).

(** [start_all_queues] on one shard, and on all of them. *)
Fixpoint start_loop (cs : list nat) (sid : nat) (ch : channel) : res channel :=
  match cs with
  | [] => Ok ch
  | c :: cs =>
      if decide (c <> sid) then q ← at_ ch c sid; start_loop cs sid (upd ch c sid (start q))
      else start_loop cs sid ch
  end.
Definition start_all_queues (sid : nat) (ch : channel) : res channel := start_loop (seq 0 (count ch)) sid ch.
Fixpoint start_shards (sids : list nat) (ch : channel) : res channel :=
  match sids with
  | [] => Ok ch
  | sid :: sids => ch ← start_all_queues sid ch; start_shards sids ch
  end.

(** [local_channel::send]: the target is the address's global shard id less the anchor. *)
Definition send_helper (ch : channel) (sid : nat) (sid_anchor shard_id : Z) (msg : M) : res channel :=
  let target_cpu := Z.to_nat (u32 (shard_id - sid_anchor)) in
  q ← at_ ch target_cpu sid;
  '(_, q) ← send q msg;
  Ok (upd ch target_cpu sid q).
Definition send_helper_urgent (ch : channel) (sid : nat) (sid_anchor shard_id : Z) (msg : M) : res channel :=
  let target_cpu := Z.to_nat (u32 (shard_id - sid_anchor)) in
  q ← at_ ch target_cpu sid;
  '(_, q) ← send_urgent q msg;
  Ok (upd ch target_cpu sid q).

(** [poll_queues]: the messages received, in order, their number and the new queues. *)
Fixpoint poll_loop (shards : list nat) (sid : nat) (ch : channel) (got : Z) (rcvd : list M) : res (Z * list M * channel) :=
  match shards with
  | [] => Ok (got, rcvd, ch)
  | i :: shards =>
      if decide (sid <> i) then
        rxq ← at_ ch sid i;
        '(l, n, rxq) ← process_incoming rxq;
        let ch := upd ch sid i rxq in
        txq ← at_ ch i sid;
        '(_, txq) ← flush_request_batch txq;
        poll_loop shards sid (upd ch i sid txq) (u64 (got + n)) (rcvd ++ l)
      else poll_loop shards sid ch got rcvd
  end.
Definition poll_queues (sid : nat) (ch : channel) : res (bool * list M * channel) :=
  '(got, rcvd, ch) ← poll_loop (seq 0 (count ch)) sid ch 0 [];
  Ok (negb (got =? 0), rcvd, ch).

(** [pure_poll_queues]; [skip_self] is the test [local_shard_id() != i], which
    [local_channel] has and [network_channel] has not. *)
Fixpoint pure_poll_loop (skip_self : bool) (shards : list nat) (sid : nat) (ch : channel) : res (bool * channel) :=
  match shards with
  | [] => Ok (false, ch)
  | i :: shards =>
      if (skip_self && (sid =? i)%nat)%bool then pure_poll_loop skip_self shards sid ch
      else
        txq ← at_ ch i sid;
        '(_, txq) ← flush_request_batch txq;
        let ch := upd ch i sid txq in
        rxq ← at_ ch sid i;
        if pure_poll_rx rxq then Ok (true, ch) else pure_poll_loop skip_self shards sid ch
  end.
Definition local_pure_poll_queues (sid : nat) (ch : channel) := pure_poll_loop true (seq 0 (count ch)) sid ch.
Definition network_pure_poll_queues (sid : nat) (ch : channel) := pure_poll_loop false (seq 0 (count ch)) sid ch.

(** ** Invariant *)

(** Exactly the queues between two different shards are started, and no ring buffer
    holds more than its capacity. *)
Record chan_ok (ch : channel) : Prop := {
  c_started : forall i j, (i < count ch)%nat -> (j < count ch)%nat -> i <> j -> is_Some (pending_fifo (_qs ch i j));
  c_self : forall i, (i < count ch)%nat -> pending_fifo (_qs ch i i) = None;
  c_room : forall i j, (i < count ch)%nat -> (j < count ch)%nat ->
    (length (ring (_pending (_qs ch i j))) <= queue_length)%nat
}.

Lemma at_ok ch i j : (i < count ch)%nat -> (j < count ch)%nat -> at_ ch i j = Ok (_qs ch i j).
Proof. intros Hi Hj. unfold at_. rewrite (proj2 (Nat.ltb_lt i _) Hi), (proj2 (Nat.ltb_lt j _) Hj). done. Qed.

Lemma upd_eq ch i j q : _qs (upd ch i j q) i j = q.
Proof. cbn. now rewrite decide_True. Qed.

Lemma upd_ne ch i j q i' j' : (i', j') <> (i, j) -> _qs (upd ch i j q) i' j' = _qs ch i' j'.
Proof. intros H. cbn. rewrite decide_False; [done|]. intros [-> ->]. done. Qed.

Definition queue_ok (q : queue) : Prop :=
  is_Some (pending_fifo q) /\ (length (ring (_pending q)) <= queue_length)%nat.

Lemma chan_ok_upd ch i j q : chan_ok ch -> i <> j -> queue_ok q -> chan_ok (upd ch i j q).
Proof.
  intros [H1 H2 H3] Hij [Hq1 Hq2]. split; cbn [count upd].
  - intros i' j' Hi Hj Hne. cbn. case_decide; auto.
  - intros i' Hi. cbn. case_decide as Hd; [destruct Hd; congruence|auto].
  - intros i' j' Hi Hj. cbn. case_decide; auto.
Qed.

(** What is queued: in the ring buffer, then in the deque. *)
Definition contents (q : queue) : list M := ring (_pending q) ++ default [] (pending_fifo q).

Lemma flush_ok q : queue_ok q ->
  exists n q', flush_request_batch q = Ok (n, q') /\ queue_ok q' /\ contents q' = contents q /\
    ((length (contents q) <= queue_length)%nat -> ring (_pending q') = contents q).
Proof.
  intros [[l Hl] Hr]. unfold flush_request_batch, fifo. rewrite Hl. cbn [of_option mbind res_bind].
  destruct l as [|m l].
  - exists 0, q. unfold contents. rewrite Hl. cbn. rewrite app_nil_r. split; [done|]. split; [split; eauto|done].
  - destruct (move_pending_spec q (m :: l) Hl Hr) as (n & q' & E & Hn & Hring & Hf & _).
    exists (Z.of_nat n), q'. split; [exact E|]. unfold queue_ok, contents. rewrite Hring, Hf, Hl. cbn [from_option default].
    split; [|split].
    + split; [eauto|]. rewrite length_app, length_take. lia.
    + cbn. change (id (drop n (m :: l))) with (drop n (m :: l)). rewrite <-app_assoc, take_drop. done.
    + cbn. rewrite length_app. change (id (m :: l)) with (m :: l). intros Hb. rewrite take_ge; [done|]. rewrite Hn. lia.
Qed.

Lemma process_incoming_ok q : queue_ok q ->
  exists n q', process_incoming q = Ok (ring (_pending q), n, q') /\ queue_ok q' /\
    n = Z.of_nat (length (ring (_pending q))) /\ contents q' = default [] (pending_fifo q).
Proof.
  intros [[l Hl] Hr]. unfold process_incoming, process_pop.
  pose proof (ring_pop_spec (_pending q)) as Hp. destruct (ring_pop (_pending q)) as [[m r]|].
  - destruct (process_rest_spec m (set_pending r q)) as (q' & E & Hring & Hf & _).
    { cbn. rewrite Hp in Hr. cbn in Hr. lia. }
    cbn [_pending set_pending] in *. rewrite E, Hp. cbn [pending_fifo set_pending] in Hf.
    eexists _, q'. split; [reflexivity|]. unfold queue_ok, contents. rewrite Hring, Hf, Hl. cbn [length].
    split; [split; [eauto|lia]|]. split; [lia|done].
  - rewrite Hp. exists 0, q. split; [done|]. unfold queue_ok, contents. rewrite Hp, Hl. split; [split; [eauto|cbn; lia]|].
    done.
Qed.

(** ** Starting the queues *)
Lemma start_loop_spec sid cs : forall ch,
  (sid < count ch)%nat -> Forall (fun c => (c < count ch)%nat) cs ->
  exists ch', start_loop cs sid ch = Ok ch' /\ count ch' = count ch /\
    forall i j, _qs ch' i j = if decide (j = sid /\ i ∈ cs /\ i <> sid) then start (_qs ch i j) else _qs ch i j.
Proof.
  induction cs as [|c cs IH]; intros ch Hs Hc; cbn [start_loop].
  - exists ch. split; [done|]. split; [done|]. intros i j. rewrite decide_False; [done|]. set_solver.
  - apply Forall_cons in Hc as [Hc Hcs]. case_decide as Hne.
    + rewrite (at_ok ch c sid Hc Hs). cbn [mbind res_bind].
      destruct (IH (upd ch c sid (start (_qs ch c sid))) Hs Hcs) as (ch' & E & Hn & Hq).
      exists ch'. split; [done|]. split; [done|]. intros i j. rewrite Hq. clear Hq. cbn [_qs upd].
      destruct (decide (j = sid)) as [->|Hj].
      * destruct (decide (i = c)) as [->|Hic].
        -- rewrite (decide_True (P := c = c /\ sid = sid)) by done.
           rewrite (decide_True (P := sid = sid /\ c ∈ c :: cs /\ c <> sid)) by set_solver.
           case_decide; done.
        -- rewrite (decide_False (P := i = c /\ sid = sid)) by tauto.
           repeat case_decide; set_solver.
      * rewrite !decide_False by tauto. done.
    + destruct (IH ch Hs Hcs) as (ch' & E & Hn & Hq). exists ch'. split; [done|]. split; [done|].
      intros i j. rewrite Hq. assert (c = sid) as -> by (destruct (decide (c = sid)); [done|tauto]).
      repeat case_decide; set_solver.
Qed.

Lemma start_shards_spec sids : forall ch,
  Forall (fun c => (c < count ch)%nat) sids ->
  exists ch', start_shards sids ch = Ok ch' /\ count ch' = count ch /\
    forall i j, (i < count ch)%nat ->
      _qs ch' i j = if decide (j ∈ sids /\ i <> j) then start (_qs ch i j) else _qs ch i j.
Proof.
  induction sids as [|sid sids IH]; intros ch Hs; cbn [start_shards].
  - exists ch. split; [done|]. split; [done|]. intros i j _. rewrite decide_False; [done|]. set_solver.
  - apply Forall_cons in Hs as [Hs Hss].
    destruct (start_loop_spec sid (seq 0 (count ch)) ch Hs) as (ch1 & E & Hn & Hq).
    { apply Forall_forall. intros x Hx. apply elem_of_seq in Hx. lia. }
    unfold start_all_queues. rewrite E. cbn [mbind res_bind].
    destruct (IH ch1) as (ch2 & E2 & Hn2 & Hq2); [now rewrite Hn|]. exists ch2. split; [done|].
    split; [congruence|]. intros i j Hi. rewrite Hq2, Hq by congruence.
    assert (Hin : i ∈ seq 0 (count ch)) by (apply elem_of_seq; lia).
    destruct (decide (j = sid)) as [->|Hj].
    + destruct (decide (i = sid)) as [->|His].
      * rewrite !decide_False; try tauto.
      * rewrite (decide_True (P := sid = sid /\ i ∈ seq 0 (count ch) /\ i <> sid)) by done.
        rewrite (decide_True (P := sid ∈ sid :: sids /\ i <> sid)) by set_solver.
        case_decide; done.
    + rewrite (decide_False (P := j = sid /\ _)) by tauto. repeat case_decide; set_solver.
Qed.

(** Once every shard ran [start_all_queues] on the queues [create_qs] made, exactly the
    queues between two different shards have a sender side; a shard's queue to itself
    does not. *)
Theorem channel_started nr_cpu :
  exists ch, start_shards (seq 0 nr_cpu) (create_qs nr_cpu) = Ok ch /\ count ch = nr_cpu /\ chan_ok ch.
Proof.
  destruct (start_shards_spec (seq 0 nr_cpu) (create_qs nr_cpu)) as (ch & E & Hn & Hq).
  { apply Forall_forall. intros x Hx. apply elem_of_seq in Hx. cbn. lia. }
  exists ch. split; [done|]. split; [done|]. cbn in Hn, Hq. split; rewrite Hn.
  - intros i j Hi Hj Hij. rewrite Hq, decide_True by (done || (split; [apply elem_of_seq; lia|done])). cbn. eauto.
  - intros i Hi. rewrite Hq, decide_False by (done || tauto). done.
  - intros i j Hi Hj. rewrite Hq by done. case_decide; cbn; rewrite ring_new_empty; cbn; lia.
Qed.

(** ** Polling *)
Definition others (sid : nat) (shards : list nat) : list nat := filter (fun i => sid <> i) shards.
Definition arriving (ch : channel) (sid : nat) (shards : list nat) : list M :=
  mjoin ((fun i => ring (_pending (_qs ch sid i))) <$> others sid shards).

(** What a poll does to the queue from [j] to [i]. *)
Definition polled (sid : nat) (shards : list nat) (ch ch' : channel) (i j : nat) : Prop :=
  if decide (i = sid /\ j ∈ others sid shards) then contents (_qs ch' i j) = default [] (pending_fifo (_qs ch i j))
  else if decide (j = sid /\ i ∈ others sid shards) then
    contents (_qs ch' i j) = contents (_qs ch i j) /\
    ((length (contents (_qs ch i j)) <= queue_length)%nat -> ring (_pending (_qs ch' i j)) = contents (_qs ch i j))
  else _qs ch' i j = _qs ch i j.

Lemma arriving_upd ch sid i j q shards :
  (i = sid -> j ∉ shards) -> arriving (upd ch i j q) sid shards = arriving ch sid shards.
Proof.
  intros Hd. unfold arriving. f_equal. apply list_fmap_ext. intros k x Hk.
  apply list_elem_of_lookup_2 in Hk. unfold others in Hk. apply list_elem_of_filter in Hk as [_ Hk].
  rewrite upd_ne; [done|]. intros [= -> ->]. now apply Hd.
Qed.

Lemma others_cons_ne sid i shards : sid <> i -> others sid (i :: shards) = i :: others sid shards.
Proof. intros H. unfold others. now rewrite filter_cons, decide_True by exact H. Qed.
Lemma others_cons_eq sid shards : others sid (sid :: shards) = others sid shards.
Proof. unfold others. rewrite filter_cons, decide_False; [done|]. now intros []. Qed.

(** One round of the loop, on both queues of a pair of shards. *)
Lemma poll_round ch sid i :
  chan_ok ch -> (sid < count ch)%nat -> (i < count ch)%nat -> sid <> i ->
  exists n rxq txq m, process_incoming (_qs ch sid i) = Ok (ring (_pending (_qs ch sid i)), n, rxq) /\
    flush_request_batch (_qs ch i sid) = Ok (m, txq) /\
    n = Z.of_nat (length (ring (_pending (_qs ch sid i)))) /\
    chan_ok (upd (upd ch sid i rxq) i sid txq) /\
    contents rxq = default [] (pending_fifo (_qs ch sid i)) /\ contents txq = contents (_qs ch i sid) /\
    ((length (contents (_qs ch i sid)) <= queue_length)%nat -> ring (_pending txq) = contents (_qs ch i sid)).
Proof.
  intros Hok Hs Hi Hne.
  destruct (process_incoming_ok (_qs ch sid i)) as (n & rxq & E & Hq & Hn & Hc); [split; apply Hok; done|].
  destruct (flush_ok (_qs ch i sid)) as (m & txq & E2 & Hq2 & Hc2 & Hr2); [split; apply Hok; done|].
  exists n, rxq, txq, m. repeat (split; [done|]). split; [|done].
  apply chan_ok_upd; [apply chan_ok_upd|..]; done.
Qed.

Lemma polled_cons sid i shards ch rxq txq ch' k j :
  sid <> i -> i ∉ shards ->
  contents rxq = default [] (pending_fifo (_qs ch sid i)) -> contents txq = contents (_qs ch i sid) ->
  ((length (contents (_qs ch i sid)) <= queue_length)%nat -> ring (_pending txq) = contents (_qs ch i sid)) ->
  polled sid shards (upd (upd ch sid i rxq) i sid txq) ch' k j -> polled sid (i :: shards) ch ch' k j.
Proof.
  intros Hne Hin Hr Ht Ht' H. unfold polled in *. rewrite others_cons_ne by done.
  assert (Hio : i ∉ others sid shards) by (intros Hx; apply list_elem_of_filter in Hx as [_ Hx]; done).
  assert (Hso : sid ∉ others sid shards) by (intros Hx; apply list_elem_of_filter in Hx as [Hx _]; done).
  destruct (decide (k = sid /\ j = i)) as [[-> ->]|Hn1].
  { rewrite decide_False in H by tauto. rewrite decide_False in H by tauto.
    rewrite decide_True by (split; [done|left]). rewrite H. cbn.
    rewrite decide_False by (intros [? ?]; done). now rewrite decide_True. }
  destruct (decide (k = i /\ j = sid)) as [[-> ->]|Hn2].
  { rewrite decide_False in H by tauto. rewrite decide_False in H by tauto.
    rewrite decide_False by (intros [-> _]; done). rewrite decide_True by (split; [done|left]).
    rewrite H. rewrite upd_eq. done. }
  rewrite !upd_ne in H by (intros [= ? ?]; tauto).
  assert (D1 : (k = sid /\ j ∈ i :: others sid shards) <-> (k = sid /\ j ∈ others sid shards)).
  { rewrite elem_of_cons. tauto. }
  assert (D2 : (j = sid /\ k ∈ i :: others sid shards) <-> (j = sid /\ k ∈ others sid shards)).
  { rewrite elem_of_cons. tauto. }
  destruct (decide (k = sid /\ j ∈ others sid shards)) as [Hd|Hd].
  { rewrite decide_True by tauto. done. }
  rewrite decide_False by tauto. destruct (decide (j = sid /\ k ∈ others sid shards)) as [He|He].
  { rewrite decide_True by tauto. done. }
  rewrite decide_False by tauto. done.
Qed.

(** The received messages are appended. *)
Lemma poll_loop_prefix shards sid : forall ch got rcvd got' l ch',
  poll_loop shards sid ch got rcvd = Ok (got', l, ch') -> exists l', l = rcvd ++ l'.
Proof.
  induction shards as [|i shards IH]; intros ch got rcvd got' l ch' H; cbn [poll_loop] in H.
  - injection H as _ <- _. exists []. now rewrite app_nil_r.
  - case_decide; [|eapply IH; exact H]. res_inv.
    repeat match goal with p : (_ * _)%type |- _ => destruct p end. res_inv.
    repeat match goal with p : (_ * _)%type |- _ => destruct p end.
    apply IH in H as [l' ->]. rewrite <-app_assoc. eauto.
Qed.

Lemma poll_loop_spec sid shards : forall ch got rcvd,
  chan_ok ch -> (sid < count ch)%nat -> Forall (fun i => (i < count ch)%nat) shards -> NoDup shards ->
  exists ch', poll_loop shards sid ch (u64 got) rcvd =
      Ok (u64 (got + Z.of_nat (length (arriving ch sid shards))), rcvd ++ arriving ch sid shards, ch') /\
    chan_ok ch' /\ count ch' = count ch /\ forall i j, polled sid shards ch ch' i j.
Proof.
  induction shards as [|i shards IH]; intros ch got rcvd Hok Hs Hin Hnd; cbn [poll_loop].
  - exists ch. unfold arriving. cbn. rewrite Z.add_0_r, app_nil_r. repeat (split; [done|]).
    intros i j. unfold polled, others. cbn. rewrite !decide_False; [done|..]; intros [_ Hx]; now apply not_elem_of_nil in Hx.
  - apply Forall_cons in Hin as [Hi Hin]. apply NoDup_cons in Hnd as [Hni Hnd].
    destruct (decide (sid <> i)) as [Hne|Heq].
    + destruct (poll_round ch sid i Hok Hs Hi Hne) as (n & rxq & txq & m & E1 & E2 & -> & Hok' & Hr & Ht & Ht').
      rewrite (at_ok ch sid i Hs Hi). cbn [mbind res_bind]. rewrite E1. cbn [mbind res_bind].
      rewrite (at_ok (upd ch sid i rxq) i sid Hi Hs). cbn [mbind res_bind].
      rewrite upd_ne by congruence. rewrite E2. cbn [mbind res_bind]. rewrite u64_add.
      set (ch1 := upd (upd ch sid i rxq) i sid txq) in *.
      destruct (IH ch1 (got + Z.of_nat (length (ring (_pending (_qs ch sid i)))))
                  (rcvd ++ ring (_pending (_qs ch sid i))) Hok' Hs Hin Hnd) as (ch' & E & H1 & H2 & H3).
      assert (Ha : arriving ch1 sid shards = arriving ch sid shards).
      { unfold ch1. rewrite !arriving_upd; [done|congruence|done]. }
      assert (Hc : arriving ch sid (i :: shards) = ring (_pending (_qs ch sid i)) ++ arriving ch sid shards).
      { unfold arriving. rewrite others_cons_ne by done. done. }
      exists ch'. rewrite E, Ha, Hc, length_app, Nat2Z.inj_add, <-app_assoc, Z.add_assoc.
      repeat (split; [done|]). intros k j. eapply polled_cons; eauto.
    + assert (sid = i) as <- by (destruct (decide (sid = i)); [done|tauto]).
      destruct (IH ch got rcvd Hok Hs Hin Hnd) as (ch' & E & H1 & H2 & H3). exists ch'.
      unfold arriving, polled in *. rewrite others_cons_eq. done.
Qed.

Lemma poll_queues_ok ch sid :
  chan_ok ch -> (sid < count ch)%nat -> Z.of_nat (count ch) < 4294967296 ->
  exists ch', poll_queues sid ch =
      Ok (bool_decide (arriving ch sid (seq 0 (count ch)) <> []), arriving ch sid (seq 0 (count ch)), ch') /\
    chan_ok ch' /\ count ch' = count ch /\
    forall i j, polled sid (seq 0 (count ch)) ch ch' i j.
Proof.
  intros Hok Hs Hc. unfold poll_queues.
  destruct (poll_loop_spec sid (seq 0 (count ch)) ch 0 []) as (ch' & E & H1 & H2 & H3); try done.
  { apply Forall_forall. intros x Hx. apply elem_of_seq in Hx. lia. }
  { apply NoDup_seq. }
  change (u64 0) with 0 in E. rewrite E. cbn [mbind res_bind app]. exists ch'. split; [|done].
  rewrite Z.add_0_l. do 3 f_equal.
  assert (Hl : (length (arriving ch sid (seq 0 (count ch))) <= count ch * queue_length)%nat).
  { unfold arriving. assert (Hf : Forall (fun i => (i < count ch)%nat) (others sid (seq 0 (count ch)))).
    { apply Forall_forall. intros x Hx. apply list_elem_of_filter in Hx as [_ Hx]. apply elem_of_seq in Hx. lia. }
    assert (Hln : (length (others sid (seq 0 (count ch))) <= count ch)%nat).
    { unfold others. rewrite <-(length_seq (count ch) 0) at 2. apply length_filter. }
    revert Hf Hln. generalize (others sid (seq 0 (count ch))). intros l Hf Hln.
    transitivity (length l * queue_length)%nat; [|nia]. clear Hln E H3.
    induction Hf as [|i l Hi _ IHl]; [done|].
    change (length (ring (_pending (_qs ch sid i)) ++ mjoin ((fun i => ring (_pending (_qs ch sid i))) <$> l)) <= S (length l) * queue_length)%nat.
    rewrite length_app. pose proof (c_room ch Hok sid i Hs Hi). lia. }
  rewrite wrap_small by (unfold in_u, queue_length in *; change (2 ^ 64) with 18446744073709551616; lia).
  destruct (arriving ch sid (seq 0 (count ch))) as [|m l]; cbn [length].
  - now rewrite bool_decide_false by tauto.
  - rewrite bool_decide_true by done. now rewrite (proj2 (Z.eqb_neq _ 0)) by lia.
Qed.

(** A poll on a shard of a started channel receives from every other shard exactly what
    is in the ring buffers to it, shard by shard and in order; it touches no queue a
    shard has to itself, reports [true] exactly when it received something, and moves
    what waits in its own senders' deques into the ring buffers to the others. *)
Theorem poll_queues_spec ch sid :
  chan_ok ch -> (sid < count ch)%nat -> Z.of_nat (count ch) < 4294967296 ->
  exists ch', poll_queues sid ch =
      Ok (bool_decide (arriving ch sid (seq 0 (count ch)) <> []), arriving ch sid (seq 0 (count ch)), ch') /\
    chan_ok ch' /\ count ch' = count ch /\
    forall i j, polled sid (seq 0 (count ch)) ch ch' i j.
Proof. exact (poll_queues_ok ch sid). Qed.

(** ** The polls before sleeping *)

(** Flushing to [i] leaves what arrives at [sid] alone. *)
Lemma pure_poll_round ch sid i :
  chan_ok ch -> (sid < count ch)%nat -> (i < count ch)%nat -> sid <> i ->
  exists m txq, flush_request_batch (_qs ch i sid) = Ok (m, txq) /\
    chan_ok (upd ch i sid txq) /\ (forall j, _qs (upd ch i sid txq) sid j = _qs ch sid j).
Proof.
  intros Hok Hs Hi Hne. destruct (flush_ok (_qs ch i sid)) as (m & txq & E & Hq & _); [split; apply Hok; done|].
  exists m, txq. split; [done|]. split; [now apply chan_ok_upd|]. intros j. apply upd_ne. congruence.
Qed.

Lemma pure_poll_prefix skip sid rest shards : forall ch,
  chan_ok ch -> (sid < count ch)%nat -> Forall (fun i => (i < count ch)%nat /\ sid <> i) shards ->
  exists ch', chan_ok ch' /\ count ch' = count ch /\ (forall j, _qs ch' sid j = _qs ch sid j) /\
    pure_poll_loop skip (shards ++ rest) sid ch =
      match arriving ch sid shards with
      | [] => pure_poll_loop skip rest sid ch'
      | _ => Ok (true, ch')
      end.
Proof.
  induction shards as [|i shards IH]; intros ch Hok Hs Hf; cbn [app pure_poll_loop].
  - exists ch. done.
  - apply Forall_cons in Hf as [[Hi Hne] Hf].
    rewrite (proj2 (Nat.eqb_neq sid i)) by done. rewrite andb_false_r.
    destruct (pure_poll_round ch sid i Hok Hs Hi Hne) as (m & txq & E & Hok' & Hrow).
    rewrite (at_ok ch i sid Hi Hs). cbn [mbind res_bind]. rewrite E. cbn [mbind res_bind].
    rewrite (at_ok (upd ch i sid txq) sid i Hs Hi). cbn [mbind res_bind]. rewrite Hrow.
    assert (Ha : arriving ch sid (i :: shards) = ring (_pending (_qs ch sid i)) ++ arriving ch sid shards).
    { unfold arriving. now rewrite others_cons_ne by done. }
    rewrite Ha. unfold pure_poll_rx. destruct (ring (_pending (_qs ch sid i))) as [|x l]; cbn [app].
    + destruct (IH (upd ch i sid txq) Hok' Hs Hf) as (ch' & H1 & H2 & H3 & H4). exists ch'.
      split; [done|]. split; [done|]. split; [intros j; now rewrite H3, Hrow|]. rewrite H4.
      unfold arriving. erewrite (list_fmap_ext _ _ (others sid shards)); [done|].
      intros k y _. cbn beta. now rewrite Hrow.
    + exists (upd ch i sid txq). done.
Qed.

Lemma seq_around n sid : (sid < n)%nat -> seq 0 n = seq 0 sid ++ sid :: seq (S sid) (n - S sid).
Proof.
  intros H. replace n with (sid + S (n - S sid))%nat at 1 by lia. rewrite seq_app. done.
Qed.

Lemma Forall_before sid (n : nat) : (sid < n)%nat -> Forall (fun i => (i < n)%nat /\ sid <> i) (seq 0 sid).
Proof. intros H. apply Forall_forall. intros x Hx. apply elem_of_seq in Hx. lia. Qed.

Lemma Forall_after sid (n : nat) : Forall (fun i => (i < n)%nat /\ sid <> i) (seq (S sid) (n - S sid)).
Proof. apply Forall_forall. intros x Hx. apply elem_of_seq in Hx. lia. Qed.

(** [local_channel]'s [pure_poll_queues] runs without fault on every shard of a started
    channel and answers whether some other shard's ring buffer holds a message for it. *)
Theorem local_pure_poll_spec ch sid :
  chan_ok ch -> (sid < count ch)%nat ->
  exists ch', local_pure_poll_queues sid ch =
      Ok (bool_decide (arriving ch sid (seq 0 (count ch)) <> []), ch') /\ chan_ok ch'.
Proof.
  intros Hok Hs. unfold local_pure_poll_queues. rewrite (seq_around (count ch) sid Hs).
  destruct (pure_poll_prefix true sid (sid :: seq (S sid) (count ch - S sid)) (seq 0 sid) ch Hok Hs (Forall_before sid _ Hs))
    as (ch1 & H1 & Hc1 & Hrow1 & E). rewrite E.
  assert (Ha : arriving ch sid (seq 0 sid ++ sid :: seq (S sid) (count ch - S sid)) =
    arriving ch sid (seq 0 sid) ++ arriving ch sid (seq (S sid) (count ch - S sid))).
  { unfold arriving, others. rewrite filter_app. fold (others sid (sid :: seq (S sid) (count ch - S sid))).
    rewrite others_cons_eq. now rewrite fmap_app, join_app. }
  rewrite Ha. destruct (arriving ch sid (seq 0 sid)) as [|x l]; cbn [app].
  - cbn [pure_poll_loop]. rewrite Nat.eqb_refl. cbn [andb].
    rewrite <-Hc1 in Hs |- *.
    destruct (pure_poll_prefix true sid [] (seq (S sid) (count ch1 - S sid)) ch1 H1 Hs (Forall_after sid _))
      as (ch2 & H2 & Hc2 & Hrow2 & E2). rewrite app_nil_r in E2. rewrite E2.
    assert (Ha2 : arriving ch1 sid (seq (S sid) (count ch1 - S sid)) = arriving ch sid (seq (S sid) (count ch1 - S sid))).
    { unfold arriving. erewrite list_fmap_ext; [done|]. intros k y _. cbn beta. now rewrite Hrow1. }
    rewrite Ha2. exists ch2. clear Ha Ha2.
    destruct (arriving ch sid (seq (S sid) (count ch1 - S sid))); cbn [pure_poll_loop].
    + rewrite bool_decide_false by (intros Hx; now apply Hx). done.
    + rewrite bool_decide_true by done. done.
  - exists ch1. rewrite bool_decide_true by done. done.
Qed.

(** [network_channel]'s [pure_poll_queues] does not skip the shard's own index as every
    other loop over the queues does: unless it stops earlier because a message arrives
    from a lower-numbered shard, it flushes the shard's queue to itself, whose deque was
    never constructed. *)
Theorem network_pure_poll_uses_unstarted ch sid :
  chan_ok ch -> (sid < count ch)%nat -> arriving ch sid (seq 0 sid) = [] ->
  network_pure_poll_queues sid ch = Fault Uninit.
Proof.
  intros Hok Hs Ha. unfold network_pure_poll_queues. rewrite (seq_around (count ch) sid Hs).
  destruct (pure_poll_prefix false sid (sid :: seq (S sid) (count ch - S sid)) (seq 0 sid) ch Hok Hs (Forall_before sid _ Hs))
    as (ch1 & H1 & Hc1 & Hrow1 & E). rewrite E, Ha. cbn [pure_poll_loop andb].
  rewrite at_ok by lia. cbn [mbind res_bind]. unfold flush_request_batch, fifo.
  now rewrite (c_self ch1 H1 sid) by lia.
Qed.

(** Sending keeps what waits for the shard and appends the message. *)
Lemma queue_send_ok (q : queue) msg : queue_ok q ->
  exists n q', send q msg = Ok (n, q') /\ queue_ok q' /\ contents q' = contents q ++ [msg].
Proof.
  intros [[l Hl] Hr]. unfold contents, send, fifo. rewrite Hl. cbn [of_option mbind res_bind].
  destruct (batch_size <=? _)%nat.
  - destruct (move_pending_spec (set_fifo (l ++ [msg]) q) _ eq_refl Hr) as (n & q' & E & Hn & Hring & Hf & _).
    exists (Z.of_nat n), q'. split; [exact E|]. unfold queue_ok. rewrite Hring, Hf.
    cbn [_pending set_fifo] in *. split; [split; [eauto|rewrite length_app, length_take; lia]|].
    cbn. change (id (drop n (l ++ [msg]))) with (drop n (l ++ [msg])). change (id l) with l.
    now rewrite <-!app_assoc, take_drop.
  - eexists _, _. split; [reflexivity|]. split; [split; cbn; eauto|]. cbn. now rewrite app_assoc.
Qed.

(** A message sent to another shard of the machine reaches it: after the sender's
    next poll and then the receiver's, provided the ring buffer had room, the receiver
    got it after everything that was queued before it for that shard by that sender. *)
Theorem send_poll_poll ch sid anchor gsid target msg :
  chan_ok ch -> (sid < count ch)%nat -> Z.of_nat (count ch) < 4294967296 ->
  gsid = anchor + Z.of_nat target -> (target < count ch)%nat -> target <> sid ->
  (length (contents (_qs ch target sid)) < queue_length)%nat ->
  exists ch1 r2 ch2 r3 ch3, send_helper ch sid anchor gsid msg = Ok ch1 /\
    poll_queues sid ch1 = Ok (r2, ch2) /\ poll_queues target ch2 = Ok (r3, ch3) /\
    exists pre post, snd r3 = pre ++ (contents (_qs ch target sid) ++ [msg]) ++ post.
Proof.
  intros Hok Hs Hc -> Ht Hne Hb. unfold send_helper.
  replace (anchor + Z.of_nat target - anchor) with (Z.of_nat target) by lia.
  rewrite u32_small, Nat2Z.id by lia. rewrite (at_ok ch target sid Ht Hs). cbn [mbind res_bind].
  destruct (queue_send_ok (_qs ch target sid) msg) as (n & q & E & Hq & Hcq); [split; [now apply Hok|now apply Hok]|].
  rewrite E. cbn [mbind res_bind].
  set (ch1 := upd ch target sid q).
  assert (Hok1 : chan_ok ch1) by now apply chan_ok_upd.
  destruct (poll_queues_ok ch1 sid Hok1 Hs Hc) as (ch2 & E2 & Hok2 & Hc2 & Hp2).
  assert (Hs2 : (target < count ch2)%nat) by (rewrite Hc2; done).
  destruct (poll_queues_ok ch2 target Hok2 Hs2) as (ch3 & E3 & _); [now rewrite Hc2|].
  exists ch1, (bool_decide (arriving ch1 sid (seq 0 (count ch1)) <> []), arriving ch1 sid (seq 0 (count ch1))), ch2.
  exists (bool_decide (arriving ch2 target (seq 0 (count ch2)) <> []), arriving ch2 target (seq 0 (count ch2))), ch3.
  do 3 (split; [done|]). cbn [snd].
  assert (Hring : ring (_pending (_qs ch2 target sid)) = contents (_qs ch target sid) ++ [msg]).
  { specialize (Hp2 target sid). unfold polled in Hp2. rewrite decide_False in Hp2 by (intros [? _]; done).
    rewrite decide_True in Hp2.
    - destruct Hp2 as [_ Hp2]. unfold ch1 in Hp2. rewrite upd_eq, Hcq in Hp2. apply Hp2.
      rewrite length_app. cbn. lia.
    - split; [done|]. apply list_elem_of_filter. split; [done|]. apply elem_of_seq. cbn. lia. }
  assert (Hin : sid ∈ others target (seq 0 (count ch2))).
  { apply list_elem_of_filter. split; [done|]. apply elem_of_seq. rewrite Hc2. cbn. lia. }
  apply list_elem_of_split in Hin as (l1 & l2 & El). unfold arriving. rewrite El, fmap_app, join_app.
  cbn [fmap list_fmap mjoin list_join]. rewrite Hring. eauto.
Qed.

End Channel.

(** ** Concrete runs: two shards *)
Definition sample_channel : channel (R := list Z) (M := Z) :=
  mk_channel 2 (fun i j => if (i =? j)%nat then message_queue_new else start message_queue_new).

Lemma sample_channel_ok : chan_ok sample_channel.
Proof.
  split; cbn.
  - intros i j _ _ H. rewrite (proj2 (Nat.eqb_neq i j) H). cbn. eauto.
  - intros i _. now rewrite Nat.eqb_refl.
  - intros i j _ _. destruct (i =? j)%nat; cbn; lia.
Qed.

Lemma poll_queues_spec_witness :
  exists ch', poll_queues 1 sample_channel = Ok (false, [], ch') /\ chan_ok ch' /\ count ch' = 2%nat /\
    forall i j, polled 1 [0; 1]%nat sample_channel ch' i j.
Proof.
  apply (poll_queues_spec sample_channel 1 sample_channel_ok); cbn; lia.
Defined.

Lemma local_pure_poll_spec_witness :
  exists ch', local_pure_poll_queues 1 sample_channel = Ok (false, ch') /\ chan_ok ch'.
Proof. apply (local_pure_poll_spec sample_channel 1 sample_channel_ok). cbn. lia. Defined.

Lemma network_pure_poll_uses_unstarted_witness : network_pure_poll_queues 1 sample_channel = Fault Uninit.
Proof. apply (network_pure_poll_uses_unstarted sample_channel 1 sample_channel_ok); [cbn; lia|reflexivity]. Defined.

Lemma send_poll_poll_witness :
  exists ch1 r2 ch2 r3 ch3, send_helper sample_channel 0 10 11 5 = Ok ch1 /\
    poll_queues 0 ch1 = Ok (r2, ch2) /\ poll_queues 1 ch2 = Ok (r3, ch3) /\
    exists pre post, snd r3 = pre ++ [5] ++ post.
Proof.
  apply (send_poll_poll sample_channel 0 10 11 1 5 sample_channel_ok); cbn; unfold queue_length; try lia; done.
Defined.

(** ** Going to sleep

    [actor_smp_pollfn::try_enter_interrupt_mode] stores [_sleeping], issues a systemwide
    memory barrier and polls every queue once more; a sender that pushed calls
    [maybe_wakeup].  The barrier is what makes the two sides sequentially consistent,
    which is how the steps below run; [woken] is the reactor's wakeup signal, which ends
    a sleep and is kept when there is none to end; the sleep may end for other reasons, too. *)
Module Sleep.

(** Where a sender is: before [push], before [maybe_wakeup]'s load, before its store, before its signal. *)
Inductive producer := PIdle | PPushed | PLoaded | PStored.
Inductive consumer :=
  | Running
  | Polling (checked : list nat) (rest : list nat) (got : bool)   (* the flag is set *)
  | Asleep.

Record state := mk {
  sleeping : bool;
  woken : bool;
  producers : nat -> producer;
  ring_count : nat -> nat;       (* messages in the ring buffer from shard [i] *)
  self : consumer
}.

Definition set {A} (f : nat -> A) (i : nat) (a : A) : nat -> A := fun j => if decide (j = i) then a else f j.

(** One step of [maybe_wakeup] in the call of sender [i]: load the flag, store [false], [wakeup_reactor]. *)
Definition call_step (i : nat) (s : state) : state :=
  match producers s i with
  | PIdle => s
  | PPushed => mk (sleeping s) (woken s) (set (producers s) i (if sleeping s then PLoaded else PIdle)) (ring_count s) (self s)
  | PLoaded => mk false (woken s) (set (producers s) i PStored) (ring_count s) (self s)
  | PStored => mk (sleeping s) true (set (producers s) i PIdle) (ring_count s) (self s)
  end.

Inductive step (n : nat) : state -> state -> Prop :=
  | StepPush s i k : (i < n)%nat -> producers s i = PIdle -> (0 < k)%nat ->
      step n s (mk (sleeping s) (woken s) (set (producers s) i PPushed)
                  (set (ring_count s) i (ring_count s i + k)%nat) (self s))
  | StepCall s i : (i < n)%nat -> step n s (call_step i s)
  | StepPoll s i : self s = Running ->
      step n s (mk (sleeping s) (woken s) (producers s) (set (ring_count s) i 0%nat) Running)
  | StepSignalSeen s : self s = Running ->
      step n s (mk (sleeping s) false (producers s) (ring_count s) Running)
  | StepTryEnter s : self s = Running ->
      step n s (mk true (woken s) (producers s) (ring_count s) (Polling [] (seq 0 n) false))
  | StepBarrierFailed s : self s = Polling [] (seq 0 n) false ->
      step n s (mk false (woken s) (producers s) (ring_count s) Running)
  | StepCheck s done i rest got : self s = Polling done (i :: rest) got ->
      step n s (mk (sleeping s) (woken s) (producers s) (set (ring_count s) i 0%nat)
                  (Polling (i :: done) rest (got || negb (ring_count s i =? 0)%nat)))
  | StepRaced s done : self s = Polling done [] true ->
      step n s (mk false (woken s) (producers s) (ring_count s) Running)
  | StepSleep s done : self s = Polling done [] false ->
      step n s (mk (sleeping s) (woken s) (producers s) (ring_count s) Asleep)
  | StepExit s : self s = Asleep ->
      step n s (mk false (woken s) (producers s) (ring_count s) Running).

Definition init : state := mk false false (fun _ => PIdle) (fun _ => 0%nat) Running.

Inductive reachable (n : nat) : state -> Prop :=
  | ReachInit : reachable n init
  | ReachStep s s' : reachable n s -> step n s s' -> reachable n s'.

(** The queues the consumer will not look at again before it sleeps. *)
Definition closed (n : nat) (s : state) (i : nat) : Prop :=
  (i < n)%nat /\
  match self s with
  | Running => False
  | Polling done _ got => i ∈ done
  | Asleep => True
  end.

(** Some sender has seen the flag set and has not signalled yet. *)
Definition signalling (n : nat) (s : state) : Prop := exists k, (k < n)%nat /\ (producers s k = PLoaded \/ producers s k = PStored).

Record inv (n : nat) (s : state) : Prop := {
  inv_flag : self s <> Running -> sleeping s = true \/ woken s = true \/ signalling n s;
  inv_closed : forall i, closed n s i -> ring_count s i <> 0%nat ->
    woken s = true \/ signalling n s \/ (producers s i = PPushed /\ sleeping s = true);
  inv_order : forall done rest got, self s = Polling done rest got ->
    forall i, (i < n)%nat -> i ∈ done \/ i ∈ rest
}.

Lemma set_eq {A} (f : nat -> A) i a : set f i a i = a.
Proof. unfold set. now rewrite decide_True. Qed.
Lemma set_ne {A} (f : nat -> A) i j a : j <> i -> set f i a j = f j.
Proof. intros H. unfold set. now rewrite decide_False. Qed.

(** A state whose consumer runs owes nothing. *)
Lemma inv_running n s : self s = Running -> inv n s.
Proof.
  intros H. split.
  - rewrite H. now intros [].
  - intros i [_ Hi]. now rewrite H in Hi.
  - rewrite H. discriminate.
Qed.
(** A sender that moves on to its signal owes it. *)
Lemma signalling_set n s b w i p r c : (i < n)%nat -> p = PLoaded \/ p = PStored -> signalling n (mk b w (set (producers s) i p) r c).
Proof. intros Hi Hp. exists i. cbn. now rewrite set_eq. Qed.
(** A sender that was not signalling does not take another one's signal away. *)
Lemma signalling_kept n s b w i p r c : producers s i = PIdle \/ producers s i = PPushed -> signalling n s -> signalling n (mk b w (set (producers s) i p) r c).
Proof. intros Hp (k & Hk & E). exists k. cbn. rewrite set_ne by (intros ->; destruct Hp, E; congruence). done. Qed.

Lemma inv_call n s i : (i < n)%nat -> inv n s -> inv n (call_step i s).
Proof.
  intros Hi [Hf Hc Ho]. unfold call_step. destruct (producers s i) eqn:Hp; [split; assumption|..].
  - split; cbn [self sleeping woken producers ring_count]; [| |exact Ho].
    + intros Hn. destruct (Hf Hn) as [?|[?|?]]; auto. right; right. apply signalling_kept; auto.
    + intros j Hj Hr. destruct (Hc j Hj Hr) as [?|[?|[Ej Es]]]; [auto|right; left; apply signalling_kept; auto|].
      right; left. destruct (decide (j = i)) as [->|Hne]; [rewrite Es; apply signalling_set; auto|].
      rewrite Es. apply signalling_set; auto.
  - split; cbn [self sleeping woken producers ring_count]; [| |exact Ho]; intros; right.
    + right. apply signalling_set; auto.
    + left. apply signalling_set; auto.
  - split; cbn [self sleeping woken producers ring_count]; [| |exact Ho]; intros; auto.
Qed.

Lemma inv_step n s s' : inv n s -> step n s s' -> inv n s'.
Proof.
  intros [Hf Hc Ho] Hst.
  destruct Hst as [s i k Hi Hp Hk|s i Hi|s i H|s H|s H|s H|s dn i rest got H|s dn H|s dn H|s H];
    try (now apply inv_running); [|now apply inv_call|..].
  - split; cbn [self sleeping woken producers ring_count]; [| |exact Ho].
    + intros Hn. destruct (Hf Hn) as [?|[?|?]]; auto. right; right. apply signalling_kept; auto.
    + intros j Hj Hr. destruct (decide (j = i)) as [->|Hne].
      * rewrite set_eq. destruct Hf as [Hs|[Hw|Hw]]; [|auto..|right; left; apply signalling_kept; auto].
        intros E. destruct Hj as [_ Hj]. cbn [self] in Hj. now rewrite E in Hj.
      * rewrite set_ne in Hr by done. rewrite set_ne by done.
        destruct (Hc j Hj Hr) as [?|[?|?]]; auto. right; left. apply signalling_kept; auto.
  - split; cbn [self sleeping woken producers ring_count].
    + intros _. by left.
    + intros j [_ Hj]. cbn [self] in Hj. now apply not_elem_of_nil in Hj.
    + intros dn rest got E j Hj. injection E as <- <- <-. right. apply elem_of_seq. lia.
  - split; cbn [self sleeping woken producers ring_count].
    + intros _. apply Hf. now rewrite H.
    + intros j [Hjn Hj] Hr. cbn [self] in Hj. destruct (decide (j = i)) as [->|Hne]; [now rewrite set_eq in Hr|].
      rewrite set_ne in Hr by done. apply Hc; [|done]. split; [done|]. rewrite H.
      now apply elem_of_cons in Hj as [->|Hj].
    + intros dn' rest' got' E j Hj. injection E as <- <- <-.
      destruct (Ho _ _ _ H j Hj) as [Hd|Hr]; [left; now right|].
      apply elem_of_cons in Hr as [->|Hr]; [left; left|by right].
  - split; cbn [self sleeping woken producers ring_count]; [| |discriminate].
    + intros _. apply Hf. now rewrite H.
    + intros j [Hjn _] Hr. apply Hc; [|done]. split; [done|]. rewrite H.
      destruct (Ho _ _ _ H j Hjn) as [Hd|Hr']; [done|]. now apply not_elem_of_nil in Hr'.
Qed.

(** The three steps of a call are [maybe_wakeup] of the queue when nothing comes between them. *)
Lemma call_is_maybe_wakeup s i : producers s i = PPushed ->
  let s' := Nat.iter 3 (call_step i) s in
  sleeping s' = fst (maybe_wakeup (sleeping s)) /\ woken s' = woken s || snd (maybe_wakeup (sleeping s)) /\ producers s' i = PIdle.
Proof.
  intros Hp. destruct s as [[] w p r c]; cbn in *; repeat (unfold call_step; cbn; rewrite ?Hp, ?set_eq); cbn;
    rewrite ?orb_true_r, ?orb_false_r; done.
Qed.


(** Shard 1 has seen the flag of an earlier sleep when the receiver goes to sleep again; it resets the flag, and what shard 0
    pushes then finds no flag: the signal that wakes the receiver is still shard 1's. *)
Inductive steps (n : nat) : state -> state -> Prop :=
  | StepsNil s : steps n s s
  | StepsCons s s' s'' : step n s s' -> steps n s' s'' -> steps n s s''.
Lemma reachable_steps n s s' : steps n s s' -> reachable n s -> reachable n s'.
Proof. induction 1 as [|s s' s'' H _ IH]; [done|]. intros Hr. apply IH. now apply (ReachStep n s). Qed.

Ltac tidy := repeat (unfold call_step; cbn [sleeping woken producers ring_count self seq orb negb Nat.eqb Nat.add]; rewrite ?set_eq, ?set_ne by lia).
Lemma late_signal : exists s, reachable 2 s /\ self s = Asleep /\ sleeping s = false /\ woken s = false /\
  producers s 0%nat = PIdle /\ ring_count s 0%nat = 1%nat /\ producers s 1%nat = PStored.
Proof.
  eexists. split.
  { eapply (reachable_steps _ init); [|apply ReachInit].
    eapply StepsCons; [eapply StepTryEnter; reflexivity|tidy].
    eapply StepsCons; [apply (StepPush 2 _ 1 1); [lia|reflexivity|lia]|tidy].
    eapply StepsCons; [apply (StepCall 2 _ 1); lia|tidy].
    eapply StepsCons; [eapply StepCheck; reflexivity|tidy].
    eapply StepsCons; [eapply StepCheck; reflexivity|tidy].
    eapply StepsCons; [eapply StepRaced; reflexivity|tidy].
    eapply StepsCons; [eapply StepTryEnter; reflexivity|tidy].
    eapply StepsCons; [apply (StepCall 2 _ 1); lia|tidy].
    eapply StepsCons; [eapply StepCheck; reflexivity|tidy].
    eapply StepsCons; [eapply StepCheck; reflexivity|tidy].
    eapply StepsCons; [eapply StepSleep; reflexivity|tidy].
    eapply StepsCons; [apply (StepPush 2 _ 0 1); [lia|reflexivity|lia]|tidy].
    eapply StepsCons; [apply (StepCall 2 _ 0); lia|tidy]. apply StepsNil. }
  tidy. done.
Qed.
(** The receiver sleeps, shard 0 pushes. *)
Definition sample : state :=
  mk true false (set (fun _ => PIdle) 0%nat PPushed) (set (set (fun _ => 0%nat) 0%nat 0%nat) 0%nat 1%nat) Asleep.
Lemma sample_reachable : reachable 1 sample.
Proof.
  eapply (reachable_steps _ init); [|apply ReachInit]. eapply StepsCons; [eapply StepTryEnter; reflexivity|].
  eapply StepsCons; [eapply StepCheck; reflexivity|]. eapply StepsCons; [eapply StepSleep; reflexivity|].
  eapply StepsCons; [apply (StepPush 1 _ 0 1); [lia|reflexivity|lia]|]. apply StepsNil.
Qed.

End Sleep.
