(* ===== verification/Connection.v ===== *)
(** * Connections between machines

    [connection_manager] (src/include/hiactor/net/connection.hh, src/src/net/connection.cc):
    the table of connections of a shard, the handshake that names the peer of an
    accepted connection, the sender loop, which serializes queued messages into the
    stream of a machine, and the receiver loop, which cuts the stream into messages.

    [seastar::input_stream] is a parameter: [InputStream] states its documented
    behaviour.  [read_exactly(n)] returns the next [n] bytes, or fewer at the end of the
    stream, and the end-of-file flag is only set by a read that met the end. *)
From S2P Require Import Prelude Bytes Address.
From S2P Require Import BufferQueue SerializableQueue DataType Message DynamicQueue.

Class InputStream (I : Type) := {
  in_rest : I -> bytes;            (* what the peer wrote and nobody read yet *)
  in_eof : I -> bool;
  read_exactly : I -> nat -> bytes * I;
  read_bytes i n : fst (read_exactly i n) = take n (in_rest i);
  read_rest i n : in_rest (snd (read_exactly i n)) = drop n (in_rest i);
  read_eof i n : in_eof (snd (read_exactly i n)) = in_eof i || (length (in_rest i) <? n)%nat
}.

#[export, refine] Instance bytes_input : InputStream (bytes * bool) := {
  in_rest i := fst i;
  in_eof i := snd i;
  read_exactly i n := (take n (fst i), (drop n (fst i), snd i || (length (fst i) <? n)%nat))
}.
Proof. all: done. Defined.

(** ** connection_table *)
Section ConnectionTable.
Context {C : Type}.

(** [_mc_map] is a multimap: [find] returns an element with the key. *)
Record connection_table := mk_table { _mc_map : list (Z * C); _managed_mach_ids : list Z }.
Definition connection_table_new : connection_table := mk_table [] [].

Definition lookup_conn (t : connection_table) (mach_id : Z) : option C :=
  snd <$> List.find (fun p => fst p =? mach_id) (_mc_map t).

Definition add (t : connection_table) (mc_pair : Z * C) : connection_table :=
  let mach_id := fst mc_pair in
  let ids := match lookup_conn t mach_id with
             | None => _managed_mach_ids t ++ [mach_id]
             | Some _ => _managed_mach_ids t
             end in
  mk_table (_mc_map t ++ [mc_pair]) ids.

(** [_mc_map.find(mach_id)->second] *)
Definition find (t : connection_table) (mach_id : Z) : res C := of_option NullDeref (lookup_conn t mach_id).

Record table_ok (t : connection_table) : Prop := {
  t_nodup : NoDup (_managed_mach_ids t);
  t_keys : forall m, m ∈ _managed_mach_ids t <-> m ∈ (_mc_map t).*1
}.

Lemma lookup_conn_None t m : lookup_conn t m = None <-> m ∉ (_mc_map t).*1.
Proof.
  unfold lookup_conn. induction (_mc_map t) as [|[k c] l IH]; cbn.
  - split; [intros _ H; now apply not_elem_of_nil in H|done].
  - rewrite not_elem_of_cons. destruct (Z.eqb_spec k m) as [->|Hne]; cbn.
    + split; [done|]. now intros [[] _].
    + rewrite IH. split; [intros H; split; [congruence|done]|tauto].
Qed.

Lemma table_add_ok t p : table_ok t -> table_ok (add t p).
Proof.
  intros [Hn Hk]. destruct p as [m c]. unfold add. cbn [fst].
  destruct (lookup_conn t m) as [c'|] eqn:E.
  - assert (Hin : m ∈ (_mc_map t).*1).
    { destruct (decide (m ∈ (_mc_map t).*1)) as [Hin|Hni]; [done|]. apply lookup_conn_None in Hni. congruence. }
    split; cbn; [done|]. intros m'. rewrite fmap_app, elem_of_app, <-Hk. cbn. rewrite list_elem_of_singleton.
    split; [tauto|]. intros [?| ->]; [done|]. now apply Hk.
  - apply lookup_conn_None in E. split; cbn.
    + apply NoDup_app. split; [done|]. split; [|apply NoDup_singleton].
      intros x Hx ->%list_elem_of_singleton. now apply Hk in Hx.
    + intros m'. rewrite fmap_app, !elem_of_app, <-Hk. done.
Qed.

Fixpoint add_all (t : connection_table) (ps : list (Z * C)) : connection_table :=
  match ps with [] => t | p :: ps => add_all (add t p) ps end.

Lemma add_all_ok ps : forall t, table_ok t -> table_ok (add_all t ps) /\ _mc_map (add_all t ps) = _mc_map t ++ ps.
Proof.
  induction ps as [|p ps IH]; intros t H; cbn [add_all]; [now rewrite app_nil_r|].
  destruct (IH (add t p) (table_add_ok t p H)) as [H1 H2]. split; [done|]. rewrite H2. cbn. now rewrite <-app_assoc.
Qed.

(** However many connections are added and in whatever order, the managed machine ids
    are the machines of the table, each once: [run_senders] starts one sender per
    machine, and its [find] of a managed machine always finds a connection to that
    machine. *)
Theorem managed_ids_are_machines ps :
  let t := add_all connection_table_new ps in
  NoDup (_managed_mach_ids t) /\
  (forall m, m ∈ _managed_mach_ids t <-> m ∈ ps.*1) /\
  (forall m, m ∈ _managed_mach_ids t -> exists c, find t m = Ok c /\ (m, c) ∈ ps).
Proof.
  intros t. destruct (add_all_ok ps connection_table_new) as [[Hn Hk] Hm].
  { split; cbn; [apply NoDup_nil_2|done]. }
  cbn [app _mc_map connection_table_new] in Hm. rewrite Hm in Hk. split; [done|]. split; [done|].
  intros m Hin. apply Hk in Hin. unfold find, lookup_conn. fold t in Hm. rewrite Hm. clear -Hin.
  induction ps as [|[k c] ps IH]; [now apply not_elem_of_nil in Hin|]. cbn.
  destruct (Z.eqb_spec k m) as [->|Hne]; cbn.
  - exists c. split; [done|left].
  - apply elem_of_cons in Hin as [?|Hin]; [now subst|]. destruct (IH Hin) as (c' & E & Hc).
    exists c'. split; [done|]. now right.
Qed.

End ConnectionTable.
Arguments connection_table : clear implicits.

(** ** The loops *)
Section Loops.
Context {Q : Type} {BQ : BufferQueue Q} {BQL : BufferQueueLaws Q}.
Context {Out : Type} {OS : OutputStream Out}.
Context {I : Type} {IS : InputStream I}.

(** One sender: the messages it pops, one after the other, until the queue is aborted. *)
Fixpoint send_loop (g : padding) (msgs : list (actor_message Q)) (out : Out) : res Out :=
  match msgs with
  | [] => Ok out
  | msg :: msgs => out ← serialize g msg out; send_loop g msgs out
  end.

(** One receiver: the messages it hands to [actor_engine().send]. *)
Fixpoint receive_loop (fuel : nat) (abort_connection : bool) (conn : I) : res (list (actor_message Q) * I) :=
  if in_eof conn || abort_connection then Ok ([], conn)
  else match fuel with
  | O => Fault NoFuel
  | S fuel =>
      let '(buf, conn) := read_exactly conn 4 in
      if in_eof conn || abort_connection then receive_loop fuel abort_connection conn
      else
        nr_bytes ← load_unaligned_int 4 buf 0;
        let '(buf, conn) := read_exactly conn (Z.to_nat nr_bytes) in
        msg ← deserialize buf;
        '(msgs, conn) ← receive_loop fuel abort_connection conn;
        Ok (msg :: msgs, conn)
  end.

Lemma receive_loop_eof fuel abort conn : in_eof conn = true -> receive_loop fuel abort conn = Ok ([], conn).
Proof. intros H. destruct fuel; cbn [receive_loop]; now rewrite H. Qed.

(** A packet at the front of the stream is one message. *)
Lemma receive_packet fuel conn f rest m :
  in_eof conn = false -> in_rest conn = packet f ++ rest -> Z.of_nat (length f) < 4294967296 ->
  deserialize f = Ok m ->
  exists conn', in_eof conn' = false /\ in_rest conn' = rest /\
    receive_loop (S fuel) false conn =
      ('(msgs, conn) ← receive_loop fuel false conn'; Ok (m :: msgs, conn)).
Proof.
  intros He Hr Hl Hd. unfold packet in Hr. rewrite <-app_assoc in Hr.
  pose proof (read_bytes conn 4) as B1. pose proof (read_rest conn 4) as R1. pose proof (read_eof conn 4) as E1.
  rewrite Hr in *. set (e := enc_uint 4 (Z.of_nat (length f))) in *.
  assert (Le : length e = 4%nat) by (unfold e; apply enc_uint_length).
  rewrite take_app_length' in B1 by done. rewrite drop_app_length' in R1 by done.
  rewrite He, length_app, (proj2 (Nat.ltb_ge _ 4)) in E1 by lia. cbn [orb] in E1.
  destruct (read_exactly conn 4) as [b1 c1] eqn:Eq1. cbn [fst snd] in *. subst b1.
  pose proof (read_bytes c1 (length f)) as B2. pose proof (read_rest c1 (length f)) as R2.
  pose proof (read_eof c1 (length f)) as E2. rewrite R1 in *.
  rewrite take_app_length in B2. rewrite drop_app_length in R2.
  rewrite E1, length_app, (proj2 (Nat.ltb_ge _ (length f))) in E2 by lia. cbn [orb] in E2.
  exists (snd (read_exactly c1 (length f))). split; [done|]. split; [done|].
  cbn [receive_loop]. rewrite He. cbn [orb]. rewrite Eq1, E1. cbn [orb].
  replace (load_unaligned_int 4 e 0) with (Ok (Z.of_nat (length f))).
  2: { symmetry. unfold e. rewrite <-(app_nil_r (enc_uint 4 _)). apply (load_mid 4 []); [done|].
       unfold in_u. change (2 ^ _) with 4294967296. lia. }
  cbn [mbind res_bind]. rewrite Nat2Z.id. destruct (read_exactly c1 (length f)) as [b2 c2].
  cbn [fst snd] in *. subst b2. rewrite Hd. done.
Qed.

(** At the end of the stream the loop stops. *)
Lemma receive_end fuel conn :
  in_eof conn = false -> in_rest conn = [] ->
  exists conn', receive_loop (S fuel) false conn = Ok ([], conn') /\ in_eof conn' = true.
Proof.
  intros He Hr. pose proof (read_eof conn 4) as E1. rewrite Hr in E1. cbn in E1. rewrite orb_true_r in E1.
  exists (snd (read_exactly conn 4)). split; [|done]. cbn [receive_loop]. rewrite He. cbn [orb].
  destruct (read_exactly conn 4) as [b c]. cbn [snd] in *. rewrite E1. cbn [orb]. now apply receive_loop_eof.
Qed.

(** What the receiver makes of a message with the buffers [bs]. *)
Definition received_as (sent : actor_message Q * list tmpbuf) (got : actor_message Q) : Prop :=
  exists q, got = mk_msg (as_received (hdr (fst sent))) (NetPayload q) /\ bq_drains q (snd sent).

Lemma send_loop_spec g msgs : forall (out : Out),
  Forall (fun p => wire_ok (fst p) (snd p)) msgs ->
  exists out', send_loop g msgs.*1 out = Ok out' /\
    written out' = written out ++ mjoin ((fun p => packet (frame g (hdr (fst p)) (snd p))) <$> msgs).
Proof.
  induction msgs as [|[m bs] msgs IH]; intros out Hf; cbn [send_loop fmap list_fmap fst].
  - exists out. cbn. now rewrite app_nil_r.
  - apply Forall_cons in Hf as [Hm Hf]. cbn [fst snd] in Hm.
    destruct (serialize_spec g m bs out Hm) as (o1 & E1 & W1). rewrite E1. cbn [mbind res_bind].
    destruct (IH o1 Hf) as (o2 & E2 & W2). exists o2. split; [done|]. rewrite W2, W1, <-app_assoc. done.
Qed.

Lemma receiver_loop_spec g msgs : forall fuel conn,
  Forall (fun p => wire_ok (fst p) (snd p)) msgs -> (length msgs < fuel)%nat ->
  in_eof conn = false ->
  in_rest conn = mjoin ((fun p => packet (frame g (hdr (fst p)) (snd p))) <$> msgs) ->
  exists got conn', receive_loop fuel false conn = Ok (got, conn') /\ in_eof conn' = true /\
    Forall2 received_as msgs got.
Proof.
  induction msgs as [|[m bs] msgs IH]; intros fuel conn Hf Hl He Hr; (destruct fuel as [|fuel]; [cbn in Hl; lia|]).
  - destruct (receive_end fuel conn He Hr) as (conn' & E & He'). exists [], conn'. auto.
  - apply Forall_cons in Hf as [[Hh Hb Hlen] Hf]. cbn [fst snd] in *. cbn [length] in Hl.
    destruct (deserialize_spec g (hdr m) bs Hh Hlen) as (q & Ed & Hd).
    edestruct (receive_packet fuel conn (frame g (hdr m) bs)) as (c1 & He1 & Hr1 & E1);
      [exact He|exact Hr|rewrite frame_length by done; lia|exact Ed|].
    destruct (IH fuel c1 Hf) as (got & c2 & E2 & He2 & H2); [lia|done|done|].
    rewrite E1, E2. cbn [mbind res_bind]. eexists _, c2. split; [reflexivity|]. split; [done|].
    constructor; [|done]. exists q. done.
Qed.

(** Everything one machine sends over a connection arrives: if the receiver's stream
    holds what the sender loop wrote for a list of messages, the receiver loop hands
    over exactly those messages in the same order, each with its header (marked as from
    the network) and the buffers of its payload, and stops at the end of the stream. *)
Theorem stream_roundtrip g msgs (out : Out) (conn : I) :
  Forall (fun p => wire_ok (fst p) (snd p)) msgs -> written out = [] ->
  exists out', send_loop g msgs.*1 out = Ok out' /\
    (in_eof conn = false -> in_rest conn = written out' ->
     exists got conn', receive_loop (S (length msgs)) false conn = Ok (got, conn') /\
       in_eof conn' = true /\ Forall2 received_as msgs got).
Proof.
  intros Hf Hw. destruct (send_loop_spec g msgs out Hf) as (out' & E & W). exists out'. split; [done|].
  intros He Hr. rewrite Hw in W. cbn [app] in W. apply (receiver_loop_spec g); [done|lia|done|congruence].
Qed.

(** A connection that ends inside a message is not noticed: [read_exactly] returns the
    bytes there are, and [deserialize] reads the header (or the buffer count) past the
    end of the short buffer instead of the loop stopping. *)
Theorem truncated_stream_overread conn n partial fuel :
  in_eof conn = false -> in_rest conn = enc_uint 4 n ++ partial -> in_u 32 n ->
  Z.of_nat (length partial) < n -> (length partial < sizeof_header + 4)%nat ->
  receive_loop (S fuel) false conn = Fault OutOfBounds.
Proof.
  intros He Hr Hn Hlt Hshort.
  pose proof (read_bytes conn 4) as B1. pose proof (read_rest conn 4) as R1. pose proof (read_eof conn 4) as E1.
  rewrite Hr in *. rewrite take_app_length' in B1 by (now rewrite enc_uint_length).
  rewrite drop_app_length' in R1 by (now rewrite enc_uint_length).
  rewrite He, length_app, enc_uint_length, (proj2 (Nat.ltb_ge _ 4)) in E1 by lia. cbn [orb] in E1.
  cbn [receive_loop]. rewrite He. cbn [orb]. destruct (read_exactly conn 4) as [b1 c1]. cbn [fst snd] in *. subst b1.
  rewrite E1. cbn [orb].
  replace (load_unaligned_int 4 (enc_uint 4 n) 0) with (Ok n).
  2: { symmetry. rewrite <-(app_nil_r (enc_uint 4 _)). now apply (load_mid 4 []). }
  cbn [mbind res_bind]. pose proof (read_bytes c1 (Z.to_nat n)) as B2. rewrite R1, take_ge in B2 by lia.
  destruct (read_exactly c1 (Z.to_nat n)) as [b2 c2]. cbn [fst] in B2. subst b2.
  destruct (deserialize (Q := Q) partial) as [m|e] eqn:Ed; cbn [mbind res_bind].
  - exfalso. unfold deserialize in Ed. apply bind_ok in Ed as (h & _ & Ed).
    apply bind_ok in Ed as (nr & En & _). apply load_split in En as (pre & post & -> & Hp & _).
    rewrite !length_app, enc_uint_length in Hshort. lia.
  - f_equal. apply (deserialize_fault partial); [|done]. unfold in_u in Hn.
    change (2 ^ 32) with 4294967296 in Hn. lia.
Qed.

End Loops.

(** ** The handshake

    A client writes its machine id as the first four bytes of the connection
    ([clients_side::start]); [collect_machine_ids] reads them on every accepted
    connection before the connections enter the table. *)
Section Handshake.
Context {Out : Type} {OS : OutputStream Out}.
Context {I : Type} {IS : InputStream I}.

Definition client_hello (this_mid : Z) (out : Out) : Out := out_write out (enc_uint 4 this_mid).

Definition read_machine_id (holder : Z * I) : res (Z * I) :=
  let '(buf, inp) := read_exactly (snd holder) 4 in
  peer_mid ← load_unaligned_int 4 buf 0;
  Ok (peer_mid, inp).

Fixpoint collect_holder (holder : list (Z * I)) : res (list (Z * I)) :=
  match holder with
  | [] => Ok []
  | h :: hs => h ← read_machine_id h; hs ← collect_holder hs; Ok (h :: hs)
  end.
Definition collect_machine_ids (holder : list (Z * I)) (t : connection_table I) : res (connection_table I) :=
  holder ← collect_holder holder; Ok (add_all t holder).

(** Every accepted connection whose peer sent its hello is filed under the machine id
    that peer wrote, with the stream positioned right behind the hello. *)
Theorem handshake_files_by_machine (peers : list (Z * I)) (rests : list bytes) (out0 : Out) t :
  written out0 = [] ->
  Forall2 (fun p rest => in_u 32 (fst p) /\ in_rest (snd p) = written (client_hello (fst p) out0) ++ rest) peers rests ->
  exists conns t', collect_machine_ids ((fun p => (0, snd p)) <$> peers) t = Ok t' /\
    _mc_map t' = _mc_map t ++ zip peers.*1 conns /\ in_rest <$> conns = rests /\ length conns = length peers.
Proof.
  intros Ho HF. unfold collect_machine_ids.
  assert (H : exists conns, collect_holder ((fun p => (0, snd p)) <$> peers) = Ok (zip peers.*1 conns) /\
    in_rest <$> conns = rests /\ length conns = length peers).
  { induction HF as [|[m c] rest peers rests [Hm Hr] _ (conns & E & Hc & Hl)]; cbn [fmap list_fmap collect_holder].
    - exists []. done.
    - cbn [fst snd] in *. unfold client_hello in Hr. rewrite written_write, Ho in Hr. cbn [app] in Hr.
      pose proof (read_bytes c 4) as B. pose proof (read_rest c 4) as R. rewrite Hr in *.
      rewrite take_app_length' in B by (now rewrite enc_uint_length).
      rewrite drop_app_length' in R by (now rewrite enc_uint_length).
      exists (snd (read_exactly c 4) :: conns). unfold read_machine_id. cbn [snd].
      destruct (read_exactly c 4) as [b c']. cbn [fst snd] in *. subst b.
      replace (load_unaligned_int 4 (enc_uint 4 m) 0) with (Ok m).
      2: { symmetry. rewrite <-(app_nil_r (enc_uint 4 _)). now apply (load_mid 4 []). }
      cbn [mbind res_bind]. rewrite E. cbn [mbind res_bind fmap list_fmap zip length]. rewrite R, Hc, Hl. done. }
  destruct H as (conns & E & Hc & Hl). rewrite E. cbn [mbind res_bind]. exists conns. eexists. split; [reflexivity|].
  split; [|done]. generalize (zip peers.*1 conns). intros ps. revert t. induction ps as [|p ps IH]; intros t; cbn [add_all].
  - now rewrite app_nil_r.
  - rewrite IH. cbn. now rewrite <-app_assoc.
Qed.

End Handshake.

(** ** buffers_helper *)
Section Buffers.
Context {T E : Type}.
Abbreviation net_buffer := (dynamic_queue (T := T) (E := E)).

Definition build (num_machines : nat) (qu_size : Z) : list net_buffer := replicate num_machines (dynamic_queue_new qu_size).

(** [abort]: the messages deleted and the queues after it; an exception when one of the
    queues was aborted before. *)
Fixpoint abort_buffers (ex : E) (mids : list nat) (qs : list net_buffer) : res (list T * list net_buffer * option E) :=
  match mids with
  | [] => Ok ([], qs, None)
  | id :: mids =>
      q ← of_option OutOfBounds (qs !! id);
      match consume (fun _ => true) q with
      | inr e => Ok ([], qs, Some e)
      | inl (used, _, q) =>
          '(deleted, qs, e) ← abort_buffers ex mids (<[id := abort q ex]> qs);
          Ok (used ++ deleted, qs, e)
      end
  end.

(** Stopping a connection manager for the first time deletes every message still queued
    for one of its machines, exactly once, and leaves each of these queues empty and
    aborted; the queues of other machines are untouched. *)
Theorem abort_buffers_deletes_all ex mids (qs : list net_buffer) :
  NoDup mids -> Forall (fun id => exists q, qs !! id = Some q /\ _ex q = None) mids ->
  exists qs', abort_buffers ex mids qs =
      Ok (mjoin ((fun id => default [] (_q <$> qs !! id)) <$> mids), qs', None) /\
    length qs' = length qs /\
    (forall id, id ∈ mids -> exists q, qs' !! id = Some q /\ _q q = [] /\ _ex q = Some ex) /\
    (forall id, id ∉ mids -> qs' !! id = qs !! id).
Proof.
  revert qs. induction mids as [|id mids IH]; intros qs Hnd HF; cbn [abort_buffers].
  - exists qs. split; [done|]. split; [done|]. split; [|done]. intros id Hid. now apply not_elem_of_nil in Hid.
  - apply NoDup_cons in Hnd as [Hni Hnd]. apply Forall_cons in HF as [(q & Hq & Hex) HF].
    rewrite Hq. cbn [of_option mbind res_bind]. unfold consume. rewrite Hex, consume_loop_all.
    set (q1 := abort _ ex). pose proof (lookup_lt_Some _ _ _ Hq) as Hlt.
    destruct (IH (<[id := q1]> qs) Hnd) as (qs' & E1 & Hlen & Hin & Hout).
    { rewrite Forall_forall in *. intros x Hx. destruct (HF x Hx) as (qx & Hqx & Hexx). exists qx.
      rewrite list_lookup_insert_ne; [done|]. now intros ->. }
    rewrite E1. cbn [mbind res_bind]. exists qs'. split.
    { do 3 f_equal. cbn [fmap list_fmap mjoin list_join]. rewrite Hq. cbn [fmap option_fmap option_map default from_option].
      f_equal. f_equal. apply list_fmap_ext. intros i x Hx. apply list_elem_of_lookup_2 in Hx.
      cbn beta. rewrite list_lookup_insert_ne; [done|]. now intros ->. }
    rewrite length_insert in Hlen. split; [done|]. split.
    + intros x Hx. destruct (decide (x ∈ mids)) as [Hxm|Hxm]; [now apply Hin|].
      apply elem_of_cons in Hx as [->|?]; [|done]. rewrite Hout by done.
      rewrite list_lookup_insert_eq by done. exists q1. split; [done|]. unfold q1, abort. now destruct (_not_empty _).
    + intros x Hx. rewrite not_elem_of_cons in Hx. destruct Hx as [Hx1 Hx2]. rewrite Hout by done.
      now rewrite list_lookup_insert_ne.
Qed.

End Buffers.

(** ** Concrete runs, on the real buffer queue *)
Import SerializablePrimitive QueueSpec.

Definition sample_messages : list (actor_message (LinkedList.heap * Queue.serializable_queue) * list tmpbuf) :=
  [(mk_msg sample_header (Payload _ _ (mk_Integer (-5))), [enc_uint 4 (int_to_u (mk_Integer (-5)))]);
   (mk_msg sample_header NoPayload, [])].

Lemma sample_messages_ok : Forall (fun p => wire_ok (fst p) (snd p)) sample_messages.
Proof.
  apply Forall_cons. split; [|apply Forall_cons; split; [|constructor]].
  - split; [exact sample_header_ok| |done].
    intros q s n Hr Hn. destruct (dump_to_bufs (mk_Integer (-5)) q s n) as (q' & E & H);
      [cbn; unfold int_valid; cbn; lia|exact Hr|exact Hn|]. exists q'. split; [exact E|exact H].
  - split; [exact sample_header_ok|done|done].
Qed.

Lemma stream_roundtrip_witness :
  exists out', send_loop sample_padding sample_messages.*1 ([] : bytes) = Ok out' /\
    exists got conn', receive_loop 3 false (out', false) = Ok (got, conn') /\
      in_eof conn' = true /\ Forall2 received_as sample_messages got.
Proof.
  destruct (stream_roundtrip (Out := bytes) (OS := bytes_output) (I := bytes * bool) sample_padding sample_messages ([] : bytes)
    (mjoin ((fun p => packet (frame sample_padding (hdr (fst p)) (snd p))) <$> sample_messages), false)
    sample_messages_ok eq_refl) as (out' & E & H).
  assert (Eo : out' = mjoin ((fun p => packet (frame sample_padding (hdr (fst p)) (snd p))) <$> sample_messages)).
  { apply Ok_inj. rewrite <-E. vm_compute. reflexivity. }
  exists out'. split; [exact E|]. rewrite Eo. apply H; [reflexivity|]. now rewrite Eo.
Defined.

Lemma truncated_stream_overread_witness :
  receive_loop (Q := list tmpbuf) 1 false (enc_uint 4 100 ++ [Byte.x01], false) = Fault OutOfBounds.
Proof.
  apply (truncated_stream_overread (Q := list tmpbuf) (enc_uint 4 100 ++ [Byte.x01], false) 100 [Byte.x01] 0);
    try reflexivity; unfold in_u, sizeof_header; cbn; lia.
Defined.

Lemma handshake_files_by_machine_witness :
  exists conns t', collect_machine_ids [(0, (enc_uint 4 3 ++ [Byte.x01], false))] connection_table_new = Ok t' /\
    _mc_map t' = zip [3] conns /\ in_rest <$> conns = [[Byte.x01]] /\ length conns = 1%nat.
Proof.
  apply (handshake_files_by_machine (OS := bytes_output) [(3, (enc_uint 4 3 ++ [Byte.x01], false))] [[Byte.x01]] ([] : bytes) connection_table_new eq_refl).
  repeat constructor; cbn; unfold in_u; cbn; lia.
Defined.

Lemma abort_buffers_deletes_all_witness :
  let q0 := snd (push (dynamic_queue_new 16) 7) : dynamic_queue (T := Z) (E := unit) in
  exists qs', abort_buffers tt [1%nat] [q0; q0] = Ok ([7], qs', None) /\ length qs' = 2%nat /\
    (forall id, id ∈ [1%nat] -> exists q, qs' !! id = Some q /\ _q q = [] /\ _ex q = Some tt) /\
    (forall id, id ∉ [1%nat] -> qs' !! id = [q0; q0] !! id).
Proof.
  intros q0. apply (abort_buffers_deletes_all tt [1%nat] [q0; q0]).
  - apply NoDup_singleton.
  - repeat constructor. exists q0. split; reflexivity.
Defined.
