(* ===== verification/Receiver.v ===== *)
(** * The receiver of a connection

    The loop of [connection_manager::run_receivers] (src/src/net/connection.cc) as it runs:
    the bytes of the stream arrive in pieces of any size, and [read_exactly] waits until
    enough of them are there or the peer has closed.  [Connection.receive_loop] is the loop on a
    stream that is complete; here the two are shown to do the same. *)
From S2P Require Import Prelude Bytes Address.
From S2P Require Import BufferQueue DataType Message Connection.

(** ** The receiver *)

(** Which future the loop of [run_receivers] waits for. *)
Inductive reading := ReadLength | ReadBody (nr_bytes : Z) | LoopEnded.
#[export] Instance reading_eq_dec : EqDecision reading.
Proof. solve_decision. Defined.

Section Receiver.
Context {Q : Type} {BQ : BufferQueue Q}.

Record receiver := mk_rx {
  state : reading;
  inp : bytes;                          (* arrived and not read *)
  ended : bool;                         (* the peer closed, nothing more arrives *)
  rx_eof : bool;                        (* [conn.in.eof()] *)
  _abort_connection : bool;
  handed : list (actor_message Q)       (* given to [actor_engine().send] *)
}.
Definition receiver_new : receiver := mk_rx ReadLength [] false false false [].
Definition with_state st r := mk_rx st (inp r) (ended r) (rx_eof r) (_abort_connection r) (handed r).
Definition hand m r := mk_rx (state r) (inp r) (ended r) (rx_eof r) (_abort_connection r) (handed r ++ [m]).

(** [None]: the future is not available yet. *)
Definition try_read (n : nat) (r : receiver) : option (bytes * receiver) :=
  if decide (n <= length (inp r))%nat then
    Some (take n (inp r), mk_rx (state r) (drop n (inp r)) (ended r) (rx_eof r) (_abort_connection r) (handed r))
  else if ended r then Some (inp r, mk_rx (state r) [] (ended r) true (_abort_connection r) (handed r))
  else None.

(** The condition of [do_until]. *)
Definition stop_reading (r : receiver) : bool := rx_eof r || _abort_connection r.

(** The continuation of the read that is due, if its bytes are there. *)
Definition receiver_step (r : receiver) : res receiver :=
  match state r with
  | LoopEnded => Ok r
  | ReadLength =>
      match try_read 4 r with
      | None => Ok r
      | Some (buf, r) =>
          if stop_reading r then Ok (with_state LoopEnded r)
          else nr_bytes ← load_unaligned_int 4 buf 0; Ok (with_state (ReadBody nr_bytes) r)
      end
  | ReadBody nr_bytes =>
      match try_read (Z.to_nat nr_bytes) r with
      | None => Ok r
      | Some (buf, r) =>
          msg ← deserialize buf;
          Ok (with_state (if stop_reading r then LoopEnded else ReadLength) (hand msg r))
      end
  end.

Inductive rx_event := Arrive (bs : bytes) | PeerClosed | Read | AbortConnection.
Definition arrive (bs : bytes) (r : receiver) : receiver :=
  if ended r then r else mk_rx (state r) (inp r ++ bs) false (rx_eof r) (_abort_connection r) (handed r).
Definition peer_closed (r : receiver) : receiver := mk_rx (state r) (inp r) true (rx_eof r) (_abort_connection r) (handed r).
Definition abort_connection (r : receiver) : receiver := mk_rx (state r) (inp r) (ended r) (rx_eof r) true (handed r).

Definition rx_step (r : receiver) (ev : rx_event) : res receiver :=
  match ev with
  | Arrive bs => Ok (arrive bs r)
  | PeerClosed => Ok (peer_closed r)
  | Read => receiver_step r
  | AbortConnection => Ok (abort_connection r)
  end.
Fixpoint rx_run (r : receiver) (evs : list rx_event) : res receiver :=
  match evs with
  | [] => Ok r
  | ev :: evs => r ← rx_step r ev; rx_run r evs
  end.

(** ** The receiver against the loop on the whole stream *)

(** The bytes a run brings, when the peer has closed or not. *)
Fixpoint arrivals (closed : bool) (evs : list rx_event) : bytes :=
  match evs with
  | [] => []
  | Arrive bs :: evs => (if closed then [] else bs) ++ arrivals closed evs
  | PeerClosed :: evs => arrivals true evs
  | _ :: evs => arrivals closed evs
  end.

Definition batch (x : bytes) : res (list (actor_message Q)) := fst <$> receive_loop (S (length x)) false (x, false).

(** What the loop still makes of the bytes [x], which are all there will be. *)
Definition remaining (st : reading) (x : bytes) : res (list (actor_message Q)) :=
  match st with
  | LoopEnded => Ok []
  | ReadLength => batch x
  | ReadBody nr_bytes =>
      msg ← deserialize (take (Z.to_nat nr_bytes) x);
      msgs ← (if decide (Z.to_nat nr_bytes <= length x)%nat then batch (drop (Z.to_nat nr_bytes) x) else Ok []);
      Ok (msg :: msgs)
  end.

Lemma receive_loop_fuel_eq : forall fuel fuel' x,
  (length x < fuel)%nat -> (length x < fuel')%nat ->
  receive_loop (Q := Q) fuel false (x, false) = receive_loop fuel' false (x, false).
Proof.
  induction fuel as [|fuel IH]; intros [|fuel'] x Hf Hf'; try lia.
  cbn [receive_loop in_eof bytes_input snd orb fst read_exactly].
  destruct (Nat.ltb_spec (length x) 4) as [H4|H4].
  - rewrite !receive_loop_eof by done. done.
  - destruct (load_unaligned_int 4 (take 4 x) 0) as [n|]; cbn [mbind res_bind]; [|done].
    destruct (deserialize _) as [m|]; cbn [mbind res_bind]; [|done].
    destruct (_ <? _)%nat eqn:E; cbn [orb].
    + now rewrite !receive_loop_eof.
    + rewrite (IH fuel'); [done| |]; rewrite !length_drop; lia.
Qed.

Lemma batch_short x : (length x < 4)%nat -> batch x = Ok [].
Proof.
  intros H. unfold batch. cbn [receive_loop in_eof bytes_input snd orb fst read_exactly].
  apply Nat.ltb_lt in H as ->. cbn [orb]. now rewrite receive_loop_eof.
Qed.

Lemma batch_long x : (4 <= length x)%nat ->
  batch x = (n ← load_unaligned_int 4 (take 4 x) 0; remaining (ReadBody n) (drop 4 x)).
Proof.
  intros H. unfold batch. cbn [receive_loop in_eof bytes_input snd orb fst read_exactly].
  rewrite (proj2 (Nat.ltb_ge _ _) H). cbn [orb].
  destruct (load_unaligned_int 4 (take 4 x) 0) as [n|]; cbn [mbind res_bind fmap res_fmap]; [|done].
  unfold remaining. destruct (deserialize _) as [m|]; cbn [mbind res_bind fmap res_fmap]; [|done].
  case_decide as Hd.
  - rewrite (proj2 (Nat.ltb_ge _ _) Hd). cbn [orb]. unfold batch.
    rewrite (receive_loop_fuel_eq _ (S (length (drop (Z.to_nat n) (drop 4 x))))); [|rewrite !length_drop; lia..].
    now destruct (receive_loop _ _ _) as [[]|].
  - rewrite (proj2 (Nat.ltb_lt _ _)) by lia. cbn [orb]. now rewrite receive_loop_eof.
Qed.

(** The receiver of a connection that was not stopped here. *)
Record rx_ok (r : receiver) : Prop := {
  rx_live : _abort_connection r = false;
  rx_at_eof : rx_eof r = true -> state r = LoopEnded
}.

(** A step of the receiver is a step of the loop, whatever [later] arrives. *)
Definition simulates (r : receiver) (later : bytes) (next : res receiver) : Prop :=
  match next with
  | Ok r' => rx_ok r' /\ ended r' = ended r /\ exists ms, handed r' = handed r ++ ms /\
      remaining (state r) (inp r ++ later) = app ms <$> remaining (state r') (inp r' ++ later)
  | Fault f => remaining (state r) (inp r ++ later) = Fault f
  end.

Lemma simulates_idle r later : rx_ok r -> simulates r later (Ok r).
Proof.
  intros H. cbn. split; [done|]. split; [done|]. exists []. split; [now rewrite app_nil_r|]. now destruct (remaining _ _).
Qed.

Lemma read_length_simulates r later :
  rx_ok r -> (ended r = true -> later = []) -> state r = ReadLength -> simulates r later (receiver_step r).
Proof.
  intros Hok He Hs. pose proof Hok as [Ha Hf]. unfold receiver_step. rewrite Hs. unfold try_read, stop_reading.
  assert (Hne : rx_eof r = false) by (destruct (rx_eof r); [now rewrite Hf in Hs|done]).
  case_decide as H4; cbn [rx_eof _abort_connection].
  - rewrite Hne, Ha. cbn [orb]. unfold simulates. rewrite Hs. cbn [remaining].
    rewrite batch_long by (rewrite length_app; lia). rewrite take_app_le, drop_app_le by lia.
    destruct (load_unaligned_int 4 (take 4 (inp r)) 0) as [n|f]; cbn [mbind res_bind]; [|done].
    split; [split; cbn; [done|congruence]|]. split; [done|]. exists []. split; [now rewrite app_nil_r|].
    cbn [state with_state inp]. now destruct (remaining _ _).
  - destruct (ended r) eqn:Ee; [|now apply simulates_idle]. cbn [orb]. unfold simulates. rewrite (He eq_refl), Hs, app_nil_r. cbn [remaining].
    rewrite batch_short by lia. split; [done|]. split; [done|]. exists []. cbn. now rewrite app_nil_r.
Qed.

Lemma read_body_simulates r later n :
  rx_ok r -> (ended r = true -> later = []) -> state r = ReadBody n -> simulates r later (receiver_step r).
Proof.
  intros Hok He Hs. pose proof Hok as [Ha Hf]. unfold receiver_step. rewrite Hs. unfold try_read, stop_reading.
  assert (Hne : rx_eof r = false) by (destruct (rx_eof r); [now rewrite Hf in Hs|done]).
  case_decide as Hn; [|destruct (ended r) eqn:Ee; [|now apply simulates_idle]]; unfold simulates; rewrite Hs; cbn [remaining].
  - rewrite take_app_le, drop_app_le by lia. rewrite decide_True by (rewrite length_app; lia).
    destruct (deserialize (take (Z.to_nat n) (inp r))) as [m|f]; cbn [mbind res_bind]; [|done].
    cbn [rx_eof _abort_connection hand with_state]. rewrite Hne, Ha. split; [split; cbn; [done|congruence]|]. split; [done|]. exists [m].
    split; [done|]. cbn [hand with_state state inp remaining orb]. now destruct (batch _).
  - rewrite (He eq_refl), app_nil_r, take_ge, decide_False by lia.
    destruct (deserialize (inp r)) as [m|f]; cbn [mbind res_bind]; [|done]. split; [done|]. split; [done|]. exists [m]. done.
Qed.

Lemma receiver_step_simulates r later :
  rx_ok r -> (ended r = true -> later = []) -> simulates r later (receiver_step r).
Proof.
  intros Hok He. destruct (state r) eqn:Hs; [now apply read_length_simulates|eapply read_body_simulates; eassumption|].
  unfold receiver_step. rewrite Hs. now apply simulates_idle.
Qed.

Lemma arrivals_closed evs : arrivals true evs = [].
Proof. induction evs as [|[] evs IH]; cbn; done. Qed.

(** However the stream is cut, the receiver has handed over what the loop hands over first. *)
Lemma rx_run_simulates evs : forall r,
  rx_ok r -> AbortConnection ∉ evs ->
  match rx_run r evs with
  | Ok r' => rx_ok r' /\ exists ms, handed r' = handed r ++ ms /\
      remaining (state r) (inp r ++ arrivals (ended r) evs) = app ms <$> remaining (state r') (inp r')
  | Fault f => remaining (state r) (inp r ++ arrivals (ended r) evs) = Fault f
  end.
Proof.
  induction evs as [|ev evs IH]; intros r Hok Hna; cbn [rx_run arrivals].
  - rewrite app_nil_r. split; [done|]. exists []. rewrite app_nil_r. split; [done|]. now destruct (remaining _ _).
  - apply not_elem_of_cons in Hna as [Hev Hna]. destruct ev as [bs| | |]; cbn [rx_step mbind res_bind]; [..|done].
    + assert (Hok' : rx_ok (arrive bs r)) by (unfold arrive; destruct Hok; now destruct (ended r)).
      specialize (IH (arrive bs r) Hok' Hna). unfold arrive in *. destruct (ended r) eqn:Ee; [now rewrite Ee in IH|].
      cbn [inp ended state handed] in IH. rewrite <-app_assoc in IH. exact IH.
    + destruct Hok as [Ha Hf]. exact (IH (peer_closed r) (Build_rx_ok (peer_closed r) Ha Hf) Hna).
    + pose proof (receiver_step_simulates r (arrivals (ended r) evs) Hok) as Hst. unfold simulates in Hst.
      destruct (receiver_step r) as [r1|f]; cbn [mbind res_bind].
      * destruct Hst as (Hok1 & Ee & ms & Hh & Hr); [intros ->; apply arrivals_closed|]. specialize (IH r1 Hok1 Hna). rewrite Ee in IH.
        destruct (rx_run r1 evs) as [r2|f]; [|now rewrite Hr, IH]. destruct IH as (Hok2 & ms2 & Hh2 & Hr2). split; [done|].
        exists (ms ++ ms2). rewrite Hh2, Hh, <-app_assoc. split; [done|]. rewrite Hr, Hr2.
        destruct (remaining (state r2) _); cbn; [|done]. now rewrite <-app_assoc.
      * apply Hst. intros ->. apply arrivals_closed.
Qed.

(** Once the peer has closed, reads end the loop. *)
Definition work_left (r : receiver) : nat :=
  match state r with ReadLength => 2 * length (inp r) + 2 | ReadBody _ => 2 * length (inp r) + 3 | LoopEnded => 0 end.

Lemma receiver_step_progress r : rx_ok r -> ended r = true -> state r <> LoopEnded ->
  match receiver_step r with Ok r' => (work_left r' < work_left r)%nat | Fault _ => True end.
Proof.
  intros [Ha Hf] He Hs. unfold receiver_step, work_left. destruct (state r) as [|n|] eqn:E; [..|done]; unfold try_read, stop_reading.
  - case_decide as H4; cbn [rx_eof _abort_connection]; [|rewrite He; cbn; lia].
    destruct (rx_eof r); [now specialize (Hf eq_refl)|]. rewrite Ha. cbn [orb].
    destruct (load_unaligned_int _ _ _); cbn; [rewrite length_drop; lia|done].
  - case_decide; [|rewrite He]; destruct (deserialize _); cbn; try done; [|lia].
    destruct (_ || _); [lia|rewrite length_drop; lia].
Qed.

Lemma reads_finish k : forall r, rx_ok r -> ended r = true -> (work_left r <= k)%nat ->
  match rx_run r (replicate k Read) with Ok r' => state r' = LoopEnded | Fault _ => True end.
Proof.
  induction k as [|k IH]; intros r Hok He Hk; cbn [replicate rx_run rx_step].
  - unfold work_left in Hk. now destruct (state r); [lia..|].
  - destruct (decide (state r = LoopEnded)) as [E|Hne].
    + unfold receiver_step. rewrite E. cbn [mbind res_bind]. apply IH; [done..|]. unfold work_left. rewrite E. lia.
    + pose proof (receiver_step_progress r Hok He Hne) as Hp. pose proof (receiver_step_simulates r [] Hok ltac:(done)) as Hst.
      destruct (receiver_step r) as [r1|]; cbn [mbind res_bind]; [|done]. destruct Hst as (Hok1 & Ee & _).
      apply IH; [done|congruence|lia].
Qed.

Lemma rx_run_app evs1 : forall evs2 r, rx_run r (evs1 ++ evs2) = r ← rx_run r evs1; rx_run r evs2.
Proof.
  induction evs1 as [|ev evs1 IH]; intros evs2 r; cbn [app rx_run]; [done|].
  destruct (rx_step r ev); cbn [mbind res_bind]; [apply IH|done].
Qed.
Lemma arrivals_reads k closed : arrivals closed (replicate k Read) = [].
Proof. induction k; done. Qed.

Lemma rx_open evs : forall r r', PeerClosed ∉ evs -> rx_run r evs = Ok r' -> ended r = false -> ended r' = false /\
  (length (inp r') <= length (inp r) + length (arrivals false evs))%nat.
Proof.
  induction evs as [|ev evs IH]; intros r r' Hn H He; cbn [rx_run arrivals] in *; [simplify_eq; split; [done|lia]|].
  apply not_elem_of_cons in Hn as [Hev Hn]. destruct (rx_step r ev) as [r1|] eqn:E1; [|done]. cbn [mbind res_bind] in H.
  assert (H1 : ended r1 = false /\ (length (inp r1) <= length (inp r) + length (match ev with Arrive bs => bs | _ => [] end))%nat).
  { destruct ev; cbn [rx_step] in E1; [injection E1 as <-..| |injection E1 as <-]; [|done| |split; [exact He|cbn; lia]].
    - unfold arrive. rewrite He. split; [done|]. cbn. rewrite length_app. lia.
    - unfold receiver_step, try_read in E1. rewrite He in E1.
      destruct (state r); [case_decide; [destruct (stop_reading _)|]|case_decide|]; res_inv; cbn; rewrite ?length_drop; split; done || lia. }
  destruct (IH r1 r' Hn H (proj1 H1)) as [H2 H3]. split; [done|]. destruct H1 as [_ H1].
  destruct ev; cbn [app length] in *; rewrite ?length_app; try lia. done.
Qed.

(** C21: However the network cuts a connection's bytes into pieces and whenever the receiver's
    continuations run in between, it hands over exactly what the loop makes of the whole stream, or
    fails as the loop does; after the peer closed, reading ends. *)
Theorem receiver_equals_receive_loop evs k :
  AbortConnection ∉ evs -> PeerClosed ∉ evs -> (2 * length (arrivals false evs) + 3 <= k)%nat ->
  let stream := arrivals false evs in
  (fun r => (handed r, state r)) <$> rx_run receiver_new (evs ++ PeerClosed :: replicate k Read) =
    (fun p => (fst p, LoopEnded)) <$> receive_loop (S (length stream)) false (stream, false).
Proof.
  intros Ha Hc Hk stream. rewrite rx_run_app.
  pose proof (rx_run_simulates evs receiver_new) as H1. cbn [remaining state receiver_new inp ended app handed] in H1. fold stream in H1.
  assert (Hb : fst <$> receive_loop (S (length stream)) false (stream, false) = batch stream) by done.
  revert Hb. generalize (receive_loop (Q := Q) (S (length stream)) false (stream, false)). intros rl Hb.
  destruct (rx_run receiver_new evs) as [r1|f] eqn:E1.
  - destruct H1 as (Hok1 & ms & Hm & Hr); [split; done|done|]. cbn [mbind res_bind rx_run rx_step].
    destruct (rx_open evs _ _ Hc E1 eq_refl) as [_ Hin]. cbn [receiver_new inp length] in Hin.
    assert (Hokc : rx_ok (peer_closed r1)) by (destruct Hok1; split; done).
    pose proof (reads_finish k (peer_closed r1) Hokc eq_refl) as Hfin.
    pose proof (rx_run_simulates (replicate k Read) (peer_closed r1) Hokc) as H2.
    rewrite arrivals_reads, app_nil_r in H2. cbn [peer_closed state inp handed] in H2.
    assert (Hw : (work_left (peer_closed r1) <= k)%nat) by (unfold work_left; cbn; destruct (state r1); lia).
    rewrite Hr in Hb. destruct (rx_run (peer_closed r1) (replicate k Read)) as [r2|f].
    + destruct H2 as (_ & ms2 & Hm2 & Hr2); [intros [[=] _]%elem_of_replicate|]. specialize (Hfin Hw).
      rewrite Hr2, Hfin in Hb. cbn [fmap res_fmap remaining]. rewrite Hm2, Hm, Hfin.
      destruct rl as [[l c]|]; cbn in *; [|done]. rewrite app_nil_r in Hb. injection Hb as ->. done.
    + rewrite H2 in Hb by (intros [[=] _]%elem_of_replicate). destruct rl as [[l c]|]; cbn in *; congruence.
  - rewrite H1 in Hb by done. destruct rl as [[l c]|]; cbn in *; congruence.
Qed.
End Receiver.

(** ** A packet in three pieces *)
Module ReceiverExamples.
Definition sample_stream : bytes := packet (frame sample_padding sample_header [[Byte.x01; Byte.x02]]).
Definition sample_cuts : list rx_event := [Arrive (take 2 sample_stream); Read; Arrive (take 50 (drop 2 sample_stream)); Read; Read; Arrive (drop 52 sample_stream)].

Lemma receiver_equals_receive_loop_witness :
  (fun r => (handed r, state r)) <$> rx_run (Q := list tmpbuf) receiver_new (sample_cuts ++ PeerClosed :: replicate 200 Read) =
    (fun p => (fst p, LoopEnded)) <$> receive_loop (Q := list tmpbuf) (S (length sample_stream)) false (sample_stream, false).
Proof.
  apply (receiver_equals_receive_loop (Q := list tmpbuf) sample_cuts 200).
  - unfold sample_cuts. rewrite !not_elem_of_cons. repeat split; try discriminate. apply not_elem_of_nil.
  - unfold sample_cuts. rewrite !not_elem_of_cons. repeat split; try discriminate. apply not_elem_of_nil.
  - apply Nat.leb_le. vm_compute. reflexivity.
Defined.
End ReceiverExamples.
