(* ===== verification/Link.v ===== *)
(** * A connection at work

    The two loops of a connection ([connection_manager::run_senders], [run_receivers],
    src/src/net/connection.cc) with the network between them: the sender pops a message when
    there is one, writes it to the stream and flushes; the bytes arrive at the other machine in
    pieces of any size, where the receiver ([Receiver]) waits for them. *)
From S2P Require Import Prelude Bytes Address.
From S2P Require Import BufferQueue SerializableQueue DataType Message DynamicQueue Connection Receiver.

(** ** Sender, network and receiver

    [obj] is the message a pointer of the buffer points to, [pad] the padding bytes of its
    header object.  The buffer [net_buffer] is the one [network_channel::push_to_buffer] fills. *)
Section Link.
Context {Q : Type} {BQ : BufferQueue Q} {BQL : BufferQueueLaws Q}.
Context {Msg Ex : Type}.
Variable obj : Msg -> actor_message Q.
Variable pad : Msg -> padding.

Abbreviation net_buffer := (dynamic_queue (T := Msg) (E := Ex)).

Record link := mk_link {
  waiting : option nat;           (* the promise the sender's pop waits for *)
  popped : list Msg;
  deleted : list Msg;             (* by [buffers_helper::abort] *)
  failed : bool;                  (* the sender saw the exception and stopped *)
  wire : bytes;                   (* flushed and not arrived *)
  rx : receiver (Q := Q)          (* of the other machine *)
}.
Definition link_new : link := mk_link None [] [] false [] receiver_new.
Definition with_wire w l := mk_link (waiting l) (popped l) (deleted l) (failed l) w (rx l).
Definition with_rx r l := mk_link (waiting l) (popped l) (deleted l) (failed l) (wire l) r.

(** [msg->serialize(conn.out)], [conn.out.flush()]. *)
Fixpoint write_out (ms : list Msg) (out : bytes) : res bytes :=
  match ms with
  | [] => Ok out
  | m :: ms => out ← serialize (pad m) (obj m) out; write_out ms out
  end.

Definition sender_sys (b : net_buffer) (l : link) : DynamicQueue.sys := mk_sys b (waiting l) (popped l) (deleted l) (failed l).

(** An operation on the buffer; what the sender's pop returned is written. *)
Definition queue_step (ev : DynamicQueue.event) (b : net_buffer) (l : link) : res (net_buffer * link) :=
  s ← DynamicQueue.step (sender_sys b l) ev;
  w ← write_out (drop (length (popped l)) (delivered s)) (wire l);
  Ok (queue s, mk_link (DynamicQueue.waiting s) (delivered s) (DynamicQueue.deleted s) (DynamicQueue.failed s) w (rx l)).

Inductive link_event :=
  | Push (m : Msg)          (* [push_to_buffer] *)
  | SenderRuns              (* the next iteration of [repeat], or the continuation of its pop *)
  | StopSender (e : Ex)     (* [buffers_helper::abort] *)
  | Transfer (n : nat)      (* the next [n] bytes arrive *)
  | CloseStream             (* [close_out_streams] reaches the peer *)
  | ReceiverRuns
  | StopReceiver.           (* [_abort_connection = true] of the other machine *)

Definition link_step (b : net_buffer) (l : link) (ev : link_event) : res (net_buffer * link) :=
  match ev with
  | Push m => queue_step (EPush m) b l
  | SenderRuns =>
      match waiting l with
      | Some _ => queue_step EResume b l
      | None => if failed l then Ok (b, l) else queue_step EPop b l
      end
  | StopSender e => queue_step (EStop e) b l
  | Transfer n => Ok (b, with_wire (drop n (wire l)) (with_rx (arrive (take n (wire l)) (rx l)) l))
  | CloseStream => if failed l && (length (wire l) =? 0)%nat then Ok (b, with_rx (peer_closed (rx l)) l) else Ok (b, l)
  | ReceiverRuns => r ← receiver_step (rx l); Ok (b, with_rx r l)
  | StopReceiver => Ok (b, with_rx (abort_connection (rx l)) l)
  end.
Fixpoint link_run (b : net_buffer) (l : link) (evs : list link_event) : res (net_buffer * link) :=
  match evs with
  | [] => Ok (b, l)
  | ev :: evs => '(b, l) ← link_step b l ev; link_run b l evs
  end.

(** ** What is on its way *)
Abbreviation item := (Msg * list tmpbuf)%type.
Definition sendable (m : Msg) : Prop := exists bs, wire_ok (obj m) bs.
Definition item_ok (p : item) : Prop := wire_ok (obj (fst p)) (snd p).
Definition item_frame (p : item) : bytes := frame (pad (fst p)) (hdr (obj (fst p))) (snd p).
Definition packets (way : list item) : bytes := mjoin ((fun p => packet (item_frame p)) <$> way).

(** A message the receiver hands over for the one that was sent. *)
Definition arrives_as (p : item) (got : actor_message Q) : Prop := received_as (obj (fst p), snd p) got.

(** The bytes in flight are the packets of the messages [way]. *)
Definition in_stream (r : receiver (Q := Q)) (w : bytes) (way : list item) : Prop :=
  match state r with
  | ReadLength => inp r ++ w = packets way
  | ReadBody n => exists p way', way = p :: way' /\ n = Z.of_nat (length (item_frame p)) /\ inp r ++ w = item_frame p ++ packets way'
  | LoopEnded => _abort_connection r = true \/ ended r = true /\ way = []
  end.

Record flowing (l : link) (done way : list item) : Prop := {
  f_popped : popped l = (done ++ way).*1;
  f_ok : Forall item_ok way;
  f_done : Forall2 arrives_as done (handed (rx l));
  f_stream : in_stream (rx l) (wire l) way;
  f_eof : rx_eof (rx l) = true -> state (rx l) = LoopEnded;
  f_ended : ended (rx l) = true -> wire l = [] /\ failed l = true
}.

Record link_ok (pushed : list Msg) (b : net_buffer) (l : link) : Prop := {
  l_queue : DynamicQueue.inv (sender_sys b l) pushed;
  l_stopped : failed l = true -> waiting l = None;
  l_flow : exists done way, flowing l done way
}.

Lemma packets_app a b : packets (a ++ b) = packets a ++ packets b.
Proof. unfold packets. now rewrite fmap_app, join_app. Qed.

Lemma write_out_spec (ps : list item) : forall out, Forall item_ok ps -> write_out ps.*1 out = Ok (out ++ packets ps).
Proof.
  induction ps as [|[m bs] ps IH]; intros out H; cbn [fmap list_fmap write_out fst]; [now rewrite app_nil_r|].
  apply Forall_cons in H as [Hm H]. destruct (serialize_spec (pad m) (obj m) bs out Hm) as (o & -> & Hw). cbn [mbind res_bind].
  cbn [written bytes_output] in Hw. subst o. rewrite IH by done. now rewrite <-app_assoc.
Qed.

Lemma sendable_items (ms : list Msg) : Forall sendable ms -> exists ps, ps.*1 = ms /\ Forall item_ok ps.
Proof.
  induction 1 as [|m ms [bs Hm] _ (ps & <- & Hps)]; [now exists []|]. exists ((m, bs) :: ps). split; [done|]. now constructor.
Qed.

Lemma packet_length p : item_ok p -> length (item_frame p) = Z.to_nat (72 + 4 * Z.of_nat (length (snd p)) + total (snd p)).
Proof. intros [Hh _ _]. pose proof (frame_length (pad p.1) _ p.2 Hh). unfold item_frame. lia. Qed.

Lemma packets_cons p way : packets (p :: way) = enc_uint 4 (Z.of_nat (length (item_frame p))) ++ item_frame p ++ packets way.
Proof. unfold packets, packet. cbn [fmap list_fmap mjoin list_join]. now rewrite <-app_assoc. Qed.

Lemma item_frame_small p : item_ok p -> (72 <= length (item_frame p))%nat /\ Z.of_nat (length (item_frame p)) < 4294967296.
Proof.
  intros H. pose proof (packet_length p H). destruct H as [_ _ Hl]. pose proof (total_nonneg (snd p)). lia.
Qed.

Lemma item_frame_deserialize p : item_ok p -> exists m, deserialize (item_frame p) = Ok m /\ arrives_as p m.
Proof.
  intros [Hh _ Hl]. destruct (deserialize_spec (pad p.1) (hdr (obj p.1)) p.2 Hh Hl) as (q & E & Hd).
  eexists. split; [exact E|]. exists q. done.
Qed.

(** The bytes that arrive are bytes that were in flight. *)
Lemma in_stream_transfer r w way n :
  in_stream r w way -> (ended r = true -> w = []) -> in_stream (arrive (take n w) r) (drop n w) way.
Proof.
  intros H He. unfold in_stream, arrive in *. destruct (ended r) eqn:Ee; [rewrite (He eq_refl) in *; rewrite drop_nil|]; cbn [state inp _abort_connection ended].
  - rewrite Ee. exact H.
  - rewrite <-app_assoc, take_drop. destruct (state r); try done.
Qed.

(** A message popped by the sender is behind the others. *)
Lemma in_stream_write r w way p :
  in_stream r w way -> ended r = false -> in_stream r (w ++ packets [p]) (way ++ [p]).
Proof.
  intros H He. unfold in_stream in *. rewrite app_assoc. destruct (state r) as [|n|].
  - now rewrite H, packets_app.
  - destruct H as (p0 & way' & -> & Hn & H). exists p0, (way' ++ [p]). rewrite H, packets_app, <-app_assoc. done.
  - left. destruct H as [?|[? _]]; congruence.
Qed.

(** A step of the receiver takes a length, or a message. *)
Definition takes (r : receiver (Q := Q)) (w : bytes) (way : list item) : Prop :=
  exists r', receiver_step r = Ok r' /\ ended r' = ended r /\ (rx_eof r' = true -> state r' = LoopEnded) /\
    _abort_connection r' = _abort_connection r /\
    (w = [] -> way <> [] -> state r <> LoopEnded -> (work_left r' < work_left r)%nat) /\
    ((handed r' = handed r /\ in_stream r' w way) \/
     (exists p way' m, way = p :: way' /\ handed r' = handed r ++ [m] /\ arrives_as p m /\ in_stream r' w way')).

Lemma takes_nothing r w way :
  receiver_step r = Ok r -> in_stream r w way -> (rx_eof r = true -> state r = LoopEnded) ->
  (w = [] -> way <> [] -> state r = LoopEnded) -> takes r w way.
Proof. intros Es H Hf Hw. exists r. do 4 (split; [done|]). split; [|now left]. intros Hw1 Hw2 Hw3. now destruct Hw3; auto. Qed.

Lemma split_app {A} (k : nat) (x w a b : list A) :
  x ++ w = a ++ b -> length a = k -> (k <= length x)%nat -> take k x = a /\ drop k x ++ w = b.
Proof.
  intros H <- Hk. apply (f_equal (fun l => (take (length a) l, drop (length a) l))) in H.
  rewrite take_app_le, drop_app_le, take_app_length, drop_app_length in H by done. now injection H.
Qed.

Lemma takes_length (r : receiver (Q := Q)) w way :
  state r = ReadLength -> in_stream r w way -> Forall item_ok way -> rx_eof r = false -> (ended r = true -> w = []) -> takes r w way.
Proof.
  intros Es Hst Hw Hne He. pose proof Hst as H. unfold in_stream in H. rewrite Es in H.
  destruct (decide (4 <= length (inp r))%nat) as [H4|H4].
  - assert (Hr : try_read 4 r = Some (take 4 (inp r), mk_rx (state r) (drop 4 (inp r)) (ended r) (rx_eof r) (_abort_connection r) (handed r)))
      by (unfold try_read; now rewrite decide_True).
    unfold takes, receiver_step, stop_reading. rewrite Es, Hr. cbn [rx_eof _abort_connection]. rewrite Hne. cbn [orb].
    destruct (_abort_connection r) eqn:Ea.
    { eexists. split; [reflexivity|]. unfold work_left. rewrite Es. cbn. do 3 (split; [done|]). split; [lia|]. left. split; [done|]. unfold in_stream. cbn. now left. }
    destruct way as [|p way]; [apply (f_equal length) in H; cbn in H; rewrite length_app in H; lia|].
    apply Forall_cons in Hw as [Hp Hw]. rewrite packets_cons in H. pose proof (item_frame_small p Hp) as [_ Hlt].
    apply (split_app 4) in H as [-> Hin]; [|apply enc_uint_length|done].
    replace (load_unaligned_int 4 (enc_uint 4 _) 0) with (Ok (Z.of_nat (length (item_frame p)))).
    2: { symmetry. rewrite <-(app_nil_r (enc_uint 4 _)). apply (load_mid 4 []); [done|]. unfold in_u. change (2 ^ _) with 4294967296. lia. }
    cbn [mbind res_bind]. eexists. split; [reflexivity|]. split; [done|]. split; [cbn; congruence|]. split; [done|].
    split; [unfold work_left; rewrite Es; cbn; rewrite length_drop; lia|]. left. split; [done|]. unfold in_stream. cbn. exists p, way. done.
  - destruct (ended r) eqn:Ee.
    + unfold takes, receiver_step, try_read, stop_reading. rewrite Es, decide_False, Ee by done. cbn [rx_eof _abort_connection orb].
      eexists. split; [reflexivity|]. do 3 (split; [done|]). split; [unfold work_left; rewrite Es; cbn; lia|]. left. split; [done|]. unfold in_stream. cbn. right. split; [done|].
      rewrite (He eq_refl), app_nil_r in H. destruct way as [|p way]; [done|]. exfalso.
      apply (f_equal length) in H. rewrite packets_cons, !length_app, enc_uint_length in H. lia.
    + apply takes_nothing; [unfold receiver_step, try_read; now rewrite Es, decide_False, Ee|done|congruence|].
      intros -> Hway. exfalso. destruct way as [|p way]; [done|]. rewrite app_nil_r in H.
      apply (f_equal length) in H. rewrite packets_cons, !length_app, enc_uint_length in H. lia.
Qed.

Lemma takes_body (r : receiver (Q := Q)) w way n :
  state r = ReadBody n -> in_stream r w way -> Forall item_ok way -> rx_eof r = false -> (ended r = true -> w = []) -> takes r w way.
Proof.
  intros Es Hst Hw Hne He. pose proof Hst as H. unfold in_stream in H. rewrite Es in H. destruct H as (p & way' & -> & -> & H).
  apply Forall_cons in Hw as [Hp Hw]. destruct (decide (length (item_frame p) <= length (inp r))%nat) as [Hn|Hn].
  - apply (split_app (length (item_frame p))) in H as [Ht Hin]; [|done..].
    destruct (item_frame_deserialize p Hp) as (m & Em & Hm). unfold takes, receiver_step, try_read, stop_reading.
    rewrite Es, Nat2Z.id, decide_True, Ht, Em by done. cbn [mbind res_bind rx_eof _abort_connection hand with_state]. rewrite Hne. cbn [orb].
    eexists. split; [reflexivity|]. split; [done|]. split; [cbn; congruence|]. split; [done|].
    split; [unfold work_left; rewrite Es; cbn; destruct (_abort_connection r); rewrite ?length_drop; lia|]. right. exists p, way', m. split; [done|]. split; [done|]. split; [done|]. unfold in_stream. cbn. destruct (_abort_connection r); [now left|done].
  - destruct (ended r) eqn:Ee.
    + exfalso. rewrite (He eq_refl), app_nil_r in H. apply (f_equal length) in H. rewrite length_app in H. lia.
    + apply takes_nothing; [unfold receiver_step, try_read; now rewrite Es, Nat2Z.id, decide_False, Ee|done|congruence|].
      intros -> _. exfalso. rewrite app_nil_r in H. apply (f_equal length) in H. rewrite length_app in H. lia.
Qed.

Lemma receiver_takes (r : receiver (Q := Q)) w way :
  in_stream r w way -> Forall item_ok way -> (rx_eof r = true -> state r = LoopEnded) -> (ended r = true -> w = []) -> takes r w way.
Proof.
  intros H Hw Hf He. destruct (state r) as [|n|] eqn:Es.
  1,2: assert (Hne : rx_eof r = false) by (destruct (rx_eof r); [now specialize (Hf eq_refl)|done]).
  - now apply takes_length.
  - eapply takes_body; eassumption.
  - apply takes_nothing; [unfold receiver_step; now rewrite Es|done|done|done].
Qed.

(** ** No step fails, nothing is lost *)
Lemma inv_pushed pushed b l : DynamicQueue.inv (sender_sys b l) pushed -> pushed = popped l ++ deleted l ++ _q b.
Proof. intros H. apply (i_items _ _ H). Qed.

(** An operation on the buffer that succeeds, and whose pop, if it returned a message, is written. *)
Lemma queue_step_ok pushed' (b : net_buffer) l done way ev s :
  DynamicQueue.step (sender_sys b l) ev = Ok s -> DynamicQueue.inv s pushed' -> flowing l done way ->
  (exists ms, delivered s = popped l ++ ms /\ (length ms <= 1)%nat) ->
  Forall sendable pushed' -> (ended (rx l) = true -> delivered s = popped l) ->
  (failed l = true -> DynamicQueue.failed s = true) -> (DynamicQueue.failed s = true -> DynamicQueue.waiting s = None) ->
  exists b' l', queue_step ev b l = Ok (b', l') /\ link_ok pushed' b' l' /\ sender_sys b' l' = s /\ rx l' = rx l /\
    (delivered s = popped l -> wire l' = wire l).
Proof.
  intros Es Hi [Hp Ho Hd Hst Hf He] (ms & Hms & Hone) Hs Hend Hfail Hwait.
  assert (Hsend : Forall sendable ms).
  { pose proof (i_items _ _ Hi) as Eq. rewrite Hms in Eq. subst pushed'. apply Forall_app in Hs as [Hs _]. now apply Forall_app in Hs as [_ Hs]. }
  destruct (sendable_items ms Hsend) as (ps & <- & Hps). unfold queue_step. rewrite Es. cbn [mbind res_bind].
  rewrite Hms, drop_app_length, write_out_spec by done. cbn [mbind res_bind].
  eexists _, _. split; [reflexivity|]. split; [|split; [unfold sender_sys; cbn; rewrite <-Hms; now destruct s|]].
  - split; [unfold sender_sys; cbn; rewrite <-Hms; now destruct s|exact Hwait|]. exists done, (way ++ ps). split; cbn; try done.
    + rewrite Hp. rewrite !fmap_app, <-app_assoc. done.
    + now apply Forall_app.
    + destruct ps as [|p [|p' ps]]; [|..|cbn in Hone; lia].
      * now rewrite !app_nil_r.
      * apply in_stream_write; [done|]. destruct (ended (rx l)) eqn:Ee; [|done]. specialize (Hend eq_refl).
        rewrite Hms in Hend. now apply app_same in Hend.
    + intros Ee. destruct (He Ee) as [-> Hfl]. split; [|auto]. specialize (Hend Ee).
      rewrite Hms in Hend. apply app_same, fmap_nil_inv in Hend as ->. done.
  - cbn. split; [done|]. intros Hend'. apply app_same, fmap_nil_inv in Hend' as ->. now rewrite app_nil_r.
Qed.

Lemma consumer_got_steps (s : DynamicQueue.sys (T := Msg) (E := Ex)) r :
  DynamicQueue.waiting (consumer_got s r) = None \/ DynamicQueue.failed (consumer_got s r) = DynamicQueue.failed s.
Proof. destruct r as [[] d]; cbn; auto. Qed.

Lemma queue_event_pops (s s' : DynamicQueue.sys (T := Msg) (E := Ex)) ev :
  DynamicQueue.step s ev = Ok s' -> (DynamicQueue.failed s = true -> DynamicQueue.waiting s = None) ->
  (exists ms, delivered s' = delivered s ++ ms /\ (length ms <= 1)%nat) /\
  (DynamicQueue.failed s = true -> DynamicQueue.failed s' = true) /\
  (DynamicQueue.failed s' = true -> DynamicQueue.failed s = true \/ DynamicQueue.waiting s' = None) /\
  (match ev with EPop | EResume => True | _ => delivered s' = delivered s /\ DynamicQueue.waiting s' = DynamicQueue.waiting s /\ DynamicQueue.failed s' = DynamicQueue.failed s end).
Proof.
  intros H Hf.
  assert (Hkeep : delivered s' = delivered s -> exists ms, delivered s' = delivered s ++ ms /\ (length ms <= 1)%nat).
  { intros ->. exists []. split; [now rewrite app_nil_r|cbn; lia]. }
  assert (Hgot : forall r, (exists ms, delivered (consumer_got s r) = delivered s ++ ms /\ (length ms <= 1)%nat) /\
    (DynamicQueue.failed s = true -> DynamicQueue.failed (consumer_got s r) = true)).
  { intros [[a|e|p] d]; cbn; (split; [|auto]); [exists [a]|exists []..]; rewrite ?app_nil_r; (split; [done|cbn; lia]). }
  destruct ev as [a| | |e]; cbn [DynamicQueue.step] in H.
  - injection H as <-. cbn. auto 6.
  - destruct (DynamicQueue.waiting s) eqn:Ew; [simplify_eq; rewrite Ew; auto 6|]. res_inv. destruct (Hgot x). split; [done|]. split; [done|].
    split; [|done]. intros Hx. destruct (consumer_got_steps s x) as [?|E]; [auto|]. rewrite E in Hx. auto.
  - destruct (DynamicQueue.waiting s) eqn:Ew; [|simplify_eq; rewrite Ew; auto 6]. res_inv. destruct (Hgot x). split; [done|]. split; [done|].
    split; [|done]. intros Hx. destruct (consumer_got_steps s x) as [?|E]; [auto|]. rewrite E in Hx. auto.
  - destruct (consume _ _) as [[[used b] d]|]; simplify_eq; cbn; auto 6.
Qed.

Definition accepts (ev : link_event) (b : net_buffer) : list Msg :=
  match ev, _ex b with Push m, None => [m] | _, _ => [] end.
(** The messages pushed while the buffer was not aborted. *)
Fixpoint accepted_pushes (stopped : bool) (evs : list link_event) : list Msg :=
  match evs with
  | [] => []
  | Push m :: evs => (if stopped then [] else [m]) ++ accepted_pushes stopped evs
  | StopSender _ :: evs => accepted_pushes true evs
  | _ :: evs => accepted_pushes stopped evs
  end.
Definition aborted (b : net_buffer) : bool := match _ex b with Some _ => true | None => false end.

(** An event of the buffer, given what [DynamicQueue] says about it. *)
Lemma queue_event_ok pushed pushed' b l ev s :
  link_ok pushed b l -> DynamicQueue.step (sender_sys b l) ev = Ok s -> DynamicQueue.inv s pushed' -> Forall sendable pushed' ->
  match ev with EPop => failed l = false | EResume => waiting l <> None | _ => True end ->
  exists b' l', queue_step ev b l = Ok (b', l') /\ link_ok pushed' b' l' /\ sender_sys b' l' = s /\ rx l' = rx l /\
    (delivered s = popped l -> wire l' = wire l).
Proof.
  intros [Hq Hst (done & way & Hfl)] Es Hi Hs Hev. destruct (queue_event_pops _ _ _ Es Hst) as (H1 & H2 & H3 & H4).
  assert (Hrun : match ev with EPop | EResume => failed l = false | _ => True end).
  { destruct ev; try done. destruct (failed l) eqn:Ef; [now rewrite (Hst eq_refl) in Hev|done]. }
  apply (queue_step_ok pushed' b l done way); try done.
  - intros Ee. destruct (f_ended _ _ _ Hfl Ee) as [_ Hfa]. destruct ev; [apply H4|congruence..|apply H4].
  - intros Hx. destruct (H3 Hx) as [Hx'|?]; [|done]. destruct ev; cbn in Hx'; try congruence; destruct H4 as (_ & -> & _); now apply Hst.
Qed.

(** A push concerns the buffer only. *)
Lemma link_pushed pushed b l m :
  link_ok pushed b l -> _ex b = None -> link_ok (pushed ++ [m]) (snd (push_eventually b m)) l.
Proof.
  intros [Hq Hst Hfl] Hx. destruct (inv_push _ _ m Hq) as (s & Es & Hi & _). cbn [DynamicQueue.step] in Es. injection Es as <-.
  cbn [sender_sys queue DynamicQueue.waiting DynamicQueue.deleted DynamicQueue.failed delivered] in Hi. rewrite Hx in Hi. split; [exact Hi|exact Hst|exact Hfl].
Qed.

(** The other events leave the buffer and the sender alone. *)
Lemma flowing_transfer l done way n :
  flowing l done way -> flowing (with_wire (drop n (wire l)) (with_rx (arrive (take n (wire l)) (rx l)) l)) done way.
Proof.
  intros [Hp Ho Hd Hstr Hf He].
  assert (Ha : handed (arrive (take n (wire l)) (rx l)) = handed (rx l) /\ ended (arrive (take n (wire l)) (rx l)) = ended (rx l) /\
    rx_eof (arrive (take n (wire l)) (rx l)) = rx_eof (rx l) /\ state (arrive (take n (wire l)) (rx l)) = state (rx l)).
  { unfold arrive. destruct (ended (rx l)) eqn:Ee; cbn; auto. }
  destruct Ha as (H1 & H2 & H3 & H4). split; cbn [popped wire rx with_wire with_rx failed]; rewrite ?H1, ?H2, ?H3, ?H4; try done.
  - apply in_stream_transfer; [done|]. intros Ee. now apply He.
  - intros Ee. destruct (He Ee) as [-> ?]. now rewrite drop_nil.
Qed.

Lemma flowing_marked l done way r :
  flowing l done way -> state r = state (rx l) -> inp r = inp (rx l) -> handed r = handed (rx l) -> rx_eof r = rx_eof (rx l) ->
  (ended (rx l) = true -> ended r = true) -> (_abort_connection (rx l) = true -> _abort_connection r = true) ->
  (ended r = true -> wire l = [] /\ failed l = true) -> flowing (with_rx r l) done way.
Proof.
  intros [Hp Ho Hd Hstr Hf He] H1 H2 H3 H4 H5 H6 H7. split; cbn; rewrite ?H3, ?H4, ?H1; try done.
  unfold in_stream in *. rewrite H1, H2. destruct (state (rx l)); try done. destruct Hstr as [?|[? ?]]; auto.
Qed.

Lemma flowing_receive l done way : flowing l done way -> exists r, receiver_step (rx l) = Ok r /\
    (handed r = handed (rx l) \/ exists p m, handed r = handed (rx l) ++ [m] /\ arrives_as p m) /\
    exists done' way', flowing (with_rx r l) done' way'.
Proof.
  intros [Hp Ho Hd Hstr Hf He]. destruct (receiver_takes _ _ _ Hstr Ho Hf (fun Ee => proj1 (He Ee))) as (r' & Er & Ee & Hf' & _ & _ & Hcase).
  exists r'. split; [done|]. destruct Hcase as [[Hh Hstr']|(p & way' & m & -> & Hh & Hm & Hstr')].
  - split; [now left|]. exists done, way. split; cbn; rewrite ?Hh, ?Ee; done.
  - split; [right; eauto|]. exists (done ++ [p]), way'. apply Forall_cons in Ho as [Hpo Ho]. split; cbn; rewrite ?Hh, ?Ee; try done.
    + now rewrite <-app_assoc.
    + apply Forall2_app; [done|]. now constructor.
Qed.

Lemma link_queue_event pushed pushed' b l ev :
  link_ok pushed b l -> Forall sendable pushed' ->
  match ev with EPop => failed l = false | EResume => waiting l <> None | _ => True end ->
  (exists s, DynamicQueue.step (sender_sys b l) ev = Ok s /\ DynamicQueue.inv s pushed') ->
  exists b' l', queue_step ev b l = Ok (b', l') /\ link_ok pushed' b' l' /\
    forall s, DynamicQueue.step (sender_sys b l) ev = Ok s -> b' = queue s.
Proof.
  intros H Hs Hev (s & Es & Hi). destruct (queue_event_ok _ _ b l ev s H Es Hi Hs Hev) as (b' & l' & E & Hok & Hsys & _).
  exists b', l'. split; [done|]. split; [done|]. intros s' Es'. assert (s' = s) as -> by congruence. now rewrite <-Hsys.
Qed.

Lemma link_step_ok pushed b l ev :
  link_ok pushed b l -> Forall sendable (pushed ++ accepts ev b) ->
  exists b' l', link_step b l ev = Ok (b', l') /\ link_ok (pushed ++ accepts ev b) b' l' /\
    aborted b' = match ev with StopSender _ => true | _ => aborted b end.
Proof.
  intros H Hs. pose proof H as [Hq Hst (done & way & Hfl)].
  assert (Hrx : forall w r, (exists done' way', flowing (with_wire w (with_rx r l)) done' way') -> link_ok pushed b (with_wire w (with_rx r l)))
    by (intros w r Hx; split; [exact Hq|exact Hst|exact Hx]).
  destruct ev as [m| |e|n| | |]; cbn [accepts link_step] in *; rewrite ?app_nil_r in *.
  - destruct (inv_push _ _ m Hq) as (s & Es & Hi & Hx). cbn [sender_sys queue] in Hi, Hx.
    destruct (link_queue_event pushed (pushed ++ match _ex b with None => [m] | Some _ => [] end) b l (EPush m) H Hs I) as (b' & l' & E & Hok & Hb).
    { exists s. split; [done|]. destruct (_ex b); [now rewrite app_nil_r|done]. }
    exists b', l'. split; [done|]. split; [done|]. unfold aborted. now rewrite (Hb s Es), Hx.
  - assert (Hgo : forall ev, match ev with EPop => failed l = false | EResume => waiting l <> None | _ => False end ->
      (exists s, DynamicQueue.step (sender_sys b l) ev = Ok s /\ DynamicQueue.inv s pushed /\ _ex (queue s) = _ex b) ->
      exists b' l', queue_step ev b l = Ok (b', l') /\ link_ok pushed b' l' /\ aborted b' = aborted b).
    { intros ev Hev (s & Es & Hi & Hx). destruct (link_queue_event pushed pushed b l ev H Hs) as (b' & l' & E & Hok & Hb); [now destruct ev|eauto|].
      exists b', l'. split; [done|]. split; [done|]. unfold aborted. now rewrite (Hb s Es), Hx. }
    destruct (waiting l) eqn:Ew; [apply (Hgo EResume); [congruence|exact (inv_resume _ _ Hq)]|].
    destruct (failed l) eqn:Ef; [eauto|]. apply (Hgo EPop); [done|exact (inv_pop _ _ Hq)].
  - destruct (inv_stop _ _ e Hq) as (s & Es & Hi & Hx & _).
    destruct (link_queue_event pushed pushed b l (EStop e) H Hs I) as (b' & l' & E & Hok & Hb); [eauto|].
    exists b', l'. split; [done|]. split; [done|]. rewrite (Hb s Es). unfold aborted. now destruct (_ex (queue s)).
  - eexists _, _. split; [reflexivity|]. split; [|done]. apply Hrx. exists done, way. now apply flowing_transfer.
  - destruct (failed l && _) eqn:Ec; [|eauto]. apply andb_true_iff in Ec as [Ef Ew]. apply Nat.eqb_eq, length_zero_iff_nil in Ew.
    eexists _, _. split; [reflexivity|]. split; [|done]. apply (Hrx (wire l)). exists done, way. now apply (flowing_marked l).
  - destruct (flowing_receive l done way Hfl) as (r & -> & _ & Hr). cbn [mbind res_bind]. eexists _, _. split; [reflexivity|].
    split; [|done]. now apply (Hrx (wire l)).
  - eexists _, _. split; [reflexivity|]. split; [|done]. apply (Hrx (wire l)). exists done, way. apply (flowing_marked l); try done. apply Hfl.
Qed.

Lemma link_run_ok evs : forall pushed b l,
  link_ok pushed b l -> Forall sendable (pushed ++ accepted_pushes (aborted b) evs) ->
  exists b' l', link_run b l evs = Ok (b', l') /\ link_ok (pushed ++ accepted_pushes (aborted b) evs) b' l'.
Proof.
  induction evs as [|ev evs IH]; intros pushed b l H Hs; cbn [link_run].
  - cbn [accepted_pushes]. rewrite app_nil_r. eauto.
  - assert (Ea : accepted_pushes (aborted b) (ev :: evs) =
      accepts ev b ++ accepted_pushes (match ev with StopSender _ => true | _ => aborted b end) evs)
      by (unfold aborted; destruct ev; cbn; now destruct (_ex b)).
    rewrite Ea, app_assoc in *. destruct (link_step_ok pushed b l ev H) as (b1 & l1 & E1 & H1 & Hx); [now apply Forall_app in Hs as [? _]|].
    rewrite E1. cbn [mbind res_bind]. rewrite <-Hx in *. now apply IH.
Qed.

Lemma link_new_ok : link_ok [] (dynamic_queue_new 16) link_new.
Proof.
  split; [exact inv_new|done|]. exists [], []. split; cbn; done.
Qed.

(** ** Connections that break off

    What is on the wire when the connection breaks arrives up to some byte; what is written later
    goes nowhere, until a write fails, which ends the sender's loop by its exception; the receiver
    sees the end of the stream, or an error. *)
Record conn := mk_conn { buf : net_buffer; loops : link; broken : bool; given_up : bool (* a write failed *) }.
Definition conn_new : conn := mk_conn (dynamic_queue_new 16) link_new false false.
Inductive conn_event := On (ev : link_event) | Break (n : nat) | WriteFails | ReadFails.

Definition write_to (c : conn) (l : link) : link := if broken c then with_wire (wire (loops c)) l else l.
Definition conn_step (c : conn) (ev : conn_event) : res conn :=
  match ev with
  | On SenderRuns =>
      if given_up c then Ok c
      else '(b, l) ← link_step (buf c) (loops c) SenderRuns; Ok (mk_conn b (write_to c l) (broken c) false)
  | On CloseStream =>
      if broken c && (length (wire (loops c)) =? 0)%nat
      then Ok (mk_conn (buf c) (with_rx (peer_closed (rx (loops c))) (loops c)) true (given_up c))
      else '(b, l) ← link_step (buf c) (loops c) CloseStream; Ok (mk_conn b l (broken c) (given_up c))
  | On ev => '(b, l) ← link_step (buf c) (loops c) ev; Ok (mk_conn b (match ev with Push _ | StopSender _ => write_to c l | _ => l end) (broken c) (given_up c))
  | Break n => Ok (mk_conn (buf c) (with_wire (take n (wire (loops c))) (loops c)) true (given_up c))
  | WriteFails =>
      if negb (broken c) || given_up c then Ok c
      else '(b, l) ← link_step (buf c) (loops c) SenderRuns;
           Ok (mk_conn b (write_to c l) true (negb (length (popped l) =? length (popped (loops c)))%nat))
  | ReadFails =>
      if broken c then Ok (mk_conn (buf c) (with_rx (with_state LoopEnded (rx (loops c))) (loops c)) true (given_up c)) else Ok c
  end.
Fixpoint conn_run (c : conn) (evs : list conn_event) : res conn :=
  match evs with
  | [] => Ok c
  | ev :: evs => c ← conn_step c ev; conn_run c evs
  end.

(** The messages that were accepted into the buffer. *)
Definition on_link (ev : conn_event) : option link_event := match ev with On ev => Some ev | _ => None end.
Definition accepted (evs : list conn_event) : list Msg := accepted_pushes false (omap on_link evs).

(** The receiver is to take a frame that was cut off. *)
Definition cut_off (c : conn) : Prop :=
  exists n, broken c = true /\ state (rx (loops c)) = ReadBody n /\ ended (rx (loops c)) = true /\ Z.of_nat (length (inp (rx (loops c)))) < n.

(** The bytes that arrive are the first of the packets. *)
Definition cut_stream (r : receiver (Q := Q)) (w : bytes) (way : list item) : Prop :=
  match state r with
  | ReadLength => exists rest, inp r ++ w ++ rest = packets way
  | ReadBody n => exists p way' rest, way = p :: way' /\ n = Z.of_nat (length (item_frame p)) /\ inp r ++ w ++ rest = item_frame p ++ packets way'
  | LoopEnded => True
  end.
Record torn (l : link) (done way : list item) : Prop := {
  t_popped : popped l = (done ++ way).*1;
  t_ok : Forall item_ok way;
  t_done : Forall2 arrives_as done (handed (rx l));
  t_stream : cut_stream (rx l) (wire l) way;
  t_eof : rx_eof (rx l) = true -> state (rx l) = LoopEnded;
  t_ended : ended (rx l) = true -> wire l = []
}.

Lemma cut_flowing l done way n : flowing l done way -> torn (with_wire (take n (wire l)) l) done way.
Proof.
  intros [Hp Ho Hd Hst Hf He]. split; cbn; try done.
  - unfold in_stream, cut_stream in *. destruct (state (rx l)); [|destruct Hst as (p & way' & -> & -> & Hst); exists p, way'|done];
      exists (drop n (wire l)); rewrite take_drop; done.
  - intros Ee. destruct (He Ee) as [-> _]. apply take_nil.
Qed.

(** A proper prefix of a frame is not a frame. *)
Lemma frame_buffers_prefix bs : forall bs' x, length bs' = length bs -> frame_buffers bs = frame_buffers bs' ++ x ->
  total bs < 4294967296 -> total bs' < 4294967296 -> x = [].
Proof.
  induction bs as [|b bs IH]; intros [|b' bs'] x Hl E Ht Ht'; try done. rewrite total_cons in *. pose proof (total_nonneg bs). pose proof (total_nonneg bs').
  rewrite !frame_buffers_cons, <-!app_assoc in E. apply app_inj_1 in E as [E1 E]; [|now rewrite !enc_uint_length].
  apply (f_equal dec_uint) in E1. rewrite !dec_enc_uint, !wrap_small in E1 by (unfold in_u; change (2 ^ _) with 4294967296; lia).
  apply app_inj_1 in E as [-> E]; [|lia]. injection Hl as Hl. apply (IH bs'); [done|exact E|lia|lia].
Qed.

Lemma cut_frame p x y : item_ok p -> x ++ y = item_frame p -> y <> [] -> deserialize (Q := Q) x = Fault OutOfBounds.
Proof.
  intros Hp E Hy. pose proof (packet_length p Hp) as Hlen. destruct Hp as [Hh _ Hl]. rewrite <-E, length_app in Hlen.
  assert (Hx : Z.of_nat (length x) < 4294967296) by lia. destruct (deserialize x) as [m|f] eqn:Ed.
  2: { f_equal. now apply (deserialize_terminates (Q := Q) x). }
  exfalso. apply Hy. destruct (deserialize_sound x m Hx Ed) as (hb & h & bs & rest & q & Eq & Hhb & _).
  unfold item_frame, frame in E. rewrite Eq, <-!app_assoc in E.
  apply app_inj_1 in E as [_ E]; [|rewrite Hhb; symmetry; now apply header_bytes_length].
  apply app_inj_1 in E as [En E]; [|now rewrite !enc_uint_length].
  assert (Hbs : Z.of_nat (length bs) <= Z.of_nat (length x) /\ total bs <= Z.of_nat (length x)).
  { rewrite Eq, !length_app. pose proof (frame_buffers_length bs). pose proof (total_nonneg bs). lia. }
  pose proof (total_nonneg (snd p)).
  apply (f_equal dec_uint) in En. rewrite !dec_enc_uint, !wrap_small in En by (unfold in_u; change (2 ^ _) with 4294967296; lia).
  assert (Hz : rest ++ y = []) by (apply (frame_buffers_prefix (snd p) bs); [lia|now symmetry|lia|lia]).
  now apply app_nil in Hz as [_ ?].
Qed.

Lemma torn_length l done way : torn l done way -> state (rx l) = ReadLength ->
  exists r, receiver_step (rx l) = Ok r /\ torn (with_rx r l) done way.
Proof.
  intros [Hp Ho Hd Hst Hf He] Es. assert (Hne : rx_eof (rx l) = false) by (destruct (rx_eof (rx l)); [now specialize (Hf eq_refl); congruence|done]).
  unfold cut_stream in Hst. rewrite Es in Hst. destruct Hst as [rest Hst]. unfold receiver_step, try_read, stop_reading. rewrite Es.
  destruct (decide (4 <= length (inp (rx l)))%nat) as [H4|H4].
  - cbn [rx_eof Receiver._abort_connection]. rewrite Hne. cbn [orb]. destruct (_abort_connection (rx l)); [eexists; split; [reflexivity|]; now split|].
    destruct way as [|p way]; [apply (f_equal length) in Hst; cbn in Hst; rewrite !length_app in Hst; lia|].
    apply Forall_cons in Ho as [Hpo Ho]. rewrite packets_cons in Hst. pose proof (item_frame_small p Hpo) as [_ Hlt].
    apply (split_app 4) in Hst as [-> Hin]; [|apply enc_uint_length|done].
    replace (load_unaligned_int 4 (enc_uint 4 _) 0) with (Ok (Z.of_nat (length (item_frame p)))).
    2: { symmetry. rewrite <-(app_nil_r (enc_uint 4 _)). apply (load_mid 4 []); [done|]. unfold in_u. change (2 ^ _) with 4294967296. lia. }
    cbn [mbind res_bind]. eexists. split; [reflexivity|]. split; try done; try (now constructor); try (cbn; congruence). unfold cut_stream. cbn. exists p, way, rest. done.
  - destruct (ended (rx l)) eqn:Ee; [eexists; split; [reflexivity|]; now split|]. eexists. split; [reflexivity|].
    split; cbn; try done; try congruence. unfold cut_stream. rewrite Es. eauto.
Qed.

Lemma torn_body l done way n : torn l done way -> state (rx l) = ReadBody n ->
  match receiver_step (rx l) with
  | Ok r => exists done' way', torn (with_rx r l) done' way'
  | Fault f => f = OutOfBounds /\ ended (rx l) = true /\ Z.of_nat (length (inp (rx l))) < n
  end.
Proof.
  intros [Hp Ho Hd Hst Hf He] Es. assert (Hne : rx_eof (rx l) = false) by (destruct (rx_eof (rx l)); [now specialize (Hf eq_refl); congruence|done]).
  unfold cut_stream in Hst. rewrite Es in Hst. destruct Hst as (p & way' & rest & -> & -> & Hst).
  unfold receiver_step, try_read, stop_reading. rewrite Es, Nat2Z.id. pose proof Ho as [Hpo How]%Forall_cons.
  destruct (decide (length (item_frame p) <= length (inp (rx l)))%nat) as [Hn|Hn].
  - apply (split_app (length (item_frame p))) in Hst as [-> Hin]; [|done..].
    destruct (item_frame_deserialize p Hpo) as (m & Em & Hm). rewrite Em. cbn [mbind res_bind rx_eof Receiver._abort_connection hand with_state]. rewrite Hne. cbn [orb].
    exists (done ++ [p]), way'. split; cbn; try done; try congruence; [now rewrite Hp, <-app_assoc|apply Forall2_app; [done|now constructor]|].
    unfold cut_stream. cbn. destruct (_abort_connection (rx l)); [done|]. eauto.
  - destruct (ended (rx l)) eqn:Ee.
    + rewrite (He eq_refl) in Hst. cbn [app] in Hst.
      assert (Hx : exists y, inp (rx l) ++ y = item_frame p /\ y <> []).
      { exists (drop (length (inp (rx l))) (item_frame p)). split; [|intros Hy; apply (f_equal length) in Hy; rewrite length_drop in Hy; cbn [length] in Hy; lia].
        rewrite <-(take_drop (length (inp (rx l))) (item_frame p)) at 2. f_equal.
        apply (f_equal (take (length (inp (rx l))))) in Hst. rewrite take_app_length, take_app_le in Hst by lia. exact Hst. }
      destruct Hx as (y & Hy & Hne'). rewrite (cut_frame p _ y Hpo Hy Hne'). cbn [mbind res_bind]. split; [done|]. split; [done|lia].
    + exists done, (p :: way'). split; try done; try (cbn; congruence). unfold cut_stream. cbn. rewrite Es. exists p, way', rest. done.
Qed.

Lemma torn_receive l done way : torn l done way ->
  match receiver_step (rx l) with
  | Ok r => exists done' way', torn (with_rx r l) done' way'
  | Fault f => f = OutOfBounds /\ exists n, state (rx l) = ReadBody n /\ ended (rx l) = true /\ Z.of_nat (length (inp (rx l))) < n
  end.
Proof.
  intros H. destruct (state (rx l)) as [|n|] eqn:Es.
  - destruct (torn_length l done way H Es) as (r & -> & Hr). eauto.
  - pose proof (torn_body l done way n H Es) as Hb. destruct (receiver_step (rx l)); [done|]. destruct Hb as (-> & ? & ?). eauto.
  - unfold receiver_step. rewrite Es. exists done, way. destruct H. now split.
Qed.

(** The sender and the buffer of a broken connection. *)
Lemma torn_queue pushed pushed' b l done way ev s w :
  DynamicQueue.inv (sender_sys b l) pushed -> (failed l = true -> waiting l = None) -> torn l done way -> w = wire l ->
  DynamicQueue.step (sender_sys b l) ev = Ok s -> DynamicQueue.inv s pushed' -> Forall sendable pushed' ->
  match ev with EPop => failed l = false | EResume => waiting l <> None | _ => True end ->
  exists l', queue_step ev b l = Ok (queue s, l') /\ DynamicQueue.inv (sender_sys (queue s) l') pushed' /\ (failed l' = true -> waiting l' = None) /\
    exists way', torn (with_wire w l') done way'.
Proof.
  intros Hq Hst [Hp Ho Hd Hstr Hf He] -> Es Hi Hs Hev. destruct (queue_event_pops _ _ _ Es Hst) as ((ms & Hms & _) & H2 & H3 & H4).
  cbn [sender_sys delivered DynamicQueue.failed DynamicQueue.waiting] in *.
  assert (Hsend : Forall sendable ms).
  { pose proof (i_items _ _ Hi) as Eq. rewrite Hms in Eq. subst pushed'. apply Forall_app in Hs as [Hs _]. now apply Forall_app in Hs as [_ Hs]. }
  destruct (sendable_items ms Hsend) as (ps & <- & Hps). unfold queue_step. rewrite Es. cbn [mbind res_bind].
  rewrite Hms, drop_app_length, write_out_spec by done. cbn [mbind res_bind]. eexists. split; [reflexivity|].
  split; [unfold sender_sys; cbn; rewrite <-Hms; now destruct s|]. split.
  { cbn. intros Hx. destruct (H3 Hx) as [Hx'|?]; [|done]. destruct ev; try congruence; try (destruct H4 as (_ & -> & _); auto).
    now rewrite (Hst Hx') in Hev. }
  exists (way ++ ps). split; cbn; try done.
  - rewrite Hp, !fmap_app, <-app_assoc. done.
  - now apply Forall_app.
  - unfold cut_stream in *. destruct (state (rx l)); [destruct Hstr as [rest Hr]|destruct Hstr as (p & way' & rest & -> & Hn & Hr)|done].
    + exists (rest ++ packets ps). rewrite packets_app, <-Hr, <-!app_assoc. done.
    + exists p, (way' ++ ps), (rest ++ packets ps). split; [done|]. split; [done|]. rewrite packets_app, !app_assoc, <-Hr, <-!app_assoc. done.
Qed.

Definition stops (ev : link_event) (b : net_buffer) : bool := match ev with StopSender _ => true | _ => aborted b end.
Lemma torn_events pushed b l done way ev :
  DynamicQueue.inv (sender_sys b l) pushed -> (failed l = true -> waiting l = None) -> torn l done way -> Forall sendable (pushed ++ accepts ev b) ->
  match ev with Push _ | SenderRuns | StopSender _ => True | _ => False end ->
  exists b' l', link_step b l ev = Ok (b', l') /\ DynamicQueue.inv (sender_sys b' l') (pushed ++ accepts ev b) /\ (failed l' = true -> waiting l' = None) /\
    (exists way', torn (with_wire (wire l) l') done way') /\ aborted b' = stops ev b.
Proof.
  intros Hq Hst Ht Hs Hev.
  assert (Hgo : forall dev, match dev with EPop => failed l = false | EResume => waiting l <> None | _ => True end ->
    (exists s, DynamicQueue.step (sender_sys b l) dev = Ok s /\ DynamicQueue.inv s (pushed ++ accepts ev b) /\ aborted (queue s) = stops ev b) ->
    exists b' l', queue_step dev b l = Ok (b', l') /\ DynamicQueue.inv (sender_sys b' l') (pushed ++ accepts ev b) /\ (failed l' = true -> waiting l' = None) /\
      (exists way', torn (with_wire (wire l) l') done way') /\ aborted b' = stops ev b).
  { intros dev Hd (s & Es & Hi & Hx). destruct (torn_queue pushed _ b l done way dev s (wire l) Hq Hst Ht eq_refl Es Hi Hs Hd) as (l' & E & H1 & H2 & H3).
    exists (queue s), l'. auto. }
  destruct ev as [m| |e| | | |]; try done; cbn [link_step accepts stops] in *; rewrite ?app_nil_r in *.
  - apply (Hgo (EPush m) I). destruct (inv_push _ _ m Hq) as (s & Es & Hi & Hx). exists s. cbn [sender_sys queue] in Hi, Hx. unfold aborted. rewrite Hx.
    destruct (_ex b); [rewrite app_nil_r|]; done.
  - destruct (waiting l) eqn:Ew.
    + apply (Hgo EResume); [congruence|]. destruct (inv_resume _ _ Hq) as (s & Es & Hi & Hx). exists s. unfold aborted. now rewrite Hx.
    + destruct (failed l) eqn:Ef.
      * exists b, l. split; [done|]. split; [done|]. split; [congruence|]. split; [|done]. exists way. destruct Ht. now split.
      * apply (Hgo EPop); [done|]. destruct (inv_pop _ _ Hq) as (s & Es & Hi & Hx). exists s. unfold aborted. now rewrite Hx.
  - apply (Hgo (EStop e) I). destruct (inv_stop _ _ e Hq) as (s & Es & Hi & Hx & _). exists s. split; [done|]. split; [done|]. unfold aborted. now destruct (_ex (queue s)).
Qed.

Record conn_ok (pushed : list Msg) (c : conn) : Prop := {
  k_queue : DynamicQueue.inv (sender_sys (buf c) (loops c)) pushed;
  k_stopped : failed (loops c) = true -> waiting (loops c) = None;
  k_flow : if broken c then exists done way, torn (loops c) done way else given_up c = false /\ exists done way, flowing (loops c) done way
}.

Definition conn_accepts (ev : conn_event) (c : conn) : list Msg := match ev with On ev => accepts ev (buf c) | _ => [] end.
Definition conn_stops (ev : conn_event) (c : conn) : bool := match ev with On ev => stops ev (buf c) | _ => aborted (buf c) end.

Lemma whole_step c ev : broken c = false -> given_up c = false ->
  conn_step c (On ev) = '(b, l) ← link_step (buf c) (loops c) ev; Ok (mk_conn b l false false).
Proof. intros Hb Hg. unfold conn_step, write_to. rewrite Hb, Hg. now destruct ev. Qed.

Lemma whole_step_ok pushed c ev : conn_ok pushed c -> broken c = false -> Forall sendable (pushed ++ accepts ev (buf c)) ->
  exists c', conn_step c (On ev) = Ok c' /\ conn_ok (pushed ++ accepts ev (buf c)) c' /\ aborted (buf c') = stops ev (buf c).
Proof.
  intros [Hq Hst Hf] Hb Hs. rewrite Hb in Hf. destruct Hf as [Hg Hf]. rewrite whole_step by done.
  destruct (link_step_ok pushed (buf c) (loops c) ev) as (b & l & -> & [H1 H2 H3] & Hx); [now split|done|]. cbn [mbind res_bind].
  eexists. split; [reflexivity|]. split; [|done]. split; [exact H1|exact H2|]. cbn. split; [done|exact H3].
Qed.

Lemma broken_step_ok pushed c ev : conn_ok pushed c -> broken c = true -> Forall sendable (pushed ++ accepts ev (buf c)) ->
  match conn_step c (On ev) with
  | Ok c' => conn_ok (pushed ++ accepts ev (buf c)) c' /\ aborted (buf c') = stops ev (buf c)
  | Fault f => f = OutOfBounds /\ ev = ReceiverRuns /\ cut_off c
  end.
Proof.
  intros [Hq Hst Hf] Hb Hs. rewrite Hb in Hf. destruct Hf as (done & way & Ht).
  assert (Hqueue : match ev with Push _ | SenderRuns | StopSender _ => True | _ => False end -> forall g,
    match '(b, l) ← link_step (buf c) (loops c) ev; Ok (mk_conn b (with_wire (wire (loops c)) l) true g) with
    | Ok c' => conn_ok (pushed ++ accepts ev (buf c)) c' /\ aborted (buf c') = stops ev (buf c) | Fault f => f = OutOfBounds /\ ev = ReceiverRuns /\ cut_off c end).
  { intros Hev g. destruct (torn_events pushed (buf c) (loops c) done way ev Hq Hst Ht Hs Hev) as (b & l & -> & H1 & H2 & (way' & H3) & H4).
    cbn [mbind res_bind]. split; [|exact H4]. split; [exact H1|exact H2|]. cbn. eauto. }
  assert (Hrx : forall done' way' w r g, torn (with_wire w (with_rx r (loops c))) done' way' -> conn_ok pushed (mk_conn (buf c) (with_wire w (with_rx r (loops c))) true g)).
  { intros done' way' w r g H. split; [exact Hq|exact Hst|]. cbn. eauto. }
  unfold conn_step, write_to. rewrite Hb. destruct ev as [m| |e|n| | |]; cbn [accepts stops] in *; rewrite ?app_nil_r in *.
  - now apply Hqueue.
  - destruct (given_up c); [|now apply Hqueue]. split; [|done]. split; [done|done|]. rewrite Hb. eauto.
  - now apply Hqueue.
  - cbn [link_step mbind res_bind]. split; [|done]. apply (Hrx done way). destruct Ht as [Hp Ho Hd Hstr Hfe He]. unfold arrive. destruct (ended (rx (loops c))) eqn:Ee.
    + split; cbn; try done; [|intros _; rewrite (He eq_refl); apply drop_nil]. rewrite (He eq_refl), drop_nil. now rewrite (He eq_refl) in Hstr.
    + split; cbn [popped rx wire with_wire with_rx handed rx_eof state ended]; try done. unfold cut_stream in *. cbn [state inp]. destruct (state (rx (loops c))); [destruct Hstr as [rest Hr]|destruct Hstr as (p & way' & rest & E1 & E2 & Hr)|done].
      * exists rest. rewrite <-Hr, <-app_assoc. f_equal. now rewrite app_assoc, take_drop.
      * exists p, way', rest. split; [done|]. split; [done|]. rewrite <-Hr, <-app_assoc. f_equal. now rewrite app_assoc, take_drop.
  - destruct (Nat.eqb_spec (length (wire (loops c))) 0) as [Ew|Ew]; cbn [andb].
    + apply length_zero_iff_nil in Ew. split; [|done]. apply (Hrx done way (wire (loops c))). destruct Ht as [Hp Ho Hd Hstr Hfe He]. now split.
    + cbn [link_step]. rewrite (proj2 (Nat.eqb_neq _ 0)), andb_false_r by done. cbn [mbind res_bind]. split; [|done]. split; [done|done|]. cbn. eauto.
  - cbn [link_step]. pose proof (torn_receive _ _ _ Ht) as H. destruct (receiver_step (rx (loops c))) as [r|f]; cbn [mbind res_bind].
    + split; [|done]. destruct H as (done' & way' & H). now apply (Hrx done' way' (wire (loops c))).
    + destruct H as (-> & n & H1 & H2 & H3). split; [done|]. split; [done|]. exists n. done.
  - cbn [link_step mbind res_bind]. split; [|done]. apply (Hrx done way (wire (loops c))). destruct Ht as [Hp Ho Hd Hstr Hfe He]. now split.
Qed.

Lemma conn_step_ok pushed c ev : conn_ok pushed c -> Forall sendable (pushed ++ conn_accepts ev c) ->
  match conn_step c ev with
  | Ok c' => conn_ok (pushed ++ conn_accepts ev c) c' /\ aborted (buf c') = conn_stops ev c
  | Fault f => f = OutOfBounds /\ ev = On ReceiverRuns /\ cut_off c
  end.
Proof.
  intros Hc Hs. destruct ev as [ev|n| |]; cbn [conn_accepts conn_stops] in *; rewrite ?app_nil_r in *.
  - destruct (broken c) eqn:Hb.
    + pose proof (broken_step_ok pushed c ev Hc Hb Hs) as H. destruct (conn_step c (On ev)); [done|]. destruct H as (-> & -> & ?). done.
    + destruct (whole_step_ok pushed c ev Hc Hb Hs) as (c' & -> & H). done.
  - destruct Hc as [Hq Hst Hf]. cbn [conn_step]. split; [|done]. split; [exact Hq|exact Hst|]. cbn. destruct (broken c); destruct Hf as (d & way & Hf).
    + exists d, way. destruct Hf as [Hp Ho Hd Hstr Hfe He]. split; cbn [popped rx wire with_wire with_rx]; try done; [|intros Ee; rewrite (He Ee); apply take_nil].
      unfold cut_stream in *. destruct (state (rx (loops c))); [destruct Hstr as [rest Hr]; exists (drop n (wire (loops c)) ++ rest)|
        destruct Hstr as (p & way' & rest & E1 & E2 & Hr); exists p, way', (drop n (wire (loops c)) ++ rest); split; [done|]; split; [done|]|done];
        rewrite (app_assoc (take n _)), take_drop; exact Hr.
    + destruct Hf as [way' Hf]. exists way, way'. now apply cut_flowing.
  - cbn [conn_step]. destruct (broken c) eqn:Hb; cbn [negb orb]; [|done]. destruct (given_up c); [done|]. destruct Hc as [Hq Hst Hf]. rewrite Hb in Hf. destruct Hf as (d & way & Hf).
    destruct (torn_events pushed (buf c) (loops c) d way SenderRuns Hq Hst Hf) as (b & l & -> & H1 & H2 & (way' & H3) & H4); [now rewrite app_nil_r|done|].
    cbn [mbind res_bind]. split; [|exact H4]. unfold write_to. rewrite Hb. cbn [accepts] in H1. rewrite app_nil_r in H1. split; [exact H1|exact H2|]. cbn. eauto.
  - cbn [conn_step]. destruct (broken c) eqn:Hb; [|done]. split; [|done]. destruct Hc as [Hq Hst Hf]. rewrite Hb in Hf. destruct Hf as (d & way & [Hp Ho Hd Hstr Hfe He]).
    split; [exact Hq|exact Hst|]. cbn. exists d, way. now split.
Qed.

Lemma conn_run_ok evs : forall pushed c,
  conn_ok pushed c -> Forall sendable (pushed ++ accepted_pushes (aborted (buf c)) (omap on_link evs)) ->
  match conn_run c evs with
  | Ok c' => conn_ok (pushed ++ accepted_pushes (aborted (buf c)) (omap on_link evs)) c'
  | Fault f => f = OutOfBounds /\ exists pre post c', evs = pre ++ On ReceiverRuns :: post /\ conn_run c pre = Ok c' /\ cut_off c'
  end.
Proof.
  induction evs as [|ev evs IH]; intros pushed c H Hs; cbn [conn_run].
  - cbn [omap list_omap accepted_pushes]. now rewrite app_nil_r.
  - assert (Ea : accepted_pushes (aborted (buf c)) (omap on_link (ev :: evs)) = conn_accepts ev c ++ accepted_pushes (conn_stops ev c) (omap on_link evs)).
    { destruct ev as [ev|n| |]; [|done..]. unfold aborted. destruct ev; cbn; unfold aborted; now destruct (_ex (buf c)). }
    rewrite Ea, app_assoc in *. pose proof (conn_step_ok pushed c ev H ltac:(now apply Forall_app in Hs as [? _])) as Hstep.
    destruct (conn_step c ev) as [c1|f] eqn:E; cbn [mbind res_bind].
    + destruct Hstep as [H1 Hx]. rewrite <-Hx in *. specialize (IH _ c1 H1 Hs). destruct (conn_run c1 evs) as [c2|f]; [exact IH|].
      destruct IH as (-> & pre & post & c2 & -> & Hr & Hc). split; [done|]. exists (ev :: pre), post, c2. cbn [conn_run]. rewrite E. done.
    + destruct Hstep as (-> & -> & Hc). split; [done|]. exists [], evs, c. done.
Qed.


(** ** Everything arrives *)
Definition open (b : net_buffer) (l : link) : Prop := _ex b = None /\ failed l = false /\ _abort_connection (rx l) = false /\ ended (rx l) = false.
Definition keeps_open (ev : link_event) : bool := match ev with StopSender _ | StopReceiver => false | _ => true end.

Lemma sender_pops pushed b l :
  link_ok pushed b l -> Forall sendable pushed -> _ex b = None -> failed l = false ->
  exists b' l', link_step b l SenderRuns = Ok (b', l') /\ link_ok pushed b' l' /\ _ex b' = None /\ failed l' = false /\
    rx l' = rx l /\ _q b' = tail (_q b).
Proof.
  intros H Hs Hx Hf. pose proof H as [Hq _ _]. cbn [link_step]. rewrite Hf.
  destruct (consumer_pops _ _ Hq Hx) as (s & Es & Hi & Hsx & Hsf & Hsq). cbn [sender_sys DynamicQueue.waiting] in Es.
  set (ev := match waiting l with Some _ => EResume | None => EPop end) in *.
  destruct (queue_event_ok pushed pushed b l ev s H Es Hi Hs) as (b' & l' & E & Hok & Hsys & Hr & _); [unfold ev; now destruct (waiting l)|].
  exists b', l'. rewrite <-Hsys in Hsx, Hsf, Hsq. cbn in Hsx, Hsf, Hsq. rewrite Hf in Hsf.
  assert (E2 : match waiting l with Some _ => queue_step EResume b l | None => queue_step EPop b l end = Ok (b', l')) by (revert E; unfold ev; now destruct (waiting l)).
  rewrite E2. auto 8.
Qed.

Lemma senders_drain pushed k : forall b l,
  link_ok pushed b l -> Forall sendable pushed -> _ex b = None -> failed l = false -> (length (_q b) <= k)%nat ->
  exists b' l', link_run b l (replicate k SenderRuns) = Ok (b', l') /\ link_ok pushed b' l' /\ _ex b' = None /\ failed l' = false /\
    rx l' = rx l /\ _q b' = [].
Proof.
  induction k as [|k IH]; intros b l H Hs Hx Hf Hk; cbn [replicate link_run].
  - exists b, l. destruct (_q b); [done|cbn in Hk; lia].
  - destruct (sender_pops pushed b l H Hs Hx Hf) as (b1 & l1 & -> & H1 & Hx1 & Hf1 & Hr1 & Hq1). cbn [mbind res_bind].
    destruct (IH b1 l1 H1 Hs Hx1 Hf1) as (b2 & l2 & E2 & H2 & Hx2 & Hf2 & Hr2 & Hq2); [rewrite Hq1; destruct (_q b); cbn in *; lia|].
    exists b2, l2. rewrite Hr2, Hr1. done.
Qed.

Lemma receivers_drain k : forall (b : net_buffer) l done way,
  flowing l done way -> wire l = [] -> _abort_connection (rx l) = false -> ended (rx l) = false -> (work_left (rx l) <= k)%nat ->
  exists l' done', link_run b l (replicate k ReceiverRuns) = Ok (b, l') /\ flowing l' done' [] /\ popped l' = popped l.
Proof.
  induction k as [|k IH]; intros b l done way Hfl Hw Ha He Hk; cbn [replicate link_run].
  - exists l, done. pose proof (f_stream _ _ _ Hfl) as Hst. unfold in_stream, work_left in *. destruct (state (rx l)); [lia..|].
    destruct Hst as [?|[? _]]; congruence.
  - cbn [link_step]. pose proof Hfl as [Hp Ho Hd Hst Hf Hen].
    destruct (receiver_takes _ _ _ Hst Ho Hf (fun Ee => proj1 (Hen Ee))) as (r' & Er & Ee & Hf' & Ha' & Hwork & Hcase). rewrite Er. cbn [mbind res_bind].
    assert (Hns : state (rx l) <> LoopEnded) by (intros E; unfold in_stream in Hst; rewrite E in Hst; destruct Hst as [?|[? _]]; congruence).
    assert (Hnext : forall done' way', flowing (with_rx r' l) done' way' -> (work_left r' <= k)%nat ->
      exists l' done', link_run b (with_rx r' l) (replicate k ReceiverRuns) = Ok (b, l') /\ flowing l' done' [] /\ popped l' = popped l).
    { intros done' way' H1 H2. apply (IH b (with_rx r' l) done' way' H1); cbn; congruence || done. }
    destruct Hcase as [[Hh Hst']|(p & way' & m & -> & Hh & Hm & Hst')].
    + destruct way as [|p way].
      * assert (Hin : state (rx l) = ReadLength /\ inp (rx l) = []).
        { unfold in_stream in Hst. rewrite Hw, app_nil_r in Hst. destruct (state (rx l)); [done| |done]. destruct Hst as (? & ? & ? & _). done. }
        destruct Hin as [Hs1 Hi1]. assert (r' = rx l) as -> by (unfold receiver_step, try_read in Er; rewrite Hs1, Hi1, He, decide_False in Er by (cbn; lia); congruence).
        clear Hnext IH Hwork. exists l, done. split; [|done]. clear -Er. destruct l as [? ? ? ? ? r]. cbn in *.
        induction k as [|k IH]; cbn [replicate link_run]; [done|]. cbn [link_step rx with_rx]. rewrite Er. exact IH.
      * apply (Hnext done (p :: way)); [split; cbn; rewrite ?Hh, ?Ee; done|]. specialize (Hwork Hw ltac:(done) Hns). lia.
    + apply Forall_cons in Ho as [Hpo Ho]. apply (Hnext (done ++ [p]) way'); [|specialize (Hwork Hw ltac:(done) Hns); lia].
      split; cbn; rewrite ?Hh, ?Ee; try done; [now rewrite <-app_assoc|]. apply Forall2_app; [done|]. now constructor.
Qed.

Lemma keeps_open_run evs : forall b l b' l' pushed, link_run b l evs = Ok (b', l') -> link_ok pushed b l ->
  Forall sendable (pushed ++ accepted_pushes (aborted b) evs) -> forallb keeps_open evs = true -> open b l -> open b' l'.
Proof.
  induction evs as [|ev evs IH]; intros b l b' l' pushed H Hok Hs Hk Ho; cbn [link_run] in H; [now simplify_eq|].
  cbn [forallb] in Hk. apply andb_true_iff in Hk as [Hev Hk]. destruct Ho as (Hx & Hf & Ha & He).
  assert (Ea : accepted_pushes (aborted b) (ev :: evs) = accepts ev b ++ accepted_pushes false evs)
    by (unfold aborted, accepts; rewrite Hx; now destruct ev).
  rewrite Ea, app_assoc in Hs. pose proof Hs as [Hs1 _]%Forall_app.
  destruct (link_step_ok pushed b l ev Hok Hs1) as (b1 & l1 & E1 & Hok1 & Hx1). rewrite E1 in H. cbn [mbind res_bind] in H.
  assert (Hab : aborted b1 = false) by (rewrite Hx1; unfold aborted; rewrite Hx; now destruct ev).
  rewrite <-Hab in Hs. apply (IH b1 l1 b' l' _ H Hok1 Hs Hk). split; [unfold aborted in Hab; now destruct (_ex b1)|].
  destruct ev as [m| |e|n| | |]; try done.
  - cbn [link_step] in E1. unfold queue_step in E1. cbn [DynamicQueue.step mbind res_bind] in E1. res_inv. simplify_eq. done.
  - destruct (sender_pops pushed b l Hok) as (b2 & l2 & E2 & _ & _ & Hf2 & Hr2 & _); [now apply Forall_app in Hs1 as [? _]|done..|].
    rewrite E2 in E1. simplify_eq. rewrite Hr2. done.
  - cbn [link_step] in E1. simplify_eq. unfold arrive. cbn. rewrite He. done.
  - cbn [link_step] in E1. rewrite Hf in E1. cbn in E1. simplify_eq. done.
  - cbn [link_step] in E1. res_inv. simplify_eq. cbn. split; [done|].
    destruct Hok as [_ _ (done & way & [Hp Hoo Hd Hst Hff Hen])].
    destruct (receiver_takes _ _ _ Hst Hoo Hff (fun Ee => proj1 (Hen Ee))) as (r' & Er & Ee & _ & Ha' & _).
    assert (r' = x) as -> by congruence. split; congruence.
Qed.

(** C19: As long as neither end is stopped, everything that was accepted can still arrive: from any
    such state, the loops and the network only have to run on, and then the other machine has
    been handed every message, in order, each as it was sent. *)
Theorem link_delivers evs :
  Forall sendable (accepted_pushes false evs) -> forallb keeps_open evs = true ->
  exists k n m b l sent, 
    link_run (dynamic_queue_new 16) link_new (evs ++ replicate k SenderRuns ++ Transfer n :: replicate m ReceiverRuns) = Ok (b, l) /\
    sent.*1 = accepted_pushes false evs /\ Forall2 arrives_as sent (handed (rx l)).
Proof.
  intros Hs Hk. assert (Happ : forall evs1 evs2 b l, link_run b l (evs1 ++ evs2) = '(b, l) ← link_run b l evs1; link_run b l evs2).
  { clear. induction evs1 as [|ev evs1 IH]; intros evs2 b l; cbn [app link_run]; [done|].
    destruct (link_step b l ev) as [[b1 l1]|]; cbn [mbind res_bind]; [apply IH|done]. }
  destruct (link_run_ok evs [] _ _ link_new_ok Hs) as (b0 & l0 & E0 & H0). cbn [app aborted dynamic_queue_new _ex] in H0.
  destruct (keeps_open_run evs _ _ b0 l0 [] E0 link_new_ok Hs Hk) as (Hx0 & Hf0 & Ha0 & He0); [done|].
  destruct (senders_drain _ (length (_q b0)) b0 l0 H0 Hs Hx0 Hf0) as (b1 & l1 & E1 & H1 & Hx1 & Hf1 & Hr1 & Hq1); [lia|].
  destruct (link_step_ok _ b1 l1 (Transfer (length (wire l1))) H1) as (b2 & l2 & E2 & [Hq2 Hst2 (done & way & Hfl2)] & _); [cbn; now rewrite app_nil_r|].
  cbn [link_step] in E2. injection E2 as <- <-. cbn [accepts] in Hq2. rewrite app_nil_r in Hq2.
  set (l2 := with_wire _ _) in *.
  assert (Hl2 : wire l2 = [] /\ _abort_connection (rx l2) = false /\ ended (rx l2) = false).
  { unfold l2, arrive. cbn. rewrite Hr1, He0. cbn. now rewrite drop_all. }
  destruct Hl2 as (Hw2 & Ha2 & He2).
  destruct (receivers_drain (work_left (rx l2)) b1 l2 done way Hfl2 Hw2 Ha2 He2) as (l3 & done3 & E3 & Hfl3 & Hp3); [lia|].
  exists (length (_q b0)), (length (wire l1)), (work_left (rx l2)), b1, l3, done3.
  split; [|split; [|apply Hfl3]].
  - rewrite Happ, E0. cbn [mbind res_bind]. rewrite Happ, E1. cbn [mbind res_bind link_run link_step]. exact E3.
  - pose proof (f_popped _ _ _ Hfl3) as Hp. rewrite app_nil_r in Hp. rewrite <-Hp, Hp3. rewrite (inv_pushed _ _ _ Hq2), Hq1, app_nil_r.
    pose proof (i_deleted _ _ Hq2 Hx1) as Hd. cbn [sender_sys DynamicQueue.deleted] in Hd. now rewrite Hd, app_nil_r.
Qed.
End Link.

(** ** Concrete runs *)
Module LinkExamples.
Import SerializablePrimitive.
Abbreviation M := (actor_message (list tmpbuf)).
Definition empty_msg : M := mk_msg sample_header NoPayload.
Definition int_msg : M := mk_msg sample_header (Payload _ _ (SerializablePrimitive.mk_Integer 7)).
Definition pad (_ : M) : padding := sample_padding.

Lemma empty_sendable : sendable (fun m : M => m) empty_msg.
Proof. exists []. split; [exact sample_header_ok|done|done]. Qed.
Lemma int_sendable : sendable (fun m : M => m) int_msg.
Proof.
  exists [enc_uint 4 7]. split; [exact sample_header_ok| |done].
  intros q s n Hr Hn. destruct (dump_to_bufs (SerializablePrimitive.mk_Integer 7) q s n) as (q' & E & H);
    [cbn; unfold SerializablePrimitive.int_valid; cbn; lia|exact Hr|exact Hn|]. exists q'. split; [exact E|exact H].
Qed.

(** The sender waits before the first message comes, the packets are cut inside a length and inside a header. *)
Definition sample_evs : list (link_event (Msg := M) (Ex := unit)) :=
  [SenderRuns; Push int_msg; Push empty_msg; SenderRuns; Transfer 3; ReceiverRuns; Transfer 40; ReceiverRuns;
   SenderRuns; Transfer 100; ReceiverRuns; Push empty_msg].

Lemma sample_evs_sendable : Forall (sendable (fun m : M => m)) (accepted_pushes false sample_evs).
Proof. cbn. repeat constructor; (exact int_sendable || exact empty_sendable). Qed.

(** The connection breaks inside the second packet; the next write fails, the receiver hands over the first message
    and then reads past the end of the second. *)
Definition sample_conn : list (conn_event (Msg := M) (Ex := unit)) :=
  (On <$> sample_evs) ++ [Break 10; WriteFails; On (Transfer 100); On CloseStream].
Lemma sample_accepted k : accepted (sample_conn ++ replicate k (On ReceiverRuns)) = [int_msg; empty_msg; empty_msg].
Proof.
  unfold accepted. rewrite omap_app. replace (omap on_link sample_conn) with (sample_evs ++ [Transfer 100; CloseStream]) by reflexivity.
  induction k as [|k IH]; [reflexivity|exact IH].
Qed.
Lemma sample_conn_sendable k : Forall (sendable (fun m : M => m)) (accepted (sample_conn ++ replicate k (On ReceiverRuns))).
Proof. rewrite sample_accepted. repeat constructor; (exact int_sendable || exact empty_sendable). Qed.

Lemma link_delivers_witness :
  exists k n m b l sent,
    link_run (fun m : M => m) pad (dynamic_queue_new 16) link_new (sample_evs ++ replicate k SenderRuns ++ Transfer n :: replicate m ReceiverRuns) = Ok (b, l) /\
    sent.*1 = [int_msg; empty_msg; empty_msg] /\ Forall2 (arrives_as (fun m : M => m)) sent (handed (rx l)).
Proof. exact (link_delivers (fun m : M => m) pad sample_evs sample_evs_sendable eq_refl). Defined.

Example sample_handed :
  (fun p => (length (handed (rx (snd p))), length (wire (snd p)), length (_q (fst p)))) <$>
    link_run (fun m : M => m) pad (dynamic_queue_new 16) link_new sample_evs = Ok (1%nat, 17%nat, 1%nat).
Proof. vm_compute. reflexivity. Qed.

End LinkExamples.
