(* ===== verification/NetworkConfig.v ===== *)
(** * Cluster configuration

    [load_worker_node_list] and [actor_app::set_network_config]
    (src/src/core/actor-app.cc), [network_config]
    (src/include/hiactor/net/network_config.hh) and [machine_info]
    (src/include/hiactor/util/machine_info.hh): every machine reads the same list of
    worker nodes and derives from it its place in the numbering of global shards, which
    machines it connects to and how many connections it waits for. *)
From S2P Require Import Prelude.

(** A [seastar::socket_address], as far as the code looks at it. *)
Record socket_address := mk_addr { sin_addr : Z; port : Z }.
Record worker_node_info := mk_node { machine_id : Z; nr_cores : Z; addr : socket_address }.

#[export] Instance socket_address_eq_dec : EqDecision socket_address.
Proof. solve_decision. Defined.

(** ** load_worker_node_list

    The rows of the file, after its first line, were appended to [configs]. *)
Inductive config_error := WrongMachineId | IncorrectCores | IdsNotRange | ZeroTimeout | NoMachineId.

Fixpoint ids_are_range (i : Z) (configs : list worker_node_info) : bool :=
  match configs with
  | [] => true
  | c :: configs => (machine_id c =? i) && ids_are_range (u32 (i + 1)) configs
  end.

Definition load_worker_node_list (rows configs : list worker_node_info) (this_mid local_shard_count : Z)
    : (list worker_node_info) + config_error :=
  let configs := configs ++ rows in
  match configs !! Z.to_nat this_mid with
  | None => inr WrongMachineId
  | Some c =>
      if negb (local_shard_count =? nr_cores c) then inr IncorrectCores
      else if negb (ids_are_range 0 configs) then inr IdsNotRange
      else inl configs
  end.

(** ** set_network_config *)
Record network_config := mk_config {
  _p2p_conn_count : Z;
  _wait_conn_count : Z;
  _machine_id : Z;
  _num_machines : Z;
  _listen_port : Z;
  _addr_lsid_map : gmap Z Z;
  _server_lists : list (list (socket_address * Z));
  _node_list : list worker_node_info
}.

Definition network_config_default (configs : list worker_node_info) : network_config :=
  mk_config 1 0 0 1 0 ∅ [] configs.

(** [machine_info]'s static members. *)
Record machine_info := mk_info { _num_shards : Z; _sid_anchor : Z; _min_sid : Z; _max_sid : Z }.

(** The loop's variables. *)
Record loop_state := mk_loop {
  l_wait : Z;
  l_map : gmap Z Z;
  l_lists : list (list (socket_address * Z));
  l_num : Z;
  l_anchor : Z;
  l_dst : Z
}.

Definition modulo (a b : Z) : res Z := if b =? 0 then Fault DivByZero else Ok (a mod b).

(** [_server_lists[dst_shard].push_back(...)], [p2p_conn_count] times. *)
Fixpoint client_loop (k : nat) (conf : worker_node_info) (cores : Z)
    (lists : list (list (socket_address * Z))) (dst : Z) : res (list (list (socket_address * Z)) * Z) :=
  match k with
  | O => Ok (lists, dst)
  | S k =>
      l ← of_option OutOfBounds (lists !! Z.to_nat dst);
      d ← modulo (u32 (dst + 1)) cores;
      client_loop k conf cores (<[Z.to_nat dst := l ++ [(addr conf, machine_id conf)]]> lists) d
  end.

Definition config_step (this_mid p2p_conn_count cores : Z) (conf : worker_node_info) (s : loop_state) : res loop_state :=
  let conf_mid := machine_id conf in
  s ← (if this_mid =? conf_mid then Ok s
       else if this_mid <? conf_mid then
         d ← modulo (u32 (l_dst s + p2p_conn_count)) cores;
         let ia := sin_addr (addr conf) in
         let m := match l_map s !! ia with None => <[ia := l_dst s]> (l_map s) | Some _ => l_map s end in
         Ok (mk_loop (u32 (l_wait s + p2p_conn_count)) m (l_lists s) (l_num s) (l_anchor s) d)
       else
         '(lists, d) ← client_loop (Z.to_nat p2p_conn_count) conf cores (l_lists s) (l_dst s);
         Ok (mk_loop (l_wait s) (l_map s) lists (l_num s) (u32 (l_anchor s + nr_cores conf)) d));
  Ok (mk_loop (l_wait s) (l_map s) (l_lists s) (u32 (l_num s + nr_cores conf)) (l_anchor s) (l_dst s)).

Fixpoint config_loop (this_mid p2p_conn_count cores : Z) (configs : list worker_node_info) (s : loop_state) : res loop_state :=
  match configs with
  | [] => Ok s
  | c :: configs => s ← config_step this_mid p2p_conn_count cores c s; config_loop this_mid p2p_conn_count cores configs s
  end.

(** [_server_lists.resize(this_mach_cores)] of the empty vector; the result is the
    configuration, [_num_shards] and [_sid_anchor]. *)
Definition set_network_config (configs : list worker_node_info) (this_mid p2p_conn_count local_shard_count : Z)
    : res (network_config * Z * Z) :=
  c ← of_option OutOfBounds (configs !! Z.to_nat this_mid);
  s ← config_loop this_mid p2p_conn_count local_shard_count configs
        (mk_loop 0 ∅ (replicate (Z.to_nat local_shard_count) []) 0 0 0);
  Ok (mk_config p2p_conn_count (l_wait s) this_mid (u32 (Z.of_nat (length configs))) (port (addr c))
        (l_map s) (l_lists s) configs, l_num s, l_anchor s).

(** ** start_network, up to the point where the connections are made *)
Record options := mk_options {
  o_machine_id : option Z;
  o_worker_node_list : option (list worker_node_info);    (* the rows of the file *)
  o_p2p_connection_count : Z;
  o_network_timeout_sec : Z
}.

Definition timeout_limit : Z := 600.

Definition machine_info_set (num_shards sid_anchor local_shard_count : Z) : machine_info :=
  mk_info num_shards sid_anchor sid_anchor (u32 (sid_anchor + local_shard_count - 1)).

(** The new configuration, machine info, timeout and whether the network is started. *)
Definition start_network (o : options) (local_shard_count : Z)
    : res ((network_config * machine_info * Z * bool) + config_error) :=
  match o_worker_node_list o with
  | Some rows =>
      match o_machine_id o with
      | None => Ok (inr NoMachineId)
      | Some mid =>
          match load_worker_node_list rows [] mid local_shard_count with
          | inr e => Ok (inr e)
          | inl configs =>
              '(nc, num, anchor) ← set_network_config configs mid (o_p2p_connection_count o) local_shard_count;
              if o_network_timeout_sec o =? 0 then Ok (inr ZeroTimeout)
              else Ok (inl (nc, machine_info_set num anchor local_shard_count,
                            Z.min (o_network_timeout_sec o) timeout_limit, 1 <? _num_machines nc))
          end
      end
  | None =>
      Ok (inl (network_config_default [], machine_info_set local_shard_count 0 local_shard_count, 60, false))
  end.

Definition is_local (mi : machine_info) (shard_id : Z) : bool :=
  (_min_sid mi <=? shard_id) && (shard_id <=? _max_sid mi).

(** ** get_client_target_shard: where an accepted connection from [ia] goes *)
Definition get_client_target_shard (nc : network_config) (local_shard_count ia : Z) : res (Z * network_config) :=
  match _addr_lsid_map nc !! ia with
  | None => Ok (0, nc)
  | Some sid =>
      next ← modulo (u32 (sid + 1)) local_shard_count;
      Ok (sid, mk_config (_p2p_conn_count nc) (_wait_conn_count nc) (_machine_id nc) (_num_machines nc)
                 (_listen_port nc) (<[ia := next]> (_addr_lsid_map nc)) (_server_lists nc) (_node_list nc))
  end.

(** ** The specification: shard numbers, machine after machine *)
Definition total_cores (configs : list worker_node_info) : Z := foldr Z.add 0 (nr_cores <$> configs).
Definition cores_before (configs : list worker_node_info) (m : nat) : Z := total_cores (take m configs).

Record configs_ok (configs : list worker_node_info) : Prop := {
  co_ids : ids_are_range 0 configs = true;
  co_cores : Forall (fun c => 0 < nr_cores c) configs;
  co_total : total_cores configs < 4294967296;
  co_count : Z.of_nat (length configs) < 4294967296
}.

Lemma ids_range_spec configs : forall i,
  0 <= i -> i + Z.of_nat (length configs) < 4294967296 -> ids_are_range i configs = true ->
  forall k c, configs !! k = Some c -> machine_id c = i + Z.of_nat k.
Proof.
  induction configs as [|c0 configs IH]; intros i Hi Hb H k c Hk; [done|].
  cbn [ids_are_range length] in *. apply andb_prop in H as [H0 H]. apply Z.eqb_eq in H0.
  destruct k as [|k]; cbn in Hk.
  - injection Hk as <-. lia.
  - rewrite u32_small in H by lia. rewrite (IH (i + 1)) with (k := k) (c := c); try done; lia.
Qed.

Lemma configs_id configs k c : configs_ok configs -> configs !! k = Some c -> machine_id c = Z.of_nat k.
Proof. intros [H _ _ Hc] Hk. rewrite (ids_range_spec configs 0) with (k := k) (c := c); try done; lia. Qed.

Lemma total_cores_nonneg configs : Forall (fun c => 0 < nr_cores c) configs -> 0 <= total_cores configs.
Proof. induction 1 as [|c l Hc _ IH]; unfold total_cores in *; cbn in *; lia. Qed.

Lemma total_cores_app a b : total_cores (a ++ b) = total_cores a + total_cores b.
Proof. unfold total_cores. induction a as [|c a IH]; cbn in *; lia. Qed.

Lemma cores_before_le configs m m' : Forall (fun c => 0 < nr_cores c) configs -> (m <= m')%nat ->
  0 <= cores_before configs m <= cores_before configs m'.
Proof.
  intros Hf Hm. unfold cores_before. replace m' with (m + (m' - m))%nat by lia.
  rewrite <-take_take_drop, total_cores_app.
  pose proof (total_cores_nonneg (take m configs) (Forall_take _ _ _ Hf)).
  pose proof (total_cores_nonneg (take (m' - m) (drop m configs)) (Forall_take _ _ _ (Forall_drop _ _ _ Hf))). lia.
Qed.

Lemma cores_before_S configs m c : configs !! m = Some c -> cores_before configs (S m) = cores_before configs m + nr_cores c.
Proof.
  intros H. unfold cores_before. rewrite (take_S_r _ _ _ H), total_cores_app. unfold total_cores at 2. cbn. lia.
Qed.

Lemma cores_before_total configs : cores_before configs (length configs) = total_cores configs.
Proof. unfold cores_before. now rewrite take_ge by lia. Qed.

(** Exactly one machine owns each global shard number. *)
Lemma owner_exists configs g :
  Forall (fun c => 0 < nr_cores c) configs -> 0 <= g < total_cores configs ->
  exists m c, configs !! m = Some c /\ cores_before configs m <= g < cores_before configs m + nr_cores c.
Proof.
  intros Hf. induction configs as [|c configs IH] using rev_ind; intros Hg; [unfold total_cores in Hg; cbn in Hg; lia|].
  apply Forall_app in Hf as [Hf Hc]. rewrite Forall_singleton in Hc. rewrite total_cores_app in Hg.
  unfold total_cores at 2 in Hg. cbn in Hg.
  assert (Hb : forall m, (m <= length configs)%nat -> cores_before (configs ++ [c]) m = cores_before configs m).
  { intros m Hm. unfold cores_before. now rewrite take_app_le. }
  destruct (Z.ltb_spec g (total_cores configs)) as [Hlt|Hge].
  - destruct (IH Hf) as (m & c' & Hm & Hr); [lia|]. pose proof (lookup_lt_Some _ _ _ Hm).
    exists m, c'. rewrite lookup_app_l, Hb by lia. done.
  - exists (length configs), c. rewrite lookup_app_r, Nat.sub_diag by lia. split; [done|].
    rewrite Hb, cores_before_total by lia. lia.
Qed.

Lemma owner_unique configs g m m' c c' :
  Forall (fun c => 0 < nr_cores c) configs -> configs !! m = Some c -> configs !! m' = Some c' ->
  cores_before configs m <= g < cores_before configs m + nr_cores c ->
  cores_before configs m' <= g < cores_before configs m' + nr_cores c' -> m = m'.
Proof.
  intros Hf Hm Hm' H H'. rewrite <-(cores_before_S _ _ _ Hm) in H. rewrite <-(cores_before_S _ _ _ Hm') in H'.
  destruct (Nat.lt_trichotomy m m') as [Hlt|[Heq|Hgt]]; [exfalso|done|exfalso].
  - pose proof (cores_before_le configs (S m) m' Hf ltac:(lia)). lia.
  - pose proof (cores_before_le configs (S m') m Hf ltac:(lia)). lia.
Qed.

(** ** What the loop computes *)

(** The connections machine [m] opens, in order, and how they are dealt to its shards:
    the k-th goes to shard [k mod cores]. *)
Definition client_targets (configs : list worker_node_info) (m p2p : nat) : list (socket_address * Z) :=
  mjoin ((fun c => replicate p2p (addr c, machine_id c)) <$> take m configs).
Definition pick (cores : Z) (s : nat) (L : list (socket_address * Z)) : list (socket_address * Z) :=
  omap (fun p => if Z.of_nat (fst p) mod cores =? Z.of_nat s then Some (snd p) else None) (imap pair L).

Lemma pick_snoc cores s L x :
  pick cores s (L ++ [x]) = pick cores s L ++ (if Z.of_nat (length L) mod cores =? Z.of_nat s then [x] else []).
Proof.
  unfold pick. rewrite imap_app, omap_app. f_equal. cbn. rewrite Nat.add_0_r.
  destruct (Z.of_nat (length L) mod cores =? Z.of_nat s); done.
Qed.

Record dealt (cores : Z) (lists : list (list (socket_address * Z))) (L : list (socket_address * Z)) : Prop := {
  d_pick : forall s, (s < Z.to_nat cores)%nat -> lists !! s = Some (pick cores s L);
  d_len : length lists = Z.to_nat cores;
  d_perm : Permutation (mjoin lists) L
}.

Lemma join_push {A} (ls : list (list A)) i l x :
  ls !! i = Some l -> Permutation (mjoin (<[i := l ++ [x]]> ls)) (mjoin ls ++ [x]).
Proof.
  revert i. induction ls as [|l0 ls IH]; intros [|i] H; cbn in H; try done.
  - injection H as ->. cbn. rewrite <-!app_assoc. apply Permutation_app_head, Permutation_app_comm.
  - cbn. rewrite (IH i H). now rewrite app_assoc.
Qed.

Lemma dealt_push cores lists L x :
  0 < cores -> dealt cores lists L ->
  let dst := Z.to_nat (Z.of_nat (length L) mod cores) in
  exists l, lists !! dst = Some l /\ dealt cores (<[dst := l ++ [x]]> lists) (L ++ [x]).
Proof.
  intros Hc [Hp Hl Hperm] dst.
  pose proof (Z.mod_pos_bound (Z.of_nat (length L)) cores Hc) as Hb.
  assert (Hd : (dst < Z.to_nat cores)%nat) by (unfold dst; lia).
  exists (pick cores dst L). split; [now apply Hp|]. split.
  - intros s Hs. rewrite pick_snoc. destruct (decide (s = dst)) as [->|Hne].
    + rewrite list_lookup_insert_eq by lia. unfold dst. rewrite Z2Nat.id by lia. now rewrite Z.eqb_refl.
    + rewrite list_lookup_insert_ne by done. rewrite (Hp s Hs).
      rewrite (proj2 (Z.eqb_neq _ _)) by (unfold dst in Hne; lia). now rewrite app_nil_r.
  - now rewrite length_insert.
  - rewrite join_push by (now apply Hp). now rewrite Hperm.
Qed.

Lemma modulo_ok a b : 0 < b -> modulo a b = Ok (a mod b).
Proof. intros H. unfold modulo. now rewrite (proj2 (Z.eqb_neq b 0)) by lia. Qed.

Lemma mod_succ a c : 0 < c -> (a mod c + 1) mod c = (a + 1) mod c.
Proof. intros H. now rewrite Zplus_mod_idemp_l. Qed.

Lemma client_loop_spec conf cores k : forall lists L,
  0 < cores < 4294967296 -> dealt cores lists L ->
  exists lists', client_loop k conf cores lists (Z.of_nat (length L) mod cores) =
      Ok (lists', Z.of_nat (length L + k) mod cores) /\
    dealt cores lists' (L ++ replicate k (addr conf, machine_id conf)).
Proof.
  induction k as [|k IH]; intros lists L Hc Hd; cbn [client_loop replicate].
  - exists lists. rewrite Nat.add_0_r, app_nil_r. done.
  - pose proof (Z.mod_pos_bound (Z.of_nat (length L)) cores ltac:(lia)) as Hb.
    destruct (dealt_push cores lists L (addr conf, machine_id conf) ltac:(lia) Hd) as (l & Hl & Hd').
    rewrite Hl. cbn [of_option mbind res_bind].
    rewrite u32_small, modulo_ok, mod_succ by lia. cbn [mbind res_bind].
    replace (Z.of_nat (length L) + 1) with (Z.of_nat (length (L ++ [(addr conf, machine_id conf)])))
      by (rewrite length_app; cbn [length]; lia).
    destruct (IH _ _ Hc Hd') as (lists' & E & H'). exists lists'. rewrite E, length_app. cbn [length].
    rewrite <-app_assoc in H'. split; [do 3 f_equal; lia|done].
Qed.

Section Loop.
Context (configs : list worker_node_info) (m : nat) (p2p : nat) (cores : Z).
Context (Hok : configs_ok configs) (Hcores : 0 < cores < 4294967296).
Context (Hconn : Z.of_nat p2p * Z.of_nat (length configs) < 4294967296).

Record loop_inv (k : nat) (s : loop_state) : Prop := {
  li_num : l_num s = cores_before configs k;
  li_anchor : l_anchor s = cores_before configs (Nat.min k m);
  li_wait : l_wait s = Z.of_nat p2p * Z.of_nat (k - S m);
  li_dst : (k <= m)%nat -> l_dst s = Z.of_nat (length (client_targets configs k p2p)) mod cores;
  li_lists : dealt cores (l_lists s) (client_targets configs (Nat.min k m) p2p)
}.

Lemma client_targets_S k c : configs !! k = Some c ->
  client_targets configs (S k) p2p = client_targets configs k p2p ++ replicate p2p (addr c, machine_id c).
Proof.
  intros H. unfold client_targets. rewrite (take_S_r _ _ _ H), fmap_app, join_app. cbn. now rewrite app_nil_r.
Qed.

Lemma cores_before_lt k c : configs !! k = Some c -> 0 <= cores_before configs k + nr_cores c < 4294967296.
Proof.
  intros H. rewrite <-(cores_before_S _ _ _ H). pose proof (lookup_lt_Some _ _ _ H).
  pose proof (cores_before_le configs (S k) (length configs) (co_cores _ Hok) ltac:(lia)) as Hle.
  rewrite cores_before_total in Hle. pose proof (co_total _ Hok). lia.
Qed.

Lemma config_step_spec k c s :
  configs !! k = Some c -> loop_inv k s ->
  exists s', config_step (Z.of_nat m) (Z.of_nat p2p) cores c s = Ok s' /\ loop_inv (S k) s'.
Proof.
  intros Hk [Hn Ha Hw Hd Hl]. pose proof (configs_id configs k c Hok Hk) as Hid.
  pose proof (cores_before_lt k c Hk) as Hlt. pose proof (lookup_lt_Some _ _ _ Hk) as Hkl.
  unfold config_step. rewrite Hid.
  destruct (Z.eqb_spec (Z.of_nat m) (Z.of_nat k)) as [He|Hne]; [|destruct (Z.ltb_spec (Z.of_nat m) (Z.of_nat k)) as [Hs|Hs]].
  - cbn [mbind res_bind]. eexists. split; [reflexivity|].
    split; cbn [l_num l_anchor l_wait l_dst l_lists]; try lia.
    + rewrite Hn, u32_small by lia. now rewrite (cores_before_S _ _ _ Hk).
    + rewrite Ha. f_equal. lia.
    + now replace (Nat.min (S k) m) with (Nat.min k m) by lia.
  - rewrite modulo_ok by lia. cbn [mbind res_bind]. eexists. split; [reflexivity|].
    split; cbn [l_num l_anchor l_wait l_dst l_lists]; try lia.
    + rewrite Hn, u32_small by lia. now rewrite (cores_before_S _ _ _ Hk).
    + rewrite Ha. f_equal. lia.
    + rewrite Hw, u32_small by nia. nia.
    + now replace (Nat.min (S k) m) with (Nat.min k m) by lia.
  - rewrite Nat2Z.id, Hd by lia. replace (Nat.min k m) with k in * by lia.
    destruct (client_loop_spec c cores p2p (l_lists s) _ Hcores Hl) as (lists' & E & Hl').
    rewrite E. cbn [mbind res_bind]. eexists. split; [reflexivity|].
    rewrite <-(client_targets_S k c Hk) in Hl'.
    split; cbn [l_num l_anchor l_wait l_dst l_lists]; try lia.
    + rewrite Hn, u32_small by lia. now rewrite (cores_before_S _ _ _ Hk).
    + rewrite Ha, u32_small by lia. replace (Nat.min (S k) m) with (S k) by lia.
      now rewrite (cores_before_S _ _ _ Hk).
    + intros _. rewrite (client_targets_S k c Hk), length_app, length_replicate. done.
    + now replace (Nat.min (S k) m) with (S k) by lia.
Qed.

Lemma config_loop_spec : forall rest k s,
  drop k configs = rest -> (k <= length configs)%nat -> loop_inv k s ->
  exists s', config_loop (Z.of_nat m) (Z.of_nat p2p) cores rest s = Ok s' /\ loop_inv (length configs) s'.
Proof using Hok Hcores Hconn.
  induction rest as [|c rest IH]; intros k s Hr Hk Hi; cbn [config_loop].
  - apply (f_equal length) in Hr. rewrite length_drop in Hr. cbn in Hr.
    replace (length configs) with k by lia. eauto.
  - assert (Hc : configs !! k = Some c).
    { rewrite <-(Nat.add_0_r k), <-lookup_drop, Hr. done. }
    destruct (config_step_spec k c s Hc Hi) as (s1 & E & H1). rewrite E. cbn [mbind res_bind].
    apply (IH (S k)); [|now apply lookup_lt_Some in Hc|done].
    rewrite (drop_S _ _ _ Hc) in Hr. now injection Hr.
Qed.

Lemma loop_inv_0 : loop_inv 0 (mk_loop 0 ∅ (replicate (Z.to_nat cores) []) 0 0 0).
Proof using Hcores.
  split; cbn [l_num l_anchor l_wait l_dst l_lists Nat.min]; try done.
  - cbn. lia.
  - split.
    + intros s Hs. now rewrite lookup_replicate_2.
    + apply length_replicate.
    + cbn. clear. induction (Z.to_nat cores); cbn; auto.
Qed.

Lemma set_network_config_spec c :
  configs !! m = Some c ->
  exists nc, set_network_config configs (Z.of_nat m) (Z.of_nat p2p) cores =
      Ok (nc, total_cores configs, cores_before configs m) /\
    _wait_conn_count nc = Z.of_nat p2p * Z.of_nat (length configs - S m) /\
    _num_machines nc = Z.of_nat (length configs) /\ _node_list nc = configs /\ _machine_id nc = Z.of_nat m /\
    dealt cores (_server_lists nc) (client_targets configs m p2p).
Proof using Hok Hcores Hconn.
  intros Hm. pose proof (lookup_lt_Some _ _ _ Hm) as Hlt.
  destruct (config_loop_spec configs 0 _ (drop_0 configs) ltac:(lia) loop_inv_0) as (s & E & [H1 H2 H3 H4 H5]).
  unfold set_network_config. rewrite Nat2Z.id, Hm. cbn [of_option mbind res_bind].
  rewrite E. cbn [mbind res_bind]. rewrite Nat.min_r in H2, H5 by lia. rewrite cores_before_total in H1.
  eexists. rewrite H1, H2. split; [reflexivity|]. cbn. rewrite H3.
  rewrite u32_small by (pose proof (co_count _ Hok); lia). done.
Qed.

End Loop.

(** ** What the configuration guarantees *)

(** The configuration of machine [m] with its own number of shards. *)
Definition config_machine (configs : list worker_node_info) (p2p m : nat) : res (network_config * machine_info) :=
  c ← of_option OutOfBounds (configs !! m);
  '(nc, num, anchor) ← set_network_config configs (Z.of_nat m) (Z.of_nat p2p) (nr_cores c);
  Ok (nc, machine_info_set num anchor (nr_cores c)).

Lemma config_machine_spec configs p2p m c :
  configs_ok configs -> Z.of_nat p2p * Z.of_nat (length configs) < 4294967296 -> configs !! m = Some c ->
  exists nc mi, config_machine configs p2p m = Ok (nc, mi) /\
    _num_shards mi = total_cores configs /\ _sid_anchor mi = cores_before configs m /\
    (forall g, is_local mi g = true <-> cores_before configs m <= g < cores_before configs m + nr_cores c) /\
    _wait_conn_count nc = Z.of_nat p2p * Z.of_nat (length configs - S m) /\
    dealt (nr_cores c) (_server_lists nc) (client_targets configs m p2p).
Proof.
  intros Hok Hp Hm. pose proof (cores_before_lt configs m Hok m c Hm) as Hb.
  pose proof (proj1 (Forall_lookup _ _) (co_cores _ Hok) m c Hm) as Hc. cbn beta in Hc.
  pose proof (cores_before_le configs 0 m (co_cores _ Hok) ltac:(lia)) as H0.
  unfold cores_before at 1 2 in H0. rewrite take_0 in H0. unfold total_cores at 1 2 in H0. cbn in H0.
  destruct (set_network_config_spec configs m p2p (nr_cores c) Hok ltac:(lia) Hp c Hm)
    as (nc & E & Hw & _ & _ & _ & Hd).
  unfold config_machine. rewrite Hm. cbn [of_option mbind res_bind]. rewrite E. cbn [mbind res_bind].
  eexists nc, _. split; [reflexivity|]. split; [done|]. split; [done|]. split; [|done].
  intros g. unfold is_local, machine_info_set. cbn [_min_sid _max_sid]. rewrite u32_small by lia.
  rewrite andb_true_iff, !Z.leb_le. lia.
Qed.

(** The machines of a cluster divide the global shard numbers among themselves: they
    agree on how many there are, and each number is local to exactly one machine. *)
Theorem shards_partition configs p2p g :
  configs_ok configs -> Z.of_nat p2p * Z.of_nat (length configs) < 4294967296 -> 0 <= g < total_cores configs ->
  exists m nc mi, config_machine configs p2p m = Ok (nc, mi) /\ is_local mi g = true /\
    _num_shards mi = total_cores configs /\
    forall m' nc' mi', config_machine configs p2p m' = Ok (nc', mi') -> is_local mi' g = true -> m' = m.
Proof.
  intros Hok Hp Hg. destruct (owner_exists configs g (co_cores _ Hok) Hg) as (m & c & Hm & Hr).
  destruct (config_machine_spec configs p2p m c Hok Hp Hm) as (nc & mi & E & Hn & _ & Hl & _).
  exists m, nc, mi. split; [done|]. split; [now apply Hl|]. split; [done|].
  intros m' nc' mi' E' Hl'.
  destruct (configs !! m') as [c'|] eqn:Hm'; [|unfold config_machine in E'; rewrite Hm' in E'; discriminate].
  destruct (config_machine_spec configs p2p m' c' Hok Hp Hm') as (nc2 & mi2 & E2 & _ & _ & Hl2 & _).
  rewrite E' in E2. injection E2 as <- <-. apply Hl2 in Hl'.
  exact (eq_sym (owner_unique configs g m m' c c' (co_cores _ Hok) Hm Hm' Hr Hl')).
Qed.

(** *** Connections *)
Definition count_to (j : Z) (l : list (socket_address * Z)) : nat := length (filter (fun e => snd e = j) l).

(** How many connections machine [i] opens to machine [j]. *)
Definition opened_to (configs : list worker_node_info) (p2p i j : nat) : nat :=
  match config_machine configs p2p i with
  | Ok (nc, _) => count_to (Z.of_nat j) (mjoin (_server_lists nc))
  | Fault _ => 0
  end.

Lemma count_to_perm j l l' : Permutation l l' -> count_to j l = count_to j l'.
Proof. intros H. unfold count_to. now rewrite H. Qed.

Lemma count_to_app j l l' : count_to j (l ++ l') = (count_to j l + count_to j l')%nat.
Proof. unfold count_to. now rewrite filter_app, length_app. Qed.

Lemma count_to_replicate j n a m : count_to j (replicate n (a, m)) = if decide (m = j) then n else 0%nat.
Proof.
  unfold count_to. induction n as [|n IH]; [cbn; now case_decide|].
  rewrite replicate_S, filter_cons. cbn [snd]. case_decide; cbn [length]; [now f_equal|done].
Qed.

Lemma count_client_targets configs p2p i j :
  configs_ok configs -> (i <= length configs)%nat ->
  count_to (Z.of_nat j) (client_targets configs i p2p) = if decide (j < i)%nat then p2p else 0%nat.
Proof.
  intros Hok. induction i as [|i IH]; intros Hi.
  - rewrite decide_False by lia. done.
  - destruct (lookup_lt_is_Some_2 configs i) as [c Hc]; [lia|].
    rewrite (client_targets_S configs p2p i c Hc), count_to_app, IH, count_to_replicate by lia.
    rewrite (configs_id configs i c Hok Hc). repeat case_decide; lia.
Qed.

(** Listening and connecting agree: each machine waits for exactly as many connections
    as all the machines of the cluster together open to it, every higher-numbered
    machine opening [p2p_conn_count] of them and the others none. *)
Theorem connections_match configs p2p j c :
  configs_ok configs -> Z.of_nat p2p * Z.of_nat (length configs) < 4294967296 -> configs !! j = Some c ->
  exists nc mi, config_machine configs p2p j = Ok (nc, mi) /\
    (forall i, (i < length configs)%nat -> opened_to configs p2p i j = if decide (j < i)%nat then p2p else 0%nat) /\
    _wait_conn_count nc = Z.of_nat (foldr Nat.add 0%nat ((fun i => opened_to configs p2p i j) <$> seq 0 (length configs))).
Proof.
  intros Hok Hp Hj. destruct (config_machine_spec configs p2p j c Hok Hp Hj) as (nc & mi & E & _ & _ & _ & Hw & _).
  exists nc, mi. split; [done|].
  assert (Ho : forall i, (i < length configs)%nat -> opened_to configs p2p i j = if decide (j < i)%nat then p2p else 0%nat).
  { intros i Hi. destruct (lookup_lt_is_Some_2 configs i Hi) as [ci Hci].
    destruct (config_machine_spec configs p2p i ci Hok Hp Hci) as (nci & mii & Ei & _ & _ & _ & _ & Hd).
    unfold opened_to. rewrite Ei, (count_to_perm _ _ _ (d_perm _ _ _ Hd)).
    apply count_client_targets; [done|lia]. }
  split; [done|]. rewrite Hw. clear E Hw. pose proof (lookup_lt_Some _ _ _ Hj) as Hjl.
  assert (Hs : forall n, (n <= length configs)%nat ->
    foldr Nat.add 0%nat ((fun i => opened_to configs p2p i j) <$> seq 0 n) = (p2p * (n - S j))%nat).
  { induction n as [|n IH]; intros Hn; [cbn; lia|]. rewrite seq_S, fmap_app, foldr_app. cbn [fmap list_fmap foldr].
    rewrite Ho by lia.
    assert (Hfold : forall l a, foldr Nat.add a l = (foldr Nat.add 0%nat l + a)%nat).
    { clear. induction l as [|x l IHl]; intros a; cbn; [lia|]. rewrite IHl. lia. }
    rewrite Hfold, IH by lia. cbn. case_decide; nia. }
  rewrite (Hs (length configs)) by lia. lia.
Qed.

Lemma pick_length cores s L :
  0 < cores -> (s < Z.to_nat cores)%nat ->
  Z.of_nat (length (pick cores s L)) =
    Z.of_nat (length L) / cores + (if Z.of_nat s <? Z.of_nat (length L) mod cores then 1 else 0).
Proof.
  intros Hc Hs. induction L as [|x L IH] using rev_ind.
  - rewrite Z.mod_0_l, Z.div_0_l by lia. now rewrite (proj2 (Z.ltb_ge _ 0)) by lia.
  - rewrite pick_snoc, !length_app, Nat2Z.inj_add, IH. cbn [length].
    replace (Z.of_nat (length L + 1)) with (Z.of_nat (length L) + 1) by lia.
    set (n := Z.of_nat (length L)). pose proof (Z.mod_pos_bound n cores Hc) as Hb.
    pose proof (Z.div_mod n cores ltac:(lia)) as Hn.
    destruct (Z.eq_dec (n mod cores + 1) cores) as [He|Hne].
    + assert (H1 : (n + 1) mod cores = 0) by (symmetry; apply (Z.mod_unique _ _ (n / cores + 1)); lia).
      assert (H2 : (n + 1) / cores = n / cores + 1) by (symmetry; apply (Z.div_unique _ _ _ 0); lia).
      rewrite H1, H2. destruct (Z.eqb_spec (n mod cores) (Z.of_nat s)); cbn [length];
        destruct (Z.ltb_spec (Z.of_nat s) (n mod cores)), (Z.ltb_spec (Z.of_nat s) 0); lia.
    + assert (H1 : (n + 1) mod cores = n mod cores + 1) by (symmetry; apply (Z.mod_unique _ _ (n / cores)); lia).
      assert (H2 : (n + 1) / cores = n / cores) by (symmetry; apply (Z.div_unique _ _ _ (n mod cores + 1)); lia).
      rewrite H1, H2. destruct (Z.eqb_spec (n mod cores) (Z.of_nat s)); cbn [length];
        destruct (Z.ltb_spec (Z.of_nat s) (n mod cores)), (Z.ltb_spec (Z.of_nat s) (n mod cores + 1)); lia.
Qed.

(** The connections a machine opens are spread evenly over its shards: each shard has a
    list, and the lengths of any two of them differ by at most one. *)
Theorem connections_spread configs p2p m c s1 s2 :
  configs_ok configs -> Z.of_nat p2p * Z.of_nat (length configs) < 4294967296 -> configs !! m = Some c ->
  (s1 < Z.to_nat (nr_cores c))%nat -> (s2 < Z.to_nat (nr_cores c))%nat ->
  exists nc mi l1 l2, config_machine configs p2p m = Ok (nc, mi) /\
    _server_lists nc !! s1 = Some l1 /\ _server_lists nc !! s2 = Some l2 /\
    (length l1 <= length l2 + 1)%nat.
Proof.
  intros Hok Hp Hm H1 H2.
  destruct (config_machine_spec configs p2p m c Hok Hp Hm) as (nc & mi & E & _ & _ & _ & _ & [Hd _ _]).
  exists nc, mi. do 2 eexists. split; [done|]. split; [now apply Hd|]. split; [now apply Hd|].
  assert (Hc : 0 < nr_cores c) by lia.
  pose proof (pick_length (nr_cores c) s1 (client_targets configs m p2p) Hc H1).
  pose proof (pick_length (nr_cores c) s2 (client_targets configs m p2p) Hc H2).
  destruct (Z.ltb _ _), (Z.ltb _ _) in *; lia.
Qed.

(** [load_worker_node_list] accepts a list exactly when the machine's own id is a row,
    that row has the number of shards the machine runs and the ids are 0, 1, 2, ... in
    order, and reports the first of these that fails. *)
Theorem load_worker_node_list_spec rows this_mid cores :
  Z.of_nat (length rows) < 4294967296 ->
  match load_worker_node_list rows [] this_mid cores with
  | inl configs => configs = rows /\
      (exists c, rows !! Z.to_nat this_mid = Some c /\ nr_cores c = cores) /\
      (forall k c, rows !! k = Some c -> machine_id c = Z.of_nat k)
  | inr WrongMachineId => (length rows <= Z.to_nat this_mid)%nat
  | inr IncorrectCores => exists c, rows !! Z.to_nat this_mid = Some c /\ nr_cores c <> cores
  | inr IdsNotRange => exists k c, rows !! k = Some c /\ machine_id c <> Z.of_nat k
  | inr _ => False
  end.
Proof.
  intros Hlen. unfold load_worker_node_list. cbn [app].
  destruct (rows !! Z.to_nat this_mid) as [c|] eqn:Ec; [|now apply lookup_ge_None_1].
  destruct (Z.eqb_spec cores (nr_cores c)) as [Hc|Hc]; cbn [negb]; [|exists c; split; [done|congruence]].
  destruct (ids_are_range 0 rows) eqn:Er; cbn [negb].
  - split; [done|]. split; [eauto|]. intros k c' Hk. now rewrite (ids_range_spec rows 0 ltac:(lia) ltac:(lia) Er k c' Hk).
  - assert (H : forall l i, 0 <= i -> i + Z.of_nat (length l) < 4294967296 -> ids_are_range i l = false ->
      exists k c, l !! k = Some c /\ machine_id c <> i + Z.of_nat k).
    { clear. induction l as [|c l IH]; intros i Hi Hb Hr; [done|]. cbn [ids_are_range length] in *.
      destruct (Z.eqb_spec (machine_id c) i) as [He|Hne].
      - cbn [andb] in Hr. rewrite u32_small in Hr by lia.
        destruct (IH (i + 1)) as (k & c' & Hk & Hne); try done; try lia. exists (S k), c'. split; [done|]. lia.
      - exists 0%nat, c. split; [done|]. lia. }
    destruct (H rows 0) as (k & c' & Hk & Hne); try done. exists k, c'. split; [done|]. lia.
Qed.

(** *** Distributing accepted connections *)
Fixpoint accept_n (k : nat) (nc : network_config) (cores ia : Z) : res (list Z * network_config) :=
  match k with
  | O => Ok ([], nc)
  | S k => '(sid, nc) ← get_client_target_shard nc cores ia; '(l, nc) ← accept_n k nc cores ia; Ok (sid :: l, nc)
  end.

(** The connections accepted from one known address go round the shards from the shard
    assigned to the address; those from an unknown address all go to shard 0. *)
Theorem accepted_round_robin k nc cores ia :
  0 < cores < 4294967296 ->
  match _addr_lsid_map nc !! ia with
  | Some sid => 0 <= sid < cores ->
      exists nc', accept_n k nc cores ia = Ok ((fun i => (sid + Z.of_nat i) mod cores) <$> seq 0 k, nc')
  | None => accept_n k nc cores ia = Ok (replicate k 0, nc)
  end.
Proof.
  intros Hc. destruct (_addr_lsid_map nc !! ia) as [sid|] eqn:Em.
  - revert nc sid Em. induction k as [|k IH]; intros nc sid Em Hs; cbn [accept_n]; [exists nc; done|].
    unfold get_client_target_shard. rewrite Em. rewrite modulo_ok, u32_small by lia. cbn [mbind res_bind].
    pose proof (Z.mod_pos_bound (sid + 1) cores ltac:(lia)) as Hmod.
    edestruct (fun nc => IH nc ((sid + 1) mod cores)) as (nc' & E); [..|rewrite E].
    + cbn. apply lookup_insert_eq.
    + lia.
    + exists nc'. cbn [mbind res_bind]. do 2 f_equal. cbn [seq fmap list_fmap].
      rewrite Z.add_0_r, (Z.mod_small sid cores) by lia. f_equal.
      rewrite <-fmap_S_seq, <-list_fmap_compose. apply list_fmap_ext. intros i x _. cbn [compose].
      rewrite Zplus_mod_idemp_l. f_equal. unfold compose. lia.
  - induction k as [|k IH]; cbn [accept_n replicate]; [done|].
    unfold get_client_target_shard at 1. rewrite Em. cbn [mbind res_bind]. now rewrite IH.
Qed.

(** ** A cluster of three machines *)
Definition sample_configs : list worker_node_info :=
  [mk_node 0 2 (mk_addr 1 9000); mk_node 1 3 (mk_addr 2 9000); mk_node 2 1 (mk_addr 3 9000)].

Lemma sample_configs_ok : configs_ok sample_configs.
Proof. split; [done|repeat constructor; done|done|done]. Qed.

Lemma shards_partition_witness :
  exists m nc mi, config_machine sample_configs 2 m = Ok (nc, mi) /\ is_local mi 4 = true /\
    _num_shards mi = 6 /\
    forall m' nc' mi', config_machine sample_configs 2 m' = Ok (nc', mi') -> is_local mi' 4 = true -> m' = m.
Proof. apply (shards_partition sample_configs 2 4 sample_configs_ok); vm_compute; [reflexivity|split; [discriminate|reflexivity]]. Defined.

Lemma connections_match_witness :
  exists nc mi, config_machine sample_configs 2 0 = Ok (nc, mi) /\
    (forall i, (i < 3)%nat -> opened_to sample_configs 2 i 0 = if decide (0 < i)%nat then 2%nat else 0%nat) /\
    _wait_conn_count nc = Z.of_nat (foldr Nat.add 0%nat ((fun i => opened_to sample_configs 2 i 0) <$> seq 0 3)).
Proof. exact (connections_match sample_configs 2 0 _ sample_configs_ok eq_refl eq_refl). Defined.

Lemma connections_spread_witness :
  exists nc mi l1 l2, config_machine sample_configs 2 1 = Ok (nc, mi) /\
    _server_lists nc !! 0%nat = Some l1 /\ _server_lists nc !! 2%nat = Some l2 /\ (length l1 <= length l2 + 1)%nat.
Proof. refine (connections_spread sample_configs 2 1 _ 0 2 sample_configs_ok eq_refl eq_refl _ _); cbn; lia. Defined.

Lemma load_worker_node_list_spec_witness :
  sample_configs = sample_configs /\
  (exists c, sample_configs !! Z.to_nat 1 = Some c /\ nr_cores c = 3) /\
  (forall k c, sample_configs !! k = Some c -> machine_id c = Z.of_nat k).
Proof. exact (load_worker_node_list_spec sample_configs 1 3 eq_refl). Defined.

Lemma accepted_round_robin_witness :
  accept_n 2 (network_config_default []) 3 7 = Ok ([0; 0], network_config_default []).
Proof. exact (accepted_round_robin 2 (network_config_default []) 3 7 ltac:(lia)). Defined.
