(* ===== verification/RoutingTable.v ===== *)
(** * The routing table of the network channel

    [network_channel::routing_table] (src/include/hiactor/net/network_channel.hh): for each
    global shard the machine it is on, and for each machine a cell with the local shards
    that hold a connection to it.  Both are parts of one array of 32-bit integers,
    uninitialized ([None]) until written. *)
From S2P Require Import Prelude.
From S2P Require Import NetworkConfig.

Record routing_table := mk_rt { _sid2mid : list (option Z); _cells_head : nat; _cell_size : Z }.
Record dest_info := mk_dest { d_machine_id : Z; d_target_sid : Z }.

Definition get (t : routing_table) (i : nat) : res Z :=
  o ← of_option OutOfBounds (_sid2mid t !! i); of_option Uninit o.
Definition set (t : routing_table) (i : nat) (v : Z) : res routing_table :=
  _ ← of_option OutOfBounds (_sid2mid t !! i);
  Ok (mk_rt (<[i := Some v]> (_sid2mid t)) (_cells_head t) (_cell_size t)).

(** [_cells_head + _cell_size * m], the product in 32 bits. *)
Definition cell_ptr (t : routing_table) (m : Z) : nat := _cells_head t + Z.to_nat (u32 (_cell_size t * m)).

Definition insert (t : routing_table) (mach_id local_sid : Z) : res routing_table :=
  let cell := cell_ptr t mach_id in
  n ← get t cell;
  t ← set t (cell + Z.to_nat (u32 (n + 2)))%nat local_sid;
  n ← get t cell;
  set t cell (u32 (n + 1)).

(** The loops of [build]. *)
Fixpoint populate_machine (k : nat) (j : Z) (pos : nat) (t : routing_table) : res (nat * routing_table) :=
  match k with
  | O => Ok (pos, t)
  | S k => t ← set t pos j; populate_machine k j (S pos) t
  end.
Fixpoint populate (nodes : list worker_node_info) (num_machs : nat) (j pos : nat) (t : routing_table) : res routing_table :=
  match num_machs with
  | O => Ok t
  | S num_machs =>
      node ← of_option OutOfBounds (nodes !! j);
      '(pos, t) ← populate_machine (Z.to_nat (nr_cores node)) (Z.of_nat j) pos t;
      populate nodes num_machs (S j) pos t
  end.
Fixpoint init_cells (num_machs : nat) (i : nat) (t : routing_table) : res routing_table :=
  match num_machs with
  | O => Ok t
  | S num_machs =>
      let cell := cell_ptr t (Z.of_nat i) in
      t ← set t cell 0;
      t ← set t (cell + 1)%nat 2;
      init_cells num_machs (S i) t
  end.
Fixpoint insert_mids (mids : list Z) (i : Z) (t : routing_table) : res routing_table :=
  match mids with
  | [] => Ok t
  | mid :: mids => t ← insert t mid i; insert_mids mids i t
  end.
Fixpoint insert_shards (sharded_mids : list (list Z)) (i : Z) (t : routing_table) : res routing_table :=
  match sharded_mids with
  | [] => Ok t
  | mids :: sharded_mids => t ← insert_mids mids i t; insert_shards sharded_mids (i + 1) t
  end.

Definition build (nodes : list worker_node_info) (num_machs : nat) (num_g_shards local_shard_count : Z)
    (sharded_mids : list (list Z)) : res routing_table :=
  _ ← assert (u32 (Z.of_nat (length sharded_mids)) =? local_shard_count);
  let cell_size := u32 (2 + local_shard_count) in
  let len := u32 (num_g_shards + u32 (cell_size * Z.of_nat num_machs)) in
  let t := mk_rt (replicate (Z.to_nat len) None) (Z.to_nat num_g_shards) cell_size in
  t ← populate nodes num_machs 0 0 t;
  t ← init_cells num_machs 0 t;
  insert_shards sharded_mids 0 t.

(** The default: a fixed proxy shard for each target, to keep its messages in order. *)
Definition get_destination (t : routing_table) (g_shard_id : Z) : res dest_info :=
  machine_id ← get t (Z.to_nat g_shard_id);
  let cell := cell_ptr t machine_id in
  n ← get t cell;
  pos ← modulo g_shard_id n;
  target_sid ← get t (cell + Z.to_nat (u32 (pos + 2)))%nat;
  Ok (mk_dest machine_id target_sid).

(** With HIACTOR_ROUND_ROUBIN_NETWORK_PROXY. *)
Definition get_destination_rr (t : routing_table) (g_shard_id : Z) : res (dest_info * routing_table) :=
  machine_id ← get t (Z.to_nat g_shard_id);
  let cell := cell_ptr t machine_id in
  cur ← get t (cell + 1)%nat;
  target_sid ← get t (cell + Z.to_nat cur)%nat;
  n ← get t cell;
  next ← modulo (u32 (cur + 1)) n;
  t ← set t (cell + 1)%nat (u32 (next + 2));
  Ok (mk_dest machine_id target_sid, t).

(** ** What the table holds *)
Section Table.
Context (num_g nm lc : nat).

Definition cell_off (m : nat) : nat := num_g + (2 + lc) * m.
Context (Hsmall : Z.of_nat (cell_off nm) < 4294967296).

(** [owner g]: the machine of a global shard; [curs m], [cells m]: the current position of a
    cell and its local shards, in order. *)
Record table_ok (owner : nat -> Z) (curs : nat -> Z) (cells : nat -> list Z) (t : routing_table) : Prop := {
  rt_len : length (_sid2mid t) = cell_off nm;
  rt_head : _cells_head t = num_g;
  rt_size : _cell_size t = Z.of_nat (2 + lc);
  rt_owner : forall g, (g < num_g)%nat -> _sid2mid t !! g = Some (Some (owner g));
  rt_count : forall m, (m < nm)%nat -> _sid2mid t !! cell_off m = Some (Some (Z.of_nat (length (cells m))));
  rt_cur : forall m, (m < nm)%nat -> _sid2mid t !! (cell_off m + 1)%nat = Some (Some (curs m));
  rt_entry : forall m k s, (m < nm)%nat -> cells m !! k = Some s -> _sid2mid t !! (cell_off m + 2 + k)%nat = Some (Some s);
  rt_room : forall m, (m < nm)%nat -> (length (cells m) <= lc)%nat
}.

Lemma cell_off_lt m m' : (m < m')%nat -> (cell_off m + 2 + lc <= cell_off m')%nat.
Proof using. clear Hsmall. unfold cell_off. nia. Qed.

Lemma cell_off_le m : (num_g <= cell_off m)%nat.
Proof using. clear Hsmall. unfold cell_off. nia. Qed.

Lemma cell_ptr_off t m :
  _cells_head t = num_g -> _cell_size t = Z.of_nat (2 + lc) -> (m < nm)%nat -> cell_ptr t (Z.of_nat m) = cell_off m.
Proof using Hsmall.
  intros H1 H2 Hm. unfold cell_ptr. rewrite H1, H2. pose proof (cell_off_lt m nm Hm). unfold cell_off in *.
  rewrite u32_small by nia. nia.
Qed.

Lemma get_ok t i v : _sid2mid t !! i = Some (Some v) -> get t i = Ok v.
Proof using. intros H. unfold get. now rewrite H. Qed.

Lemma set_ok t i v : (i < length (_sid2mid t))%nat ->
  set t i v = Ok (mk_rt (<[i := Some v]> (_sid2mid t)) (_cells_head t) (_cell_size t)).
Proof using. intros H. unfold set. destruct (lookup_lt_is_Some_2 _ _ H) as [x ->]. done. Qed.

Definition push_cell (cells : nat -> list Z) (m : nat) (s : Z) : nat -> list Z :=
  fun m' => if decide (m' = m) then cells m ++ [s] else cells m'.

Lemma insert_ok owner curs cells t m s :
  table_ok owner curs cells t -> (m < nm)%nat -> (length (cells m) < lc)%nat ->
  exists t', insert t (Z.of_nat m) s = Ok t' /\ table_ok owner curs (push_cell cells m s) t'.
Proof using Hsmall.
  intros [Hl Hh Hs Ho Hc Hcur He Hr] Hm Hlt. pose proof (cell_off_lt m nm Hm) as Hoff. pose proof (cell_off_le m) as Hge.
  unfold insert. rewrite (cell_ptr_off t m Hh Hs Hm).
  rewrite (get_ok _ _ _ (Hc m Hm)). cbn [mbind res_bind].
  rewrite u32_small by lia.
  replace (Z.to_nat (Z.of_nat (length (cells m)) + 2)) with (2 + length (cells m))%nat by lia.
  rewrite set_ok by lia. cbn [mbind res_bind].
  erewrite get_ok; [|cbn [_sid2mid]; rewrite list_lookup_insert_ne by lia; now apply Hc]. cbn [mbind res_bind].
  rewrite set_ok by (cbn [_sid2mid]; rewrite length_insert; lia). cbn [_sid2mid _cells_head _cell_size].
  eexists. split; [reflexivity|]. split; cbn [_sid2mid _cells_head _cell_size]; try done.
  - now rewrite !length_insert.
  - intros g Hg. rewrite !list_lookup_insert_ne by lia. auto.
  - intros m' Hm'. unfold push_cell. case_decide as Hd.
    + subst m'. rewrite list_lookup_insert_eq by (rewrite length_insert; lia).
      rewrite length_app. cbn [length]. rewrite u32_small by lia. do 2 f_equal. lia.
    + assert (cell_off m' <> cell_off m /\ cell_off m' <> cell_off m + (2 + length (cells m)))%nat as [H1 H2].
      { destruct (Nat.lt_gt_cases m' m) as [[H|H] _]; [done|..]; pose proof (cell_off_lt _ _ H); lia. }
      rewrite !list_lookup_insert_ne by lia. auto.
  - intros m' Hm'. destruct (decide (m' = m)) as [->|Hd].
    + rewrite !list_lookup_insert_ne by lia. auto.
    + assert (cell_off m' + 1 <> cell_off m /\ cell_off m' + 1 <> cell_off m + (2 + length (cells m)))%nat as [H1 H2].
      { destruct (Nat.lt_gt_cases m' m) as [[H|H] _]; [done|..]; pose proof (cell_off_lt _ _ H); lia. }
      rewrite !list_lookup_insert_ne by lia. auto.
  - intros m' k x Hm' Hk. unfold push_cell in Hk. case_decide as Hd.
    + subst m'. rewrite list_lookup_insert_ne by lia. apply lookup_app_Some in Hk as [Hk|[Hk1 Hk2]].
      * pose proof (lookup_lt_Some _ _ _ Hk). rewrite list_lookup_insert_ne by lia. auto.
      * apply list_lookup_singleton_Some in Hk2 as [Hk2 ->].
        replace (cell_off m + 2 + k)%nat with (cell_off m + (2 + length (cells m)))%nat by lia.
        rewrite list_lookup_insert_eq by lia. done.
    + pose proof (Hr m' Hm'). pose proof (lookup_lt_Some _ _ _ Hk).
      assert (cell_off m' + 2 + k <> cell_off m /\ cell_off m' + 2 + k <> cell_off m + (2 + length (cells m)))%nat as [H1 H2].
      { destruct (Nat.lt_gt_cases m' m) as [[Hx|Hx] _]; [done|..]; pose proof (cell_off_lt _ _ Hx); lia. }
      rewrite !list_lookup_insert_ne by lia. auto.
  - intros m' Hm'. unfold push_cell. case_decide; [rewrite length_app; cbn; lia|auto].
Qed.

(** The local shards listed for machine [m], in the order they are inserted. *)
Fixpoint shards_for (m : nat) (sharded_mids : list (list Z)) (i : Z) : list Z :=
  match sharded_mids with
  | [] => []
  | mids :: rest => (if decide (Z.of_nat m ∈ mids) then [i] else []) ++ shards_for m rest (i + 1)
  end.

Lemma insert_mids_ok owner curs i mids : forall cells t,
  table_ok owner curs cells t -> NoDup mids -> Forall (fun mid => 0 <= mid < Z.of_nat nm) mids ->
  (forall m, (m < nm)%nat -> Z.of_nat m ∈ mids -> (length (cells m) < lc)%nat) ->
  exists t' cells', insert_mids mids i t = Ok t' /\ table_ok owner curs cells' t' /\
    forall m, cells' m = cells m ++ (if decide (Z.of_nat m ∈ mids) then [i] else []).
Proof using Hsmall.
  induction mids as [|mid mids IH]; intros cells t Ht Hn Hf Hroom; cbn [insert_mids].
  - exists t, cells. split; [done|]. split; [done|]. intros m. rewrite decide_False by apply not_elem_of_nil.
    now rewrite app_nil_r.
  - apply NoDup_cons in Hn as [Hni Hn]. apply Forall_cons in Hf as [Hmid Hf].
    destruct (Z_of_nat_complete mid ltac:(lia)) as [m0 ->].
    destruct (insert_ok owner curs cells t m0 i Ht) as (t1 & E & H1); [lia|apply Hroom; [lia|left]|].
    rewrite E. cbn [mbind res_bind].
    destruct (IH (push_cell cells m0 i) t1 H1 Hn Hf) as (t2 & cells2 & E2 & H2 & Hc).
    { intros m Hm Hin. unfold push_cell. rewrite decide_False by (intros Em; rewrite Em in Hin; done). apply Hroom; [done|]. now right. }
    exists t2, cells2. split; [done|]. split; [done|]. intros m. rewrite Hc. unfold push_cell.
    destruct (decide (m = m0)) as [->|Hne].
    + rewrite decide_False by done. rewrite decide_True by left. now rewrite app_nil_r.
    + destruct (decide (Z.of_nat m ∈ mids)) as [Hin|Hin].
      * rewrite decide_True by (now right). done.
      * rewrite decide_False; [done|]. rewrite not_elem_of_cons. split; [lia|done].
Qed.

Lemma shards_for_length m sh : forall i, (length (shards_for m sh i) <= length sh)%nat.
Proof using. clear Hsmall num_g nm lc. induction sh as [|mids sh IH]; intros i; cbn; [lia|]. specialize (IH (i + 1)). case_decide; cbn; lia. Qed.

Lemma insert_shards_ok owner curs sh : forall i cells t,
  table_ok owner curs cells t -> Forall (fun mids => NoDup mids /\ Forall (fun mid => 0 <= mid < Z.of_nat nm) mids) sh ->
  (forall m, (m < nm)%nat -> (length (cells m) + length sh <= lc)%nat) ->
  exists t' cells', insert_shards sh i t = Ok t' /\ table_ok owner curs cells' t' /\
    forall m, cells' m = cells m ++ shards_for m sh i.
Proof using Hsmall.
  induction sh as [|mids sh IH]; intros i cells t Ht Hf Hroom; cbn [insert_shards shards_for].
  - exists t, cells. split; [done|]. split; [done|]. intros m. now rewrite app_nil_r.
  - apply Forall_cons in Hf as [[Hn Hmids] Hf]. cbn [length] in Hroom.
    destruct (insert_mids_ok owner curs i mids cells t Ht Hn Hmids) as (t1 & cells1 & E & H1 & Hc1).
    { intros m Hm _. specialize (Hroom m Hm). lia. }
    rewrite E. cbn [mbind res_bind].
    destruct (IH (i + 1) cells1 t1 H1 Hf) as (t2 & cells2 & E2 & H2 & Hc2).
    { intros m Hm. rewrite Hc1, length_app. specialize (Hroom m Hm). case_decide; cbn; lia. }
    exists t2, cells2. split; [done|]. split; [done|]. intros m. now rewrite Hc2, Hc1, <-app_assoc.
Qed.

(** ** The first two loops *)

(** Both only write; what they leave elsewhere is unchanged. *)
Lemma populate_machine_ok k j : forall pos t,
  (pos + k <= length (_sid2mid t))%nat ->
  exists t', populate_machine k j pos t = Ok ((pos + k)%nat, t') /\
    length (_sid2mid t') = length (_sid2mid t) /\ _cells_head t' = _cells_head t /\ _cell_size t' = _cell_size t /\
    (forall g, (pos <= g < pos + k)%nat -> _sid2mid t' !! g = Some (Some j)) /\
    (forall g, ~ (pos <= g < pos + k)%nat -> _sid2mid t' !! g = _sid2mid t !! g).
Proof using.
  clear Hsmall num_g nm lc. induction k as [|k IH]; intros pos t Hb; cbn [populate_machine].
  - exists t. rewrite Nat.add_0_r. repeat (split; [done|]). split; [intros g Hg; lia|done].
  - rewrite set_ok by lia. cbn [mbind res_bind].
    destruct (IH (S pos) (mk_rt (<[pos := Some j]> (_sid2mid t)) (_cells_head t) (_cell_size t)))
      as (t' & E & Hl & Hh & Hs & Hin & Hout); [cbn; rewrite length_insert; lia|].
    cbn [_sid2mid _cells_head _cell_size] in *. rewrite length_insert in Hl.
    exists t'. rewrite E. split; [do 2 f_equal; lia|]. repeat (split; [done|]). split.
    + intros g Hg. destruct (decide (g = pos)) as [->|Hne].
      * rewrite Hout by lia. apply list_lookup_insert_eq. lia.
      * apply Hin. lia.
    + intros g Hg. rewrite Hout by lia. apply list_lookup_insert_ne. lia.
Qed.

Lemma populate_ok nodes k : forall j t,
  Forall (fun c => 0 < nr_cores c) nodes -> (j + k <= length nodes)%nat ->
  total_cores nodes <= Z.of_nat (length (_sid2mid t)) ->
  exists t', populate nodes k j (Z.to_nat (cores_before nodes j)) t = Ok t' /\
    length (_sid2mid t') = length (_sid2mid t) /\ _cells_head t' = _cells_head t /\ _cell_size t' = _cell_size t /\
    (forall m c g, (j <= m < j + k)%nat -> nodes !! m = Some c ->
       cores_before nodes m <= Z.of_nat g < cores_before nodes m + nr_cores c -> _sid2mid t' !! g = Some (Some (Z.of_nat m))) /\
    (forall g, (g < Z.to_nat (cores_before nodes j))%nat -> _sid2mid t' !! g = _sid2mid t !! g).
Proof using.
  clear Hsmall num_g nm lc. induction k as [|k IH]; intros j t Hf Hb Hlen; cbn [populate].
  - exists t. repeat (split; [done|]). split; [intros m c g Hm; lia|done].
  - destruct (lookup_lt_is_Some_2 nodes j) as [c Hc]; [lia|]. rewrite Hc. cbn [of_option mbind res_bind].
    pose proof (proj1 (Forall_lookup _ _) Hf j c Hc) as Hpos. cbn beta in Hpos.
    pose proof (cores_before_le nodes 0 j Hf ltac:(lia)) as H0. unfold cores_before at 1 2 in H0. rewrite take_0 in H0.
    change (total_cores []) with 0 in H0.
    pose proof (cores_before_le nodes (S j) (length nodes) Hf ltac:(lia)) as H1.
    rewrite cores_before_total, (cores_before_S _ _ _ Hc) in H1.
    destruct (populate_machine_ok (Z.to_nat (nr_cores c)) (Z.of_nat j) (Z.to_nat (cores_before nodes j)) t)
      as (t1 & E & Hl1 & Hh1 & Hs1 & Hin1 & Hout1); [lia|].
    rewrite E. cbn [mbind res_bind].
    replace (Z.to_nat (cores_before nodes j) + Z.to_nat (nr_cores c))%nat with (Z.to_nat (cores_before nodes (S j)))
      by (rewrite (cores_before_S _ _ _ Hc); lia).
    destruct (IH (S j) t1 Hf) as (t2 & E2 & Hl2 & Hh2 & Hs2 & Hin2 & Hout2); [lia|lia|].
    exists t2. split; [done|]. split; [congruence|]. split; [congruence|]. split; [congruence|]. split.
    + intros m c' g Hm Hc' Hg. destruct (decide (m = j)) as [->|Hne].
      * simplify_eq. rewrite Hout2; [apply Hin1; lia|]. rewrite (cores_before_S _ _ _ Hc). lia.
      * apply (Hin2 m c' g); [lia|done|done].
    + intros g Hg. rewrite Hout2 by (rewrite (cores_before_S _ _ _ Hc); lia). apply Hout1. lia.
Qed.

Lemma init_cells_ok k : forall i t,
  length (_sid2mid t) = cell_off nm -> _cells_head t = num_g -> _cell_size t = Z.of_nat (2 + lc) -> (i + k <= nm)%nat ->
  exists t', init_cells k i t = Ok t' /\
    length (_sid2mid t') = cell_off nm /\ _cells_head t' = num_g /\ _cell_size t' = Z.of_nat (2 + lc) /\
    (forall g, (g < cell_off i)%nat -> _sid2mid t' !! g = _sid2mid t !! g) /\
    (forall m, (i <= m < i + k)%nat -> _sid2mid t' !! cell_off m = Some (Some 0) /\
                                       _sid2mid t' !! (cell_off m + 1)%nat = Some (Some 2)).
Proof using Hsmall.
  induction k as [|k IH]; intros i t Hl Hh Hs Hb; cbn [init_cells].
  - exists t. repeat (split; [done|]). intros m Hm. lia.
  - assert (Hi : (i < nm)%nat) by lia. pose proof (cell_off_lt i nm Hi) as Hoff.
    pose proof (cell_off_lt i (S i) ltac:(lia)) as HS.
    rewrite (cell_ptr_off t i Hh Hs Hi). rewrite set_ok by lia. cbn [mbind res_bind].
    rewrite set_ok by (cbn [_sid2mid]; rewrite length_insert; lia). cbn [mbind res_bind _sid2mid _cells_head _cell_size].
    edestruct (IH (S i)) as (t' & E & Hl' & Hh' & Hs' & Hout & Hin); [..|rewrite E]; cbn [_sid2mid _cells_head _cell_size].
    + now rewrite !length_insert.
    + done.
    + done.
    + lia.
    + exists t'. repeat (split; [done|]). cbn [_sid2mid] in Hout. split.
      * intros g Hg. rewrite Hout by lia. now rewrite !list_lookup_insert_ne by lia.
      * intros m Hm. destruct (decide (m = i)) as [->|Hne]; [|apply Hin; lia].
        rewrite !Hout by lia. rewrite list_lookup_insert_ne by lia. rewrite list_lookup_insert_eq by lia.
        rewrite list_lookup_insert_eq by (rewrite length_insert; lia). done.
Qed.

End Table.

(** ** build and get_destination *)
Definition nodes_ok (nodes : list worker_node_info) (sharded_mids : list (list Z)) : Prop :=
  Forall (fun c => 0 < nr_cores c) nodes /\
  Forall (fun mids => NoDup mids /\ Forall (fun mid => 0 <= mid < Z.of_nat (length nodes)) mids) sharded_mids /\
  total_cores nodes + (2 + Z.of_nat (length sharded_mids)) * Z.of_nat (length nodes) < 4294967296 /\
  0 < Z.of_nat (length sharded_mids) < 4294967294.

Lemma shards_for_range m sh : forall i s, s ∈ shards_for m sh i -> i <= s < i + Z.of_nat (length sh).
Proof.
  induction sh as [|mids sh IH]; intros i s H; cbn [shards_for length] in *; [now apply not_elem_of_nil in H|].
  apply elem_of_app in H as [H|H].
  - case_decide; [apply list_elem_of_singleton in H; lia|now apply not_elem_of_nil in H].
  - apply IH in H. lia.
Qed.

Lemma build_ok nodes sharded :
  nodes_ok nodes sharded ->
  exists t cells owner, build nodes (length nodes) (total_cores nodes) (Z.of_nat (length sharded)) sharded = Ok t /\
    table_ok (Z.to_nat (total_cores nodes)) (length nodes) (length sharded) owner (fun _ => 2) cells t /\
    (forall m, cells m = shards_for m sharded 0) /\
    (forall m c g, nodes !! m = Some c -> cores_before nodes m <= Z.of_nat g < cores_before nodes m + nr_cores c -> owner g = Z.of_nat m).
Proof.
  intros (Hf & Hsh & Hsz & Hlc). pose proof (total_cores_nonneg nodes Hf) as Ht0.
  set (ng := Z.to_nat (total_cores nodes)). set (nm := length nodes). set (lc := length sharded).
  assert (Hsmall : Z.of_nat (cell_off ng lc nm) < 4294967296) by (unfold cell_off, ng, nm, lc; nia).
  unfold build. rewrite (u32_small (Z.of_nat (length sharded))), Z.eqb_refl by lia. cbn [assert mbind res_bind].
  fold lc nm. rewrite (u32_small (2 + Z.of_nat lc)) by (unfold lc; lia).
  rewrite (u32_small ((2 + Z.of_nat lc) * Z.of_nat nm)) by (unfold lc, nm; nia).
  rewrite u32_small by (unfold lc, nm; nia).
  replace (Z.to_nat (total_cores nodes + (2 + Z.of_nat lc) * Z.of_nat nm)) with (cell_off ng lc nm) by (unfold cell_off, ng; nia).
  fold ng. set (t0 := mk_rt _ ng _).
  assert (Hl0 : length (_sid2mid t0) = cell_off ng lc nm) by apply length_replicate.
  destruct (populate_ok nodes nm 0 t0 Hf) as (t1 & E1 & Hl1 & Hh1 & Hs1 & Hin1 & _); [unfold nm; lia| |].
  { rewrite Hl0. pose proof (cell_off_le ng lc nm). unfold ng in *. lia. }
  change (Z.to_nat (cores_before nodes 0)) with 0%nat in E1. rewrite E1. cbn [mbind res_bind].
  rewrite Hl0 in Hl1.
  destruct (init_cells_ok ng nm lc Hsmall nm 0 t1 Hl1 Hh1) as (t2 & E2 & Hl2 & Hh2 & Hs2 & Hout2 & Hin2);
    [rewrite Hs1; cbn; lia|lia|]. rewrite E2. cbn [mbind res_bind].
  set (owner := fun g => match _sid2mid t2 !! g with Some (Some v) => v | _ => 0 end).
  assert (Hown : forall m c g, nodes !! m = Some c ->
    cores_before nodes m <= Z.of_nat g < cores_before nodes m + nr_cores c -> _sid2mid t2 !! g = Some (Some (Z.of_nat m))).
  { intros m c g Hm Hg. pose proof (lookup_lt_Some _ _ _ Hm). rewrite Hout2.
    - apply (Hin1 m c g); [unfold nm; lia|done|done].
    - unfold cell_off. rewrite Nat.mul_0_r, Nat.add_0_r. unfold ng.
      rewrite <-(cores_before_S _ _ _ Hm) in Hg. pose proof (cores_before_le nodes (S m) (length nodes) Hf ltac:(lia)) as Hle.
      rewrite cores_before_total in Hle. lia. }
  assert (H2 : table_ok ng nm lc owner (fun _ => 2) (fun _ => []) t2).
  { split; try done.
    - intros g Hg. destruct (owner_exists nodes (Z.of_nat g) Hf) as (m & c & Hm & Hr); [unfold ng in Hg; lia|].
      unfold owner. now rewrite (Hown m c g Hm Hr).
    - intros m Hm. apply (Hin2 m). lia.
    - intros m Hm. apply (Hin2 m). lia.
    - intros; cbn; lia. }
  destruct (insert_shards_ok ng nm lc Hsmall owner (fun _ => 2) sharded 0 (fun _ => []) t2 H2) as (t3 & cells & E3 & H3 & Hc); [done|cbn; lia|].
  exists t3, cells, owner. split; [done|]. split; [done|]. split; [done|].
  intros m c g Hm Hg. unfold owner. now rewrite (Hown m c g Hm Hg).
Qed.

Lemma route_ok nodes sharded g m c :
  nodes_ok nodes sharded -> nodes !! m = Some c ->
  cores_before nodes m <= g < cores_before nodes m + nr_cores c ->
  shards_for m sharded 0 <> [] ->
  exists t s, build nodes (length nodes) (total_cores nodes) (Z.of_nat (length sharded)) sharded = Ok t /\
    get_destination t g = Ok (mk_dest (Z.of_nat m) s) /\
    shards_for m sharded 0 !! Z.to_nat (g mod Z.of_nat (length (shards_for m sharded 0))) = Some s.
Proof.
  intros Hok Hm Hg Hne. destruct (build_ok nodes sharded Hok) as (t & cells & owner & E & Ht & Hc & Ho).
  pose proof Hok as (Hf & _ & Hsz & Hlc). pose proof (lookup_lt_Some _ _ _ Hm) as Hml.
  pose proof (cores_before_le nodes 0 m Hf ltac:(lia)) as H0. unfold cores_before at 1 2 in H0. rewrite take_0 in H0.
  change (total_cores []) with 0 in H0.
  pose proof (cores_before_le nodes (S m) (length nodes) Hf ltac:(lia)) as H1.
  rewrite cores_before_total, (cores_before_S _ _ _ Hm) in H1.
  assert (Hsmall : Z.of_nat (cell_off (Z.to_nat (total_cores nodes)) (length sharded) (length nodes)) < 4294967296)
    by (unfold cell_off; nia).
  set (l := shards_for m sharded 0) in *. assert (Hlen : 0 < Z.of_nat (length l)) by (destruct l; [done|cbn; lia]).
  pose proof (Z.mod_pos_bound g (Z.of_nat (length l)) Hlen) as Hmod.
  assert (Hll : (length l <= length sharded)%nat) by apply shards_for_length.
  destruct (lookup_lt_is_Some_2 l (Z.to_nat (g mod Z.of_nat (length l)))) as [s Hs]; [lia|].
  exists t, s. split; [done|]. split; [|done]. unfold get_destination.
  erewrite get_ok; [|apply (rt_owner _ _ _ _ _ _ _ Ht); lia]. cbn [mbind res_bind].
  rewrite (Ho m c (Z.to_nat g) Hm) by lia.
  rewrite (cell_ptr_off _ _ _ Hsmall t m (rt_head _ _ _ _ _ _ _ Ht) (rt_size _ _ _ _ _ _ _ Ht) Hml).
  erewrite get_ok; [|now apply (rt_count _ _ _ _ _ _ _ Ht)]. cbn [mbind res_bind].
  rewrite Hc. fold l. rewrite modulo_ok by done. cbn [mbind res_bind]. rewrite u32_small by lia.
  replace (cell_off (Z.to_nat (total_cores nodes)) (length sharded) m + Z.to_nat (g mod Z.of_nat (length l) + 2))%nat
    with (cell_off (Z.to_nat (total_cores nodes)) (length sharded) m + 2 + Z.to_nat (g mod Z.of_nat (length l)))%nat by lia.
  erewrite get_ok; [|apply (rt_entry _ _ _ _ _ _ _ Ht); [done|rewrite Hc; exact Hs]]. done.
Qed.

(** A machine no shard holds a connection to (the machine itself, above all) cannot be
    routed to: its cell is empty and the lookup divides by its size. *)
Theorem route_to_unmanaged nodes sharded g m c :
  nodes_ok nodes sharded -> nodes !! m = Some c ->
  cores_before nodes m <= g < cores_before nodes m + nr_cores c -> shards_for m sharded 0 = [] ->
  exists t, build nodes (length nodes) (total_cores nodes) (Z.of_nat (length sharded)) sharded = Ok t /\
    get_destination t g = Fault DivByZero.
Proof.
  intros Hok Hm Hg He. destruct (build_ok nodes sharded Hok) as (t & cells & owner & E & Ht & Hc & Ho).
  pose proof Hok as (Hf & _ & Hsz & Hlc). pose proof (lookup_lt_Some _ _ _ Hm) as Hml.
  pose proof (cores_before_le nodes 0 m Hf ltac:(lia)) as H0. unfold cores_before at 1 2 in H0. rewrite take_0 in H0.
  change (total_cores []) with 0 in H0.
  pose proof (cores_before_le nodes (S m) (length nodes) Hf ltac:(lia)) as H1.
  rewrite cores_before_total, (cores_before_S _ _ _ Hm) in H1.
  assert (Hsmall : Z.of_nat (cell_off (Z.to_nat (total_cores nodes)) (length sharded) (length nodes)) < 4294967296)
    by (unfold cell_off; nia).
  exists t. split; [done|]. unfold get_destination.
  erewrite get_ok; [|apply (rt_owner _ _ _ _ _ _ _ Ht); lia]. cbn [mbind res_bind].
  rewrite (Ho m c (Z.to_nat g) Hm) by lia.
  rewrite (cell_ptr_off _ _ _ Hsmall t m (rt_head _ _ _ _ _ _ _ Ht) (rt_size _ _ _ _ _ _ _ Ht) Hml).
  erewrite get_ok; [|now apply (rt_count _ _ _ _ _ _ _ Ht)]. cbn [mbind res_bind].
  now rewrite Hc, He.
Qed.


(** ** The round-robin variant *)

Fixpoint destinations_rr (k : nat) (t : routing_table) (g : Z) : res (list Z) :=
  match k with
  | O => Ok []
  | S k => '(d, t) ← get_destination_rr t g; l ← destinations_rr k t g; Ok (d_target_sid d :: l)
  end.

Section RoundRobin.
Context (ng nm lc : nat) (owner : nat -> Z) (cells : nat -> list Z).
Context (Hsmall : Z.of_nat (cell_off ng lc nm) < 4294967296).

Lemma set_cur_ok curs t m v :
  table_ok ng nm lc owner curs cells t -> (m < nm)%nat ->
  exists t', set t (cell_off ng lc m + 1) v = Ok t' /\
    table_ok ng nm lc owner (fun m' => if decide (m' = m) then v else curs m') cells t'.
Proof using Hsmall.
  intros [Hl Hh Hs Ho Hc Hcur He Hr] Hm. pose proof (cell_off_lt ng lc m nm Hm) as Hoff.
  pose proof (cell_off_le ng lc m) as Hge. rewrite set_ok by lia. eexists. split; [reflexivity|].
  assert (Hne : forall m', m' <> m -> (cell_off ng lc m' + 2 + lc <= cell_off ng lc m \/ cell_off ng lc m + 2 + lc <= cell_off ng lc m')%nat).
  { intros m' H. destruct (Nat.lt_gt_cases m' m) as [[Hx|Hx] _]; [done|left|right]; now apply cell_off_lt. }
  split; cbn [_sid2mid _cells_head _cell_size]; try done.
  - now rewrite length_insert.
  - intros g Hg. rewrite list_lookup_insert_ne by lia. auto.
  - intros m' Hm'. rewrite list_lookup_insert_ne; [auto|]. destruct (decide (m' = m)) as [->|H]; [lia|].
    specialize (Hne m' H). lia.
  - intros m' Hm'. case_decide as Hd.
    + subst m'. now rewrite list_lookup_insert_eq by lia.
    + specialize (Hne m' Hd). rewrite list_lookup_insert_ne by lia. auto.
  - intros m' k x Hm' Hk. pose proof (lookup_lt_Some _ _ _ Hk). pose proof (Hr m' Hm').
    rewrite list_lookup_insert_ne; [auto|]. destruct (decide (m' = m)) as [->|H']; [lia|]. specialize (Hne m' H'). lia.
Qed.

Lemma destinations_rr_ok g m k : forall x curs t,
  table_ok ng nm lc owner curs cells t -> (m < nm)%nat -> (g < ng)%nat -> owner g = Z.of_nat m ->
  cells m <> [] -> Z.of_nat (length (cells m)) < 4294967290 ->
  curs m = 2 + x mod Z.of_nat (length (cells m)) ->
  destinations_rr k t (Z.of_nat g) =
    Ok ((fun i => default 0 (cells m !! Z.to_nat ((x + 3 * Z.of_nat i) mod Z.of_nat (length (cells m))))) <$> seq 0 k).
Proof using Hsmall.
  induction k as [|k IH]; intros x curs t Ht Hm Hg Ho Hne Hbig Hcur; cbn [destinations_rr]; [done|].
  pose proof Ht as [Hl Hh Hs Hown Hc Hcu He Hr].
  set (n := Z.of_nat (length (cells m))) in *. assert (Hn : 0 < n) by (unfold n; destruct (cells m); [done|cbn; lia]).
  pose proof (Z.mod_pos_bound x n Hn) as Hx. pose proof (Hr m Hm) as Hroom.
  destruct (lookup_lt_is_Some_2 (cells m) (Z.to_nat (x mod n))) as [s Hsx]; [unfold n in *; lia|].
  unfold get_destination_rr. rewrite Nat2Z.id.
  rewrite (get_ok t g (owner g)) by (now apply Hown). cbn [mbind res_bind]. rewrite Ho.
  rewrite (cell_ptr_off ng nm lc Hsmall t m Hh Hs Hm).
  rewrite (get_ok t (cell_off ng lc m + 1) (curs m)) by (now apply Hcu). cbn [mbind res_bind]. rewrite Hcur.
  replace (cell_off ng lc m + Z.to_nat (2 + x mod n))%nat with (cell_off ng lc m + 2 + Z.to_nat (x mod n))%nat by lia.
  rewrite (get_ok t (cell_off ng lc m + 2 + Z.to_nat (x mod n)) s) by (now apply He). cbn [mbind res_bind].
  rewrite (get_ok t (cell_off ng lc m) n) by (now apply Hc). cbn [mbind res_bind].
  rewrite u32_small, modulo_ok by lia. cbn [mbind res_bind].
  assert (Hnext : (2 + x mod n + 1) mod n = (x + 3) mod n).
  { replace (2 + x mod n + 1) with (x mod n + 3) by lia. now rewrite Zplus_mod_idemp_l. }
  rewrite Hnext. pose proof (Z.mod_pos_bound (x + 3) n Hn) as Hx3. rewrite u32_small by lia.
  destruct (set_cur_ok curs t m ((x + 3) mod n + 2) Ht Hm) as (t' & E & Ht'). rewrite E. cbn [mbind res_bind].
  rewrite (IH (x + 3) _ t' Ht' Hm Hg Ho Hne Hbig); [|cbn beta; rewrite decide_True by done; fold n; lia].
  cbn [mbind res_bind d_target_sid seq fmap list_fmap]. fold n. rewrite Z.mul_0_r, Z.add_0_r, Hsx. cbn [default].
  do 2 f_equal. rewrite <-fmap_S_seq, <-list_fmap_compose. apply list_fmap_ext. intros i y _. unfold compose.
  do 4 f_equal. lia.
Qed.

End RoundRobin.

(** The round-robin variant advances by three instead of one: of the [n] proxy shards of
    a machine, the k-th message to it uses number [3 k mod n], so a machine with three
    proxies is only ever reached through the first, and one with a multiple of three
    through a third of them. *)
Theorem round_robin_steps_by_three nodes sharded g m c k :
  nodes_ok nodes sharded -> nodes !! m = Some c ->
  cores_before nodes m <= g < cores_before nodes m + nr_cores c ->
  let l := shards_for m sharded 0 in
  l <> [] -> Z.of_nat (length sharded) < 4294967290 ->
  exists t, build nodes (length nodes) (total_cores nodes) (Z.of_nat (length sharded)) sharded = Ok t /\
    destinations_rr k t g =
      Ok ((fun i => default 0 (l !! Z.to_nat (3 * Z.of_nat i mod Z.of_nat (length l)))) <$> seq 0 k).
Proof.
  intros Hok Hm Hg l Hne Hbig. destruct (build_ok nodes sharded Hok) as (t & cells & owner & E & Ht & Hc & Ho).
  pose proof Hok as (Hf & _ & Hsz & Hlc). pose proof (lookup_lt_Some _ _ _ Hm) as Hml.
  pose proof (cores_before_le nodes 0 m Hf ltac:(lia)) as H0. unfold cores_before at 1 2 in H0. rewrite take_0 in H0.
  change (total_cores []) with 0 in H0.
  pose proof (cores_before_le nodes (S m) (length nodes) Hf ltac:(lia)) as H1.
  rewrite cores_before_total, (cores_before_S _ _ _ Hm) in H1.
  assert (Hsmall : Z.of_nat (cell_off (Z.to_nat (total_cores nodes)) (length sharded) (length nodes)) < 4294967296)
    by (unfold cell_off; nia).
  assert (Hll : (length l <= length sharded)%nat) by apply shards_for_length.
  exists t. split; [done|]. rewrite <-(Z2Nat.id g) at 1 by lia.
  rewrite (destinations_rr_ok _ _ _ owner cells Hsmall (Z.to_nat g) m k 0 (fun _ => 2) t Ht);
    rewrite ?Hc; fold l; try done; try lia.
  - rewrite (Ho m c (Z.to_nat g) Hm) by lia. done.
Qed.

(** ** Two machines; three shards of this one hold connections to the other *)
Definition sample_nodes : list worker_node_info := [mk_node 0 3 (mk_addr 1 9000); mk_node 1 2 (mk_addr 2 9000)].
Definition sample_mids : list (list Z) := [[1]; [1]; [1]].

Lemma sample_nodes_ok : nodes_ok sample_nodes sample_mids.
Proof.
  split; [repeat constructor; done|]. split; [|split; [done|done]].
  repeat (apply Forall_cons; split; [split; [apply NoDup_singleton|apply Forall_singleton; cbn; lia]|]). constructor.
Qed.


Lemma route_to_unmanaged_witness :
  exists t, build sample_nodes 2 5 3 sample_mids = Ok t /\ get_destination t 2 = Fault DivByZero.
Proof. refine (route_to_unmanaged sample_nodes sample_mids 2 0 _ sample_nodes_ok eq_refl _ _); [vm_compute; split; [discriminate|reflexivity]|reflexivity]. Defined.

Lemma round_robin_steps_by_three_witness :
  exists t, build sample_nodes 2 5 3 sample_mids = Ok t /\ destinations_rr 4 t 3 = Ok [0; 0; 0; 0].
Proof.
  refine (round_robin_steps_by_three sample_nodes sample_mids 3 1 _ 4 sample_nodes_ok eq_refl _ _ _);
    [vm_compute; split; [discriminate|reflexivity]|discriminate|reflexivity].
Defined.
