(* ===== verification/NetworkChannel.v ===== *)
(** * The network channel

    [network_channel] and [network_message_queue] (src/include/hiactor/net/network_channel.hh,
    src/src/net/network_channel.cc).  A message for another machine goes through the
    shard that the routing table names as the proxy for its target: that shard's buffer
    for the machine, directly or over the queue between the two shards.

    The queues are those of [MessageQueue] with a [message_item] as element, the queue
    matrix is that of [Channels], the buffers are [DynamicQueue]s, one per shard and
    machine, the table is [RoutingTable].  [local_shard_id()] is the argument [sid]. *)
From S2P Require Import Prelude NetworkConfig RoutingTable MessageQueue Channels DynamicQueue.

(** ** network_message_queue *)
Record message_item {Msg : Type} := mk_item { mach_id : Z; msg : Msg }.
Arguments message_item : clear implicits.
Arguments mk_item {Msg} _ _.

Section Network.
Context {Msg Ex R : Type} {SQ : Spsc R (message_item Msg)}.
(** [msg->hdr.addr.get_shard_id()] *)
Variable dest_shard : Msg -> Z.

Abbreviation net_queue := (message_queue (R := R) (M := message_item Msg)).
Abbreviation net_buffer := (dynamic_queue (T := Msg) (E := Ex)).
Abbreviation buffers := (list (list net_buffer)).

Definition net_queue_new : net_queue := message_queue_new.
Definition net_start (q : net_queue) : net_queue := start q.
Definition net_send (q : net_queue) (mi : message_item Msg) : res (Z * net_queue) := MessageQueue.send q mi.
Definition net_send_urgent (q : net_queue) (mi : message_item Msg) : res (Z * net_queue) := send_urgent q mi.
Definition net_flush_request_batch (q : net_queue) : res (Z * net_queue) := flush_request_batch q.
Definition net_pure_poll_rx (q : net_queue) : bool := pure_poll_rx q.

(** [~network_message_queue()] of queue [i][j]: the sender side is destroyed unless both
    ends are the same shard. *)
Definition net_queue_destroy (i j : nat) (q : net_queue) : res unit :=
  if decide (i <> j) then _ ← fifo q; Ok tt else Ok tt.

(** ** network_channel *)
Record network := mk_network {
  _routing_tbl : routing_table;
  net_qs : channel (R := R) (M := message_item Msg);
  _cms : buffers                    (* _cms[sid]._buffers.get(mach_id) *)
}.

Definition net_create_qs (nr_cpu : nat) : channel (R := R) (M := message_item Msg) := create_qs nr_cpu.

(** [qs_deleter::operator()]. *)
Fixpoint destroy_row (i : nat) (js : list nat) (ch : channel (R := R) (M := message_item Msg)) : res unit :=
  match js with
  | [] => Ok tt
  | j :: js => q ← at_ ch i j; _ ← net_queue_destroy i j q; destroy_row i js ch
  end.
Fixpoint destroy_rows (rows : list nat) (ch : channel (R := R) (M := message_item Msg)) : res unit :=
  match rows with
  | [] => Ok tt
  | i :: rows => _ ← destroy_row i (seq 0 (count ch)) ch; destroy_rows rows ch
  end.
Definition qs_deleter (ch : channel (R := R) (M := message_item Msg)) : res unit :=
  destroy_rows (seq 0 (count ch)) ch.

(** [push_to_buffer]: the exception of an aborted buffer is swallowed. *)
Definition push_to_buffer (bufs : buffers) (sid : nat) (mach : Z) (m : Msg) : res buffers :=
  row ← of_option OutOfBounds (bufs !! sid);
  buf ← of_option OutOfBounds (row !! Z.to_nat mach);
  Ok (<[sid := <[Z.to_nat mach := snd (push_eventually buf m)]> row]> bufs).

Definition send (urgent : bool) (sid : nat) (m : Msg) (n : network) : res network :=
  dst ← get_destination (_routing_tbl n) (dest_shard m);
  if decide (d_target_sid dst = Z.of_nat sid) then
    bufs ← push_to_buffer (_cms n) sid (d_machine_id dst) m;
    Ok (mk_network (_routing_tbl n) (net_qs n) bufs)
  else
    q ← at_ (net_qs n) (Z.to_nat (d_target_sid dst)) sid;
    '(_, q) ← (if urgent then net_send_urgent q else net_send q) (mk_item (d_machine_id dst) m);
    Ok (mk_network (_routing_tbl n) (upd (net_qs n) (Z.to_nat (d_target_sid dst)) sid q) (_cms n)).

Fixpoint push_items (bufs : buffers) (sid : nat) (items : list (message_item Msg)) : res buffers :=
  match items with
  | [] => Ok bufs
  | mi :: items => bufs ← push_to_buffer bufs sid (mach_id mi) (msg mi); push_items bufs sid items
  end.

(** [network_message_queue::process_incoming]: the popped items go to the buffers of the
    shard. *)
Definition net_process_incoming (bufs : buffers) (sid : nat) (q : net_queue) : res (Z * net_queue * buffers) :=
  '(items, nr, q) ← process_incoming q;
  bufs ← push_items bufs sid items;
  Ok (nr, q, bufs).

Fixpoint net_poll_loop (shards : list nat) (sid : nat) (n : network) (got : Z) : res (Z * network) :=
  match shards with
  | [] => Ok (got, n)
  | i :: shards =>
      if decide (sid <> i) then
        rxq ← at_ (net_qs n) sid i;
        '(nr, rxq, bufs) ← net_process_incoming (_cms n) sid rxq;
        let ch := upd (net_qs n) sid i rxq in
        txq ← at_ ch i sid;
        '(_, txq) ← net_flush_request_batch txq;
        net_poll_loop shards sid (mk_network (_routing_tbl n) (upd ch i sid txq) bufs) (u64 (got + nr))
      else net_poll_loop shards sid n got
  end.
Definition net_poll_queues (sid : nat) (n : network) : res (bool * network) :=
  '(got, n) ← net_poll_loop (seq 0 (count (net_qs n))) sid n 0;
  Ok (negb (got =? 0), n).

(** ** What the buffers hold *)

(** The messages for machine [k], in order. *)
Definition for_machine (k : Z) (items : list (message_item Msg)) : list Msg :=
  msg <$> filter (fun mi => mach_id mi = k) items.

(** [nm] buffers on every one of [ns] shards; none aborted. *)
Definition bufs_ok (ns nm : nat) (bufs : buffers) : Prop := length bufs = ns /\ Forall (fun row => length row = nm) bufs.
Definition bufs_live (bufs : buffers) : Prop := Forall (Forall (fun b : net_buffer => _ex b = None)) bufs.

(** What buffer [k] of shard [sid] holds. *)
Definition held (bufs : buffers) (sid : nat) (k : Z) : list Msg :=
  match bufs !! sid with
  | Some row => match row !! Z.to_nat k with Some b => _q b | None => [] end
  | None => []
  end.

Definition mach_ok (nm : nat) (mi : message_item Msg) : Prop := 0 <= mach_id mi < Z.of_nat nm.

Lemma for_machine_app k l1 l2 : for_machine k (l1 ++ l2) = for_machine k l1 ++ for_machine k l2.
Proof. unfold for_machine. now rewrite filter_app, fmap_app. Qed.

Lemma push_eventually_ok (b : net_buffer) m :
  _ex b = None -> _q (snd (push_eventually b m)) = _q b ++ [m] /\ _ex (snd (push_eventually b m)) = None.
Proof.
  intros H. unfold push_eventually. rewrite H. cbn. unfold notify_not_empty. cbn. destruct (_not_empty b); done.
Qed.

Lemma push_to_buffer_ok ns nm bufs sid mi :
  bufs_ok ns nm bufs -> (sid < ns)%nat -> mach_ok nm mi ->
  exists bufs', push_to_buffer bufs sid (mach_id mi) (msg mi) = Ok bufs' /\ bufs_ok ns nm bufs' /\
    (bufs_live bufs -> bufs_live bufs' /\
     forall s k, 0 <= k -> held bufs' s k = held bufs s k ++ (if decide (s = sid) then for_machine k [mi] else [])).
Proof.
  intros [Hl Hf] Hs Hm. unfold mach_ok in Hm. unfold push_to_buffer.
  destruct (lookup_lt_is_Some_2 bufs sid) as [row Hr]; [lia|]. rewrite Hr. cbn [of_option mbind res_bind].
  pose proof (Forall_lookup_1 _ _ _ _ Hf Hr) as Hrl. cbn beta in Hrl.
  destruct (lookup_lt_is_Some_2 row (Z.to_nat (mach_id mi))) as [b Hb]; [lia|]. rewrite Hb. cbn [of_option mbind res_bind].
  eexists. split; [reflexivity|]. split.
  - split; [now rewrite length_insert|]. apply Forall_insert; [done|]. now rewrite length_insert.
  - intros Hlive. pose proof (Forall_lookup_1 _ _ _ _ Hlive Hr) as Hrf. pose proof (Forall_lookup_1 _ _ _ _ Hrf Hb) as Hex. cbn in Hex.
    destruct (push_eventually_ok b (msg mi) Hex) as [Hq Hx]. split; [apply Forall_insert; [done|]; now apply Forall_insert|]. intros s k Hk. unfold held. destruct (decide (s = sid)) as [->|Hne].
    + rewrite list_lookup_insert_eq, Hr by lia. unfold for_machine. rewrite filter_cons, filter_nil.
      destruct (decide (mach_id mi = k)) as [<-|Hk'].
      * rewrite list_lookup_insert_eq, Hb by lia. exact Hq.
      * rewrite list_lookup_insert_ne by lia. cbn. now rewrite app_nil_r.
    + rewrite list_lookup_insert_ne by done. now rewrite app_nil_r.
Qed.

Lemma push_items_ok ns nm sid items : forall bufs,
  bufs_ok ns nm bufs -> (sid < ns)%nat -> Forall (mach_ok nm) items ->
  exists bufs', push_items bufs sid items = Ok bufs' /\ bufs_ok ns nm bufs' /\
    (bufs_live bufs -> bufs_live bufs' /\
     forall s k, 0 <= k -> held bufs' s k = held bufs s k ++ (if decide (s = sid) then for_machine k items else [])).
Proof.
  induction items as [|mi items IH]; intros bufs Hb Hs Hm; cbn [push_items].
  - exists bufs. split; [done|]. split; [done|]. intros Hl. split; [done|]. intros s k _. case_decide; now rewrite app_nil_r.
  - apply Forall_cons in Hm as [Hmi Hm].
    destruct (push_to_buffer_ok ns nm bufs sid mi Hb Hs Hmi) as (b1 & -> & Hb1 & H1). cbn [mbind res_bind].
    destruct (IH b1 Hb1 Hs Hm) as (b2 & E2 & Hb2 & H2). exists b2. split; [exact E2|]. split; [done|].
    intros Hl. destruct (H1 Hl) as [Hl1 Hh1]. destruct (H2 Hl1) as [Hl2 Hh2]. split; [done|].
    intros s k Hk. rewrite Hh2, Hh1, <-app_assoc by done. f_equal. case_decide; [|done].
    change (mi :: items) with ([mi] ++ items). now rewrite for_machine_app.
Qed.

(** The buffer of shard [sid] for machine [k]. *)
Definition buffer_of (bufs : buffers) (sid : nat) (k : Z) : option net_buffer := row ← bufs !! sid; row !! Z.to_nat k.
Definition push_msgs (ms : list Msg) (b : net_buffer) : net_buffer := foldl (fun b m => snd (push_eventually b m)) b ms.

Lemma push_to_buffer_buffer bufs sid mach m bufs' s k :
  push_to_buffer bufs sid mach m = Ok bufs' -> 0 <= mach -> 0 <= k ->
  buffer_of bufs' s k = (if decide (s = sid /\ mach = k) then push_msgs [m] <$> buffer_of bufs s k else buffer_of bufs s k).
Proof using. clear dest_shard.
  unfold push_to_buffer. intros H Hm Hk. destruct (bufs !! sid) as [row|] eqn:Er; [|done]. cbn [of_option mbind res_bind] in H.
  destruct (row !! Z.to_nat mach) as [b|] eqn:Eb; [|done]. cbn [of_option mbind res_bind] in H. injection H as <-. unfold buffer_of.
  pose proof (lookup_lt_Some _ _ _ Er). pose proof (lookup_lt_Some _ _ _ Eb). destruct (decide (s = sid)) as [->|Hs].
  - rewrite list_lookup_insert_eq, Er by done. cbn [mbind option_bind]. destruct (decide (mach = k)) as [->|Hne].
    + rewrite decide_True, list_lookup_insert_eq, Eb by done. done.
    + rewrite decide_False, list_lookup_insert_ne by (lia || tauto). done.
  - rewrite decide_False, list_lookup_insert_ne by (tauto || congruence). done.
Qed.

Lemma for_machine_one k k' m : for_machine k' [mk_item k m] = if decide (k = k') then [m] else [].
Proof. unfold for_machine. rewrite filter_cons, filter_nil. cbn. now case_decide. Qed.

Lemma push_items_buffer sid items : forall bufs bufs' s k,
  push_items bufs sid items = Ok bufs' -> Forall (fun mi => 0 <= mach_id mi) items -> 0 <= k ->
  buffer_of bufs' s k = (if decide (s = sid) then push_msgs (for_machine k items) <$> buffer_of bufs s k else buffer_of bufs s k).
Proof using. clear dest_shard.
  induction items as [|mi items IH]; intros bufs bufs' s k H Hi Hk; cbn [push_items] in H.
  - injection H as <-. case_decide; [|done]. cbn. now destruct (buffer_of bufs s k).
  - apply Forall_cons in Hi as [Hmi Hi]. apply bind_ok in H as (b1 & H1 & H). rewrite (IH _ _ s k H Hi Hk).
    rewrite (push_to_buffer_buffer _ _ _ _ _ s k H1 Hmi Hk). unfold for_machine. rewrite filter_cons.
    destruct (decide (s = sid)) as [->|Hs]; [|now rewrite decide_False by tauto].
    destruct (decide (mach_id mi = k)) as [->|Hne]; [rewrite decide_True by done|now rewrite decide_False by tauto].
    cbn [fmap list_fmap]. now destruct (buffer_of bufs sid k).
Qed.

Lemma push_items_app bufs sid l1 l2 :
  push_items bufs sid (l1 ++ l2) = bufs1 ← push_items bufs sid l1; push_items bufs1 sid l2.
Proof.
  revert bufs. induction l1 as [|mi l1 IH]; intros bufs; cbn [push_items app]; [done|].
  destruct (push_to_buffer bufs sid (mach_id mi) (msg mi)); cbn [mbind res_bind]; [apply IH|done].
Qed.

(** The poll is the channel's poll, whose messages go to the buffers of the shard. *)
Lemma net_poll_loop_spec sid shards : forall tbl ch bufs got got' rcvd l ch' bufs',
  poll_loop shards sid ch got rcvd = Ok (got', rcvd ++ l, ch') -> push_items bufs sid l = Ok bufs' ->
  net_poll_loop shards sid (mk_network tbl ch bufs) got = Ok (got', mk_network tbl ch' bufs').
Proof.
  induction shards as [|i shards IH]; intros tbl ch bufs got got' rcvd l ch' bufs' H Hp;
    cbn [poll_loop net_poll_loop] in *.
  - injection H as <- Hl <-. rewrite <-(app_nil_r rcvd) in Hl at 1. apply app_inv_head in Hl as <-.
    cbn in Hp. congruence.
  - case_decide; [|eapply IH; eassumption]. cbn [net_qs _cms _routing_tbl].
    destruct (at_ ch sid i) as [rxq|] eqn:E1; [|done]. cbn [mbind res_bind] in *. unfold net_process_incoming.
    destruct (process_incoming rxq) as [[[l1 n1] rxq']|] eqn:E2; [|done]. cbn [mbind res_bind] in *.
    destruct (at_ (upd ch sid i rxq') i sid) as [txq|] eqn:E3; [|done]. cbn [mbind res_bind] in *.
    destruct (flush_request_batch txq) as [[m txq']|] eqn:E4; [|done]. cbn [mbind res_bind] in *.
    assert (Hl : exists l2, l = l1 ++ l2).
    { clear -H. revert H. generalize (upd (upd ch sid i rxq') i sid txq'), (u64 (got + n1)).
      intros c g H. apply poll_loop_prefix in H as [l2 E]. rewrite <-app_assoc in E.
      apply app_inv_head in E. eauto. }
    destruct Hl as [l2 ->]. rewrite push_items_app in Hp.
    destruct (push_items bufs sid l1) as [b1|] eqn:Ep; [|done]. cbn [mbind res_bind] in Hp |- *.
    rewrite E3. cbn [mbind res_bind]. unfold net_flush_request_batch. rewrite E4. cbn [mbind res_bind].
    rewrite app_assoc in H. eapply IH; eassumption.
Qed.

(** ** The network channel of a machine with [ns] shards in a cluster of [nm] machines *)
Definition items_ok (nm : nat) (ch : channel (R := R) (M := message_item Msg)) : Prop :=
  forall i j, (i < count ch)%nat -> (j < count ch)%nat -> Forall (mach_ok nm) (contents (_qs ch i j)).

Record net_ok (ns nm : nat) (n : network) : Prop := {
  n_chan : chan_ok (net_qs n);
  n_count : count (net_qs n) = ns;
  n_bufs : bufs_ok ns nm (_cms n);
  n_items : items_ok nm (net_qs n)
}.

Lemma arriving_items nm ch sid :
  items_ok nm ch -> (sid < count ch)%nat -> Forall (mach_ok nm) (arriving ch sid (seq 0 (count ch))).
Proof.
  intros H Hs. unfold arriving. assert (Hl : forall l, Forall (fun i => (i < count ch)%nat) l ->
    Forall (mach_ok nm) (mjoin ((fun i => ring (_pending (_qs ch sid i))) <$> l))).
  { induction 1 as [|i l Hi Hl IH]; [constructor|]. cbn. apply Forall_app. split; [|exact IH].
    specialize (H sid i Hs Hi). unfold contents in H. now apply Forall_app in H as [H _]. }
  apply Hl. apply Forall_forall. intros x Hx. apply list_elem_of_filter in Hx as [_ Hx]. apply elem_of_seq in Hx. lia.
Qed.

Lemma polled_items nm sid shards ch ch' :
  items_ok nm ch -> count ch' = count ch -> (forall i j, polled sid shards ch ch' i j) -> items_ok nm ch'.
Proof.
  intros H Hc Hp i j Hi Hj. rewrite Hc in *. specialize (H i j Hi Hj). specialize (Hp i j). unfold polled in Hp.
  case_decide; [|case_decide]; [rewrite Hp|destruct Hp as [-> _]; done|now rewrite Hp].
  unfold contents in H. now apply Forall_app in H as [_ H].
Qed.

(** One poll of a shard: what arrived over the queues goes to its buffers, by machine and
    in order. *)
Lemma net_poll_ok ns nm n sid :
  net_ok ns nm n -> (sid < ns)%nat -> Z.of_nat ns < 4294967296 ->
  exists b n', net_poll_queues sid n = Ok (b, n') /\ net_ok ns nm n' /\ _routing_tbl n' = _routing_tbl n /\
    (forall i j, polled sid (seq 0 ns) (net_qs n) (net_qs n') i j) /\
    (bufs_live (_cms n) -> bufs_live (_cms n') /\ forall s k, 0 <= k -> held (_cms n') s k =
      held (_cms n) s k ++ (if decide (s = sid) then for_machine k (arriving (net_qs n) sid (seq 0 ns)) else [])) /\
    push_items (_cms n) sid (arriving (net_qs n) sid (seq 0 ns)) = Ok (_cms n').
Proof.
  intros [Hc Hn Hb Hi] Hs Hns. destruct n as [tbl ch bufs]. cbn [net_qs _cms _routing_tbl] in *. subst ns.
  destruct (poll_queues_ok ch sid Hc Hs Hns) as (ch' & E & Hok & Hcnt & Hp).
  destruct (push_items_ok _ nm sid (arriving ch sid (seq 0 (count ch))) bufs Hb Hs (arriving_items nm ch sid Hi Hs))
    as (bufs' & Ep & Hb' & Hh).
  unfold poll_queues in E. apply bind_ok in E as ([[got rcvd] ch1] & E & E'). injection E' as _ -> ->.
  pose proof (net_poll_loop_spec sid _ tbl _ bufs 0 got [] _ _ bufs' E Ep) as E2.
  unfold net_poll_queues. cbn [net_qs]. rewrite E2. cbn [mbind res_bind].
  eexists _, _. split; [reflexivity|]. cbn [net_qs _cms _routing_tbl]. split; [|done].
  constructor; cbn [net_qs _cms]; try done. eapply polled_items; eassumption.
Qed.

(** A send to a machine there is a route to: into the shard's own buffer, or behind what is
    queued for the proxy. *)
Lemma net_send_ok ns nm n sid m k p :
  net_ok ns nm n -> (sid < ns)%nat -> (p < ns)%nat -> 0 <= k < Z.of_nat nm ->
  get_destination (_routing_tbl n) (dest_shard m) = Ok (mk_dest k (Z.of_nat p)) ->
  exists n', send false sid m n = Ok n' /\ net_ok ns nm n' /\ _routing_tbl n' = _routing_tbl n /\
    (if decide (p = sid) then net_qs n' = net_qs n /\ push_to_buffer (_cms n) sid k m = Ok (_cms n')
     else _cms n' = _cms n /\ contents (_qs (net_qs n') p sid) = contents (_qs (net_qs n) p sid) ++ [mk_item k m] /\
       forall i j, (i, j) <> (p, sid) -> _qs (net_qs n') i j = _qs (net_qs n) i j).
Proof.
  intros Hn Hs Hp Hk Hd. unfold send. rewrite Hd. cbn [mbind res_bind d_target_sid d_machine_id].
  assert (Hmi : mach_ok nm (mk_item k m)) by (unfold mach_ok; cbn; lia).
  destruct (decide (p = sid)) as [->|Hne].
  - rewrite decide_True by done. destruct (push_to_buffer_ok _ _ (_cms n) sid _ (n_bufs _ _ _ Hn) Hs Hmi) as (b & E & Hb & _).
    cbn [mach_id NetworkChannel.msg] in E. rewrite E. cbn [mbind res_bind]. eexists. split; [reflexivity|].
    split; [destruct Hn; split; done|]. done.
  - rewrite decide_False by lia. rewrite Nat2Z.id, at_ok by (rewrite (n_count _ _ _ Hn); lia). cbn [mbind res_bind].
    pose proof (n_count _ _ _ Hn) as Hc. pose proof (n_chan _ _ _ Hn) as Hco. unfold net_send.
    destruct (queue_send_ok (_qs (net_qs n) p sid) (mk_item k m)) as (nr & q & E & Hq & Hcq); [split; apply Hco; lia|].
    rewrite E. cbn [mbind res_bind]. eexists. split; [reflexivity|]. split; [|split; [done|]].
    + split; cbn; [now apply chan_ok_upd|done|apply Hn|]. intros i j Hi Hj. cbn in *. case_decide as Hij; [|now apply (n_items _ _ _ Hn)].
      destruct Hij as [-> ->]. rewrite Hcq. apply Forall_app. split; [apply (n_items _ _ _ Hn); lia|now constructor].
    + cbn [_cms net_qs]. split; [done|]. rewrite upd_eq, Hcq. split; [done|]. intros i j Hij. now apply upd_ne.
Qed.

(** A message queued for the proxy shard [sn] of its machine arrives there with the next
    polls of both shards. *)
Lemma forward_reaches ns nm n sid sn m (msg : Msg) :
  net_ok ns nm n -> bufs_live (_cms n) -> (sid < ns)%nat -> (sn < ns)%nat -> sn <> sid -> Z.of_nat ns < 4294967296 -> (m < nm)%nat ->
  (length (contents (_qs (net_qs n) sn sid)) < queue_length)%nat ->
  exists k q, net_send (_qs (net_qs n) sn sid) (mk_item (Z.of_nat m) msg) = Ok (k, q) /\
  exists b2 n2 b3 n3 pre post,
    net_poll_queues sid (mk_network (_routing_tbl n) (upd (net_qs n) sn sid q) (_cms n)) = Ok (b2, n2) /\
    net_poll_queues sn n2 = Ok (b3, n3) /\
    held (_cms n3) sn (Z.of_nat m) =
      held (_cms n) sn (Z.of_nat m) ++ pre ++
      for_machine (Z.of_nat m) (contents (_qs (net_qs n) sn sid)) ++ [msg] ++ post.
Proof.
  intros Hn Hlive Hs Hsn Hnsid Hns Hm Hroom.
  assert (Hmi : mach_ok nm (mk_item (Z.of_nat m) msg)) by (unfold mach_ok; cbn; lia).
  pose proof (n_count _ _ _ Hn) as Hc. pose proof (n_chan _ _ _ Hn) as Hco. unfold net_send.
  destruct (queue_send_ok (_qs (net_qs n) sn sid) (mk_item (Z.of_nat m) msg)) as (k & q & E & Hq & Hcq).
  { split; apply Hco; lia. }
  exists k, q. split; [exact E|]. set (n1 := mk_network _ _ _).
  assert (H1 : net_ok ns nm n1).
  { constructor; cbn; [now apply chan_ok_upd|done|apply Hn|]. intros i j Hi Hj. cbn in *. case_decide as Hij.
    - destruct Hij as [-> ->]. rewrite Hcq. apply Forall_app. split; [apply (n_items _ _ _ Hn); lia|now constructor].
    - now apply (n_items _ _ _ Hn). }
  destruct (net_poll_ok _ _ n1 sid H1 Hs Hns) as (b2 & n2 & E2 & H2 & _ & Hp2 & Hh2 & _).
  destruct (net_poll_ok _ _ n2 sn H2 Hsn Hns) as (b3 & n3 & E3 & _ & _ & _ & Hh3 & _).
  destruct (Hh2 Hlive) as [Hlive2 Hk2]. destruct (Hh3 Hlive2) as [_ Hk3].
  assert (Hring : ring (_pending (_qs (net_qs n2) sn sid)) = contents (_qs (net_qs n) sn sid) ++ [mk_item (Z.of_nat m) msg]).
  { specialize (Hp2 sn sid). unfold polled in Hp2. rewrite decide_False in Hp2 by (intros [? _]; done).
    rewrite decide_True in Hp2.
    - destruct Hp2 as [_ Hp2]. unfold n1 in Hp2. cbn [net_qs] in Hp2. rewrite upd_eq, Hcq in Hp2. apply Hp2.
      rewrite length_app. cbn. lia.
    - split; [done|]. apply list_elem_of_filter. split; [done|]. apply elem_of_seq. cbn. lia. }
  assert (Hin : sid ∈ others sn (seq 0 ns)).
  { apply list_elem_of_filter. split; [done|]. apply elem_of_seq. lia. }
  apply list_elem_of_split in Hin as (l1 & l2 & Eo).
  set (arr := fun l => mjoin ((fun i => ring (_pending (_qs (net_qs n2) sn i))) <$> l)).
  exists b2, n2, b3, n3, (for_machine (Z.of_nat m) (arr l1)), (for_machine (Z.of_nat m) (arr l2)).
  split; [exact E2|]. split; [exact E3|].
  rewrite Hk3, Hk2, (decide_True (P := sn = sn)), (decide_False (P := sn = sid)), app_nil_r by (done || lia).
  f_equal. unfold arriving. rewrite Eo, fmap_app, join_app. cbn [fmap list_fmap mjoin list_join].
  rewrite Hring, !for_machine_app, <-!app_assoc. do 3 f_equal.
  unfold for_machine at 1. rewrite filter_cons, decide_True, filter_nil by done. reflexivity.
Qed.

(** As long as no buffer is aborted, a message for a shard of another machine is delivered to the machine that owns the
    shard: it is put, at once or after one poll of the sending shard and one of the
    proxy shard that holds a connection to that machine, into the proxy's buffer for the
    machine, behind everything that the sender had queued for the proxy before. *)
Theorem network_send_reaches_machine nodes sharded n sid m c msg :
  nodes_ok nodes sharded -> nodes !! m = Some c ->
  cores_before nodes m <= dest_shard msg < cores_before nodes m + nr_cores c ->
  shards_for m sharded 0 <> [] ->
  build nodes (length nodes) (total_cores nodes) (Z.of_nat (length sharded)) sharded = Ok (_routing_tbl n) ->
  net_ok (length sharded) (length nodes) n -> bufs_live (_cms n) -> (sid < length sharded)%nat ->
  (forall i, (i < length sharded)%nat -> (length (contents (_qs (net_qs n) i sid)) < queue_length)%nat) ->
  exists s, shards_for m sharded 0 !! Z.to_nat (dest_shard msg mod Z.of_nat (length (shards_for m sharded 0))) = Some s /\
  exists n1, send false sid msg n = Ok n1 /\
    (s = Z.of_nat sid -> held (_cms n1) sid (Z.of_nat m) = held (_cms n) sid (Z.of_nat m) ++ [msg]) /\
    (s <> Z.of_nat sid -> exists b2 n2 b3 n3 pre post,
       net_poll_queues sid n1 = Ok (b2, n2) /\ net_poll_queues (Z.to_nat s) n2 = Ok (b3, n3) /\
       held (_cms n3) (Z.to_nat s) (Z.of_nat m) =
         held (_cms n) (Z.to_nat s) (Z.of_nat m) ++ pre ++
         for_machine (Z.of_nat m) (contents (_qs (net_qs n) (Z.to_nat s) sid)) ++ [msg] ++ post).
Proof.
  intros Hok Hm Hg Hne Hb Hn Hlive Hs Hroom.
  destruct (route_ok nodes sharded (dest_shard msg) m c Hok Hm Hg Hne) as (t & s & Eb & Ed & El).
  assert (t = _routing_tbl n) as -> by congruence. clear Eb Hb. exists s. split; [exact El|].
  assert (Hsr : 0 <= s < Z.of_nat (length sharded)).
  { apply list_elem_of_lookup_2, shards_for_range in El. lia. }
  assert (Hmi : mach_ok (length nodes) (mk_item (Z.of_nat m) msg)).
  { unfold mach_ok. cbn. apply lookup_lt_Some in Hm. lia. }
  assert (Hns : Z.of_nat (length sharded) < 4294967296) by (destruct Hok as (_ & _ & _ & Hz); lia).
  unfold send. rewrite Ed. cbn [mbind res_bind d_target_sid d_machine_id]. case_decide as Hd.
  - destruct (push_to_buffer_ok _ _ (_cms n) sid _ (n_bufs _ _ _ Hn) Hs Hmi) as (b & E & _ & Hh).
    cbn [mach_id NetworkChannel.msg] in E. rewrite E. cbn [mbind res_bind]. eexists. split; [reflexivity|]. split; [|done].
    destruct (Hh Hlive) as [_ Hk]. intros _. cbn [_cms]. rewrite Hk, decide_True by (done || lia). f_equal. unfold for_machine.
    now rewrite filter_cons, decide_True, filter_nil.
  - assert (Hsn : (Z.to_nat s < length sharded)%nat) by lia. rewrite at_ok by (rewrite (n_count _ _ _ Hn); lia).
    destruct (forward_reaches _ _ n sid (Z.to_nat s) m msg Hn Hlive Hs Hsn) as (k & q & E & Hrest);
      [lia|done|now apply lookup_lt_Some in Hm|now apply Hroom|].
    cbn [mbind res_bind]. rewrite E. cbn [mbind res_bind]. eexists. split; [reflexivity|]. split; [done|].
    intros _. exact Hrest.
Qed.

(** The deleter of the queues only destroys sender sides that were constructed. *)
Theorem qs_deleter_ok ch : chan_ok ch -> qs_deleter ch = Ok tt.
Proof.
  intros H. unfold qs_deleter.
  assert (Hrow : forall i js, (i < count ch)%nat -> Forall (fun j => (j < count ch)%nat) js -> destroy_row i js ch = Ok tt).
  { intros i js Hi. induction 1 as [|j js Hj _ IH]; cbn [destroy_row]; [done|].
    rewrite at_ok by done. cbn [mbind res_bind]. unfold net_queue_destroy, fifo. case_decide as Hd; cbn [mbind res_bind]; [|done].
    destruct (c_started ch H i j Hi Hj Hd) as [l ->]. cbn. exact IH. }
  assert (Hall : Forall (fun j => (j < count ch)%nat) (seq 0 (count ch))).
  { apply Forall_forall. intros x Hx. apply elem_of_seq in Hx. lia. }
  revert Hall. generalize (seq 0 (count ch)). intros rows HF.
  induction HF as [|i rows Hi _ IH]; cbn [destroy_rows]; [done|].
  rewrite Hrow; [cbn [mbind res_bind]; exact IH|done|].
  apply Forall_forall. intros x Hx. apply elem_of_seq in Hx. lia.
Qed.

(** A message for a machine whose buffer was aborted is dropped without a trace. *)
Theorem aborted_buffer_drops bufs sid mach row (b : net_buffer) e m :
  bufs !! sid = Some row -> row !! Z.to_nat mach = Some b -> _ex b = Some e ->
  push_to_buffer bufs sid mach m = Ok bufs.
Proof.
  intros Hr Hb He. unfold push_to_buffer. rewrite Hr. cbn [of_option mbind res_bind]. rewrite Hb.
  cbn [of_option mbind res_bind]. unfold push_eventually. rewrite He. cbn [snd].
  now rewrite (list_insert_id row), (list_insert_id bufs) by done.
Qed.
End Network.

(** ** Two machines; this one has three shards, each connected to the other machine *)
Module NetworkExamples.
Definition Q := list (message_item Z).

Definition table : routing_table :=
  match build sample_nodes 2 5 3 sample_mids with Ok t => t | Fault _ => mk_rt [] 0 0 end.
Definition net3 : network (Msg := Z) (Ex := unit) (R := Q) :=
  mk_network table
    (mk_channel 3 (fun i j => if (i =? j)%nat then net_queue_new else net_start net_queue_new))
    (replicate 3 (replicate 2 (dynamic_queue_new 16))).

Lemma net3_ok : net_ok 3 2 net3.
Proof.
  constructor.
  - split; cbn.
    + intros i j _ _ H. rewrite (proj2 (Nat.eqb_neq i j) H). cbn. eauto.
    + intros i _. now rewrite Nat.eqb_refl.
    + intros i j _ _. destruct (i =? j)%nat; cbn; lia.
  - done.
  - split; [done|]. cbn. repeat constructor.
  - intros i j _ _. cbn. destruct (i =? j)%nat; constructor.
Qed.

Lemma network_send_reaches_machine_witness :
  exists n1 b2 n2 b3 n3, send (fun g => g) false 0 4 net3 = Ok n1 /\
    net_poll_queues 0 n1 = Ok (b2, n2) /\ net_poll_queues 1 n2 = Ok (b3, n3) /\ 4 ∈ held (_cms n3) 1 1.
Proof.
  destruct (network_send_reaches_machine (Ex := unit) (R := Q) (fun g => g) sample_nodes sample_mids net3 0 1
    (mk_node 1 2 (mk_addr 2 9000)) 4 sample_nodes_ok eq_refl) as (s & Hs & n1 & E1 & _ & H);
    [vm_compute; split; [discriminate|reflexivity]|discriminate|vm_compute; reflexivity|exact net3_ok|repeat constructor|cbn; lia| |].
  - intros i _. apply Nat.ltb_lt. destruct i; reflexivity.
  - assert (s = 1) as -> by (vm_compute in Hs; congruence).
    destruct H as (b2 & n2 & b3 & n3 & pre & post & E2 & E3 & Hh); [done|].
    exists n1, b2, n2, b3, n3. split; [exact E1|]. split; [exact E2|]. split; [exact E3|].
    change (Z.to_nat 1) with 1%nat in Hh. change (Z.of_nat 1) with 1 in Hh. rewrite Hh, !elem_of_app.
    right. right. right. left. now apply list_elem_of_singleton.
Defined.
End NetworkExamples.
