(* ===== verification/Actor.v ===== *)
(** * Actors

    [actor_base] (src/include/hiactor/core/actor_core.hh, src/src/core/actor_core.cc) and the
    leaf class [actor] (src/include/hiactor/core/actor-template.hh,
    src/src/core/actor-template.cc): the mailbox, the task queue of continuations, the
    concurrency limit, [run_and_dispose] and the stop protocol.

    What the parent sees of an actor is part of its state here: [listed], whether the
    parent's map still points to it, and [queued], how often it is in the parent's task
    queue.  User code is a parameter: [do_work] says what handling a message does; a
    [Chain] task is a continuation of user code, with what it does when run and what it
    does when run after [cancel].  [need_yield] is answered by a list of booleans; when
    the list ends it answers yes, as the clock eventually does. *)
From S2P Require Import Prelude.
From S2P Require Import Message.

Inductive schedule_status := INITIALIZED | SCHEDULABLE | SCHEDULED.
Inductive actor_status := RUNNING | PEACE_STOPPING | FORCE_STOPPING.

#[export] Instance schedule_status_eq_dec : EqDecision schedule_status.
Proof. solve_decision. Defined.
#[export] Instance actor_status_eq_dec : EqDecision actor_status.
Proof. solve_decision. Defined.

Section Actor.
Context {P : Type}.

Record msg := mk_msg { m_type : Z; body : P }.

(** The state of a resolved future of [do_work]: an exception or a [stop_reaction]. *)
Inductive work_state := WExn | WOk (stop : bool).

(** Continuations of user code, and what running user code does to this actor: further
    continuations become ready, a blocked [do_work] is resolved (the [k]-th in flight),
    messages are sent to the actor itself. *)
Inductive chain := Chain (on_run on_cancel : list effect)
with effect :=
  | AddTask (c : chain)
  | AddUrgentTask (c : chain)
  | Resolve (k : nat) (state : work_state)
  | SelfSend (m : msg).

Inductive task :=
  | PostWork (m : msg) (state : work_state)      (* [post_work_func] *)
  | Cont (c : chain).

(** [do_work] completes, or returns a future that is not available. *)
Inductive work := Done (effs : list effect) (r : work_state) | Blocked (effs : list effect).

Context (do_work : P -> work).

Record actor := mk {
  sched : schedule_status;
  stop_status : actor_status;
  mailbox : list msg;
  tasks : list task;
  max_concurrency : Z;
  cur_concurrency : Z;
  listed : bool;
  queued : nat;
  flying : list msg;         (* blocked [do_work]s whose future is not resolved yet *)
  accepted : list msg;       (* every message put into the mailbox *)
  handled : list msg;        (* messages [do_work] was called with, in order *)
  reclaimed : list msg;      (* messages deleted *)
  refused : list msg;        (* messages answered by [stopped_actor_enqueue] *)
  notified : nat;            (* calls of [notify_child_stopped] *)
  deleted : bool
}.

Definition actor_new (reentrant : bool) : actor :=
  mk INITIALIZED RUNNING [] [] (if reentrant then 4294967295 else 1) 0 true 0 [] [] [] [] [] 0 false.

(** Assigning one member. *)
Definition with_sched x a := mk x (stop_status a) (mailbox a) (tasks a) (max_concurrency a) (cur_concurrency a) (listed a) (queued a) (flying a) (accepted a) (handled a) (reclaimed a) (refused a) (notified a) (deleted a).
Definition with_stop x a := mk (sched a) x (mailbox a) (tasks a) (max_concurrency a) (cur_concurrency a) (listed a) (queued a) (flying a) (accepted a) (handled a) (reclaimed a) (refused a) (notified a) (deleted a).
Definition with_mailbox x a := mk (sched a) (stop_status a) x (tasks a) (max_concurrency a) (cur_concurrency a) (listed a) (queued a) (flying a) (accepted a) (handled a) (reclaimed a) (refused a) (notified a) (deleted a).
Definition with_tasks x a := mk (sched a) (stop_status a) (mailbox a) x (max_concurrency a) (cur_concurrency a) (listed a) (queued a) (flying a) (accepted a) (handled a) (reclaimed a) (refused a) (notified a) (deleted a).
Definition with_max x a := mk (sched a) (stop_status a) (mailbox a) (tasks a) x (cur_concurrency a) (listed a) (queued a) (flying a) (accepted a) (handled a) (reclaimed a) (refused a) (notified a) (deleted a).
Definition with_cur x a := mk (sched a) (stop_status a) (mailbox a) (tasks a) (max_concurrency a) x (listed a) (queued a) (flying a) (accepted a) (handled a) (reclaimed a) (refused a) (notified a) (deleted a).
Definition with_listed x a := mk (sched a) (stop_status a) (mailbox a) (tasks a) (max_concurrency a) (cur_concurrency a) x (queued a) (flying a) (accepted a) (handled a) (reclaimed a) (refused a) (notified a) (deleted a).
Definition with_queued x a := mk (sched a) (stop_status a) (mailbox a) (tasks a) (max_concurrency a) (cur_concurrency a) (listed a) x (flying a) (accepted a) (handled a) (reclaimed a) (refused a) (notified a) (deleted a).
Definition with_flying x a := mk (sched a) (stop_status a) (mailbox a) (tasks a) (max_concurrency a) (cur_concurrency a) (listed a) (queued a) x (accepted a) (handled a) (reclaimed a) (refused a) (notified a) (deleted a).
Definition with_accepted x a := mk (sched a) (stop_status a) (mailbox a) (tasks a) (max_concurrency a) (cur_concurrency a) (listed a) (queued a) (flying a) x (handled a) (reclaimed a) (refused a) (notified a) (deleted a).
Definition with_handled x a := mk (sched a) (stop_status a) (mailbox a) (tasks a) (max_concurrency a) (cur_concurrency a) (listed a) (queued a) (flying a) (accepted a) x (reclaimed a) (refused a) (notified a) (deleted a).
Definition with_reclaimed x a := mk (sched a) (stop_status a) (mailbox a) (tasks a) (max_concurrency a) (cur_concurrency a) (listed a) (queued a) (flying a) (accepted a) (handled a) x (refused a) (notified a) (deleted a).
Definition with_refused x a := mk (sched a) (stop_status a) (mailbox a) (tasks a) (max_concurrency a) (cur_concurrency a) (listed a) (queued a) (flying a) (accepted a) (handled a) (reclaimed a) x (notified a) (deleted a).
Definition with_notified x a := mk (sched a) (stop_status a) (mailbox a) (tasks a) (max_concurrency a) (cur_concurrency a) (listed a) (queued a) (flying a) (accepted a) (handled a) (reclaimed a) (refused a) x (deleted a).
Definition with_deleted x a := mk (sched a) (stop_status a) (mailbox a) (tasks a) (max_concurrency a) (cur_concurrency a) (listed a) (queued a) (flying a) (accepted a) (handled a) (reclaimed a) (refused a) (notified a) x.

Definition set_max_concurrency (concurrency : Z) (a : actor) : actor :=
  with_max (if 0 <? concurrency then concurrency else 1) a.

(** ** actor_base *)
Definition activatable (a : actor) : bool := bool_decide (sched a = SCHEDULABLE).
Definition set_activatable (a : actor) : actor := with_sched SCHEDULABLE a.
Definition stopping (a : actor) : bool := negb (bool_decide (stop_status a = RUNNING)).
Definition force_stopping (a : actor) : bool := bool_decide (stop_status a = FORCE_STOPPING).

(** [seastar::schedule(this)] puts the actor into its parent's task queue. *)
Definition activate (a : actor) : actor :=
  if activatable a then with_queued (S (queued a)) (with_sched SCHEDULED a) else a.

Definition schedule (a : actor) : res actor :=
  _ ← assert (bool_decide (sched a = INITIALIZED)); Ok (activate (set_activatable a)).

Definition accept (m : msg) (a : actor) : actor := with_accepted (accepted a ++ [m]) a.
Definition enque_message (m : msg) (a : actor) : actor :=
  activate (with_mailbox (mailbox a ++ [m]) (accept m a)).
Definition enque_urgent_message (m : msg) (a : actor) : actor :=
  activate (with_mailbox (m :: mailbox a) (accept m a)).

Definition reclaim (ms : list msg) (a : actor) : actor := with_reclaimed (reclaimed a ++ ms) a.
Definition clean_mailbox (a : actor) : actor := with_mailbox [] (reclaim (mailbox a) a).

(** ** actor *)
Definition add_task (t : task) (a : actor) : actor := activate (with_tasks (tasks a ++ [t]) a).
Definition add_urgent_task (t : task) (a : actor) : actor := activate (with_tasks (t :: tasks a) a).

(** A message to the actor goes through its parent, which refuses it once the actor is no
    longer listed. *)
Definition send (m : msg) (a : actor) : actor :=
  if listed a then (if m_type m =? USER then enque_message m a else enque_urgent_message m a)
  else with_refused (refused a ++ [m]) a.

(** The future of the [k]-th blocked [do_work] resolves: its continuation becomes a task. *)
Definition resolve (k : nat) (st : work_state) (a : actor) : actor :=
  match flying a !! k with
  | Some m => add_task (PostWork m st) (with_flying (delete k (flying a)) a)
  | None => a
  end.

Definition do_effect (e : effect) (a : actor) : actor :=
  match e with
  | AddTask c => add_task (Cont c) a
  | AddUrgentTask c => add_urgent_task (Cont c) a
  | Resolve k st => resolve k st a
  | SelfSend m => send m a
  end.
Fixpoint do_effects (es : list effect) (a : actor) : actor :=
  match es with [] => a | e :: es => do_effects es (do_effect e a) end.

Definition cancel (t : task) : task :=
  match t with
  | PostWork m _ => PostWork m WExn
  | Cont (Chain _ c) => Cont (Chain c c)
  end.
Definition cancel_tasks (a : actor) : actor := with_tasks (cancel <$> tasks a) a.

(** Sizes bound how many tasks a queue can grow into. *)
Fixpoint chain_size (c : chain) : nat :=
  match c with
  | Chain r c => S (list_sum (List.map effect_size r) + list_sum (List.map effect_size c))
  end
with effect_size (e : effect) : nat :=
  match e with
  | AddTask c | AddUrgentTask c => chain_size c
  | Resolve _ _ => 1
  | SelfSend _ => 0
  end.
Definition task_size (t : task) : nat := match t with PostWork _ _ => 1 | Cont c => chain_size c end.
Definition tasks_size (ts : list task) : nat := list_sum (List.map task_size ts).

(** Running a task: what it does to the actor, and whether it then asks the parent to stop
    the actor. *)
Definition run_task (t : task) (a : actor) : actor * bool :=
  match t with
  | PostWork m st =>
      (reclaim [m] (with_cur (u32 (cur_concurrency a - 1)) a), match st with WOk stop => stop | WExn => false end)
  | Cont (Chain r _) => (do_effects r a, false)
  end.

(** [clean_task_queue] cancels every task, then runs the queue until it is empty; a task
    that such a task adds is not canceled.  The actor is stopping by then, so a [stop]
    a task asks for returns at once and the parent forgets the actor. *)
Fixpoint clean_loop (fuel : nat) (a : actor) : res actor :=
  match tasks a with
  | [] => Ok a
  | t :: q =>
      match fuel with
      | O => Fault NoFuel
      | S fuel =>
          let '(a, stop) := run_task t (with_tasks q a) in
          clean_loop fuel (if stop then with_listed false a else a)
      end
  end.
Definition clean_task_queue (a : actor) : res actor :=
  _ ← assert (match mailbox a with [] => force_stopping a | _ => false end);
  let a := cancel_tasks a in
  clean_loop (tasks_size (tasks a)) a.

Definition activate_if_idle (a : actor) : actor :=
  if activatable a && (cur_concurrency a =? 0) then activate a else a.

Definition stop (force : bool) (a : actor) : res actor :=
  if stopping a then Ok a
  else if force then
    a ← clean_task_queue (clean_mailbox (with_stop FORCE_STOPPING a));
    Ok (activate_if_idle a)
  else Ok (activate_if_idle (with_stop PEACE_STOPPING a)).

(** The parent's [stop_child_actor] for this actor. *)
Definition stop_child_actor (force : bool) (a : actor) : res actor :=
  if listed a then a ← stop force a; Ok (with_listed false a) else Ok a.

Definition stop_if (b : bool) (a : actor) : res actor := if b then stop_child_actor true a else Ok a.

(** [run_and_dispose]: the loop over the tasks, whose last result is whether it yielded. *)
Fixpoint task_loop (yields : list bool) (a : actor) : res (actor * list bool * bool) :=
  match tasks a with
  | [] => Ok (a, yields, false)
  | t :: q =>
      let '(a, s) := run_task t (with_tasks q a) in
      a ← stop_if s a;
      match yields with
      | false :: yields => task_loop yields a
      | true :: yields => Ok (a, yields, true)
      | [] => Ok (a, [], true)
      end
  end.

(** One message; the second result tells whether the loop ends because the concurrency
    limit is reached.  User code runs in [complete]. *)
Definition begin (m : msg) (a : actor) : actor := if m_type m =? USER then with_handled (handled a ++ [m]) a else a.
Definition complete (m : msg) (a : actor) : res (actor * bool) :=
  if m_type m =? USER then
    match do_work (body m) with
    | Blocked effs =>
        let a := do_effects effs a in
        let a := with_flying (flying a ++ [m]) (with_cur (u32 (cur_concurrency a + 1)) a) in
        Ok (a, cur_concurrency a =? max_concurrency a)
    | Done effs r =>
        let a := reclaim [m] (do_effects effs a) in
        a ← stop_if (match r with WOk s => s | WExn => false end) a;
        Ok (a, false)
    end
  else if m_type m =? PEACE_STOP then
    a ← stop_child_actor false a; Ok (reclaim [m] a, false)
  else if m_type m =? FORCE_STOP then
    a ← stop_child_actor true a; Ok (reclaim [m] a, false)
  else Fault AssertFail.
Definition process (m : msg) (a : actor) : res (actor * bool) := complete m (begin m a).

Fixpoint mailbox_loop (yields : list bool) (a : actor) : res actor :=
  match mailbox a with
  | [] => Ok a
  | m :: q =>
      '(a, full) ← process m (with_mailbox q a);
      if full : bool then Ok a
      else match yields with
           | false :: yields => mailbox_loop yields a
           | _ => Ok a
           end
  end.

(** From the label FINAL on. *)
Definition finish (a : actor) : actor :=
  if stopping a && (cur_concurrency a =? 0) && match mailbox a with [] => true | _ => false end then
    with_deleted true (with_notified (S (notified a)) a)
  else
    let a := set_activatable a in
    if match tasks a with [] => false | _ => true end ||
       (match mailbox a with [] => false | _ => true end && (cur_concurrency a <? max_concurrency a))
    then activate a else a.

Definition run_and_dispose (yields : list bool) (a : actor) : res actor :=
  let a := if force_stopping a then cancel_tasks a else a in
  '(a, yields, yielded) ← task_loop yields a;
  if yielded : bool then Ok (finish a)
  else if cur_concurrency a =? max_concurrency a then Ok (set_activatable a)
  else a ← mailbox_loop yields a; Ok (finish a).

(** ** The actor in its environment *)
Inductive event :=
  | ESend (m : msg)                     (* a message is routed to the actor *)
  | EResolve (k : nat) (st : work_state)
  | ETask (c : chain)                   (* a continuation of the actor becomes ready *)
  | EStop (force : bool)                (* the parent stops the actor *)
  | ESchedule                           (* the activation semaphore admits it *)
  | ERun (yields : list bool).          (* the parent runs its task *)

Definition step (ev : event) (a : actor) : res actor :=
  match ev with
  | ESend m => Ok (send m a)
  | EResolve k st => Ok (resolve k st a)
  | ETask c => if deleted a then Fault UseAfterFree else Ok (add_task (Cont c) a)
  | EStop force => stop_child_actor force a
  | ESchedule => if bool_decide (sched a = INITIALIZED) then schedule a else Ok a
  | ERun yields =>
      match queued a with
      | O => Ok a
      | S n => run_and_dispose yields (with_queued n a)
      end
  end.
Fixpoint run (evs : list event) (a : actor) : res actor :=
  match evs with [] => Ok a | ev :: evs => a ← step ev a; run evs a end.

(** The same with calls of [set_max_concurrency]: in the constructor, where the documentation has it, or at any later
    moment between the runs.  Two marks are kept: [stale], the limit was set while the actor was idle and it has not run since;
    [lowered], the limit was once set below the number of blocked messages. *)
Inductive call := Event (ev : event) | SetMax (n : Z).
Record history := mk_history { subject : actor; stale : bool; lowered : bool }.
Definition history_new (r : bool) : history := mk_history (actor_new r) false false.
Definition call_step (c : call) (h : history) : res history :=
  match c with
  | Event ev => a ← step ev (subject h); Ok (mk_history a (stale h && match ev, queued (subject h) with ERun _, S _ => false | _, _ => true end) (lowered h))
  | SetMax n =>
      let a := set_max_concurrency (u32 n) (subject h) in
      Ok (mk_history a (stale h || activatable a) (lowered h || (max_concurrency a <? cur_concurrency a)))
  end.
Fixpoint calls (cs : list call) (h : history) : res history :=
  match cs with [] => Ok h | c :: cs => h ← call_step c h; calls cs h end.

(** ** Invariants *)
Definition posts (ts : list task) : list msg :=
  omap (fun t => match t with PostWork m _ => Some m | Cont _ => None end) ts.
Definition users (ms : list msg) : list msg := filter (fun m => m_type m = USER) ms.

(** True of a live actor at every moment, also inside [run_and_dispose]; [hand] are the
    messages taken from the mailbox that [run_and_dispose] is handling. *)
Record base (hand : list msg) (a : actor) : Prop := {
  b_cur : cur_concurrency a = Z.of_nat (length (flying a) + length (posts (tasks a)));
  b_max : 1 <= max_concurrency a < 4294967296;
  b_le : cur_concurrency a <= max_concurrency a;
  b_accepted : Permutation (accepted a) (hand ++ mailbox a ++ flying a ++ posts (tasks a) ++ reclaimed a);
  b_fifo : stop_status a <> FORCE_STOPPING -> users (accepted a) = handled a ++ users (mailbox a);
  b_live : deleted a = false /\ notified a = 0%nat
}.

(** [run] tells whether the actor is running: it is in its parent's queue exactly when it is
    SCHEDULED and not running. *)
Definition queue_ok (run : bool) (a : actor) : Prop :=
  if run then sched a = SCHEDULED /\ queued a = 0%nat
  else queued a = if decide (sched a = SCHEDULED) then 1%nat else 0%nat.

Definition ok (hand : list msg) (run : bool) (a : actor) : Prop := base hand a /\ queue_ok run a.

(** What effects of user code leave alone. *)
Record keeps (a a' : actor) : Prop := {
  k_stop : stop_status a' = stop_status a;
  k_max : max_concurrency a' = max_concurrency a;
  k_cur : cur_concurrency a' = cur_concurrency a;
  k_listed : listed a' = listed a;
  k_handled : handled a' = handled a;
  k_idle : sched a' = SCHEDULABLE -> sched a = SCHEDULABLE /\ mailbox a' = mailbox a /\ tasks a' = tasks a
}.

Lemma keeps_refl a : keeps a a.
Proof. split; auto. Qed.

Lemma keeps_trans a b c : keeps a b -> keeps b c -> keeps a c.
Proof.
  intros [] []. split; try congruence. intros H.
  destruct (k_idle1 H) as (H1 & H2 & H3). destruct (k_idle0 H1) as (H4 & H5 & H6). split; [done|split; congruence].
Qed.

Ltac fields := cbn [sched stop_status mailbox tasks max_concurrency cur_concurrency listed queued flying accepted handled
  reclaimed refused notified deleted with_sched with_stop with_mailbox with_tasks with_max with_cur with_listed with_queued
  with_flying with_accepted with_handled with_reclaimed with_refused with_notified with_deleted accept reclaim] in *.

Lemma activate_sched a : sched (activate a) <> SCHEDULABLE.
Proof. unfold activate, activatable. case_bool_decide as H; fields; done. Qed.

Lemma activate_ok hand run a : ok hand run a -> ok hand run (activate a).
Proof.
  intros [[H1 H2 H3 H4 H5 H6] Hq]. unfold activate, activatable. case_bool_decide as H; [|done].
  split; [split; fields; done|]. unfold queue_ok in *. fields. rewrite H in Hq.
  destruct run; [now destruct Hq|]. cbn in *. now rewrite Hq.
Qed.

(** [activate] behind any change of the fields it does not read. *)
Lemma activate_keeps a b :
  stop_status b = stop_status a -> max_concurrency b = max_concurrency a -> cur_concurrency b = cur_concurrency a ->
  listed b = listed a -> handled b = handled a -> keeps a (activate b).
Proof.
  intros. split; try (unfold activate; destruct (activatable b); fields; done).
  intros H'. now apply activate_sched in H'.
Qed.

Lemma posts_app l1 l2 : posts (l1 ++ l2) = posts l1 ++ posts l2.
Proof. apply omap_app. Qed.

Lemma posts_post m st l : posts (PostWork m st :: l) = m :: posts l.
Proof. done. Qed.

Lemma users_app l1 l2 : users (l1 ++ l2) = users l1 ++ users l2.
Proof. apply filter_app. Qed.

Lemma users_cons m ms : users (m :: ms) = (if decide (m_type m = USER) then [m] else []) ++ users ms.
Proof. unfold users. rewrite filter_cons. case_decide; done. Qed.

Lemma add_task_ok hand run c a : ok hand run a -> ok hand run (add_task (Cont c) a) /\ keeps a (add_task (Cont c) a).
Proof.
  intros [[H1 H2 H3 H4 H5 H6] Hq]. split.
  - apply activate_ok. split; [|exact Hq]. split; fields; rewrite ?posts_app; cbn; rewrite ?app_nil_r; done.
  - apply activate_keeps; done.
Qed.

Lemma add_urgent_task_ok hand run c a : ok hand run a -> ok hand run (add_urgent_task (Cont c) a) /\ keeps a (add_urgent_task (Cont c) a).
Proof.
  intros [[H1 H2 H3 H4 H5 H6] Hq]. split.
  - apply activate_ok. split; [|exact Hq]. split; fields; done.
  - apply activate_keeps; done.
Qed.

Lemma resolve_ok hand run k st a : ok hand run a -> ok hand run (resolve k st a) /\ keeps a (resolve k st a).
Proof.
  intros Hok. unfold resolve. destruct (flying a !! k) as [m|] eqn:E; [|split; [done|apply keeps_refl]].
  destruct Hok as [[H1 H2 H3 H4 H5 H6] Hq]. pose proof (delete_Permutation _ _ _ E) as Hp.
  split; [|apply activate_keeps; done]. apply activate_ok. split; [|exact Hq]. split; fields; try done.
  - rewrite posts_app. cbn. rewrite H1, length_app. cbn. apply Permutation_length in Hp. cbn in Hp. lia.
  - rewrite posts_app. cbn. generalize dependent (delete k (flying a)). intros fl Hp. rewrite H4, Hp. solve_Permutation.
Qed.

Lemma put_ok hand run m a : ok hand run a ->
  let a' := if m_type m =? USER then enque_message m a else enque_urgent_message m a in ok hand run a' /\ keeps a a'.
Proof.
  intros [[H1 H2 H3 H4 H5 H6] Hq] a'. subst a'. destruct (Z.eqb_spec (m_type m) USER) as [Hu|Hu].
  - split; [|apply activate_keeps; done]. apply activate_ok. split; [|exact Hq]. split; fields; try done.
    + rewrite H4. solve_Permutation.
    + intros Hs. rewrite !users_app, (H5 Hs). now rewrite app_assoc.
  - split; [|apply activate_keeps; done]. apply activate_ok. split; [|exact Hq]. split; fields; try done.
    + rewrite H4. solve_Permutation.
    + intros Hs. rewrite users_app, !users_cons, decide_False, app_nil_r, (H5 Hs) by done. done.
Qed.

Lemma send_ok hand run m a : ok hand run a -> ok hand run (send m a) /\ keeps a (send m a).
Proof.
  intros Hok. unfold send. destruct (listed a); [now apply put_ok|]. destruct Hok as [[H1 H2 H3 H4 H5 H6] Hq].
  split; [|split; fields; auto]. split; [split; fields; done|exact Hq].
Qed.

Lemma do_effects_ok hand run es : forall a, ok hand run a -> ok hand run (do_effects es a) /\ keeps a (do_effects es a).
Proof.
  induction es as [|e es IH]; intros a Hok; cbn [do_effects]; [split; [done|apply keeps_refl]|].
  assert (H : ok hand run (do_effect e a) /\ keeps a (do_effect e a)).
  { destruct e; cbn [do_effect]; [apply add_task_ok|apply add_urgent_task_ok|apply resolve_ok|apply send_ok]; done. }
  destruct H as [H1 H2]. destruct (IH _ H1) as [H3 H4]. split; [done|]. eapply keeps_trans; eauto.
Qed.

(** ** Sizes *)
Lemma tasks_size_app l1 l2 : tasks_size (l1 ++ l2) = (tasks_size l1 + tasks_size l2)%nat.
Proof. unfold tasks_size. now rewrite map_app, list_sum_app. Qed.

Lemma tasks_size_cons t l : tasks_size (t :: l) = (task_size t + tasks_size l)%nat.
Proof. done. Qed.

Lemma task_size_pos t : (1 <= task_size t)%nat.
Proof. destruct t as [|[]]; cbn; lia. Qed.

Lemma activate_tasks a : tasks (activate a) = tasks a.
Proof. unfold activate. now destruct (activatable a). Qed.

Lemma do_effects_size es : forall a,
  (tasks_size (tasks (do_effects es a)) <= tasks_size (tasks a) + list_sum (List.map effect_size es))%nat.
Proof.
  induction es as [|e es IH]; intros a; cbn [do_effects List.map]; [cbn; lia|].
  etransitivity; [apply IH|]. change (list_sum (effect_size e :: List.map effect_size es)) with
    (effect_size e + list_sum (List.map effect_size es))%nat.
  enough (tasks_size (tasks (do_effect e a)) <= tasks_size (tasks a) + effect_size e)%nat by lia.
  destruct e as [c|c|k st|m]; cbn [do_effect effect_size].
  - unfold add_task. rewrite activate_tasks. fields. rewrite tasks_size_app. cbn. lia.
  - unfold add_urgent_task. rewrite activate_tasks. fields. rewrite tasks_size_cons. cbn. lia.
  - unfold resolve. destruct (flying a !! k); [|lia]. unfold add_task. rewrite activate_tasks. fields.
    rewrite tasks_size_app. cbn. lia.
  - unfold send. destruct (listed a); [|fields; lia].
    destruct (m_type m =? USER); unfold enque_message, enque_urgent_message; rewrite activate_tasks; fields; lia.
Qed.

Lemma run_task_size t q a :
  (tasks_size (tasks (fst (run_task t (with_tasks q a)))) < task_size t + tasks_size q)%nat.
Proof.
  destruct t as [m st|[r c]]; cbn [run_task fst task_size].
  - fields. lia.
  - pose proof (do_effects_size r (with_tasks q a)). fields. cbn [chain_size]. lia.
Qed.

(** ** Running tasks *)
Lemma run_task_ok hand run t q a :
  ok hand run a -> tasks a = t :: q ->
  let a' := fst (run_task t (with_tasks q a)) in
  ok hand run a' /\ stop_status a' = stop_status a /\ max_concurrency a' = max_concurrency a /\ listed a' = listed a /\
  handled a' = handled a /\ cur_concurrency a' <= cur_concurrency a /\
  (sched a' = SCHEDULABLE -> sched a = SCHEDULABLE).
Proof.
  intros [[H1 H2 H3 H4 H5 H6] Hq] Et. rewrite Et in *. destruct t as [m st|[r c]]; cbn [run_task fst].
  - rewrite posts_post in H1, H4. cbn [length] in H1. assert (Hc : u32 (cur_concurrency a - 1) = cur_concurrency a - 1) by (apply u32_small; lia).
    split; [|fields; rewrite Hc; repeat split; (done || lia)]. split; [|exact Hq].
    split; fields; rewrite ?Hc; try done; try lia. rewrite H4. solve_Permutation.
  - assert (Hok : ok hand run (with_tasks q a)) by (split; [split; fields; done|exact Hq]).
    destruct (do_effects_ok hand run r _ Hok) as [Hok' [K1 K2 K3 K4 K5 K6]]. fields.
    split; [done|]. do 4 (split; [done|]). split; [lia|]. intros Hs. now destruct (K6 Hs).
Qed.

(** Dropping the actor from the parent's map. *)
Definition unlist_if (b : bool) (a : actor) : actor := if b then with_listed false a else a.

Lemma unlist_if_ok hand run b a : ok hand run a -> ok hand run (unlist_if b a).
Proof. intros [[] ?]. destruct b; [split; [split; fields|]|split; [split|]]; done. Qed.

Lemma unlist_if_field {X} (f : actor -> X) b a : f (with_listed false a) = f a -> f (unlist_if b a) = f a.
Proof. now destruct b. Qed.

Lemma clean_loop_ok hand run fuel : forall a,
  ok hand run a -> (tasks_size (tasks a) <= fuel)%nat ->
  exists a', clean_loop fuel a = Ok a' /\ ok hand run a' /\ tasks a' = [] /\ stop_status a' = stop_status a /\
    max_concurrency a' = max_concurrency a /\ cur_concurrency a' <= cur_concurrency a /\
    (sched a' = SCHEDULABLE -> sched a = SCHEDULABLE).
Proof.
  induction fuel as [|fuel IH]; intros a Hok Hf; cbn [clean_loop];
    destruct (tasks a) as [|t q] eqn:Et.
  - exists a. repeat split; (done || lia || apply Hok).
  - pose proof (task_size_pos t). rewrite tasks_size_cons in Hf. lia.
  - exists a. repeat split; (done || lia || apply Hok).
  - destruct (run_task_ok hand run t q a Hok Et) as (H1 & H2 & H3 & H4 & H5 & H6 & H7).
    pose proof (run_task_size t q a) as Hsz. rewrite tasks_size_cons in Hf.
    destruct (run_task t (with_tasks q a)) as [a1 s]. cbn [fst] in *. change (if s then _ else a1) with (unlist_if s a1).
    destruct (IH (unlist_if s a1)) as (a2 & E & G1 & G2 & G3 & G4 & G5 & G6).
    + now apply unlist_if_ok.
    + rewrite (unlist_if_field tasks) by done. lia.
    + rewrite (unlist_if_field stop_status) in G3 by done. rewrite (unlist_if_field max_concurrency) in G4 by done.
      rewrite (unlist_if_field cur_concurrency) in G5 by done. rewrite (unlist_if_field sched) in G6 by done.
      exists a2. repeat split; (done || congruence || apply G1 || lia || auto).
Qed.

(** ** Stopping *)
(** An actor that is SCHEDULABLE, that is, not in its parent's queue and not running, has
    nothing it could do. *)
Definition idle_ok (a : actor) : Prop :=
  sched a = SCHEDULABLE ->
  tasks a = [] /\ (mailbox a = [] \/ cur_concurrency a = max_concurrency a) /\
  (stopping a = true -> 0 < cur_concurrency a).

(** A stopping actor is not in its parent's map any more. *)
Definition unlisted_ok (a : actor) : Prop := stopping a = true -> listed a = false.

Definition live (hand : list msg) (run : bool) (a : actor) : Prop := ok hand run a /\ idle_ok a /\ unlisted_ok a.

Lemma stopping_eq a b : stop_status a = stop_status b -> stopping a = stopping b.
Proof. unfold stopping. now intros ->. Qed.

Lemma keeps_live hand run a b : live hand run a -> ok hand run b -> keeps a b -> live hand run b.
Proof.
  intros (_ & Hi & Hu) Hb [K1 K2 K3 K4 K5 K6]. split; [done|]. split.
  - intros Hs. destruct (K6 Hs) as (H1 & H2 & H3). rewrite H2, H3, K2, K3, (stopping_eq b a) by done. now apply Hi.
  - intros Hs. rewrite K4. apply Hu. now rewrite (stopping_eq a b) by done.
Qed.

Lemma posts_cancel ts : posts (cancel <$> ts) = posts ts.
Proof. induction ts as [|[m st|[]] ts IH]; cbn; [done| |]; unfold posts in *; cbn in *; rewrite IH; done. Qed.

Lemma cancel_tasks_ok hand run a : ok hand run a -> ok hand run (cancel_tasks a).
Proof. intros [[] ?]. split; [split; unfold cancel_tasks; fields; rewrite ?posts_cancel|]; done. Qed.

Lemma force_ok hand run a : ok hand run a -> ok hand run (clean_mailbox (with_stop FORCE_STOPPING a)).
Proof.
  intros [[H1 H2 H3 H4 H5 H6] Hq]. split; [|exact Hq]. split; unfold clean_mailbox; fields; try done.
  rewrite H4. solve_Permutation.
Qed.

Lemma activate_if_idle_ok hand run a : ok hand run a -> ok hand run (activate_if_idle a).
Proof. intros H. unfold activate_if_idle. destruct (_ && _); [now apply activate_ok|done]. Qed.

(** [activate_if_idle] changes only the scheduling state. *)
Lemma activate_if_idle_field {X} (f : actor -> X) a :
  (forall s n, f (with_queued n (with_sched s a)) = f a) -> f (activate_if_idle a) = f a.
Proof. intros H. unfold activate_if_idle, activate. destruct (activatable a); cbn [andb]; [|done]. destruct (_ =? _); done. Qed.

Lemma activate_if_idle_sched hand run a :
  ok hand run a -> sched (activate_if_idle a) = SCHEDULABLE -> sched a = SCHEDULABLE /\ 0 < cur_concurrency a.
Proof.
  intros [[H1 _ _ _ _ _] _] Hs. unfold activate_if_idle in Hs.
  destruct (activatable a) eqn:Ha; cbn [andb] in Hs.
  - apply bool_decide_eq_true in Ha. destruct (Z.eqb_spec (cur_concurrency a) 0); [now apply activate_sched in Hs|].
    split; [done|lia].
  - now apply bool_decide_eq_false in Ha.
Qed.

Lemma clean_task_queue_ok hand run a :
  ok hand run a -> mailbox a = [] -> stop_status a = FORCE_STOPPING ->
  exists a', clean_task_queue a = Ok a' /\ ok hand run a' /\ tasks a' = [] /\ stop_status a' = FORCE_STOPPING /\
    max_concurrency a' = max_concurrency a /\ cur_concurrency a' <= cur_concurrency a /\
    (sched a' = SCHEDULABLE -> sched a = SCHEDULABLE) /\ (tasks a = [] -> mailbox a' = []).
Proof.
  intros Hok Hm Hs. unfold clean_task_queue, force_stopping. rewrite Hm, bool_decide_true by done. cbn [assert mbind res_bind].
  destruct (clean_loop_ok hand run _ (cancel_tasks a) (cancel_tasks_ok _ _ _ Hok) (le_n _)) as (a' & E & H1 & H2 & H3 & H4 & H5 & H6).
  exists a'. split; [exact E|]. unfold cancel_tasks in *. fields.
  repeat split; (apply H1 || congruence || auto).
  intros Ht. rewrite Ht in E. cbn in E. injection E as <-. done.
Qed.

Lemma stop_ok hand run force a :
  ok hand run a -> idle_ok a ->
  exists a', stop force a = Ok a' /\ ok hand run a' /\ idle_ok a' /\
    max_concurrency a' = max_concurrency a /\ cur_concurrency a' <= cur_concurrency a.
Proof.
  intros Hok Hi. unfold stop. destruct (stopping a) eqn:Est; [exists a; repeat split; (done || lia || apply Hok || now apply Hi)|].
  destruct force.
  - set (b := clean_mailbox (with_stop FORCE_STOPPING a)).
    assert (Hb : ok hand run b) by now apply force_ok.
    destruct (clean_task_queue_ok hand run b Hb eq_refl eq_refl) as (c & E & H1 & H2 & H3 & H4 & H5 & H6 & H7).
    rewrite E. cbn [mbind res_bind]. exists (activate_if_idle c).
    split; [done|]. split; [now apply activate_if_idle_ok|].
    rewrite (activate_if_idle_field max_concurrency), (activate_if_idle_field cur_concurrency) by done.
    split; [|split; [exact H4|exact H5]]. intros Hs. destruct (activate_if_idle_sched _ _ _ H1 Hs) as [Hc Hpos].
    rewrite (activate_if_idle_field tasks), (activate_if_idle_field mailbox), (activate_if_idle_field cur_concurrency),
      (activate_if_idle_field max_concurrency) by done.
    destruct (Hi (H6 Hc)) as (Ht & _). split; [done|]. split; [left; now apply H7|done].
  - set (b := with_stop PEACE_STOPPING a).
    assert (Hb : ok hand run b) by (destruct Hok as [[H1 H2 H3 H4 H5 H6] Hq]; split; [split; fields; try done|exact Hq];
      intros _; apply H5; intros Hf; unfold stopping in Est; rewrite Hf in Est; done).
    exists (activate_if_idle b). split; [done|]. split; [now apply activate_if_idle_ok|].
    rewrite (activate_if_idle_field max_concurrency), (activate_if_idle_field cur_concurrency) by done.
    split; [|split; [done|cbn; lia]]. intros Hs. destruct (activate_if_idle_sched _ _ _ Hb Hs) as [Hc Hpos].
    rewrite (activate_if_idle_field tasks), (activate_if_idle_field mailbox), (activate_if_idle_field cur_concurrency),
      (activate_if_idle_field max_concurrency) by done.
    destruct (Hi Hc) as (Ht & Hm & _). done.
Qed.

Lemma stop_child_actor_ok hand run force a :
  live hand run a ->
  exists a', stop_child_actor force a = Ok a' /\ live hand run a' /\
    max_concurrency a' = max_concurrency a /\ cur_concurrency a' <= cur_concurrency a.
Proof.
  intros (Hok & Hi & Hu). unfold stop_child_actor. destruct (listed a) eqn:El.
  - destruct (stop_ok hand run force a Hok Hi) as (b & E & H1 & H2 & H3 & H4). rewrite E. cbn [mbind res_bind].
    exists (with_listed false b). split; [done|]. split; [|fields; done].
    split; [|split; [exact H2|done]]. destruct H1 as [[] ?]. split; [split; fields|]; done.
  - exists a. repeat split; (done || lia || apply Hok || now apply Hi || apply Hu || auto).
Qed.

Lemma stop_if_ok hand run b a :
  live hand run a ->
  exists a', stop_if b a = Ok a' /\ live hand run a' /\ max_concurrency a' = max_concurrency a /\
    cur_concurrency a' <= cur_concurrency a.
Proof. intros H. destruct b; [now apply stop_child_actor_ok|]. exists a. split; [done|]. split; [done|]. lia. Qed.

(** ** Running *)
(** A running actor is SCHEDULED, so [idle_ok] says nothing of it. *)
Lemma running_idle hand a : ok hand true a -> idle_ok a.
Proof. intros [_ [Hs _]] H. congruence. Qed.

Lemma live_running hand a : ok hand true a -> unlisted_ok a -> live hand true a.
Proof. intros H Hu. split; [done|]. split; [exact (running_idle _ _ H)|done]. Qed.

Lemma run_task_live t q a :
  live [] true a -> tasks a = t :: q ->
  let a' := fst (run_task t (with_tasks q a)) in
  live [] true a' /\ max_concurrency a' = max_concurrency a.
Proof.
  intros (Hok & _ & Hu) Et a'. destruct (run_task_ok [] true t q a Hok Et) as (H1 & H2 & H3 & H4 & _).
  split; [|done]. apply live_running; [done|]. intros Hs. subst a'. rewrite H4. apply Hu. now rewrite <-(stopping_eq _ _ H2).
Qed.

Lemma task_loop_ok yields : forall a,
  live [] true a ->
  exists a' ys y, task_loop yields a = Ok (a', ys, y) /\ live [] true a' /\ (y = false -> tasks a' = []).
Proof.
  induction yields as [|y yields IH]; intros a Hl; cbn [task_loop]; destruct (tasks a) as [|t q] eqn:Et;
    try (exists a; eexists _, false; split; [reflexivity|]; split; [exact Hl|intros _; exact Et]).
  all: pose proof (run_task_live t q a Hl Et) as [H1 _]; destruct (run_task t (with_tasks q a)) as [b s];
    destruct (stop_if_ok [] true s b H1) as (c & E & H2 & _); rewrite E; cbn [mbind res_bind].
  - exists c, [], true. done.
  - destruct y; [exists c, yields, true; done|]. now apply IH.
Qed.

(** Handling a message takes it from [hand] to the blocked or the reclaimed ones. *)
Lemma reclaim_hand run m a : live [m] run a -> live [] run (reclaim [m] a).
Proof.
  intros ([[H1 H2 H3 H4 H5 H6] Hq] & Hi & Hu). split; [|split; [exact Hi|exact Hu]]. split; [|exact Hq].
  split; fields; try done. rewrite H4. solve_Permutation.
Qed.

Lemma take_message m q a :
  live [] true a -> mailbox a = m :: q ->
  live [m] true (if m_type m =? USER then with_handled (handled a ++ [m]) (with_mailbox q a) else with_mailbox q a).
Proof.
  intros ([[H1 H2 H3 H4 H5 H6] Hq] & _ & Hu) Em. apply live_running.
  2:{ destruct (_ =? _); exact Hu. }
  rewrite Em, ?users_cons in *.
  destruct (Z.eqb_spec (m_type m) USER) as [E|E]; (split; [|exact Hq]); split; fields; try done; intros Hs.
  - rewrite (H5 Hs), decide_True by done. now rewrite <-app_assoc.
  - rewrite (H5 Hs), decide_False by done. done.
Qed.

Lemma block_hand m a :
  live [m] true a -> cur_concurrency a < max_concurrency a ->
  live [] true (with_flying (flying a ++ [m]) (with_cur (u32 (cur_concurrency a + 1)) a)).
Proof.
  intros ([[H1 H2 H3 H4 H5 H6] Hq] & Hi & Hu) Hlt. apply live_running; [|exact Hu]. split; [|exact Hq].
  assert (Hc : u32 (cur_concurrency a + 1) = cur_concurrency a + 1) by (apply u32_small; lia).
  split; fields; rewrite ?Hc, ?length_app; cbn [length]; try done; try lia. rewrite H4. solve_Permutation.
Qed.

(** The types a handler knows. *)
Definition known_type (t : Z) : bool := (t =? USER) || (t =? PEACE_STOP) || (t =? FORCE_STOP).

Lemma complete_ok m a :
  live [m] true a -> cur_concurrency a < max_concurrency a ->
  match complete m a with
  | Ok (a', full) =>
      live [] true a' /\ cur_concurrency a' <= max_concurrency a' /\
      (full = false -> cur_concurrency a' < max_concurrency a')
  | Fault f => f = AssertFail /\ known_type (m_type m) = false
  end.
Proof.
  intros Ht Hlt. unfold complete, known_type. destruct (m_type m =? USER).
  - assert (Heff : forall es, live [m] true (do_effects es a) /\
      max_concurrency (do_effects es a) = max_concurrency a /\ cur_concurrency (do_effects es a) = cur_concurrency a).
    { intros es. destruct (do_effects_ok [m] true es a) as [G1 G2]; [apply Ht|].
      split; [now apply (keeps_live _ _ a)|]. destruct G2 as [_ K2 K3 _ _ _]. now rewrite K2, K3. }
    destruct (do_work (body m)) as [es r|es]; destruct (Heff es) as (G1 & G2 & G3).
    + destruct (stop_if_ok [] true (match r with WOk s => s | WExn => false end) _ (reclaim_hand _ _ _ G1)) as (b & E & H1 & H2 & H3).
      rewrite E. cbn [mbind res_bind]. fields. split; [done|]. lia.
    + split; [apply block_hand; [done|lia]|]. fields. destruct G1 as [[[] _] _].
      rewrite u32_small by lia. split; [lia|]. intros Hf. apply Z.eqb_neq in Hf. lia.
  - destruct (m_type m =? PEACE_STOP); [|destruct (m_type m =? FORCE_STOP); [|done]].
    all: edestruct stop_child_actor_ok as (b & E & H1 & H2 & H3); [exact Ht|]; rewrite E; cbn [mbind res_bind]; fields;
      split; [now apply reclaim_hand|]; lia.
Qed.

Lemma process_ok m q a :
  live [] true a -> mailbox a = m :: q -> cur_concurrency a < max_concurrency a ->
  match process m (with_mailbox q a) with
  | Ok (a', full) =>
      live [] true a' /\ cur_concurrency a' <= max_concurrency a' /\
      (full = false -> cur_concurrency a' < max_concurrency a')
  | Fault f => f = AssertFail
  end.
Proof.
  intros Hl Em Hlt. pose proof (take_message m q a Hl Em) as Ht. unfold process, begin. change (handled (with_mailbox q a)) with (handled a).
  set (a1 := if m_type m =? USER then _ else _) in *. assert (H1 : cur_concurrency a1 < max_concurrency a1) by (subst a1; now destruct (_ =? _)).
  pose proof (complete_ok m a1 Ht H1) as H. destruct (complete m a1) as [[]|]; [done|]. apply H.
Qed.

Lemma mailbox_loop_ok yields : forall a,
  live [] true a -> cur_concurrency a < max_concurrency a ->
  match mailbox_loop yields a with Ok a' => live [] true a' | Fault f => f = AssertFail end.
Proof.
  induction yields as [|y yields IH]; intros a Hl Hlt; cbn [mailbox_loop]; destruct (mailbox a) as [|m q] eqn:Em; try done.
  all: pose proof (process_ok m q a Hl Em Hlt) as H; destruct (process m (with_mailbox q a)) as [[b full]|f]; cbn [mbind res_bind]; [|done];
    destruct H as (H1 & H2 & H3); destruct full; try done.
  destruct y; [done|]. apply IH; auto.
Qed.

(** The actor after [delete this]: nothing refers to it any more. *)
Record dead (a : actor) : Prop := {
  d_deleted : deleted a = true;
  d_notified : notified a = 1%nat;
  d_listed : listed a = false;
  d_stopped : stop_status a <> RUNNING;
  d_queued : queued a = 0%nat;
  d_sched : sched a = SCHEDULED;
  d_flying : flying a = [];
  d_mailbox : mailbox a = [];
  d_cur : cur_concurrency a = 0;
  d_max : 0 <= max_concurrency a;
  d_posts : posts (tasks a) = [];
  d_reclaimed : Permutation (accepted a) (reclaimed a);
  d_fifo : stop_status a <> FORCE_STOPPING -> users (accepted a) = handled a
}.

Definition good (a : actor) : Prop := live [] false a \/ dead a.

Lemma finish_ok a : live [] true a -> good (finish a).
Proof.
  intros ([[H1 H2 H3 H4 H5 H6] [Hs Hq]] & _ & Hu). unfold finish.
  destruct (stopping a && _ && _) eqn:E.
  - right. apply andb_prop in E as [E Em]. apply andb_prop in E as [Est Ec].
    destruct (mailbox a) eqn:Emb; [|done]. apply Z.eqb_eq in Ec. rewrite Ec in H1. destruct H6 as [_ Hn].
    assert (Hf : flying a = []) by (apply length_zero_iff_nil; lia).
    assert (Hp : posts (tasks a) = []) by (apply length_zero_iff_nil; lia).
    rewrite Hf, Hp in H4. split; fields; auto; try lia.
    + intros Hr. unfold stopping in Est. now rewrite Hr in Est.
    + intros Hns. rewrite (H5 Hns). cbn. now rewrite app_nil_r.
  - left. set (b := set_activatable a).
    assert (Hb : ok [] false b) by (split; [split; done|exact Hq]).
    destruct (_ || _) eqn:Ea.
    + split; [now apply activate_ok|]. split; [intros Hsc; now apply activate_sched in Hsc|].
      unfold unlisted_ok, stopping, activate in *. destruct (activatable b); exact Hu.
    + split; [done|]. split; [|exact Hu]. intros _. subst b. unfold set_activatable in *. fields. destruct (tasks a); [|done]. split; [done|].
      cbn [orb] in Ea. destruct (mailbox a) eqn:Em.
      * split; [now left|]. change (stopping a = true -> 0 < cur_concurrency a). intros Hst. rewrite Hst in E. cbn in E.
        rewrite andb_true_r in E. apply Z.eqb_neq in E. lia.
      * cbn [andb] in Ea. apply Z.ltb_ge in Ea. split; [right; lia|]. lia.
Qed.

Lemma finish_loop r : match r with Ok a => live [] true a | Fault f => f = AssertFail end ->
  match a ← r; Ok (finish a) with Ok a => good a | Fault f => f = AssertFail end.
Proof. destruct r; [apply finish_ok|done]. Qed.

Lemma run_and_dispose_ok yields a :
  live [] true a ->
  match run_and_dispose yields a with Ok a' => good a' | Fault f => f = AssertFail end.
Proof.
  intros Hl. unfold run_and_dispose. set (b := if force_stopping a then cancel_tasks a else a).
  assert (Hb : live [] true b).
  { destruct Hl as (Hok & _ & Hu). subst b. destruct (force_stopping a); apply live_running; try done. now apply cancel_tasks_ok. }
  destruct (task_loop_ok yields b Hb) as (c & ys & y & E & H1 & H2). rewrite E. cbn [mbind res_bind].
  destruct y; [now apply finish_ok|]. destruct (Z.eqb_spec (cur_concurrency c) (max_concurrency c)) as [Hc|Hc].
  - left. destruct H1 as ([[B1 B2 B3 B4 B5 B6] [Hs Hq]] & _ & Hu). split; [split; [split; done|exact Hq]|]. split; [|exact Hu].
    intros _. unfold set_activatable. fields. split; [auto|]. split; [now right|]. lia.
  - apply finish_loop, mailbox_loop_ok; [done|]. destruct H1 as [[[] _] _]. lia.
Qed.

(** ** Histories *)
Lemma actor_new_live r : live [] false (actor_new r).
Proof.
  split; [split|split; done]; [|done]. split; cbn; try done; destruct r; cbn; (done || lia).
Qed.

Lemma dead_step ev a :
  dead a ->
  match step ev a with Ok a' => dead a' | Fault f => f = UseAfterFree /\ exists c, ev = ETask c end.
Proof.
  intros D. destruct ev as [m|k st|c|force| |yields]; cbn [step].
  - unfold send. rewrite (d_listed _ D). destruct D. split; fields; done.
  - unfold resolve. now rewrite (d_flying _ D).
  - rewrite (d_deleted _ D). split; [done|]. now exists c.
  - unfold stop_child_actor. now rewrite (d_listed _ D).
  - now rewrite (d_sched _ D).
  - now rewrite (d_queued _ D).
Qed.

Lemma live_keeps_step a b : live [] false a -> ok [] false b /\ keeps a b -> good b.
Proof. intros Hl [H1 H2]. left. now apply (keeps_live _ _ a). Qed.

Lemma schedule_live hand a : live hand false a -> sched a = INITIALIZED ->
  exists a', schedule a = Ok a' /\ live hand false a' /\ a' = with_queued (S (queued a)) (with_sched SCHEDULED a).
Proof.
  intros (Hok & _ & Hu) Hs. unfold schedule. rewrite bool_decide_true by done. cbn [assert mbind res_bind]. eexists. split; [reflexivity|]. split; [|done].
  assert (Hb : ok hand false (set_activatable a)).
  { destruct Hok as [[] Hq]. split; [split; done|]. unfold queue_ok in *. rewrite Hs in Hq. exact Hq. }
  split; [now apply activate_ok|]. split; [intros Hsc; now apply activate_sched in Hsc|exact Hu].
Qed.

Lemma live_step ev a :
  live [] false a -> match step ev a with Ok a' => good a' | Fault f => f = AssertFail end.
Proof.
  intros Hl. pose proof Hl as (Hok & Hi & Hu).
  destruct ev as [m|k st|c|force| |yields]; cbn [step].
  - eapply live_keeps_step; [exact Hl|]. now apply send_ok.
  - eapply live_keeps_step; [exact Hl|]. now apply resolve_ok.
  - destruct (b_live _ _ (proj1 Hok)) as [-> _]. eapply live_keeps_step; [exact Hl|]. now apply add_task_ok.
  - destruct (stop_child_actor_ok [] false force a Hl) as (b & E & H & _). rewrite E. now left.
  - case_bool_decide as Hs; [|now left]. destruct (schedule_live [] a Hl Hs) as (b & -> & H & _). now left.
  - destruct (queued a) as [|n] eqn:Eq; [now left|]. apply run_and_dispose_ok. destruct Hok as [[] Hq]. unfold queue_ok in Hq.
    apply live_running; [|exact Hu]. split; [split; done|]. rewrite Eq in Hq. case_decide; [|done]. split; [done|]. cbn. congruence.
Qed.

Lemma good_step ev a :
  good a -> match step ev a with
            | Ok a' => good a'
            | Fault f => f = AssertFail \/ (f = UseAfterFree /\ deleted a = true /\ exists c, ev = ETask c)
            end.
Proof.
  intros [Hl|Hd].
  - pose proof (live_step ev a Hl). destruct (step ev a); [done|now left].
  - pose proof (dead_step ev a Hd) as H. destruct (step ev a); [now right|]. right. destruct H. now rewrite (d_deleted _ Hd).
Qed.

Lemma good_run evs : forall a, good a -> match run evs a with Ok a' => good a' | Fault _ => True end.
Proof.
  induction evs as [|ev evs IH]; intros a Ha; cbn [run]; [done|].
  pose proof (good_step ev a Ha). destruct (step ev a); cbn [mbind res_bind]; [now apply IH|done].
Qed.

Lemma run_good evs r a : run evs (actor_new r) = Ok a -> good a.
Proof. intros E. pose proof (good_run evs (actor_new r) (or_introl (actor_new_live r))) as H. now rewrite E in H. Qed.

(** Running an actor that has nothing to do goes to FINAL. *)
Lemma run_idle yields a :
  tasks a = [] -> mailbox a = [] -> cur_concurrency a <> max_concurrency a -> run_and_dispose yields a = Ok (finish a).
Proof.
  intros Ht Hm Hc. destruct a. cbn in *. subst. unfold run_and_dispose.
  match goal with |- context [if force_stopping ?a then cancel_tasks ?a else ?a] =>
    replace (if force_stopping a then cancel_tasks a else a) with a by (now destruct (force_stopping a)) end.
  destruct yields; cbn; rewrite (proj2 (Z.eqb_neq _ _)) by done; reflexivity.
Qed.

(** ** The limit set from outside *)
(** No step but a run reads the limit. *)
Lemma activate_max x a : activate (with_max x a) = with_max x (activate a).
Proof. unfold activate. change (activatable (with_max x a)) with (activatable a). now destruct (activatable a). Qed.
Lemma add_task_max x t a : add_task t (with_max x a) = with_max x (add_task t a).
Proof. unfold add_task. rewrite <-activate_max. done. Qed.
Lemma add_urgent_task_max x t a : add_urgent_task t (with_max x a) = with_max x (add_urgent_task t a).
Proof. unfold add_urgent_task. rewrite <-activate_max. done. Qed.
Lemma resolve_max x k st a : resolve k st (with_max x a) = with_max x (resolve k st a).
Proof. unfold resolve. fields. destruct (flying a !! k); [|done]. now rewrite <-add_task_max. Qed.
Lemma send_max x m a : send m (with_max x a) = with_max x (send m a).
Proof.
  unfold send. fields. destruct (listed a); [|done]. destruct (_ =? _); unfold enque_message, enque_urgent_message; now rewrite <-activate_max.
Qed.
Lemma do_effects_max x es : forall a, do_effects es (with_max x a) = with_max x (do_effects es a).
Proof.
  induction es as [|e es IH]; intros a; cbn [do_effects]; [done|]. rewrite <-IH. f_equal.
  destruct e; cbn [do_effect]; auto using add_task_max, add_urgent_task_max, resolve_max, send_max.
Qed.
Lemma run_task_max x t a : run_task t (with_max x a) = (with_max x (run_task t a).1, (run_task t a).2).
Proof. destruct t as [|[r c]]; cbn; [done|]. now rewrite do_effects_max. Qed.
Lemma clean_loop_max x fuel : forall a, clean_loop fuel (with_max x a) = a ← clean_loop fuel a; Ok (with_max x a).
Proof.
  induction fuel as [|fuel IH]; intros a; cbn [clean_loop]; change (tasks (with_max x a)) with (tasks a); destruct (tasks a) as [|t q]; try done.
  change (with_tasks q (with_max x a)) with (with_max x (with_tasks q a)). rewrite run_task_max. destruct (run_task t (with_tasks q a)) as [b []]; cbn [fst snd]; [exact (IH (with_listed false b))|exact (IH b)].
Qed.
Lemma activate_if_idle_max x a : activate_if_idle (with_max x a) = with_max x (activate_if_idle a).
Proof.
  unfold activate_if_idle. rewrite activate_max. change (activatable (with_max x a)) with (activatable a). fields. now destruct (_ && _).
Qed.
Lemma stop_max x force a : stop force (with_max x a) = a ← stop force a; Ok (with_max x a).
Proof.
  unfold stop. change (stopping (with_max x a)) with (stopping a). destruct (stopping a); [done|]. destruct force.
  - change (clean_mailbox (with_stop FORCE_STOPPING (with_max x a))) with (with_max x (clean_mailbox (with_stop FORCE_STOPPING a))).
    unfold clean_task_queue. set (b := clean_mailbox _). change (mailbox (with_max x b)) with (mailbox b). change (force_stopping (with_max x b)) with (force_stopping b).
    destruct (assert _); cbn [mbind res_bind]; [|done]. change (cancel_tasks (with_max x b)) with (with_max x (cancel_tasks b)). rewrite clean_loop_max.
    change (tasks (with_max x (cancel_tasks b))) with (tasks (cancel_tasks b)). destruct (clean_loop _ _); cbn [mbind res_bind]; [|done]. now rewrite activate_if_idle_max.
  - cbn [mbind res_bind]. now rewrite <-activate_if_idle_max.
Qed.
Lemma step_max x ev a : queued a = 0%nat -> step ev (with_max x a) = a ← step ev a; Ok (with_max x a).
Proof.
  intros Hq. destruct ev as [m|k st|c|force| |ys]; cbn [step mbind res_bind].
  - now rewrite send_max.
  - now rewrite resolve_max.
  - fields. destruct (deleted a); [done|]. now rewrite add_task_max.
  - unfold stop_child_actor. fields. destruct (listed a); [|done]. rewrite stop_max. now destruct (stop force a).
  - fields. case_bool_decide as Hs; [|done]. unfold schedule. fields. rewrite bool_decide_true by done. cbn [assert mbind res_bind]. now rewrite <-activate_max.
  - fields. rewrite Hq. done.
Qed.

(** An idle actor whose limit was raised is as it would be under the limit it had reached. *)
Definition raised (h : history) : Prop :=
  let a := subject h in
  stale h = true /\ sched a = SCHEDULABLE /\ live [] false (with_max (cur_concurrency a) a) /\ 0 < cur_concurrency a <= max_concurrency a /\ max_concurrency a < 4294967296.
Definition tracked (h : history) : Prop := good (subject h) \/ raised h.

Lemma live_max x hand a : live hand false a -> 1 <= x < 4294967296 -> cur_concurrency a <= x -> (sched a = SCHEDULABLE -> mailbox a = [] \/ cur_concurrency a = x) ->
  live hand false (with_max x a).
Proof.
  intros ([[] Hq] & Hi & Hu) Hx Hc Hm. split; [split; [split|]; fields; done|]. split; [|exact Hu]. intros Hs. destruct (Hi Hs) as (H1 & _ & H3). fields. auto.
Qed.

Lemma with_max_max x y a : with_max x (with_max y a) = with_max x a.
Proof. done. Qed.
Lemma with_max_id a : with_max (max_concurrency a) a = a.
Proof. now destruct a. Qed.

Lemma raised_queued h : raised h -> queued (subject h) = 0%nat.
Proof. intros (_ & Hs & ([_ Hq] & _) & _). unfold queue_ok in Hq. fields. rewrite Hq, Hs. done. Qed.

Lemma set_limit n h h' : tracked h -> call_step (SetMax n) h = Ok h' -> lowered h' = false -> lowered h = false /\ tracked h'.
Proof.
  intros Ht E Hl. cbn [call_step] in E. injection E as <-. cbn [lowered] in Hl. apply orb_false_elim in Hl as [Hl Hc]. split; [done|].
  apply Z.ltb_ge in Hc. unfold set_max_concurrency in *. set (x := if 0 <? u32 n then u32 n else 1) in *. cbn in Hc.
  assert (Hx : 1 <= x < 4294967296) by (pose proof (u32_range n); subst x; destruct (Z.ltb_spec 0 (u32 n)); lia).
  destruct Ht as [[H|H]|(H1 & H2 & H3 & H4 & H5)].
  - assert (Hcase : (sched (subject h) = SCHEDULABLE -> mailbox (subject h) = [] \/ cur_concurrency (subject h) = x) \/
      (sched (subject h) = SCHEDULABLE /\ mailbox (subject h) <> [])) by (destruct (sched (subject h)); [left|destruct (mailbox (subject h)) eqn:E; [left; auto|right; done]|left]; done).
    destruct Hcase as [Hm|[Hs Hm]]; [left; left; apply live_max; auto; lia|].
    pose proof H as (_ & Hi & _). destruct (Hi Hs) as (_ & [?|Hcm] & _); [done|]. right. unfold raised. fields. cbn [subject stale]. fields.
    unfold activatable. fields. rewrite Hs, orb_true_r. split; [done|]. split; [done|]. pose proof (proj1 (proj1 H)) as [B1 B2 _ _ _ _].
    split; [|lia]. rewrite with_max_max, Hcm, with_max_id. exact H.
  - left. right. destruct H. split; fields; auto; cbn; lia.
  - right. split; [cbn; now rewrite H1|]. cbn [subject]. fields. split; [done|]. split; [exact H3|]. lia.
Qed.

Lemma dead_max x a : 0 <= x -> dead a -> dead (with_max x a).
Proof. intros Hx []. split; fields; done. Qed.

(** A step of an idle actor whose limit was raised, unless it is a run. *)
Lemma raised_step ev h b :
  stale h = true -> sched (subject h) = SCHEDULABLE -> live [] false (with_max (cur_concurrency (subject h)) (subject h)) ->
  0 < cur_concurrency (subject h) <= max_concurrency (subject h) -> max_concurrency (subject h) < 4294967296 -> queued (subject h) = 0%nat ->
  step ev (subject h) = Ok b -> tracked (mk_history b (stale h && true) (lowered h)).
Proof.
  intros Hst Hs Hlive Hc Hx Hq Es. set (a := subject h) in *. set (c := with_max (cur_concurrency a) a) in *.
  assert (Ea : a = with_max (max_concurrency a) c) by (subst c; now rewrite with_max_max, with_max_id).
  rewrite Ea, step_max in Es by exact Hq. pose proof (live_step ev c Hlive) as Hg. destruct (step ev c) as [b0|] eqn:E0; [|done]. cbn [mbind res_bind] in Es. injection Es as <-.
  assert (Hmax : max_concurrency b0 = cur_concurrency a).
  { pose proof (step_max (cur_concurrency a) ev c Hq) as E1. change (with_max (cur_concurrency a) c) with c in E1. rewrite E0 in E1.
    cbn [mbind res_bind] in E1. injection E1 as E1. rewrite E1. done. }
  destruct Hg as [Hb|Hb]; [|left; right; apply dead_max; [lia|done]]. pose proof Hb as ([[B1 B2 B3 _ _ _] _] & Hi & _).
  destruct (decide (sched b0 = SCHEDULABLE /\ mailbox b0 <> [])) as [[Hsb Hm]|Hn].
  - right. destruct (Hi Hsb) as (_ & [?|Hcm] & _); [done|]. unfold raised. cbn [subject stale]. fields. rewrite Hst, Hcm, with_max_max, with_max_id.
    split; [done|]. split; [exact Hsb|]. split; [exact Hb|]. lia.
  - left. left. apply live_max; [done|lia..|]. intros Hsb. left. destruct (mailbox b0); [done|]. exfalso. auto.
Qed.

Lemma event_tracked ev h h' : tracked h -> call_step (Event ev) h = Ok h' -> lowered h' = false -> lowered h = false /\ tracked h'.
Proof.
  intros Ht E Hl. cbn [call_step] in E. destruct (step ev (subject h)) as [b|] eqn:Es; [|done]. injection E as <-. split; [exact Hl|].
  destruct Ht as [Hg|Hr]; [left; pose proof (good_step ev _ Hg) as H; now rewrite Es in H|]. pose proof (raised_queued _ Hr) as Hq. destruct Hr as (Hst & Hs & Hlive & Hc & Hx).
  set (a := subject h) in *.
  destruct ev as [m|k st|c|force| |ys]; [..|cbn [step] in Es; rewrite Hq in *; injection Es as <-; right; split; [cbn; now rewrite Hst|done]];
    (eapply raised_step; [exact Hst|done..|exact Es]).
Qed.

Lemma calls_tracked cs : forall h h', tracked h -> calls cs h = Ok h' -> lowered h' = false -> tracked h'.
Proof.
  induction cs as [|c cs IH]; intros h h' Ht E Hl; cbn [calls] in E; [now injection E as <-|].
  destruct (call_step c h) as [h1|] eqn:E1; cbn [mbind res_bind] in E; [|done].
  assert (Hmono : forall cs h h', calls cs h = Ok h' -> lowered h' = false -> lowered h = false).
  { clear. induction cs as [|c cs IH]; intros h h' E Hl; cbn [calls] in E; [now injection E as <-|]. destruct (call_step c h) as [h1|] eqn:E1; cbn [mbind res_bind] in E; [|done].
    specialize (IH _ _ E Hl). destruct c; cbn [call_step] in E1; [destruct (step ev (subject h)); [|done]|]; injection E1 as <-; cbn [lowered] in IH; [done|].
    now apply orb_false_elim in IH. }
  apply (IH h1); [|done..]. specialize (Hmono _ _ _ E Hl). destruct c; [eapply event_tracked|eapply set_limit]; eauto.
Qed.
Lemma history_tracked cs r h : calls cs (history_new r) = Ok h -> lowered h = false -> tracked h.
Proof. intros E Hl. eapply calls_tracked; [|exact E|exact Hl]. left. left. apply actor_new_live. Qed.



(** C9: an actor is deleted only after it was stopped and dropped from its parent's map, with every
    message it accepted reclaimed, no [do_work] blocked and no entry left in the parent's task
    queue; its parent is notified exactly once, and not before. *)
Theorem actor_deleted_once evs r a :
  run evs (actor_new r) = Ok a ->
  notified a = (if deleted a then 1%nat else 0%nat) /\
  (deleted a = true ->
     stopping a = true /\ listed a = false /\ queued a = 0%nat /\ flying a = [] /\ mailbox a = [] /\
     posts (tasks a) = [] /\ Permutation (accepted a) (reclaimed a)).
Proof.
  intros E. destruct (run_good _ _ _ E) as [([[] _] & _)|[]]; [|split; [now rewrite d_deleted0|]].
  - destruct b_live0 as [-> ->]. done.
  - intros _. repeat split; try done. unfold stopping. now rewrite bool_decide_false.
Qed.

(** C10: unless it is stopped by force, an actor hands its user messages to [do_work] in the order they
    arrived, each once: what it accepted is what it handled followed by what waits; so an
    actor that was stopped peacefully has handled every user message it accepted when it is deleted. *)
Theorem actor_fifo evs r a :
  run evs (actor_new r) = Ok a -> stop_status a <> FORCE_STOPPING ->
  users (accepted a) = handled a ++ users (mailbox a) /\
  (deleted a = true -> handled a = users (accepted a)).
Proof.
  intros E Hs. destruct (run_good _ _ _ E) as [([[] _] & _)|[]].
  - split; [auto|]. destruct b_live0. congruence.
  - rewrite d_mailbox0, (d_fifo0 Hs). cbn. rewrite app_nil_r. done.
Qed.

(** Running an actor always returns: whatever happens to it, in whatever order, the only step
    that can go wrong besides an unknown message type is a continuation of user code
    becoming ready after the actor was deleted. *)
Theorem actor_never_stuck evs r ev a :
  run evs (actor_new r) = Ok a ->
  match step ev a with
  | Ok _ => True
  | Fault f => f = AssertFail \/ (f = UseAfterFree /\ deleted a = true /\ exists c, ev = ETask c)
  end.
Proof. intros E. pose proof (good_step ev a (run_good _ _ _ E)). now destruct (step ev a). Qed.

(** A stopping actor with nothing blocked, nothing waiting and nothing ready is in its parent's task queue
    once the activation semaphore admitted it, and its next run deletes it. *)
Theorem stopped_actor_goes evs r a yields :
  run evs (actor_new r) = Ok a -> deleted a = false ->
  stopping a = true -> flying a = [] -> mailbox a = [] -> tasks a = [] -> sched a <> INITIALIZED ->
  exists a', step (ERun yields) a = Ok a' /\ deleted a' = true /\ notified a' = 1%nat.
Proof.
  intros E Hd Hs Hf Hm Ht Hin. destruct (run_good _ _ _ E) as [([[B1 B2 B3 B4 B5 [B6 B7]] Hq] & Hi & _)|D]; [|now rewrite (d_deleted _ D) in Hd].
  rewrite Hf, Ht in B1. cbn in B1. unfold queue_ok in Hq.
  assert (Hsc : sched a = SCHEDULED) by (destruct (sched a) eqn:Es; try done; destruct (Hi Es) as (_ & _ & H); specialize (H Hs); lia).
  rewrite decide_True in Hq by done. cbn [step]. rewrite Hq, run_idle by (cbn; done || lia).
  unfold finish. change (stopping (with_queued 0 a)) with (stopping a). fields. rewrite Hm, Hs, B1, Z.eqb_refl. cbn [andb].
  eexists. split; [reflexivity|]. fields. split; congruence.
Qed.

(** [run_and_dispose] deletes a stopping actor without testing its task queue: a continuation that
    was ready is never run, and the next one that becomes ready is added to a deleted actor. *)
Theorem deleted_with_pending_tasks r c c' :
  let evs := [ESchedule; ETask (Chain [] []); ETask c; EStop false; ERun [true]] in
  (exists a, run evs (actor_new r) = Ok a /\ deleted a = true /\ tasks a = [Cont c]) /\
  run (evs ++ [ETask c']) (actor_new r) = Fault UseAfterFree.
Proof. intros evs. destruct r; (split; [eexists; split; [vm_compute; reflexivity|split; reflexivity]|vm_compute; reflexivity]). Qed.

End Actor.

(** ** Witnesses *)
(** User code that blocks on message 1 and completes on any other. *)
Definition toy_work (n : Z) : work (P := Z) := if n =? 1 then Blocked [] else Done [] (WOk false).
Definition toy_events : list (event (P := Z)) :=
  [ESchedule; ESend (mk_msg USER 1); ESend (mk_msg USER 2); ERun [false; false]; EStop false].
Definition toy_state (evs : list event) (r : bool) : actor :=
  match run toy_work evs (actor_new r) with Ok a => a | Fault _ => actor_new r end.

(** An actor whose constructor sets the limit 1: its first message blocks, the second one waits. *)
Definition toy_calls : list (call (P := Z)) := SetMax 1 :: (Event <$> toy_events).
Definition toy_history : history := match calls toy_work toy_calls (history_new true) with Ok h => h | Fault _ => history_new true end.



(** A message that waits for the limit is not run when the limit is raised: the actor is not activated. *)
Theorem raised_limit_waits :
  exists h, calls toy_work (toy_calls ++ [SetMax 2]) (history_new true) = Ok h /\
    sched (subject h) = SCHEDULABLE /\ mailbox (subject h) = [mk_msg USER 2] /\ cur_concurrency (subject h) < max_concurrency (subject h) /\ stale h = true.
Proof. eexists. split; [vm_compute; reflexivity|]. repeat split. Qed.
(** Lowered below the number of blocked messages, the limit is never met again: [run_and_dispose] tests for equality. *)
Theorem lowered_limit_ignored :
  let one := [Event (ESend (mk_msg USER 1)); Event (ERun [false; true])] in
  exists h, calls toy_work ([Event ESchedule; Event (ERun [])] ++ one ++ one ++ [SetMax 1] ++ one) (history_new true) = Ok h /\
    max_concurrency (subject h) = 1 /\ cur_concurrency (subject h) = 3 /\ lowered h = true.
Proof. eexists. split; [vm_compute; reflexivity|]. repeat split. Qed.

Definition toy_end : list (event (P := Z)) := toy_events ++ [EResolve 0 (WOk true); ERun [false; false; false]].

Example actor_deleted_once_witness :
  let a := toy_state toy_end false in deleted a = true /\ Permutation (accepted a) (reclaimed a).
Proof. split; [vm_compute; reflexivity|]. apply (actor_deleted_once toy_work toy_end false); (vm_compute; reflexivity). Defined.

Example actor_fifo_witness :
  let a := toy_state toy_end false in handled a = [mk_msg USER 1; mk_msg USER 2] /\ handled a = users (accepted a).
Proof.
  split; [vm_compute; reflexivity|]. apply (actor_fifo toy_work toy_end false); [vm_compute; reflexivity|discriminate|vm_compute; reflexivity].
Defined.

Example actor_never_stuck_witness :
  match step toy_work (ERun [true]) (toy_state toy_events false) with
  | Ok _ => True
  | Fault f => f = AssertFail \/ (f = UseAfterFree /\ deleted (toy_state toy_events false) = true /\
                                 exists c, ERun (P := Z) [true] = ETask c)
  end.
Proof. apply (actor_never_stuck toy_work toy_events false). vm_compute; reflexivity. Defined.

Example stopped_actor_goes_witness :
  exists a', step toy_work (ERun []) (toy_state [ESchedule; EStop false] true) = Ok a' /\ deleted a' = true /\ notified a' = 1%nat.
Proof. apply (stopped_actor_goes toy_work [ESchedule; EStop false] true); (vm_compute; (reflexivity || discriminate)). Defined.
