(* ===== verification/TaskQueue.v ===== *)
(** * The task queue of an actor group

    [schedulable_actor_task_queue] (src/include/hiactor/core/actor_scheduling.hh): urgent
    tasks in a first-in-first-out buffer, the others in a buffer that is a plain queue
    without a comparator and a heap, rebuilt when something was pushed, with one.

    [std::make_heap] and [std::pop_heap] are what the C++ standard requires of them
    (class [HeapOps]): any standard library will do; [sorted_heap] is one. *)
From S2P Require Import Prelude.

(** ** The standard heap algorithms

    [lt x y]: [x] has lower priority than [y]. *)
Class HeapOps (A : Type) := {
  is_heap : (A -> A -> bool) -> list A -> Prop;
  make_heap : (A -> A -> bool) -> list A -> list A;
  pop_heap : (A -> A -> bool) -> list A -> list A
}.

Definition weak_order {A} (lt : A -> A -> bool) : Prop :=
  (forall x y, lt x y = true -> lt y x = false) /\ (forall x y z, lt x y = false -> lt y z = false -> lt x z = false).

Lemma weak_order_irrefl {A} (lt : A -> A -> bool) x : weak_order lt -> lt x x = false.
Proof. intros [Ha _]. destruct (lt x x) eqn:E; [|done]. now rewrite (Ha _ _ E) in E. Qed.

Class HeapLaws (A : Type) {H : HeapOps A} := {
  make_heap_perm lt l : Permutation (make_heap lt l) l;
  make_heap_heap lt l : weak_order lt -> is_heap lt (make_heap lt l);
  is_heap_nil lt : is_heap lt [];
  (* [pop_heap] on a heap moves an element of highest priority to the back *)
  pop_heap_spec lt l : is_heap lt l -> l <> [] ->
    exists l' x, pop_heap lt l = l' ++ [x] /\ Permutation l (l' ++ [x]) /\ is_heap lt l' /\
      Forall (fun y => lt x y = false) l'
}.

Section TaskQueue.
Context {A : Type} {H : HeapOps A} {HL : HeapLaws A}.

Record task_queue := mk {
  _urgent_q : list A;
  _q : list A;
  _comparator : option (A -> A -> bool);
  _need_scheduling : bool
}.

Definition task_queue_new : task_queue := mk [] [] None false.
Definition set_comparator (c : A -> A -> bool) (t : task_queue) : task_queue :=
  mk (_urgent_q t) (_q t) (Some c) (_need_scheduling t).

Definition push_urgent_task (a : A) (t : task_queue) : task_queue :=
  mk (_urgent_q t ++ [a]) (_q t) (_comparator t) (_need_scheduling t).
Definition push_task (a : A) (t : task_queue) : task_queue :=
  mk (_urgent_q t) (_q t ++ [a]) (_comparator t) true.

(** [circular_buffer]: [front] and [back] of an empty buffer are undefined. *)
Definition pop_front (l : list A) : res (A * list A) :=
  match l with [] => Fault OutOfBounds | x :: l => Ok (x, l) end.
Definition pop_back (l : list A) : res (A * list A) :=
  match last l with None => Fault OutOfBounds | Some x => Ok (x, take (length l - 1) l) end.

Definition pop_task (t : task_queue) : res (A * task_queue) :=
  match _urgent_q t with
  | x :: u => Ok (x, mk u (_q t) (_comparator t) (_need_scheduling t))
  | [] =>
      match _comparator t with
      | None => '(x, q) ← pop_front (_q t); Ok (x, mk [] q None (_need_scheduling t))
      | Some c =>
          let q := if _need_scheduling t then make_heap c (_q t) else _q t in
          '(x, q) ← pop_back (pop_heap c q);
          Ok (x, mk [] q (Some c) false)
      end
  end.

Definition empty (t : task_queue) : bool :=
  match _urgent_q t, _q t with [], [] => true | _, _ => false end.
Definition size (t : task_queue) : nat := length (_urgent_q t) + length (_q t).

(** The tasks [cancel_all] cancels, in that order. *)
Definition cancel_all (t : task_queue) : list A := _urgent_q t ++ _q t.

(** ** Invariant *)
Definition queued_tasks (t : task_queue) : list A := _urgent_q t ++ _q t.

Definition tq_ok (t : task_queue) : Prop :=
  match _comparator t with
  | Some c => weak_order c /\ (_need_scheduling t = false -> is_heap c (_q t))
  | None => True
  end.

Lemma pop_back_app (l : list A) x : pop_back (l ++ [x]) = Ok (x, l).
Proof.
  unfold pop_back. rewrite last_snoc, length_app. cbn [length]. replace (length l + 1 - 1)%nat with (length l) by lia.
  now rewrite take_app_length.
Qed.

Lemma tq_empty_spec t : empty t = true <-> queued_tasks t = [].
Proof. unfold empty, queued_tasks. destruct (_urgent_q t), (_q t); cbn; split; (done || discriminate). Qed.

Lemma tq_push_ok a t : tq_ok t -> tq_ok (push_task a t) /\ tq_ok (push_urgent_task a t).
Proof. unfold tq_ok. cbn. destruct (_comparator t); [|done]. intros [H1 H2]. split; split; done. Qed.

(** What [pop_task] chooses. *)
Definition chosen (t : task_queue) (x : A) : Prop :=
  match _urgent_q t with
  | y :: _ => x = y
  | [] => match _comparator t with
          | None => head (_q t) = Some x
          | Some c => x ∈ _q t /\ Forall (fun y => c x y = false) (_q t)
          end
  end.

Lemma pop_task_spec t :
  tq_ok t -> empty t = false ->
  exists x t', pop_task t = Ok (x, t') /\ chosen t x /\ Permutation (queued_tasks t) (x :: queued_tasks t') /\
    tq_ok t' /\ _comparator t' = _comparator t.
Proof.
  intros Hok He. unfold pop_task, chosen, queued_tasks, tq_ok in *. destruct (_urgent_q t) as [|u us] eqn:Eu.
  - destruct (_comparator t) as [c|] eqn:Ec.
    + destruct Hok as [Hw Hh]. set (q := if _need_scheduling t then make_heap c (_q t) else _q t).
      assert (Hp : Permutation q (_q t)) by (subst q; destruct (_need_scheduling t); [apply make_heap_perm|done]).
      assert (Hq : is_heap c q) by (subst q; destruct (_need_scheduling t); [now apply make_heap_heap|now apply Hh]).
      assert (Hn : q <> []) by (intros E; unfold empty in He; rewrite Eu in He; rewrite E in Hp; apply Permutation_nil in Hp; now rewrite Hp in He).
      destruct (pop_heap_spec c q Hq Hn) as (l' & x & E & Hpx & Hl' & Hmax). rewrite E, pop_back_app. cbn [mbind res_bind].
      assert (Hxq : Permutation (_q t) (x :: l')) by (rewrite <-Hp, Hpx; solve_Permutation).
      eexists x, _. split; [reflexivity|]. cbn [_urgent_q _q _comparator _need_scheduling app].
      split; [|split; [exact Hxq|split; [done|done]]].
      split; [rewrite Hxq; left|]. rewrite Hxq. constructor; [now apply weak_order_irrefl|done].
    + destruct (_q t) as [|x q] eqn:Eq; [unfold empty in He; now rewrite Eu, Eq in He|].
      eexists x, _. split; [reflexivity|]. cbn. done.
  - eexists u, _. split; [reflexivity|]. cbn. split; [done|]. split; [done|]. destruct (_comparator t); done.
Qed.

(** ** Histories *)
Inductive op := Push (a : A) | PushUrgent (a : A) | Pop.

(** The queue, what was pushed and what was popped; a [Pop] of an empty queue, which the
    group never does, is skipped. *)
Fixpoint run (ops : list op) (t : task_queue) (popped : list A) : res (task_queue * list A) :=
  match ops with
  | [] => Ok (t, popped)
  | Push a :: ops => run ops (push_task a t) popped
  | PushUrgent a :: ops => run ops (push_urgent_task a t) popped
  | Pop :: ops =>
      if empty t then run ops t popped
      else '(x, t) ← pop_task t; run ops t (popped ++ [x])
  end.
Definition pushed (ops : list op) : list A :=
  mjoin ((fun o => match o with Push a | PushUrgent a => [a] | Pop => [] end) <$> ops).

Lemma run_spec ops : forall t popped,
  tq_ok t -> exists t' popped', run ops t popped = Ok (t', popped') /\ tq_ok t' /\
    Permutation (popped' ++ queued_tasks t') (popped ++ queued_tasks t ++ pushed ops).
Proof.
  induction ops as [|[a|a|] ops IH]; intros t popped Hok; cbn [run].
  - exists t, popped. split; [done|]. split; [done|]. cbn. now rewrite app_nil_r.
  - destruct (IH (push_task a t) popped) as (t' & p' & E & Ho & Hp); [now apply tq_push_ok|].
    exists t', p'. split; [done|]. split; [done|]. rewrite Hp. unfold queued_tasks. cbn. solve_Permutation.
  - destruct (IH (push_urgent_task a t) popped) as (t' & p' & E & Ho & Hp); [now apply tq_push_ok|].
    exists t', p'. split; [done|]. split; [done|]. rewrite Hp. unfold queued_tasks. cbn. solve_Permutation.
  - destruct (empty t) eqn:Ee; [now apply IH|].
    destruct (pop_task_spec t Hok Ee) as (x & t1 & E1 & _ & Hp1 & Ho1 & _).
    rewrite E1. cbn [mbind res_bind]. destruct (IH t1 (popped ++ [x]) Ho1) as (t' & p' & E & Ho & Hp).
    exists t', p'. split; [done|]. split; [done|]. rewrite Hp. change (pushed (Pop :: ops)) with (pushed ops).
    rewrite Hp1. solve_Permutation.
Qed.

Definition queue_of (c : option (A -> A -> bool)) : task_queue :=
  match c with Some c => set_comparator c task_queue_new | None => task_queue_new end.

Lemma queue_of_ok c : (forall f, c = Some f -> weak_order f) -> tq_ok (queue_of c).
Proof. destruct c as [f|]; intros Hw; [|done]. split; [now apply Hw|]. intros _. apply is_heap_nil. Qed.

(** Whatever is pushed and popped, in any order, every task that was pushed is popped exactly once or still
    queued; and the next [pop_task] of a non-empty queue does not fail and takes the oldest
    urgent task if there is one, else the oldest task of a group without a comparator, or
    a task no other queued task has priority over.  This holds for every conforming implementation of
    the standard heap algorithms and every comparator that is a strict weak order. *)
Theorem pop_task_chosen c ops t popped :
  (forall f, c = Some f -> weak_order f) ->
  run ops (queue_of c) [] = Ok (t, popped) ->
  Permutation (pushed ops) (popped ++ queued_tasks t) /\
  (empty t = false -> exists x t', pop_task t = Ok (x, t') /\ chosen t x /\ Permutation (queued_tasks t) (x :: queued_tasks t')).
Proof.
  intros Hw E. destruct (run_spec ops (queue_of c) [] (queue_of_ok c Hw)) as (t1 & p1 & E1 & Hok & Hp).
  rewrite E1 in E. simplify_eq. split.
  - rewrite Hp. now destruct c.
  - intros He. destruct (pop_task_spec t Hok He) as (x & t' & G1 & G2 & G3 & _). exists x, t'. done.
Qed.

End TaskQueue.

(** ** A heap: the list sorted by decreasing priority *)
Fixpoint insert_desc (lt : Z -> Z -> bool) (x : Z) (l : list Z) : list Z :=
  match l with
  | [] => [x]
  | y :: l => if lt x y then y :: insert_desc lt x l else x :: y :: l
  end.
Definition sort_desc (lt : Z -> Z -> bool) (l : list Z) : list Z := foldr (insert_desc lt) [] l.

Inductive desc (lt : Z -> Z -> bool) : list Z -> Prop :=
  | desc_nil : desc lt []
  | desc_cons x l : Forall (fun y => lt x y = false) l -> desc lt l -> desc lt (x :: l).

#[export] Instance sorted_heap : HeapOps Z := {
  is_heap := desc;
  make_heap := sort_desc;
  pop_heap lt l := match l with [] => [] | x :: l => l ++ [x] end
}.

Lemma insert_desc_perm lt x l : Permutation (insert_desc lt x l) (x :: l).
Proof. induction l as [|y l IH]; cbn; [done|]. destruct (lt x y); [|done]. rewrite IH. constructor. Qed.

Lemma insert_desc_desc lt x l : weak_order lt -> desc lt l -> desc lt (insert_desc lt x l).
Proof.
  intros [Ha Ht]. induction 1 as [|y l Hy Hl IH]; cbn; [constructor; constructor|].
  destruct (lt x y) eqn:E.
  - constructor; [|done]. rewrite insert_desc_perm. constructor; [now apply Ha|done].
  - constructor; [|now constructor]. constructor; [done|]. eapply Forall_impl; [exact Hy|]. cbn. intros z. now apply Ht.
Qed.

#[export] Instance sorted_heap_laws : HeapLaws Z.
Proof.
  split; cbn.
  - intros lt l. induction l as [|x l IH]; cbn; [done|]. now rewrite insert_desc_perm, IH.
  - intros lt l Hw. induction l as [|x l IH]; cbn; [constructor|]. now apply insert_desc_desc.
  - constructor.
  - intros lt l Hd Hn. destruct Hd as [|x l Hx Hl]; [done|]. exists l, x. split; [done|]. split; [solve_Permutation|done].
Qed.

(** Tasks are numbers, larger ones first. *)
Example pop_task_chosen_witness :
  let q := queue_of (Some Z.ltb) in
  exists t popped, run [Push 3; Push 7; PushUrgent 1; Pop; Push 5] q [] = Ok (t, popped) /\ popped = [1] /\
    (empty t = false -> exists x t', pop_task t = Ok (x, t') /\ chosen t x /\ Permutation (queued_tasks t) (x :: queued_tasks t')).
Proof.
  eexists _, _. split; [reflexivity|]. split; [reflexivity|].
  eapply (pop_task_chosen (Some Z.ltb) [Push 3; Push 7; PushUrgent 1; Pop; Push 5]); [|reflexivity].
  intros f Hf. simplify_eq. split; intros; lia.
Defined.
