(* ===== verification/Group.v ===== *)
(** * Actor groups

    [actor_group] (src/include/hiactor/core/actor-template.hh, src/src/core/actor-template.cc):
    the children of a group, their activation, the run of the group over its mailbox and
    its task queue, and the stop protocol between a group, its parent and its children.

    Children are named by their ids.  A child acts on the group by an [effect]; the
    effects that break the children's protocol are the ones [allowed] refuses: a child
    is in the task queue at most once and only while it exists, and it notifies the group
    once, after the group dropped it from its map.  This is an assumption about the
    environment of the group; [Shutdown] composes groups and actors and shows when it holds.
    What the group does to others is recorded in [trace]. *)
From S2P Require Import Prelude.
From S2P Require Import Message.
From S2P Require Import Actor.
From S2P Require Import TaskQueue.

(** ** Semaphores

    [seastar::semaphore], as far as the group uses it: [waiting] are the children waiting
    for a unit, in order; the lists returned are the waiters whose future became available. *)
Class Semaphore (S : Type) := {
  waiting : S -> list Z;
  sem_init : S;
  sem_wait : S -> Z -> S * bool;      (* is the future available at once? *)
  sem_signal : S -> S * list Z;
  sem_broken : S -> S * list Z;
  sem_init_waiting : waiting sem_init = [];
  sem_wait_spec s id : waiting (fst (sem_wait s id)) = waiting s ++ (if snd (sem_wait s id) then [] else [id]);
  sem_signal_spec s : waiting s = snd (sem_signal s) ++ waiting (fst (sem_signal s));
  sem_broken_spec s : snd (sem_broken s) = waiting s /\ waiting (fst (sem_broken s)) = []
}.

Record gmsg := mk_gmsg { g_type : Z; g_src : Z; g_pr : Z }.

(** What a group does to others. *)
Inductive out :=
  | Created (id : Z)                  (* [actor_factory::create] *)
  | Scheduled (id : Z)                (* [child->schedule()] *)
  | ChildMsg (id m_type : Z)          (* a stop message put into the child's mailbox *)
  | Stopped (id : Z) (force : bool)   (* [child->stop(force)] *)
  | Reclaimed (m : gmsg)
  | Notified                          (* the parent's [notify_child_stopped] *)
  | Response (sid pr_id : Z).         (* the response to a cancel request *)

Section Group.
Context {Sem : Type} {SM : Semaphore Sem} {H : HeapOps Z} {HL : HeapLaws Z}.

Record group := mk {
  sched : schedule_status;
  stop_status : actor_status;
  mailbox : list gmsg;
  num_actors_managed : Z;
  inst_map : gmap Z bool;             (* [false]: the null pointer of a stopped child *)
  sem : Sem;
  tq : task_queue (A := Z);
  cancel_request : Z * Z;             (* [cancel_request_sid], [cancel_request_pr_id] *)
  listed : bool;                      (* the parent's map points to the group *)
  queued : nat;                       (* how often the group is in its parent's task queue *)
  alive : gset Z;                     (* children created and not destructed yet *)
  trace : list out;
  deleted : bool
}.

(** [c]: the comparator of a [schedulable_actor_group]. *)
Definition group_new (c : option (Z -> Z -> bool)) : group :=
  mk INITIALIZED RUNNING [] 0 ∅ sem_init (queue_of c) (4294967295, 0) true 0 ∅ [] false.

Definition with_sched x g := mk x (stop_status g) (mailbox g) (num_actors_managed g) (inst_map g) (sem g) (tq g) (cancel_request g) (listed g) (queued g) (alive g) (trace g) (deleted g).
Definition with_stop x g := mk (sched g) x (mailbox g) (num_actors_managed g) (inst_map g) (sem g) (tq g) (cancel_request g) (listed g) (queued g) (alive g) (trace g) (deleted g).
Definition with_mailbox x g := mk (sched g) (stop_status g) x (num_actors_managed g) (inst_map g) (sem g) (tq g) (cancel_request g) (listed g) (queued g) (alive g) (trace g) (deleted g).
Definition with_num x g := mk (sched g) (stop_status g) (mailbox g) x (inst_map g) (sem g) (tq g) (cancel_request g) (listed g) (queued g) (alive g) (trace g) (deleted g).
Definition with_map x g := mk (sched g) (stop_status g) (mailbox g) (num_actors_managed g) x (sem g) (tq g) (cancel_request g) (listed g) (queued g) (alive g) (trace g) (deleted g).
Definition with_sem x g := mk (sched g) (stop_status g) (mailbox g) (num_actors_managed g) (inst_map g) x (tq g) (cancel_request g) (listed g) (queued g) (alive g) (trace g) (deleted g).
Definition with_tq x g := mk (sched g) (stop_status g) (mailbox g) (num_actors_managed g) (inst_map g) (sem g) x (cancel_request g) (listed g) (queued g) (alive g) (trace g) (deleted g).
Definition with_cancel x g := mk (sched g) (stop_status g) (mailbox g) (num_actors_managed g) (inst_map g) (sem g) (tq g) x (listed g) (queued g) (alive g) (trace g) (deleted g).
Definition with_listed x g := mk (sched g) (stop_status g) (mailbox g) (num_actors_managed g) (inst_map g) (sem g) (tq g) (cancel_request g) x (queued g) (alive g) (trace g) (deleted g).
Definition with_queued x g := mk (sched g) (stop_status g) (mailbox g) (num_actors_managed g) (inst_map g) (sem g) (tq g) (cancel_request g) (listed g) x (alive g) (trace g) (deleted g).
Definition with_alive x g := mk (sched g) (stop_status g) (mailbox g) (num_actors_managed g) (inst_map g) (sem g) (tq g) (cancel_request g) (listed g) (queued g) x (trace g) (deleted g).
Definition with_trace x g := mk (sched g) (stop_status g) (mailbox g) (num_actors_managed g) (inst_map g) (sem g) (tq g) (cancel_request g) (listed g) (queued g) (alive g) x (deleted g).
Definition with_deleted x g := mk (sched g) (stop_status g) (mailbox g) (num_actors_managed g) (inst_map g) (sem g) (tq g) (cancel_request g) (listed g) (queued g) (alive g) (trace g) x.

Definition emit (os : list out) (g : group) : group := with_trace (trace g ++ os) g.

(** ** actor_base, as in [Actor] *)
Definition activatable (g : group) : bool := bool_decide (sched g = SCHEDULABLE).
Definition set_activatable (g : group) : group := with_sched SCHEDULABLE g.
Definition stopping (g : group) : bool := negb (bool_decide (stop_status g = RUNNING)).
Definition activate (g : group) : group :=
  if activatable g then with_queued (S (queued g)) (with_sched SCHEDULED g) else g.
Definition schedule (g : group) : res group :=
  _ ← assert (bool_decide (sched g = INITIALIZED)); Ok (activate (set_activatable g)).
Definition enque_message (m : gmsg) (g : group) : group := activate (with_mailbox (mailbox g ++ [m]) g).
Definition enque_urgent_message (m : gmsg) (g : group) : group := activate (with_mailbox (m :: mailbox g) g).
Definition clean_mailbox (g : group) : group := with_mailbox [] (emit (Reclaimed <$> mailbox g) g).

(** ** actor_group *)
Definition add_task (id : Z) (g : group) : group := activate (with_tq (push_task id (tq g)) g).
Definition add_urgent_task (id : Z) (g : group) : group := activate (with_tq (push_urgent_task id (tq g)) g).

(** [get_actor_local]: the child a message is passed on to, [None] for the null pointer. *)
Definition get_actor_local (id : Z) (g : group) : group * option Z :=
  match inst_map g !! id with
  | Some false => (g, None)
  | Some true => (g, Some id)
  | None =>
      let g := emit [Created id] (with_alive ({[id]} ∪ alive g) g) in
      let g := with_num (u32 (num_actors_managed g + 1)) (with_map (<[id := true]> (inst_map g)) g) in
      let '(s, available) := sem_wait (sem g) id in
      let g := with_sem s g in
      ((if available : bool then emit [Scheduled id] g else g), Some id)
  end.

(** The children are visited in the order of the hash map, which is unspecified. *)
Definition stop_all_children (force : bool) (g : group) : group :=
  emit (omap (fun p => if snd p : bool then Some (ChildMsg (fst p) (if force then FORCE_STOP else PEACE_STOP)) else None)
          (map_to_list (inst_map g))) g.

Definition break_sem (g : group) : group :=
  match waiting (sem g) with
  | [] => g
  | _ => let '(s, woken) := sem_broken (sem g) in emit (Scheduled <$> woken) (with_sem s g)
  end.

Definition activate_if_idle (g : group) : group :=
  if (num_actors_managed g =? 0) && activatable g then activate g else g.

Definition stop (force : bool) (g : group) : group :=
  if stopping g then g
  else
    let g :=
      if force then clean_mailbox (stop_all_children true (break_sem (with_stop FORCE_STOPPING g)))
      else stop_all_children false (with_stop PEACE_STOPPING g) in
    activate_if_idle g.

(** [find] returns the end iterator for an unknown child, whose [second] is undefined. *)
Definition stop_child_actor (id : Z) (force : bool) (g : group) : res group :=
  match inst_map g !! id with
  | None => Fault NullDeref
  | Some true => Ok (with_map (<[id := false]> (inst_map g)) (emit [Stopped id force] g))
  | Some false => Ok g
  end.

Definition notify_child_stopped (g : group) : group :=
  let g := with_num (u32 (num_actors_managed g - 1)) g in
  let '(s, woken) := sem_signal (sem g) in emit (Scheduled <$> woken) (with_sem s g).

(** The parent's [stop_child_actor] for this group. *)
Definition parent_stop (force : bool) (g : group) : group :=
  if listed g then with_listed false (stop force g) else g.

Definition process_message (m : gmsg) (g : group) : res group :=
  if g_type m =? PEACE_STOP then
    Ok (emit [Reclaimed m] (with_cancel (g_src m, g_pr m) (parent_stop false g)))
  else if g_type m =? FORCE_STOP then
    Ok (emit [Reclaimed m] (with_cancel (g_src m, g_pr m) (parent_stop true g)))
  else Fault AssertFail.

(** ** Effects of others *)
Inductive effect :=
  | Lookup (id : Z)                   (* a message is routed through the group *)
  | AddChild (id : Z) (urgent : bool) (* a child is activated *)
  | StopChild (id : Z) (force : bool) (* a child asks to be stopped *)
  | ChildGone (id : Z)                (* a child notifies the group and is destructed *)
  | Send (m : gmsg).                  (* a message to the group itself *)

(** At most 2^32 - 1 children exist at the same time. *)
Definition allowed (e : effect) (g : group) : bool :=
  match e with
  | Lookup _ => listed g && (Z.of_nat (base.size (alive g)) <? 4294967295)
  | AddChild id _ => bool_decide (id ∈ alive g) && bool_decide (id ∉ queued_tasks (tq g))
  | StopChild id _ => bool_decide (id ∈ alive g)
  | ChildGone id => bool_decide (id ∈ alive g) && bool_decide (inst_map g !! id = Some false) &&
                    bool_decide (id ∉ queued_tasks (tq g))
  | Send _ => listed g
  end.

Definition do_effect (e : effect) (g : group) : res group :=
  if allowed e g then
    match e with
    | Lookup id => Ok (fst (get_actor_local id g))
    | AddChild id urgent => Ok (if urgent then add_urgent_task id g else add_task id g)
    | StopChild id force => stop_child_actor id force g
    | ChildGone id => Ok (notify_child_stopped (with_alive (alive g ∖ {[id]}) g))
    | Send m => Ok (if g_type m =? USER then enque_message m g else enque_urgent_message m g)
    end
  else Ok g.
Fixpoint do_effects (es : list effect) (g : group) : res group :=
  match es with [] => Ok g | e :: es => g ← do_effect e g; do_effects es g end.

(** ** run_and_dispose

    [need_yield] is answered by booleans, and by yes when they run out; what the run of a child
    does is given with each answer in [script]. *)
Fixpoint mailbox_loop (yields : list bool) (g : group) : res (group * bool) :=
  match mailbox g with
  | [] => Ok (g, false)
  | m :: q =>
      g ← process_message m (with_mailbox q g);
      match yields with
      | false :: yields => mailbox_loop yields g
      | _ => Ok (g, true)
      end
  end.

Definition run_child (id : Z) (es : list effect) (g : group) : res group :=
  if bool_decide (id ∈ alive g) then do_effects es g else Fault UseAfterFree.

Fixpoint task_loop (script : list (list effect * bool)) (g : group) : res group :=
  if TaskQueue.empty (tq g) then Ok g
  else
    '(id, q) ← pop_task (tq g);
    let g := with_tq q g in
    match script with
    | [] => run_child id [] g
    | (es, yield) :: script =>
        g ← run_child id es g;
        if yield : bool then Ok g else task_loop script g
    end.

(** From the label FINAL on. *)
Definition finish (g : group) : group :=
  if stopping g && (num_actors_managed g =? 0) && TaskQueue.empty (tq g) &&
     match mailbox g with [] => true | _ => false end then
    with_deleted true
      (emit (Notified :: (if snd (cancel_request g) =? 0 then []
                          else [Response (fst (cancel_request g)) (snd (cancel_request g))])) g)
  else
    let g := set_activatable g in
    if match mailbox g with [] => false | _ => true end || negb (TaskQueue.empty (tq g)) then activate g else g.

Definition run_and_dispose (yields : list bool) (script : list (list effect * bool)) (g : group) : res group :=
  '(g, yielded) ← mailbox_loop yields g;
  if yielded : bool then Ok (finish g) else g ← task_loop script g; Ok (finish g).

(** ** The group in its environment *)
Inductive event :=
  | EEffect (e : effect)
  | EStop (force : bool)
  | ESchedule
  | ERun (yields : list bool) (script : list (list effect * bool)).

(** Children notify the group only from within their own run. *)
Definition step (ev : event) (g : group) : res group :=
  match ev with
  | EEffect (ChildGone _) => Ok g
  | EEffect e => if deleted g && allowed e g then Fault UseAfterFree else do_effect e g
  | EStop force => Ok (parent_stop force g)
  | ESchedule => if bool_decide (sched g = INITIALIZED) then schedule g else Ok g
  | ERun yields script =>
      match queued g with
      | O => Ok g
      | S n => run_and_dispose yields script (with_queued n g)
      end
  end.
Fixpoint run (evs : list event) (g : group) : res group :=
  match evs with [] => Ok g | ev :: evs => g ← step ev g; run evs g end.

(** ** Invariants *)
Definition created (tr : list out) : list Z := omap (fun o => match o with Created id => Some id | _ => None end) tr.
Definition scheduled (tr : list out) : list Z := omap (fun o => match o with Scheduled id => Some id | _ => None end) tr.
Definition notifications (tr : list out) : nat := length (omap (fun o => match o with Notified => Some tt | _ => None end) tr).

(** True of a live group at every moment. *)
Record base (g : group) : Prop := {
  b_num : num_actors_managed g = Z.of_nat (base.size (alive g));
  b_size : Z.of_nat (base.size (alive g)) < 4294967296;
  b_enabled : forall id, inst_map g !! id = Some true -> id ∈ alive g;
  b_alive : forall id, id ∈ alive g -> is_Some (inst_map g !! id);
  b_created : forall id, id ∈ created (trace g) <-> is_Some (inst_map g !! id);
  b_once : NoDup (created (trace g));
  b_sched : Permutation (created (trace g)) (scheduled (trace g) ++ waiting (sem g));
  b_tasks : NoDup (queued_tasks (tq g));
  b_members : forall id, id ∈ queued_tasks (tq g) -> id ∈ alive g;
  b_tq : tq_ok (tq g);
  b_live : deleted g = false /\ notifications (trace g) = 0%nat
}.

Ltac fields := cbn [sched stop_status mailbox num_actors_managed inst_map sem tq cancel_request listed queued alive trace deleted
  with_sched with_stop with_mailbox with_num with_map with_sem with_tq with_cancel with_listed with_queued with_alive
  with_trace with_deleted emit set_activatable fst snd] in *.

(** [base] does not read the other fields. *)
Lemma base_same g g' :
  num_actors_managed g' = num_actors_managed g -> alive g' = alive g -> inst_map g' = inst_map g -> trace g' = trace g ->
  sem g' = sem g -> tq g' = tq g -> deleted g' = deleted g -> base g -> base g'.
Proof. intros H1 H2 H3 H4 H5 H6 H7 []. split; rewrite ?H1, ?H2, ?H3, ?H4, ?H5, ?H6, ?H7; auto. Qed.

Lemma created_app a b : created (a ++ b) = created a ++ created b.
Proof. apply omap_app. Qed.
Lemma scheduled_app a b : scheduled (a ++ b) = scheduled a ++ scheduled b.
Proof. apply omap_app. Qed.
Lemma notifications_app a b : notifications (a ++ b) = (notifications a + notifications b)%nat.
Proof. unfold notifications. now rewrite omap_app, length_app. Qed.

(** Outputs that neither create nor schedule a child nor notify the parent. *)
Definition quiet (o : out) : Prop := match o with Created _ | Scheduled _ | Notified => False | _ => True end.

Lemma quiet_trace os : Forall quiet os -> created os = [] /\ scheduled os = [] /\ notifications os = 0%nat.
Proof.
  induction 1 as [|o os Ho _ (H1 & H2 & H3)]; [done|]. unfold created, scheduled, notifications in *. cbn.
  destruct o; done.
Qed.

Lemma emit_quiet_ok os g : Forall quiet os -> base g -> base (emit os g).
Proof.
  intros Hq []. destruct (quiet_trace os Hq) as (H1 & H2 & H3).
  split; fields; rewrite ?created_app, ?scheduled_app, ?notifications_app, ?H1, ?H2, ?H3, ?app_nil_r; auto.
  destruct b_live0. split; [done|lia].
Qed.

Lemma scheduled_list ids : scheduled (Scheduled <$> ids) = ids /\ created (Scheduled <$> ids) = [] /\ notifications (Scheduled <$> ids) = 0%nat.
Proof.
  induction ids as [|i ids (H1 & H2 & H3)]; [done|]. unfold created, scheduled, notifications in *. cbn.
  split; [f_equal; exact H1|done].
Qed.

(** Waiters that leave the semaphore are scheduled. *)
Lemma wake_ok s woken g : base g -> waiting (sem g) = woken ++ waiting s -> base (emit (Scheduled <$> woken) (with_sem s g)).
Proof.
  intros [] Hw. destruct (scheduled_list woken) as (H1 & H2 & H3).
  split; fields; rewrite ?created_app, ?scheduled_app, ?notifications_app, ?H1, ?H2, ?H3, ?app_nil_r; auto.
  - rewrite b_sched0, Hw. solve_Permutation.
  - destruct b_live0. split; [done|lia].
Qed.

Lemma activate_base g : base g -> base (activate g).
Proof. intros Hb. unfold activate. destruct (activatable g); [|done]. eapply base_same; [..|exact Hb]; done. Qed.

(** A child that is created is counted, entered into the map and waits for the semaphore. *)
Lemma create_ok id g :
  base g -> Z.of_nat (base.size (alive g)) < 4294967295 -> inst_map g !! id = None ->
  let g1 := with_num (u32 (num_actors_managed g + 1)) (with_map (<[id := true]> (inst_map g))
              (emit [Created id] (with_alive ({[id]} ∪ alive g) g))) in
  forall s woken, Permutation (waiting (sem g) ++ [id]) (woken ++ waiting s) ->
  base (emit (Scheduled <$> woken) (with_sem s g1)).
Proof.
  intros [] Hs E g1 s woken Hp. assert (Hna : id ∉ alive g) by (intros Ha; destruct (b_alive0 _ Ha) as [? Ha']; congruence).
  assert (Hnc : id ∉ created (trace g)) by (rewrite b_created0, E; now intros [? ?]).
  destruct (scheduled_list woken) as (H1 & H2 & H3).
  assert (Hsz : base.size ({[id]} ∪ alive g) = S (base.size (alive g))) by (rewrite size_union, size_singleton by set_solver; done).
  assert (Hc : created [Created id] = [id]) by done. assert (Hsc : scheduled [Created id] = []) by done.
  subst g1. split; fields; rewrite ?created_app, ?scheduled_app, ?notifications_app, ?H1, ?H2, ?H3, ?Hc, ?Hsc, ?app_nil_r, ?Hsz; try assumption.
  - rewrite b_num0. rewrite u32_small by lia. lia.
  - lia.
  - intros id'. rewrite lookup_insert_Some. set_solver.
  - intros id'. rewrite lookup_insert_is_Some'. set_solver.
  - intros id'. rewrite lookup_insert_is_Some'. set_solver.
  - apply NoDup_app. split; [done|]. split; [set_solver|apply NoDup_singleton].
  - rewrite b_sched0, <-app_assoc, Hp. solve_Permutation.
  - set_solver.
  - destruct b_live0. split; [done|]. cbn. lia.
Qed.

Lemma get_actor_local_ok id g :
  base g -> Z.of_nat (base.size (alive g)) < 4294967295 -> base (fst (get_actor_local id g)).
Proof.
  intros Hb Hs. unfold get_actor_local. destruct (inst_map g !! id) as [[]|] eqn:E; [done..|].
  pose proof (sem_wait_spec (sem g) id) as Hw. cbv zeta. change (sem (with_num _ _)) with (sem g).
  destruct (sem_wait (sem g) id) as [s av]. cbn [fst snd] in *.
  pose proof (create_ok id g Hb Hs E s (if av then [id] else [])) as Hc. destruct av; apply Hc || (eapply base_same; [..|apply Hc]; try done).
  - rewrite Hw, app_nil_r. solve_Permutation.
  - fields. now rewrite !app_nil_r.
  - now rewrite Hw.
Qed.

(** [run] tells whether the group is running. *)
Definition queue_ok (run : bool) (g : group) : Prop :=
  if run then sched g = SCHEDULED /\ queued g = 0%nat
  else queued g = if decide (sched g = SCHEDULED) then 1%nat else 0%nat.

(** An idle group has nothing it could do. *)
Definition idle_ok (g : group) : Prop :=
  sched g = SCHEDULABLE ->
  mailbox g = [] /\ queued_tasks (tq g) = [] /\ (stopping g = true -> 0 < num_actors_managed g).

Definition unlisted_ok (g : group) : Prop := stopping g = true -> listed g = false.

Definition live (run : bool) (g : group) : Prop := base g /\ queue_ok run g /\ idle_ok g /\ unlisted_ok g.

Lemma group_activate_sched g : sched (activate g) <> SCHEDULABLE.
Proof. unfold activate, activatable. case_bool_decide; fields; done. Qed.

Lemma activate_queue run g : queue_ok run g -> queue_ok run (activate g).
Proof.
  unfold activate, activatable. case_bool_decide as Hs; [|done]. unfold queue_ok. fields. rewrite Hs.
  destruct run; [now intros [? _]|]. intros Hq. cbn in Hq. now rewrite Hq.
Qed.

(** Changing other fields and then activating. *)
Lemma activate_live run g g' :
  live run g -> base g' -> sched g' = sched g -> queued g' = queued g -> stop_status g' = stop_status g -> listed g' = listed g ->
  live run (activate g').
Proof.
  intros (_ & Hq & _ & Hu) Hb H1 H2 H3 H4. split; [now apply activate_base|].
  split; [apply activate_queue; unfold queue_ok in *; now rewrite H1, H2|].
  split; [intros Hs; now apply group_activate_sched in Hs|].
  unfold unlisted_ok, stopping, activate in *. destruct (activatable g'); fields; now rewrite H3, H4.
Qed.

(** Changing nothing [idle_ok] reads, except that [num_actors_managed] may grow. *)
Lemma live_same run g g' :
  live run g -> base g' -> sched g' = sched g -> queued g' = queued g -> stop_status g' = stop_status g -> listed g' = listed g ->
  mailbox g' = mailbox g -> tq g' = tq g -> num_actors_managed g <= num_actors_managed g' -> live run g'.
Proof.
  intros (_ & Hq & Hi & Hu) Hb H1 H2 H3 H4 H5 H6 H7. split; [done|].
  split; [unfold queue_ok in *; now rewrite H1, H2|].
  assert (Hst : stopping g' = stopping g) by (unfold stopping; now rewrite H3).
  split; [|unfold unlisted_ok; now rewrite Hst, H4]. intros Hs. rewrite H1 in Hs. destruct (Hi Hs) as (I1 & I2 & I3).
  rewrite H5, H6, Hst. split; [done|]. split; [done|]. intros G. specialize (I3 G). lia.
Qed.

(** A running group is not idle. *)
Lemma running_live g : base g -> queue_ok true g -> unlisted_ok g -> live true g.
Proof. intros Hb Hq Hu. split; [done|]. split; [done|]. split; [|done]. destruct Hq as [Hs _]. intros G. congruence. Qed.

Lemma perm_tasks g q : base g -> Permutation (queued_tasks q) (queued_tasks (tq g)) \/ (exists id, id ∈ alive g /\ id ∉ queued_tasks (tq g) /\
  Permutation (queued_tasks q) (id :: queued_tasks (tq g))) -> tq_ok q -> base (with_tq q g).
Proof.
  intros [] Hp Hq. split; fields; auto.
  - destruct Hp as [->|(id & _ & Hn & ->)]; [done|]. now constructor.
  - intros id'. destruct Hp as [->|(id & Ha & _ & ->)]; [apply b_members0|]. rewrite elem_of_cons. intros [->|?]; auto.
Qed.

Lemma add_ok run id (urgent : bool) g :
  live run g -> id ∈ alive g -> id ∉ queued_tasks (tq g) ->
  live run (if urgent then add_urgent_task id g else add_task id g).
Proof.
  intros Hl Ha Hn. pose proof Hl as (Hb & _).
  destruct urgent; (eapply activate_live; [exact Hl|..]; try done); apply perm_tasks; try done;
    try (now apply tq_push_ok, Hb); right; exists id; (split; [done|]; split; [done|]); unfold queued_tasks; cbn; solve_Permutation.
Qed.

Lemma group_stop_child_actor_ok run id force g :
  live run g -> is_Some (inst_map g !! id) -> exists g', stop_child_actor id force g = Ok g' /\ live run g'.
Proof.
  intros Hl [b E]. unfold stop_child_actor. rewrite E. destruct b; [|now exists g].
  eexists. split; [done|]. pose proof Hl as (Hb & _).
  assert (Hb' : base (emit [Stopped id force] g)) by (apply emit_quiet_ok; [now repeat constructor|done]).
  eapply live_same; [exact Hl| |try done..]. destruct Hb'. split; fields; auto.
  - intros id'. rewrite lookup_insert_Some. intros [[_ ?]|[_ ?]]; [done|auto].
  - intros id' Hi. rewrite lookup_insert_is_Some'. right. auto.
  - intros id'. rewrite b_created0, lookup_insert_is_Some'. split; [auto|intros [<-|?]; [now rewrite E|done]].
Qed.

Lemma get_actor_local_live run id g :
  live run g -> Z.of_nat (base.size (alive g)) < 4294967295 -> live run (fst (get_actor_local id g)).
Proof.
  intros Hl Hs. eapply live_same; [exact Hl|now apply get_actor_local_ok; [apply Hl|]|..].
  all: unfold get_actor_local; destruct (inst_map g !! id) as [[]|]; try done.
  all: cbv zeta; destruct (sem_wait _ id) as [s []]; fields; try done.
  all: rewrite u32_small; destruct Hl as ([] & _); lia.
Qed.

Lemma notify_ok g id :
  live true g -> id ∈ alive g -> inst_map g !! id = Some false -> id ∉ queued_tasks (tq g) ->
  live true (notify_child_stopped (with_alive (alive g ∖ {[id]}) g)).
Proof.
  intros (Hb & Hq & _ & Hu) Ha Hm Hn. unfold notify_child_stopped. cbv zeta.
  pose proof (sem_signal_spec (sem g)) as Hw. change (sem (with_num _ _)) with (sem g). destruct (sem_signal (sem g)) as [s woken].
  cbn [fst snd] in Hw. apply running_live; [|exact Hq|exact Hu]. apply wake_ok; [|exact Hw].
  assert (Hsz : base.size (alive g) = S (base.size (alive g ∖ {[id]}))).
  { rewrite (union_difference_L {[id]} (alive g)) at 1 by set_solver. rewrite size_union, size_singleton by set_solver. done. }
  destruct Hb. split; fields; auto.
  - rewrite b_num0, Hsz. rewrite u32_small by lia. lia.
  - lia.
  - intros id' E. specialize (b_enabled0 _ E). set_unfold. split; [done|]. intros ->. congruence.
  - set_solver.
  - intros id' Hi. specialize (b_members0 _ Hi). set_unfold. split; [done|]. intros ->. done.
Qed.

Lemma group_send_ok run m g : live run g -> live run (if g_type m =? USER then enque_message m g else enque_urgent_message m g).
Proof.
  intros Hl. pose proof Hl as (Hb & _).
  destruct (_ =? _); (eapply activate_live; [exact Hl|..]; try done); (eapply base_same; [..|exact Hb]; done).
Qed.

Lemma do_effect_ok run e g :
  live run g -> (forall id, e = ChildGone id -> run = true) -> exists g', do_effect e g = Ok g' /\ live run g'.
Proof.
  intros Hl Hrun. unfold do_effect. destruct (allowed e g) eqn:Ea; [|now exists g]. destruct e as [id|id u|id f|id|m]; cbn [allowed] in Ea.
  - apply andb_prop in Ea as [_ Es]. apply Z.ltb_lt in Es. eexists. split; [done|]. now apply get_actor_local_live.
  - apply andb_prop in Ea as [E1 E2]. apply bool_decide_eq_true in E1, E2. eexists. split; [done|]. now apply add_ok.
  - apply bool_decide_eq_true in Ea. apply group_stop_child_actor_ok; [done|]. now apply (b_alive _ (proj1 Hl)).
  - rewrite (Hrun id eq_refl) in *. apply andb_prop in Ea as [Ea E3]. apply andb_prop in Ea as [E1 E2].
    apply bool_decide_eq_true in E1, E2, E3. eexists. split; [done|]. now apply notify_ok.
  - eexists. split; [done|]. now apply group_send_ok.
Qed.

Lemma group_do_effects_ok es : forall g, live true g -> exists g', do_effects es g = Ok g' /\ live true g'.
Proof.
  induction es as [|e es IH]; intros g Hl; cbn [do_effects]; [now exists g|].
  destruct (do_effect_ok true e g Hl) as (g1 & E & H1); [done|]. rewrite E. cbn [mbind res_bind]. now apply IH.
Qed.

(** ** Stopping *)
Lemma break_sem_base g : base g -> base (break_sem g).
Proof.
  intros Hb. unfold break_sem. destruct (waiting (sem g)) as [|w ws] eqn:Ew; [done|].
  destruct (sem_broken_spec (sem g)) as [H1 H2]. destruct (sem_broken (sem g)) as [s woken]. cbn [fst snd] in *.
  apply wake_ok; [done|]. now rewrite H1, H2, app_nil_r.
Qed.

Lemma stop_all_children_base force g : base g -> base (stop_all_children force g).
Proof.
  intros Hb. apply emit_quiet_ok; [|done]. apply Forall_forall. intros o Ho.
  apply list_elem_of_omap in Ho as ([id b] & _ & E). cbn in E. destruct b; [|done]. now injection E as <-.
Qed.

Lemma clean_mailbox_base g : base g -> base (clean_mailbox g).
Proof.
  intros Hb. assert (Hb' : base (emit (Reclaimed <$> mailbox g) g)).
  { apply emit_quiet_ok; [|done]. apply Forall_fmap, Forall_true. done. }
  eapply base_same; [..|exact Hb']; done.
Qed.

(** What [stop] does before it activates the group. *)
Definition stop_body (force : bool) (g : group) : group :=
  if force then clean_mailbox (stop_all_children true (break_sem (with_stop FORCE_STOPPING g)))
  else stop_all_children false (with_stop PEACE_STOPPING g).

Lemma stop_body_fields force g :
  let g' := stop_body force g in
  sched g' = sched g /\ queued g' = queued g /\ num_actors_managed g' = num_actors_managed g /\ tq g' = tq g /\
  listed g' = listed g /\ (mailbox g = [] -> mailbox g' = []) /\ stopping g' = true.
Proof.
  destruct force; cbn; [|done]. unfold clean_mailbox, stop_all_children, break_sem. change (sem (with_stop _ g)) with (sem g).
  destruct (waiting (sem g)); [done|]. destruct (sem_broken (sem g)). done.
Qed.

Lemma stop_body_base force g : base g -> base (stop_body force g).
Proof.
  intros Hb. assert (Hs : forall x, base (with_stop x g)) by (intros x; eapply base_same; [..|exact Hb]; done).
  destruct force; cbn; [apply clean_mailbox_base|]; apply stop_all_children_base; [apply break_sem_base|]; apply Hs.
Qed.

Lemma parent_stop_live run force g : live run g -> live run (parent_stop force g).
Proof.
  intros (Hb & Hq & Hi & Hu). unfold parent_stop. destruct (listed g) eqn:El; [|done].
  assert (Hn : stopping g = false) by (destruct (stopping g) eqn:E; [now rewrite (Hu E) in El|done]).
  unfold stop. rewrite Hn. change (if force then _ else _) with (stop_body force g).
  pose proof (stop_body_base force g Hb) as Hb'. pose proof (stop_body_fields force g) as F. cbv zeta in F.
  destruct F as (F1 & F2 & F3 & F4 & F5 & F6 & F7). set (g' := stop_body force g) in *.
  assert (Hq' : queue_ok run g') by (unfold queue_ok in *; now rewrite F1, F2).
  assert (Hbb : base (activate_if_idle g')) by (unfold activate_if_idle; destruct (_ && _); [now apply activate_base|done]).
  split; [eapply base_same; [..|exact Hbb]; done|]. split.
  { unfold activate_if_idle. destruct (_ && _); [now apply (activate_queue run g')|exact Hq']. }
  split; [|done]. intros Hs. unfold activate_if_idle, activatable in *. fields.
  destruct (num_actors_managed g' =? 0) eqn:En; cbn [andb] in *.
  - case_bool_decide as Hd; [now apply group_activate_sched in Hs|congruence].
  - rewrite F1 in Hs. destruct (Hi Hs) as (I1 & I2 & _). rewrite F4. split; [auto|]. split; [done|]. intros _.
    apply Z.eqb_neq in En. destruct Hb. lia.
Qed.

Lemma process_message_ok m g :
  live true g -> match process_message m g with Ok g' => live true g' | Fault f => f = AssertFail end.
Proof.
  intros Hl. unfold process_message.
  assert (Hk : forall f, live true (emit [Reclaimed m] (with_cancel (g_src m, g_pr m) (parent_stop f g)))).
  { intros f. pose proof (parent_stop_live true f g Hl) as (Hb & Hq & _ & Hu). apply running_live; [|exact Hq|exact Hu].
    apply emit_quiet_ok; [now repeat constructor|]. eapply base_same; [..|exact Hb]; done. }
  destruct (_ =? _); [apply Hk|]. destruct (_ =? _); [apply Hk|done].
Qed.

(** ** Running *)
Lemma drop_message q g : live true g -> live true (with_mailbox q g).
Proof. intros (Hb & Hq & _ & Hu). apply running_live; [|exact Hq|exact Hu]. eapply base_same; [..|exact Hb]; done. Qed.

Lemma group_mailbox_loop_ok yields : forall g,
  live true g -> match mailbox_loop yields g with Ok (g', _) => live true g' | Fault f => f = AssertFail end.
Proof.
  induction yields as [|y yields IH]; intros g Hl; cbn [mailbox_loop]; destruct (mailbox g) as [|m q]; try done.
  all: pose proof (process_message_ok m (with_mailbox q g) (drop_message q g Hl)) as H0;
    destruct (process_message m (with_mailbox q g)); cbn [mbind res_bind]; try done.
  destruct y; [done|]. now apply IH.
Qed.

Lemma run_child_ok id es g : live true g -> id ∈ alive g -> exists g', run_child id es g = Ok g' /\ live true g'.
Proof. intros Hl Ha. unfold run_child. rewrite bool_decide_true by done. now apply group_do_effects_ok. Qed.

Lemma group_task_loop_ok script : forall g, live true g -> exists g', task_loop script g = Ok g' /\ live true g'.
Proof.
  induction script as [|[es y] script IH]; intros g Hl; cbn [task_loop]; destruct (TaskQueue.empty (tq g)) eqn:Ee; try (now exists g).
  all: pose proof Hl as (Hb & Hq & _ & Hu); destruct (pop_task_spec (tq g) (b_tq _ Hb) Ee) as (id & q & E & _ & Hp & Ho & _);
    rewrite E; cbn [mbind res_bind];
    assert (Ha : id ∈ alive g) by (apply (b_members _ Hb); rewrite Hp; left);
    assert (Hl' : live true (with_tq q g)) by
      (apply running_live; [|exact Hq|exact Hu]; pose proof (b_tasks _ Hb) as Hnd; rewrite Hp in Hnd; apply NoDup_cons in Hnd as [_ Hnd];
       destruct Hb; split; fields; auto; intros id' Hi; apply b_members0; rewrite Hp; now right).
  - now apply run_child_ok.
  - destruct (run_child_ok id es (with_tq q g) Hl' Ha) as (g1 & E1 & H1). rewrite E1. cbn [mbind res_bind].
    destruct y; [now exists g1|]. now apply IH.
Qed.

(** The group after [delete this]. *)
Record dead (g : group) : Prop := {
  d_deleted : deleted g = true;
  d_once : notifications (trace g) = 1%nat;
  d_listed : listed g = false;
  d_queued : queued g = 0%nat;
  d_sched : sched g = SCHEDULED;
  d_alive : alive g = ∅;
  d_mailbox : mailbox g = [];
  d_tasks : queued_tasks (tq g) = [];
  d_created : Permutation (created (trace g)) (scheduled (trace g) ++ waiting (sem g)) /\ NoDup (created (trace g))
}.
Definition good (g : group) : Prop := live false g \/ dead g.

Lemma group_finish_ok g : live true g -> good (finish g).
Proof.
  intros (Hb & [Hs Hq] & _ & Hu). unfold finish. destruct (stopping g && _ && _ && _) eqn:E.
  - right. apply andb_prop in E as [E Em]. apply andb_prop in E as [E Et]. apply andb_prop in E as [Est En].
    apply Z.eqb_eq in En. apply tq_empty_spec in Et. destruct (mailbox g) eqn:Emb; [|done]. destruct Hb.
    rewrite En in b_num0. assert (Ha : alive g = ∅) by (apply leibniz_equiv, size_empty_iff; lia).
    destruct b_live0 as [_ Hn]. set (r := if _ =? 0 then _ else _).
    assert (Hr : created (Notified :: r) = [] /\ scheduled (Notified :: r) = [] /\ notifications (Notified :: r) = 1%nat)
      by (subst r; destruct (_ =? 0); done).
    destruct Hr as (R1 & R2 & R3).
    split; fields; rewrite ?notifications_app, ?created_app, ?scheduled_app, ?R1, ?R2, ?R3, ?app_nil_r, ?Hn; auto.
  - left. assert (Hb' : base (set_activatable g)) by (eapply base_same; [..|exact Hb]; done).
    assert (Hq' : queue_ok false (set_activatable g)) by exact Hq. cbv zeta.
    destruct (_ || _) eqn:Ea.
    + split; [now apply activate_base|]. split; [now apply activate_queue|]. split; [intros G; now apply group_activate_sched in G|].
      unfold unlisted_ok, stopping, activate in *. destruct (activatable _); exact Hu.
    + split; [done|]. split; [done|]. split; [|exact Hu]. intros _. fields. apply orb_false_elim in Ea as [E1 E2].
      apply negb_false_iff in E2. pose proof E2 as E3. apply tq_empty_spec in E3. destruct (mailbox g); [|done].
      split; [done|]. split; [done|]. change (stopping g = true -> 0 < num_actors_managed g). intros Hst.
      rewrite Hst, E2 in E. cbn in E. rewrite !andb_true_r in E. apply Z.eqb_neq in E. destruct Hb. lia.
Qed.

Lemma group_run_and_dispose_ok yields script g :
  live true g -> match run_and_dispose yields script g with Ok g' => good g' | Fault f => f = AssertFail end.
Proof.
  intros Hl. unfold run_and_dispose. pose proof (group_mailbox_loop_ok yields g Hl) as H0.
  destruct (mailbox_loop yields g) as [[g1 y]|f]; cbn [mbind res_bind]; [|done].
  destruct y; [now apply group_finish_ok|]. destruct (group_task_loop_ok script g1 H0) as (g2 & E & H2). rewrite E. cbn [mbind res_bind].
  now apply group_finish_ok.
Qed.

(** ** Histories *)
Lemma group_dead_step ev g : dead g -> exists g', step ev g = Ok g' /\ dead g'.
Proof.
  intros D. destruct ev as [e|f| |yields script]; cbn [step].
  - assert (Hn : allowed e g = false).
    { destruct e; cbn [allowed]; rewrite ?(d_listed _ D), ?(d_alive _ D); try done; now rewrite ?bool_decide_false by set_solver. }
    unfold do_effect. rewrite Hn, andb_false_r. destruct e; now exists g.
  - unfold parent_stop. rewrite (d_listed _ D). now exists g.
  - rewrite (d_sched _ D). now exists g.
  - rewrite (d_queued _ D). now exists g.
Qed.

Lemma group_schedule_live g : live false g -> sched g = INITIALIZED ->
  exists g', schedule g = Ok g' /\ live false g' /\ g' = with_queued (S (queued g)) (with_sched SCHEDULED g).
Proof.
  intros (Hb & Hq & _ & Hu) Hs. unfold schedule. rewrite bool_decide_true by done. cbn [assert mbind res_bind]. eexists. split; [reflexivity|]. split; [|done].
  assert (Hq' : queue_ok false (set_activatable g)) by (unfold queue_ok in *; rewrite Hs in Hq; exact Hq).
  split; [apply activate_base; eapply base_same; [..|exact Hb]; done|]. split; [now apply activate_queue|].
  split; [intros Hsc; now apply group_activate_sched in Hsc|exact Hu].
Qed.

Lemma group_live_step ev g : live false g -> match step ev g with Ok g' => good g' | Fault f => f = AssertFail end.
Proof.
  intros Hl. pose proof Hl as (Hb & Hq & Hi & Hu). destruct ev as [e|f| |yields script]; cbn [step].
  - rewrite (proj1 (b_live _ Hb)). cbn [andb].
    assert (He : (forall id, e <> ChildGone id) -> match do_effect e g with Ok g' => good g' | Fault f => f = AssertFail end).
    { intros Hn. destruct (do_effect_ok false e g Hl) as (g' & E & H'); [intros id Ee; now destruct (Hn id)|]. rewrite E. now left. }
    destruct e; try (now apply He). now left.
  - left. now apply parent_stop_live.
  - case_bool_decide as Hs; [|now left]. destruct (group_schedule_live g Hl Hs) as (b & -> & Hg & _). now left.
  - destruct (queued g) as [|n] eqn:Eq; [now left|]. apply group_run_and_dispose_ok. unfold queue_ok in Hq. rewrite Eq in Hq.
    case_decide; [|done]. apply running_live; [eapply base_same; [..|exact Hb]; done| |exact Hu]. split; [done|]. cbn. congruence.
Qed.

Lemma group_good_step ev g : good g -> match step ev g with Ok g' => good g' | Fault f => f = AssertFail end.
Proof.
  intros [Hl|Hd]; [now apply group_live_step|]. destruct (group_dead_step ev g Hd) as (g' & E & H'). rewrite E. now right.
Qed.

Lemma group_good_run evs : forall g, good g -> match run evs g with Ok g' => good g' | Fault f => f = AssertFail end.
Proof.
  induction evs as [|ev evs IH]; intros g Hg; cbn [run]; [done|].
  pose proof (group_good_step ev g Hg). destruct (step ev g); cbn [mbind res_bind]; [now apply IH|done].
Qed.

Definition comparator_ok (c : option (Z -> Z -> bool)) : Prop := forall f, c = Some f -> weak_order f.

Lemma group_new_live c : comparator_ok c -> live false (group_new c).
Proof.
  intros Hc. assert (Hq : tq_ok (queue_of c)) by now apply queue_of_ok.
  assert (Ht : queued_tasks (queue_of c) = []) by now destruct c.
  split; [|split; [done|split; done]]. split; cbn; rewrite ?Ht, ?sem_init_waiting; try done.
  - intros id. split; [now rewrite elem_of_nil|]. intros [? E]. now rewrite lookup_empty in E.
  - constructor.
  - constructor.
  - intros id Hi. now apply elem_of_nil in Hi.
Qed.

Lemma group_run_good evs c : comparator_ok c -> match run evs (group_new c) with Ok g => good g | Fault f => f = AssertFail end.
Proof. intros Hc. apply group_good_run. left. now apply group_new_live. Qed.


(** C12: a group is deleted only when it was stopped and dropped from its parent's map, all its children are gone,
    and nothing is left in its mailbox, its task queue or its parent's task queue; it
    notifies its parent exactly once, and not before. *)
Theorem group_deleted_last evs c g :
  comparator_ok c -> run evs (group_new c) = Ok g ->
  notifications (trace g) = (if deleted g then 1%nat else 0%nat) /\
  (deleted g = true -> alive g = ∅ /\ mailbox g = [] /\ queued_tasks (tq g) = [] /\ listed g = false /\ queued g = 0%nat).
Proof.
  intros Hc E. pose proof (group_run_good evs c Hc) as Hg. rewrite E in Hg. destruct Hg as [([] & _)|[]].
  - destruct b_live0 as [-> ->]. done.
  - rewrite d_deleted0. done.
Qed.

(** No wakeup of a group is lost: a live group is in its parent's task queue exactly once when it is SCHEDULED and
    not at all otherwise, and an idle group has no message, no task, and, if it is
    stopping, still a child that exists.  So a stopping group whose last child is gone will run
    again and be deleted. *)
Theorem group_no_lost_work evs c g :
  comparator_ok c -> run evs (group_new c) = Ok g -> deleted g = false ->
  queued g = (if decide (sched g = SCHEDULED) then 1%nat else 0%nat) /\
  (sched g = SCHEDULABLE -> mailbox g = [] /\ queued_tasks (tq g) = [] /\ (stopping g = true -> alive g <> ∅)).
Proof.
  intros Hc E Hd. pose proof (group_run_good evs c Hc) as Hg. rewrite E in Hg.
  destruct Hg as [(Hb & Hq & Hi & _)|[]]; [|congruence]. split; [exact Hq|]. intros Hs. destruct (Hi Hs) as (I1 & I2 & I3).
  split; [done|]. split; [done|]. intros Hst Ha. specialize (I3 Hst). rewrite (b_num _ Hb), Ha in I3. now rewrite size_empty in I3.
Qed.

(** The stop messages sent to children. *)
Definition child_msgs (tr : list out) : list (Z * Z) := omap (fun o => match o with ChildMsg id t => Some (id, t) | _ => None end) tr.

Definition pointers (m : gmap Z bool) : list Z := omap (fun p => if snd p : bool then Some (fst p) else None) (map_to_list m).

Lemma pointers_spec m : NoDup (pointers m) /\ forall id, id ∈ pointers m <-> m !! id = Some true.
Proof.
  unfold pointers. split.
  - assert (Hsub : forall l : list (Z * bool), sublist (omap (fun p => if snd p : bool then Some (fst p) else None) l) (fst <$> l)).
    { induction l as [|[k []] l IH]; cbn; [done|now constructor|now constructor]. }
    eapply sublist_NoDup; [apply (NoDup_fst_map_to_list m)|apply Hsub].
  - intros id. rewrite list_elem_of_omap. split.
    + intros ([k b] & Hk & E). cbn in E. destruct b; [|done]. injection E as <-. now apply elem_of_map_to_list in Hk.
    + intros E. exists (id, true). split; [now apply elem_of_map_to_list|done].
Qed.

Lemma child_msgs_app a b : child_msgs (a ++ b) = child_msgs a ++ child_msgs b.
Proof. apply omap_app. Qed.

Lemma child_msgs_stop_all t m :
  child_msgs (omap (fun p => if snd p : bool then Some (ChildMsg (fst p) t) else None) (map_to_list m)) =
  (fun id => (id, t)) <$> pointers m.
Proof.
  unfold pointers. induction (map_to_list m) as [|[k []] l IH]; cbn; [done| |exact IH]. f_equal. exact IH.
Qed.

Lemma child_msgs_quiet {A} (f : A -> out) l : (forall a, child_msgs [f a] = []) -> child_msgs (f <$> l) = [].
Proof.
  intros Hf. induction l as [|a l IH]; [done|]. change (f <$> a :: l) with ([f a] ++ (f <$> l)). now rewrite child_msgs_app, Hf, IH.
Qed.

(** Stopping a running group sends a stop message of the kind of the stop to every child it still has a
    pointer to, exactly one, and no message to any other child. *)
Theorem stop_reaches_children force g :
  stopping g = false ->
  exists ids, child_msgs (trace (stop force g)) =
      child_msgs (trace g) ++ ((fun id => (id, if force then FORCE_STOP else PEACE_STOP)) <$> ids) /\
    NoDup ids /\ forall id, id ∈ ids <-> inst_map g !! id = Some true.
Proof.
  intros Hst. exists (pointers (inst_map g)). split; [|apply pointers_spec].
  assert (E : stop force g = activate_if_idle (stop_body force g)) by (unfold stop; now rewrite Hst). rewrite E.
  assert (Ht : forall g', trace (activate_if_idle g') = trace g').
  { intros g'. unfold activate_if_idle, activate. destruct (_ && _); [|done]. now destruct (activatable g'). }
  rewrite Ht. destruct force; cbn [stop_body].
  - unfold clean_mailbox, stop_all_children, break_sem. change (sem (with_stop _ g)) with (sem g).
    destruct (waiting (sem g)); [|destruct (sem_broken (sem g)) as [s woken]]; fields;
      rewrite !child_msgs_app, (child_msgs_quiet Reclaimed), child_msgs_stop_all, app_nil_r by done; [done|].
    now rewrite (child_msgs_quiet Scheduled), app_nil_r.
  - unfold stop_all_children. fields. now rewrite child_msgs_app, child_msgs_stop_all.
Qed.

(** Only one of two cancel requests is answered: a group that finds two stop requests in its mailbox
    keeps the shard and the promise id of the one it processes last; when it is deleted, it answers that one and the
    other request's promise is never resolved. *)
Theorem second_cancel_overwrites c s1 p1 s2 p2 :
  p1 <> 0 -> p2 <> 0 ->
  let evs := [ESchedule; EEffect (Send (mk_gmsg PEACE_STOP s1 p1)); EEffect (Send (mk_gmsg PEACE_STOP s2 p2)); ERun [false; false] []] in
  exists g, run evs (group_new c) = Ok g /\ deleted g = true /\
    trace g = [Reclaimed (mk_gmsg PEACE_STOP s2 p2); Reclaimed (mk_gmsg PEACE_STOP s1 p1); Notified; Response s1 p1].
Proof.
  intros H1 H2 evs. destruct p1 as [|p1|p1]; [done|..]; destruct c as [f|]; (eexists; split; [vm_compute; reflexivity|split; reflexivity]).
Qed.

End Group.

(** ** Witnesses *)
(** A counting semaphore with the units of the code, [GMaxActiveChildNum]. *)
#[export, refine] Instance counter_sem : Semaphore (Z * list Z) := {
  waiting s := snd s;
  sem_init := (9223372036854775807, []);
  sem_wait s id :=
    match snd s with
    | [] => if 0 <? fst s then ((fst s - 1, []), true) else ((fst s, [id]), false)
    | ws => ((fst s, ws ++ [id]), false)
    end;
  sem_signal s := match snd s with [] => ((fst s + 1, []), []) | w :: ws => ((fst s, ws), [w]) end;
  sem_broken s := ((fst s, []), snd s)
}.
Proof.
  - done.
  - intros [n [|w ws]] id; cbn; [destruct (0 <? n)|]; done.
  - intros [n [|w ws]]; done.
  - done.
Defined.

Definition toy_events : list event :=
  [ESchedule; EEffect (Lookup 7); EEffect (AddChild 7 false); EEffect (Send (mk_gmsg PEACE_STOP 2 3)); ERun [false] []].
Definition toy_end : list event :=
  toy_events ++ [EEffect (AddChild 7 false); ERun [] [([StopChild 7 true; ChildGone 7], false)]].
Definition toy_group (evs : list event) : group :=
  match run evs (group_new None) with Ok g => g | Fault _ => group_new None end.

Lemma no_comparator : comparator_ok None.
Proof. intros f Hf. discriminate Hf. Qed.


Example group_deleted_last_witness :
  deleted (toy_group toy_end) = true /\ trace (toy_group toy_end) =
    [Created 7; Scheduled 7; ChildMsg 7 PEACE_STOP; Reclaimed (mk_gmsg PEACE_STOP 2 3); Stopped 7 true; Notified; Response 2 3] /\
  notifications (trace (toy_group toy_end)) = 1%nat.
Proof.
  split; [vm_compute; reflexivity|]. split; [vm_compute; reflexivity|].
  apply (group_deleted_last toy_end None (toy_group toy_end) no_comparator). vm_compute. reflexivity.
Defined.

Example group_no_lost_work_witness :
  let g := toy_group toy_events in
  stopping g = true /\ sched g = SCHEDULABLE /\ (stopping g = true -> alive g <> ∅).
Proof.
  split; [vm_compute; reflexivity|]. split; [vm_compute; reflexivity|].
  apply (group_no_lost_work toy_events None (toy_group toy_events) no_comparator); vm_compute; reflexivity.
Defined.

Example stop_reaches_children_witness :
  let g := toy_group [ESchedule; EEffect (Lookup 7); EEffect (Lookup 8)] in
  exists ids, child_msgs (trace (stop true g)) = child_msgs (trace g) ++ ((fun id => (id, FORCE_STOP)) <$> ids) /\
    NoDup ids /\ forall id, id ∈ ids <-> inst_map g !! id = Some true.
Proof. apply (stop_reaches_children true). vm_compute. reflexivity. Defined.

Example second_cancel_overwrites_witness :
  exists g, run [ESchedule; EEffect (Send (mk_gmsg PEACE_STOP 1 10)); EEffect (Send (mk_gmsg PEACE_STOP 2 20)); ERun [false; false] []]
      (group_new None) = Ok g /\ deleted g = true /\
    trace g = [Reclaimed (mk_gmsg PEACE_STOP 2 20); Reclaimed (mk_gmsg PEACE_STOP 1 10); Notified; Response 1 10].
Proof. apply (second_cancel_overwrites None); discriminate. Defined.
