(* ===== verification/Engine.v ===== *)
(** * The root actor group of a shard

    [root_actor_group] (src/include/hiactor/core/root_actor_group.hh,
    src/src/core/root_actor_group.cc): routing a message to this shard, another shard or
    another machine, receiving messages, the responses that complete requests, stopping the
    actor system, [cancel_scope] and [exit]; and [actor_client]
    (src/include/hiactor/core/actor_client.hh), which sends requests and waits for
    their responses.

    Messages carry the class of the C++ object: [Str] is an
    [actor_message_with_payload<simple_string>], [Data] one with another payload type,
    [Net] the [serializable_queue] specialization that [deserialize] builds.  What the engine
    does to others is recorded in [trace]. *)
From S2P Require Import Prelude Bytes Address.
From S2P Require Import Message.
From S2P Require Import Actor.
From S2P Require Import Group.
From S2P Require Import PromiseManager.

Section Engine.
Context {D Q P : Type} {Sem : Type} {SM : Semaphore Sem}.

Inductive edata := NoData | Str (content : bytes) | Data (d : D) | Net (q : Q).
Record emsg := mk_emsg { e_hdr : header; e_data : edata }.

(** The exceptions a request's future is failed with. *)
Inductive ex := TaskCanceled | MethodException (content : bytes).

(** Seastar's promise of a response. *)
Variable new_promise : P.
Variable promise_set_value : P -> emsg -> P.
Variable promise_set_exception : P -> ex -> P.

(** The shard: its global id, the number of shards, [machine_info::is_local]; and whether
    [get_actor_local] of an existing child finds a null pointer further down. *)
Variable this_gsid num_shards : Z.
Variable is_local : Z -> bool.
Variable disabled_below : Z -> emsg -> bool.

Inductive eout :=
  | ECreated (id type : Z)
  | EScheduled (id : Z)
  | EDeliver (id : Z) (urgent : bool) (m : emsg)  (* [enque_message], [enque_urgent_message] *)
  | EStopped (id : Z) (force : bool)
  | ESendLocal (m : emsg)                           (* [local_channel::send] *)
  | ESendNet (m : emsg)                             (* [network_channel::send] *)
  | EDeleted (m : emsg)
  | EBarrier.                                       (* [wait_others_and_exit] *)

Record engine := mk {
  status : actor_status;
  num_actors_managed : Z;
  inst_map : gmap Z bool;
  response_pr_manager : pr_manager (P := P);
  sem : Sem;
  alive : gset Z;                                   (* children created and not destructed yet *)
  trace : list eout
}.

Definition engine_new (pm : pr_manager (P := P)) : engine := mk RUNNING 0 ∅ pm sem_init ∅ [].

Definition with_status x e := mk x (num_actors_managed e) (inst_map e) (response_pr_manager e) (sem e) (alive e) (trace e).
Definition with_num x e := mk (status e) x (inst_map e) (response_pr_manager e) (sem e) (alive e) (trace e).
Definition with_map x e := mk (status e) (num_actors_managed e) x (response_pr_manager e) (sem e) (alive e) (trace e).
Definition with_pm x e := mk (status e) (num_actors_managed e) (inst_map e) x (sem e) (alive e) (trace e).
Definition with_sem x e := mk (status e) (num_actors_managed e) (inst_map e) (response_pr_manager e) x (alive e) (trace e).
Definition with_alive x e := mk (status e) (num_actors_managed e) (inst_map e) (response_pr_manager e) (sem e) x (trace e).
Definition emit (os : list eout) (e : engine) : engine :=
  mk (status e) (num_actors_managed e) (inst_map e) (response_pr_manager e) (sem e) (alive e) (trace e ++ os).

Definition total_addr_length : Z := Z.of_nat GShardIdInBytes.
Definition running (e : engine) : bool := bool_decide (status e = RUNNING).

(** ** Stopping the actor system *)
Definition wait_others_and_exit (e : engine) : engine := emit [EBarrier] e.

(** The children are visited in the order of the hash map, which is unspecified. *)
Definition stop_children (force : bool) (e : engine) : engine :=
  with_map ((fun _ => false) <$> inst_map e) (emit ((fun id => EStopped id force) <$> pointers (inst_map e)) e).

Definition stop_actor_system (force : bool) (e : engine) : res engine :=
  if negb (running e) then Ok e
  else
    let e := with_status (if force then FORCE_STOPPING else PEACE_STOPPING) e in
    pm ← cancel_uncompleted promise_set_exception TaskCanceled (response_pr_manager e);
    let e := stop_children force (with_pm pm e) in
    Ok (if num_actors_managed e =? 0 then wait_others_and_exit e else e).

Definition notify_child_stopped (e : engine) : engine :=
  let e := with_num (u32 (num_actors_managed e - 1)) e in
  let e := if (num_actors_managed e =? 0) && negb (running e) then wait_others_and_exit e else e in
  let '(s, woken) := sem_signal (sem e) in emit (EScheduled <$> woken) (with_sem s e).

Definition stop_child_actor (id : Z) (force : bool) (e : engine) : res engine :=
  b ← of_option AssertFail (inst_map e !! id);
  Ok (if b : bool then with_map (<[id := false]> (inst_map e)) (emit [EStopped id force] e) else e).

(** ** Receiving *)
(** A message whose destination is the root actor. *)
Definition receive_root (m : emsg) (e : engine) : res engine :=
  let id := pr_id (e_hdr m) in
  if Message.m_type (e_hdr m) =? RESPONSE then
    a ← is_active (response_pr_manager e) id;
    if a : bool then pm ← set_value promise_set_value (response_pr_manager e) id m; Ok (with_pm pm e)
    else Ok (emit [EDeleted m] e)
  else if Message.m_type (e_hdr m) =? EXCEPTION_RESPONSE then
    a ← is_active (response_pr_manager e) id;
    if a : bool then
      match e_data m with
      | Str content =>
          pm ← set_exception promise_set_exception (response_pr_manager e) id (MethodException content);
          Ok (emit [EDeleted m] (with_pm pm e))
      | _ => Fault BadCast
      end
    else Ok (emit [EDeleted m] e)
  else if Message.m_type (e_hdr m) =? PEACE_STOP then
    e ← stop_actor_system false e; Ok (emit [EDeleted m] e)
  else if Message.m_type (e_hdr m) =? FORCE_STOP then
    e ← stop_actor_system true e; Ok (emit [EDeleted m] e)
  else Fault AssertFail.

Definition response_header (s_id pr_id m_type : Z) : res header :=
  d ← memcpy (addr_data address_zero) 0 (enc_uint GShardIdInBytes s_id);
  Ok (mk_header (mk_address total_addr_length d) 0 0 pr_id m_type false).

(** The text of [stopped_actor_enqueue]'s exception. *)
Variable canceled_text : bytes.

Section Receive.
Variable receive : emsg -> engine -> res engine.

Definition send_with (m : emsg) (e : engine) : res engine :=
  dest ← get_shard_id (addr (e_hdr m));
  if negb (dest =? this_gsid) then
    Ok (emit [if is_local dest then ESendLocal m else ESendNet m] e)
  else receive m e.

Definition stopped_actor_enqueue (m : emsg) (e : engine) : res engine :=
  e ← (if pr_id (e_hdr m) =? 0 then Ok e
       else
         h ← response_header (src_shard_id (e_hdr m)) (pr_id (e_hdr m)) EXCEPTION_RESPONSE;
         send_with (mk_emsg h (Str canceled_text)) e);
  Ok (emit [EDeleted m] e).

Definition deliver (id : Z) (m : emsg) (e : engine) : engine :=
  emit [EDeliver id (negb (Message.m_type (e_hdr m) =? USER)) m] e.

Definition create_child (id : Z) (m : emsg) (e : engine) : res engine :=
  type ← child_type (addr (e_hdr m)) total_addr_length;
  let e := emit [ECreated id type] (with_alive ({[id]} ∪ alive e) e) in
  let e := with_num (u32 (num_actors_managed e + 1)) (with_map (<[id := true]> (inst_map e)) e) in
  let '(s, available) := sem_wait (sem e) id in
  let e := with_sem s e in
  Ok (if available : bool then emit [EScheduled id] e else e).

Definition receive_step (m : emsg) (e : engine) : res engine :=
  if addr_length (addr (e_hdr m)) =? total_addr_length then receive_root m e
  else
    id ← child_id (addr (e_hdr m)) total_addr_length;
    match inst_map e !! id with
    | Some false => stopped_actor_enqueue m e
    | Some true =>
        if (addr_length (addr (e_hdr m)) =? total_addr_length + Z.of_nat GLocalActorAddrLength) || negb (disabled_below id m)
        then Ok (deliver id m e)
        else stopped_actor_enqueue m e
    | None =>
        if negb (running e) then stopped_actor_enqueue m e
        else e ← create_child id m e; Ok (deliver id m e)
    end.

End Receive.

(** [receive] and [send] call each other: at most once, for the answer to a refused message. *)
Fixpoint receive_fuel (fuel : nat) (m : emsg) (e : engine) : res engine :=
  match fuel with
  | O => Fault NoFuel
  | S fuel => receive_step (receive_fuel fuel) m e
  end.
Definition receive : emsg -> engine -> res engine := receive_fuel 2.
Definition send : emsg -> engine -> res engine := send_with receive.

(** ** Broadcasts *)
Definition stop_type (force : bool) : Z := if force then FORCE_STOP else PEACE_STOP.
Definition on_shard (a : address) (sid : Z) : res address :=
  d ← memcpy (addr_data a) 0 (enc_uint GShardIdInBytes sid); Ok (mk_address (addr_length a) d).

Fixpoint broadcast (k : nat) (sid : Z) (a : address) (t : Z) (e : engine) : res engine :=
  match k with
  | O => Ok e
  | S k =>
      dst ← on_shard a sid;
      e ← send (mk_emsg (mk_header dst 0 0 0 t false) NoData) e;
      broadcast k (u32 (sid + 1)) a t e
  end.
Definition cancel_scope (scope : ScopeBuilder.t) (force : bool) (e : engine) : res engine :=
  broadcast (Z.to_nat num_shards) 0 (ScopeBuilder.addr scope) (stop_type force) e.
Definition exit (force : bool) (e : engine) : res engine :=
  broadcast (Z.to_nat num_shards) 0 (mk_address total_addr_length (addr_data address_zero)) (stop_type force) e.

(** [cancel_scope_request]: the promise ids acquired, in the order of the shards. *)
Fixpoint cancel_requests (k : nat) (sid : Z) (a : address) (t : Z) (e : engine) : res (list Z * engine) :=
  match k with
  | O => Ok ([], e)
  | S k =>
      dst ← on_shard a sid;
      '(id, pm) ← acquire_pr new_promise (response_pr_manager e);
      e ← send (mk_emsg (mk_header dst 0 this_gsid id t false) NoData) (with_pm pm e);
      '(ids, e) ← cancel_requests k (u32 (sid + 1)) a t e;
      Ok (id :: ids, e)
  end.
Definition cancel_scope_request (scope : ScopeBuilder.t) (force : bool) (e : engine) : res (list Z * engine) :=
  cancel_requests (Z.to_nat num_shards) 0 (ScopeBuilder.addr scope) (stop_type force) e.

(** ** actor_client *)
Definition client_send (a : address) (behv_tid : Z) (d : edata) (t : Z) (e : engine) : res engine :=
  send (mk_emsg (mk_header a behv_tid this_gsid 0 t false) d) e.
Definition client_request (a : address) (behv_tid : Z) (d : edata) (t : Z) (e : engine) : res (Z * engine) :=
  '(id, pm) ← acquire_pr new_promise (response_pr_manager e);
  e ← send (mk_emsg (mk_header a behv_tid this_gsid id t false) d) (with_pm pm e);
  Ok (id, e).

(** The continuation of [send_and_wait], once both futures are available; [as_ret] casts the
    payload of a local response to the return type, [load] reads it from the queue. *)
Definition send_and_wait_done {R} (as_ret : edata -> option R) (load : Q -> res R)
    (id : Z) (send_failed : option ex) (result : ex + emsg) (e : engine) : res ((ex + R) * engine) :=
  pm ← remove_pr (response_pr_manager e) id;
  let e := with_pm pm e in
  match send_failed, result with
  | Some x, _ | None, inl x => Ok (inl x, e)
  | None, inr m =>
      if negb (from_network (e_hdr m)) then
        r ← of_option BadCast (as_ret (e_data m)); Ok (inr r, emit [EDeleted m] e)
      else
        match e_data m with
        | Net q => r ← load q; Ok (inr r, emit [EDeleted m] e)
        | _ => Fault BadCast
        end
  end.

(** ** receive terminates *)
Definition to_root (m : emsg) : Prop := addr_length (addr (e_hdr m)) = total_addr_length.

Lemma receive_fuel_root n m e : to_root m -> receive_fuel (S n) m e = receive_root m e.
Proof. intros H. cbn. unfold receive_step. now rewrite H, Z.eqb_refl. Qed.

Lemma response_header_root s p t h : response_header s p t = Ok h -> addr_length (addr h) = total_addr_length.
Proof. unfold response_header. intros H. res_inv. done. Qed.

(** The answer to a refused message is a message to the root actor: the only other call. *)
Lemma stopped_actor_enqueue_ext r1 r2 m e :
  (forall m' e', to_root m' -> r1 m' e' = r2 m' e') -> stopped_actor_enqueue r1 m e = stopped_actor_enqueue r2 m e.
Proof.
  intros Hr. unfold stopped_actor_enqueue. destruct (_ =? 0); [done|].
  destruct (response_header _ _ _) as [h|f] eqn:Eh; cbn [mbind res_bind]; [|done].
  unfold send_with. destruct (get_shard_id _); cbn [mbind res_bind]; [|done]. destruct (negb _); [done|].
  rewrite Hr; [done|]. eapply response_header_root, Eh.
Qed.

Lemma receive_step_ext r1 r2 m e :
  (forall m' e', to_root m' -> r1 m' e' = r2 m' e') -> receive_step r1 m e = receive_step r2 m e.
Proof.
  intros Hr. unfold receive_step. destruct (_ =? _); [done|].
  destruct (child_id _ _); cbn [mbind res_bind]; [|done].
  destruct (inst_map e !! _) as [[]|]; [|now apply stopped_actor_enqueue_ext|].
  - destruct (_ || _); [done|now apply stopped_actor_enqueue_ext].
  - destruct (negb _); [now apply stopped_actor_enqueue_ext|done].
Qed.

Lemma receive_fuel_enough n m e : receive_fuel (S (S n)) m e = receive m e.
Proof.
  change (receive_step (receive_fuel (S n)) m e = receive_step (receive_fuel 1) m e).
  apply receive_step_ext. intros m' e' H. now rewrite !receive_fuel_root.
Qed.

(** [receive] with the recursion resolved. *)
Lemma receive_eq m e : receive m e = receive_step receive_root m e.
Proof.
  change (receive_step (receive_fuel 1) m e = receive_step receive_root m e).
  apply receive_step_ext. intros m' e' H. now apply receive_fuel_root.
Qed.

(** ** Invariant *)
Definition created_ids (tr : list eout) : list Z := omap (fun o => match o with ECreated id _ => Some id | _ => None end) tr.
Definition barriers (tr : list eout) : nat := length (omap (fun o => match o with EBarrier => Some tt | _ => None end) tr).

Record inv (e : engine) : Prop := {
  i_num : num_actors_managed e = Z.of_nat (base.size (alive e));
  i_size : Z.of_nat (base.size (alive e)) < 4294967296;
  i_enabled : forall id, inst_map e !! id = Some true -> id ∈ alive e;
  i_alive : forall id, id ∈ alive e -> is_Some (inst_map e !! id);
  i_stopped : running e = false -> forall id b, inst_map e !! id = Some b -> b = false;
  i_barrier : barriers (trace e) = if negb (running e) && (num_actors_managed e =? 0) then 1%nat else 0%nat;
  i_created : forall id, id ∈ created_ids (trace e) <-> is_Some (inst_map e !! id);
  i_once : NoDup (created_ids (trace e))
}.

Ltac efields := cbn [status num_actors_managed inst_map response_pr_manager sem alive trace
  with_status with_num with_map with_pm with_sem with_alive emit] in *.

Lemma created_ids_app a b : created_ids (a ++ b) = created_ids a ++ created_ids b.
Proof. apply omap_app. Qed.
Lemma barriers_app a b : barriers (a ++ b) = (barriers a + barriers b)%nat.
Proof. unfold barriers. now rewrite omap_app, length_app. Qed.

(** Outputs that neither create a child nor leave the system. *)
Definition equiet (o : eout) : Prop := match o with ECreated _ _ | EBarrier => False | _ => True end.

Lemma equiet_trace os : Forall equiet os -> created_ids os = [] /\ barriers os = 0%nat.
Proof. induction 1 as [|o os Ho _ (H1 & H2)]; [done|]. unfold created_ids, barriers in *. cbn. now destruct o. Qed.

Lemma emit_inv os e : Forall equiet os -> inv e -> inv (emit os e).
Proof.
  intros Hq []. destruct (equiet_trace os Hq) as [H1 H2].
  split; efields; rewrite ?created_ids_app, ?barriers_app, ?H1, ?H2, ?app_nil_r, ?Nat.add_0_r; auto.
Qed.

Lemma inv_same e e' :
  status e' = status e -> num_actors_managed e' = num_actors_managed e -> inst_map e' = inst_map e -> alive e' = alive e ->
  trace e' = trace e -> inv e -> inv e'.
Proof.
  intros H1 H2 H3 H4 H5 []. assert (Hr : running e' = running e) by (unfold running; now rewrite H1).
  split; rewrite ?Hr, ?H2, ?H3, ?H4, ?H5; auto.
Qed.

Lemma emit1_inv o e : equiet o -> inv e -> inv (emit [o] e).
Proof. intros Ho. apply emit_inv. now constructor. Qed.

Lemma stop_actor_system_inv force e e' : inv e -> stop_actor_system force e = Ok e' -> inv e' /\ running e' = false.
Proof.
  intros Hi. unfold stop_actor_system. destruct (running e) eqn:Er; cbn [negb]; [|intros H; simplify_eq; done].
  intros H. res_inv. set (e1 := with_pm _ _).
  assert (Hr1 : running (stop_children force e1) = false) by (unfold running; cbn; now destruct force).
  destruct Hi. rewrite Er in i_barrier0. cbn [negb andb] in i_barrier0.
  assert (Hq : created_ids ((fun id => EStopped id force) <$> pointers (inst_map e)) = [] /\
               barriers ((fun id => EStopped id force) <$> pointers (inst_map e)) = 0%nat)
    by (apply equiet_trace, Forall_fmap, Forall_true; done).
  destruct Hq as [Q1 Q2].
  assert (Hmap : forall id b, ((fun _ => false) <$> inst_map e) !! id = Some b -> b = false)
    by (intros id b E; rewrite lookup_fmap in E; destruct (inst_map e !! id); [cbn in E; congruence|done]).
  assert (Hsome : forall id, is_Some (((fun _ => false) <$> inst_map e) !! id) <-> is_Some (inst_map e !! id))
    by (intros id; rewrite lookup_fmap; destruct (inst_map e !! id); cbn; split; intros [? ?]; done || (eexists; reflexivity)).
  assert (Hk : forall os, created_ids os = [] -> barriers os = (if num_actors_managed e =? 0 then 1%nat else 0%nat) ->
    inv (emit os (stop_children force e1))).
  { intros os O1 O2. split.
    - exact i_num0.
    - exact i_size0.
    - intros id E. cbn in E. now apply Hmap in E.
    - intros id Ha. cbn. apply Hsome. now apply i_alive0.
    - intros _ id b E. cbn in E. now apply Hmap in E.
    - cbn [trace emit stop_children with_map e1 with_pm with_status]. rewrite !barriers_app, i_barrier0. cbn [inst_map with_status with_pm e1] in *.
      rewrite Q2, O2. change (running _) with (running (stop_children force e1)). rewrite Hr1. cbn. now destruct (_ =? 0).
    - intros id. cbn [trace emit stop_children with_map e1 with_pm with_status inst_map]. rewrite !created_ids_app, Q1, O1, !app_nil_r.
      rewrite i_created0. symmetry. apply Hsome.
    - cbn [trace emit stop_children with_map e1 with_pm with_status inst_map]. now rewrite !created_ids_app, Q1, O1, !app_nil_r. }
  change (num_actors_managed (stop_children force e1)) with (num_actors_managed e).
  destruct (num_actors_managed e =? 0).
  - split; [apply Hk; done|exact Hr1].
  - split; [|exact Hr1]. eapply inv_same; [..|apply (Hk [])]; try done. cbn. now rewrite app_nil_r.
Qed.

Lemma receive_root_inv m e e' : inv e -> receive_root m e = Ok e' -> inv e'.
Proof.
  intros Hi. unfold receive_root. intros H.
  destruct (_ =? RESPONSE); [|destruct (_ =? EXCEPTION_RESPONSE); [|destruct (_ =? PEACE_STOP); [|destruct (_ =? FORCE_STOP); [|done]]]].
  - res_inv. destruct x; res_inv; [eapply inv_same; [..|exact Hi]; done|now apply emit1_inv].
  - res_inv. destruct x; [destruct (e_data m); try done|]; res_inv; apply emit1_inv; try done. eapply inv_same; [..|exact Hi]; done.
  - res_inv. apply emit1_inv; [done|]. eapply stop_actor_system_inv; eassumption.
  - res_inv. apply emit1_inv; [done|]. eapply stop_actor_system_inv; eassumption.
Qed.

Lemma stopped_actor_enqueue_inv m e e' : inv e -> stopped_actor_enqueue receive_root m e = Ok e' -> inv e'.
Proof.
  intros Hi. unfold stopped_actor_enqueue. intros H. res_inv. apply emit1_inv; [done|].
  destruct (_ =? 0); [res_inv; done|]. res_inv. unfold send_with in *. res_inv. destruct (negb _).
  - res_inv. apply emit1_inv; [now destruct (is_local _)|done].
  - eapply receive_root_inv; eassumption.
Qed.

Lemma create_child_inv id m e e' :
  inv e -> Z.of_nat (base.size (alive e)) < 4294967295 -> running e = true -> inst_map e !! id = None ->
  create_child id m e = Ok e' -> inv e' /\ running e' = true.
Proof using SM.
  clear new_promise promise_set_value promise_set_exception is_local disabled_below.
  intros Hi Hs Hr E. unfold create_child. intros H. apply bind_ok in H as (ty & _ & H). cbv zeta in H.
  change (sem (with_num _ _)) with (sem e) in H. destruct (sem_wait (sem e) id) as [s av].
  set (e1 := with_sem s _) in H.
  assert (H1 : inv e1).
  { destruct Hi. assert (Hna : id ∉ alive e) by (intros Ha; destruct (i_alive0 _ Ha); congruence).
    assert (Hnc : id ∉ created_ids (trace e)) by (rewrite i_created0, E; now intros [? ?]).
    assert (Hsz : base.size ({[id]} ∪ alive e) = S (base.size (alive e))) by (rewrite size_union, size_singleton by set_solver; done).
    assert (Hc : created_ids [ECreated id ty] = [id]) by done.
    subst e1. split; efields; rewrite ?created_ids_app, ?Hc, ?Hsz.
    - rewrite i_num0, u32_small; lia.
    - lia.
    - intros id'. rewrite lookup_insert_Some. set_solver.
    - intros id'. rewrite lookup_insert_is_Some'. set_solver.
    - unfold running in *. efields. congruence.
    - unfold running in *. efields. rewrite Hr in *. rewrite barriers_app, i_barrier0. done.
    - intros id'. rewrite lookup_insert_is_Some'. set_solver.
    - apply NoDup_app. split; [done|]. split; [set_solver|apply NoDup_singleton]. }
  destruct av; simplify_eq; (split; [|exact Hr]); [now apply emit1_inv|done].
Qed.

Lemma receive_inv m e e' :
  inv e -> Z.of_nat (base.size (alive e)) < 4294967295 -> receive m e = Ok e' -> inv e'.
Proof.
  intros Hi Hs. rewrite receive_eq. unfold receive_step. intros H.
  destruct (_ =? _); [eapply receive_root_inv; eassumption|]. apply bind_ok in H as (id & _ & H).
  destruct (inst_map e !! id) as [[]|] eqn:E.
  - destruct (_ || _); [simplify_eq; now apply emit1_inv|]. eapply stopped_actor_enqueue_inv; eassumption.
  - eapply stopped_actor_enqueue_inv; eassumption.
  - destruct (running e) eqn:Er; cbn [negb] in H; [|eapply stopped_actor_enqueue_inv; eassumption].
    apply bind_ok in H as (e1 & H1 & H). simplify_eq. apply emit1_inv; [done|]. now destruct (create_child_inv _ _ _ _ Hi Hs Er E H1).
Qed.

Lemma notify_inv id e :
  inv e -> id ∈ alive e -> inst_map e !! id = Some false ->
  inv (notify_child_stopped (with_alive (alive e ∖ {[id]}) e)).
Proof.
  clear new_promise promise_set_value promise_set_exception is_local disabled_below.
  intros Hi Ha Hm. unfold notify_child_stopped. cbv zeta.
  assert (Hsz : base.size (alive e) = S (base.size (alive e ∖ {[id]}))).
  { rewrite (union_difference_L {[id]} (alive e)) at 1 by set_solver. rewrite size_union, size_singleton by set_solver. done. }
  set (e1 := with_num _ _). assert (Hn : num_actors_managed e1 = Z.of_nat (base.size (alive e ∖ {[id]})))
    by (destruct Hi; cbn; rewrite i_num0, Hsz; rewrite u32_small; lia).
  assert (H1 : inv (if (num_actors_managed e1 =? 0) && negb (running e1) then wait_others_and_exit e1 else e1)).
  { destruct Hi. assert (Hb : barriers (trace e) = 0%nat) by (rewrite i_barrier0; destruct (Z.eqb_spec (num_actors_managed e) 0); [lia|now rewrite andb_false_r]).
    assert (Hk : forall os, created_ids os = [] -> barriers os = (if negb (running e1) && (num_actors_managed e1 =? 0) then 1%nat else 0%nat) -> inv (emit os e1)).
    { intros os O1 O2. split.
      - exact Hn.
      - cbn. lia.
      - intros id' E. cbn in E. specialize (i_enabled0 _ E). cbn. set_unfold. split; [done|]. intros ->. congruence.
      - intros id' H. cbn in *. set_solver.
      - exact i_stopped0.
      - cbn [trace emit]. rewrite barriers_app. change (trace e1) with (trace e). rewrite Hb. exact O2.
      - intros id'. cbn [trace emit]. rewrite created_ids_app, O1, app_nil_r. apply i_created0.
      - cbn [trace emit]. now rewrite created_ids_app, O1, app_nil_r. }
    destruct ((num_actors_managed e1 =? 0) && negb (running e1)) eqn:Eb; [apply Hk; [done|now rewrite andb_comm, Eb]|].
    eapply inv_same; [..|apply (Hk [])]; try done; [cbn; now rewrite app_nil_r|now rewrite andb_comm, Eb]. }
  destruct (sem_signal _) as [s woken]. apply emit_inv; [apply Forall_fmap, Forall_true; done|].
  eapply inv_same; [..|exact H1]; done.
Qed.

Lemma stop_child_inv id force e :
  inv e -> id ∈ alive e -> exists e', stop_child_actor id force e = Ok e' /\ inv e'.
Proof.
  intros Hi Ha. destruct (i_alive _ Hi id Ha) as [b E]. unfold stop_child_actor. rewrite E. cbn [of_option mbind res_bind].
  eexists. split; [done|]. destruct b; [|done]. pose proof (emit1_inv (EStopped id force) e I Hi) as [].
  split; efields; auto.
  - intros id'. rewrite lookup_insert_Some. intros [[_ ?]|[_ ?]]; [done|auto].
  - intros id' H. rewrite lookup_insert_is_Some'. right. auto.
  - intros Hr id' b'. rewrite lookup_insert_Some. intros [[_ ?]|[_ ?]]; [congruence|eauto].
  - intros id'. rewrite i_created0, lookup_insert_is_Some'. split; [auto|]. intros [<-|?]; [now rewrite E|done].
Qed.

(** ** The engine and its environment

    Children notify the engine once, after it dropped them ([Group.group_deleted_last],
    [Actor.actor_deleted_once]); at most 2^32 - 1 exist at the same time. *)
Inductive event :=
  | EvReceive (m : emsg)               (* a message for this shard arrives or is sent here *)
  | EvStopChild (id : Z) (force : bool)
  | EvGone (id : Z).
Definition step (ev : event) (e : engine) : res engine :=
  match ev with
  | EvReceive m => if Z.of_nat (base.size (alive e)) <? 4294967295 then receive m e else Ok e
  | EvStopChild id force => if bool_decide (id ∈ alive e) then stop_child_actor id force e else Ok e
  | EvGone id =>
      if bool_decide (id ∈ alive e) && bool_decide (inst_map e !! id = Some false)
      then Ok (notify_child_stopped (with_alive (alive e ∖ {[id]}) e)) else Ok e
  end.
Fixpoint run (evs : list event) (e : engine) : res engine :=
  match evs with [] => Ok e | ev :: evs => e ← step ev e; run evs e end.

Lemma step_inv ev e e' : inv e -> step ev e = Ok e' -> inv e'.
Proof.
  intros Hi H. destruct ev as [m|id force|id]; cbn [step] in H.
  - destruct (Z.ltb_spec (Z.of_nat (base.size (alive e))) 4294967295) as [Hs|Hs]; [|now simplify_eq]. eapply receive_inv; eassumption.
  - case_bool_decide as Ha; [|now simplify_eq]. destruct (stop_child_inv id force e Hi Ha) as (e1 & E & H1). congruence.
  - destruct (bool_decide (id ∈ alive e)) eqn:E1; cbn [andb] in H; [|now simplify_eq].
    destruct (bool_decide (inst_map e !! id = Some false)) eqn:E2; cbn [andb] in H; [|now simplify_eq].
    apply bool_decide_eq_true in E1, E2. simplify_eq. now apply notify_inv.
Qed.

Lemma engine_run_inv evs : forall e e', inv e -> run evs e = Ok e' -> inv e'.
Proof.
  induction evs as [|ev evs IH]; intros e e' Hi H; cbn [run] in H; [now simplify_eq|].
  apply bind_ok in H as (e1 & E & H). eapply IH; [|exact H]. eapply step_inv; eassumption.
Qed.

Lemma engine_new_inv pm : inv (engine_new pm).
Proof.
  split; cbn; try done.
  - intros id. split; [now rewrite elem_of_nil|]. intros [? E]. now rewrite lookup_empty in E.
  - constructor.
Qed.

(** ** The promise table *)
Lemma live_node (pm : pr_manager (P := P)) i : live pm i = true -> exists n, pr_array pm !! i = Some n /\ active n = true.
Proof. unfold live. destruct (pr_array pm !! i) as [n|]; [|done]. eauto. Qed.

Lemma live_is_active (pm : pr_manager (P := P)) i : live pm i = true -> is_active pm (Z.of_nat i) = Ok true.
Proof. intros H. destruct (live_node pm i H) as (n & E & Ha). unfold is_active. rewrite (at_id_ok _ _ _ E). cbn. now rewrite Ha. Qed.

(** Resolving the promise of a live id. *)
Lemma resolve_live (pm : pr_manager (P := P)) i n p :
  wf pm -> pr_array pm !! i = Some n ->
  let pm' := mk_pr_manager (<[i := set_pr n p]> (pr_array pm)) (available pm) in
  wf pm' /\ get_future pm' (Z.of_nat i) = Ok p /\ forall j, live pm' j = live pm j.
Proof.
  intros [fl Hw] E pm'. pose proof (lookup_lt_Some _ _ _ E) as Hlt. split; [exists fl; now apply wf_set_pr|]. split.
  - unfold get_future. rewrite (at_id_ok pm' i (set_pr n p)); [done|]. subst pm'. cbn. now rewrite list_lookup_insert_eq.
  - intros j. subst pm'. rewrite live_insert by done. case_decide as Hj; [|done]. subst j. unfold live. now rewrite E.
Qed.

Lemma response_address s p t : exists h, response_header s p t = Ok h /\ repr (addr h) s [] /\ pr_id h = p /\ Message.m_type h = t /\ from_network h = false.
Proof.
  destruct (repr_shard_only (addr_data address_zero) s eq_refl) as (d & Hd & R). unfold response_header. rewrite Hd. cbn [mbind res_bind].
  eexists. split; [done|]. done.
Qed.

(** [receive] of a message for a path, with the path's first cell read. *)
Lemma receive_at_child m e sh c cs :
  repr (addr (e_hdr m)) sh (c :: cs) -> scope_ok c ->
  receive m e = match inst_map e !! cell_key c with
                | Some false => stopped_actor_enqueue receive_root m e
                | Some true => if match cs with [] => true | _ => negb (disabled_below (cell_key c) m) end then Ok (deliver (cell_key c) m e)
                               else stopped_actor_enqueue receive_root m e
                | None => if running e then e ← create_child (cell_key c) m e; Ok (deliver (cell_key c) m e) else stopped_actor_enqueue receive_root m e
                end.
Proof.
  intros R Hc. destruct (repr_child _ _ _ 0 c R eq_refl Hc) as [Hid _]. change (Z.of_nat (4 + 6 * 0)) with total_addr_length in Hid.
  assert (Hlen : addr_length (addr (e_hdr m)) = Z.of_nat (4 + 6 * S (length cs))) by exact (repr_length _ _ _ R).
  rewrite receive_eq. unfold receive_step. rewrite Hlen. rewrite (proj2 (Z.eqb_neq _ _)) by (unfold total_addr_length, GShardIdInBytes; lia).
  rewrite Hid. cbn [mbind res_bind]. destruct (inst_map e !! cell_key c) as [[]|]; [|done|now destruct (running e)].
  replace (Z.of_nat (4 + 6 * S (length cs)) =? total_addr_length + Z.of_nat GLocalActorAddrLength) with (match cs with [] => true | _ => false end).
  2:{ destruct cs; [done|]. symmetry. apply Z.eqb_neq. unfold total_addr_length, GShardIdInBytes, GLocalActorAddrLength, GActorTypeInBytes, GActorIdInBytes.
      cbn [length]. lia. }
  now destruct cs.
Qed.

(** ** Properties *)
(** The actor system of a shard ends exactly once: after any history, the shard has reached the final barrier once if it
    was stopped and none of its children exists any more, and not at all otherwise.  The number of children is the number of children that
    exist, none is created twice, and once the system is stopping the engine has a pointer to none of them,
    so nothing is delivered and nothing is created any more. *)
Theorem engine_exits_once evs pm e :
  run evs (engine_new pm) = Ok e ->
  barriers (trace e) = (if bool_decide (running e = false /\ alive e = ∅) then 1%nat else 0%nat) /\
  num_actors_managed e = Z.of_nat (base.size (alive e)) /\ NoDup (created_ids (trace e)) /\
  (running e = false -> forall id b, inst_map e !! id = Some b -> b = false).
Proof.
  intros H. pose proof (engine_run_inv _ _ _ (engine_new_inv pm) H) as []. split; [|done]. rewrite i_barrier0.
  assert (Hz : num_actors_managed e = 0 <-> alive e = ∅).
  { rewrite i_num0. rewrite <-(leibniz_equiv_iff (alive e)), <-size_empty_iff. lia. }
  destruct (running e); cbn [negb andb]; [now rewrite bool_decide_false by (intros [? _]; done)|].
  destruct (Z.eqb_spec (num_actors_managed e) 0) as [E|E]; [rewrite bool_decide_true|rewrite bool_decide_false]; tauto.
Qed.

(** A message for a path on this shard is handled by the child its first cell names: put into the
    mailbox below that child if it is enabled, which creates it first if it was never created and the system runs;
    and otherwise refused.  Stop messages overtake the others. *)
Theorem receive_routes m e sh c cs :
  repr (addr (e_hdr m)) sh (c :: cs) -> scope_ok c ->
  let id := cell_key c in
  match inst_map e !! id with
  | Some true =>
      if match cs with [] => true | _ => negb (disabled_below id m) end then receive m e = Ok (deliver id m e)
      else receive m e = stopped_actor_enqueue receive_root m e
  | Some false => receive m e = stopped_actor_enqueue receive_root m e
  | None =>
      if running e then
        exists e' sc, receive m e = Ok e' /\ inst_map e' = <[id := true]> (inst_map e) /\
          trace e' = trace e ++ [ECreated id (ScopeBuilder.get_type c)] ++ sc ++ [EDeliver id (negb (Message.m_type (e_hdr m) =? USER)) m] /\
          (sc = [EScheduled id] \/ (sc = [] /\ waiting (sem e') = waiting (sem e) ++ [id]))
      else receive m e = stopped_actor_enqueue receive_root m e
  end.
Proof.
  intros R Hc id. destruct (repr_child _ _ _ 0 c R eq_refl Hc) as [_ Hty]. change (Z.of_nat (4 + 6 * 0)) with total_addr_length in Hty.
  rewrite (receive_at_child m e sh c cs R Hc). fold id. destruct (inst_map e !! id) as [[]|] eqn:E.
  - destruct cs; [done|]. now destruct (disabled_below id m).
  - done.
  - destruct (running e) eqn:Er; [|done]. unfold create_child. rewrite Hty. cbn [mbind res_bind]. cbv zeta.
    change (sem (with_num _ _)) with (sem e). pose proof (sem_wait_spec (sem e) id) as Hw. destruct (sem_wait (sem e) id) as [s av].
    cbn [fst snd] in Hw. destruct av; cbn [mbind res_bind]; eexists; [exists [EScheduled id]|exists []]; (split; [reflexivity|]);
      unfold deliver; efields; rewrite <-!app_assoc; (split; [done|]; split; [done|]); auto.
Qed.

(** C15: a refused message is deleted, and it is answered exactly if it is a request (its promise id is not 0).  A caller on another
    shard, whatever this shard's own table holds, is sent one exception response with its promise id through the channels.  A caller on
    this shard is answered at once: if its promise is still outstanding it is failed; if it is not, nothing else happens; an
    id that is not in this shard's table at all is read past the table's end. *)
Theorem refused_request_answered m e :
  in_u 32 (src_shard_id (e_hdr m)) ->
  let refused := stopped_actor_enqueue receive_root m e in
  if pr_id (e_hdr m) =? 0 then refused = Ok (emit [EDeleted m] e)
  else exists r,
    repr (addr (e_hdr r)) (src_shard_id (e_hdr m)) [] /\ pr_id (e_hdr r) = pr_id (e_hdr m) /\
    Message.m_type (e_hdr r) = EXCEPTION_RESPONSE /\ e_data r = Str canceled_text /\
    if src_shard_id (e_hdr m) =? this_gsid then
      match pr_array (response_pr_manager e) !! Z.to_nat (pr_id (e_hdr m)) with
      | None => refused = Fault OutOfBounds
      | Some n => exists pm, refused = Ok (emit [EDeleted r; EDeleted m] (with_pm pm e)) /\
          if active n then get_future pm (pr_id (e_hdr m)) = Ok (promise_set_exception (pr n) (MethodException canceled_text)) else pm = response_pr_manager e
      end
    else refused = Ok (emit [if is_local (src_shard_id (e_hdr m)) then ESendLocal r else ESendNet r; EDeleted m] e).
Proof.
  intros Hsrc refused. subst refused. unfold stopped_actor_enqueue. destruct (_ =? 0); [done|].
  destruct (response_address (src_shard_id (e_hdr m)) (pr_id (e_hdr m)) EXCEPTION_RESPONSE) as (h & Eh & R & H1 & H2 & H3).
  rewrite Eh. cbn [mbind res_bind]. exists (mk_emsg h (Str canceled_text)). cbn [e_hdr e_data]. do 4 (split; [done|]).
  unfold send_with. cbn [e_hdr]. rewrite (repr_get_shard _ _ _ R). cbn [mbind res_bind].
  replace (u32 (src_shard_id (e_hdr m))) with (src_shard_id (e_hdr m)) by (symmetry; now apply wrap_small).
  destruct (_ =? this_gsid); cbn [negb]; [|cbn [mbind res_bind]; unfold emit; efields; now rewrite <-app_assoc].
  unfold receive_root. cbn [e_hdr e_data]. rewrite H1, H2. cbn. unfold is_active, set_exception, at_id.
  destruct (_ !! _) as [n|] eqn:En; cbn [of_option mbind res_bind]; [|done]. destruct (active n) eqn:Ea; cbn [mbind res_bind].
  - eexists. split; [unfold emit; efields; now rewrite <-app_assoc|]. unfold get_future, at_id. cbn [pr_array].
    rewrite list_lookup_insert_eq by (eapply lookup_lt_Some; exact En). done.
  - exists (response_pr_manager e). split; [unfold emit; efields; now rewrite <-app_assoc|done].
Qed.

(** An exception response that comes from another machine is misread: [deserialize] makes an
    [actor_message_with_payload<serializable_queue>] of every message, which [receive] casts to one with a [simple_string] payload.  A local
    one fails the request's promise with the sender's text. *)
Theorem exception_response_cast m e i :
  to_root m -> Message.m_type (e_hdr m) = EXCEPTION_RESPONSE -> pr_id (e_hdr m) = Z.of_nat i ->
  wf (response_pr_manager e) -> live (response_pr_manager e) i = true ->
  (forall q, e_data m = Net q -> receive m e = Fault BadCast) /\
  (forall s, e_data m = Str s -> exists e' p, receive m e = Ok e' /\ get_future (response_pr_manager e) (Z.of_nat i) = Ok p /\
     get_future (response_pr_manager e') (Z.of_nat i) = Ok (promise_set_exception p (MethodException s))).
Proof.
  intros Hr Ht Hpr Hwf Hl. unfold receive. rewrite receive_fuel_root by done. unfold receive_root. rewrite Ht, Hpr. cbn.
  rewrite (live_is_active _ _ Hl). cbn [mbind res_bind]. split; [now intros q ->|]. intros s ->.
  destruct (live_node _ _ Hl) as (n & En & Ha). unfold set_exception. rewrite (at_id_ok _ _ _ En). cbn [mbind res_bind].
  rewrite Nat2Z.id. eexists _, (pr n). split; [reflexivity|]. split; [unfold get_future; now rewrite (at_id_ok _ _ _ En)|]. efields.
  now destruct (resolve_live (response_pr_manager e) i n (promise_set_exception (pr n) (MethodException s)) Hwf En) as (_ & G & _).
Qed.

(** A request leaves with a new promise id. *)
Lemma request_leaves a dst cs behv_tid d t e :
  repr a dst cs -> u32 dst <> this_gsid -> wf (response_pr_manager e) -> room (response_pr_manager e) ->
  exists i e1, client_request a behv_tid d t e = Ok (Z.of_nat i, e1) /\ i <> 0%nat /\ live (response_pr_manager e) i = false /\
    (let r := mk_emsg (mk_header a behv_tid this_gsid (Z.of_nat i) t false) d in
     trace e1 = trace e ++ [if is_local (u32 dst) then ESendLocal r else ESendNet r]) /\
    wf (response_pr_manager e1) /\ live (response_pr_manager e1) i = true /\ get_future (response_pr_manager e1) (Z.of_nat i) = Ok new_promise.
Proof.
  intros Ra Hd Hwf Hroom. unfold client_request.
  destruct (acquire_ok new_promise _ Hwf Hroom) as (i & pm & E & W & Hi & Hl & Hg & Hlive). rewrite E. cbn [mbind res_bind].
  unfold send, send_with. cbn [e_hdr addr]. rewrite (repr_get_shard _ _ _ Ra). cbn [mbind res_bind].
  rewrite (proj2 (Z.eqb_neq _ _)) by done. cbn [negb]. eexists i, _. split; [reflexivity|]. split; [done|]. split; [done|]. split; [done|].
  efields. split; [done|]. split; [|done]. rewrite Hlive. now rewrite decide_True.
Qed.
(** A response resolves the promise of its id. *)
Lemma response_arrives m e i p :
  to_root m -> pr_id (e_hdr m) = Z.of_nat i -> wf (response_pr_manager e) -> live (response_pr_manager e) i = true -> get_future (response_pr_manager e) (Z.of_nat i) = Ok p ->
  forall p', Message.m_type (e_hdr m) = RESPONSE /\ p' = promise_set_value p m \/
    Message.m_type (e_hdr m) = EXCEPTION_RESPONSE /\ (exists s, e_data m = Str s /\ p' = promise_set_exception p (MethodException s)) ->
  exists e', receive m e = Ok e' /\ get_future (response_pr_manager e') (Z.of_nat i) = Ok p' /\ wf (response_pr_manager e') /\ live (response_pr_manager e') i = true.
Proof.
  intros Hr Hp Hwf Hl Hg p' Hm. unfold receive. rewrite receive_fuel_root by done. unfold receive_root. rewrite Hp.
  destruct (live_node _ _ Hl) as (n & En & Ha). assert (Hn : pr n = p) by (unfold get_future in Hg; rewrite (at_id_ok _ _ _ En) in Hg; cbn in Hg; congruence).
  destruct (resolve_live (response_pr_manager e) i n p' Hwf En) as (W & G & L).
  destruct Hm as [[Ht ->]|(Ht & s & Hs & ->)]; rewrite Ht; cbn; rewrite (live_is_active _ _ Hl); cbn [mbind res_bind].
  - unfold set_value. rewrite (at_id_ok _ _ _ En). cbn [mbind res_bind]. rewrite Nat2Z.id, Hn. eexists. split; [reflexivity|]. efields. split; [exact G|]. split; [exact W|]. now rewrite L.
  - rewrite Hs. unfold set_exception. rewrite (at_id_ok _ _ _ En). cbn [mbind res_bind]. rewrite Nat2Z.id, Hn. eexists. split; [reflexivity|]. efields. split; [exact G|]. split; [exact W|]. now rewrite L.
Qed.

(** C14: a request to another shard and its response, on a shard whose promise table is well formed (as it stays until an id is released twice)
    and has fewer than 2^32 entries: the request leaves with a promise id that is not in
    use and is not 0, and with this shard as its source; at any later moment at which that id is still outstanding and its promise
    not set, a response with that id resolves that promise with
    the response; and the caller's continuation returns its payload, cast if the response comes from this machine and loaded
    from the bytes if it comes from another one, and frees the id. *)
Theorem request_response a dst cs behv_tid d t e :
  repr a dst cs -> u32 dst <> this_gsid -> wf (response_pr_manager e) -> room (response_pr_manager e) ->
  let outstanding i e := wf (response_pr_manager e) /\ live (response_pr_manager e) i = true /\ get_future (response_pr_manager e) (Z.of_nat i) = Ok new_promise in
  exists i e1, client_request a behv_tid d t e = Ok (Z.of_nat i, e1) /\ i <> 0%nat /\
    live (response_pr_manager e) i = false /\ outstanding i e1 /\
    (let r := mk_emsg (mk_header a behv_tid this_gsid (Z.of_nat i) t false) d in
     trace e1 = trace e ++ [if is_local (u32 dst) then ESendLocal r else ESendNet r]) /\
    forall e' m, outstanding i e' -> to_root m -> Message.m_type (e_hdr m) = RESPONSE -> pr_id (e_hdr m) = Z.of_nat i ->
      exists e2, receive m e' = Ok e2 /\ get_future (response_pr_manager e2) (Z.of_nat i) = Ok (promise_set_value new_promise m) /\
        forall R (as_ret : edata -> option R) load r,
          (if from_network (e_hdr m) then exists q, e_data m = Net q /\ load q = Ok r else as_ret (e_data m) = Some r) ->
          exists e3, send_and_wait_done as_ret load (Z.of_nat i) None (inr m) e2 = Ok (inr r, e3) /\
            live (response_pr_manager e3) i = false /\ wf (response_pr_manager e3).
Proof.
  intros Ra Hd Hwf Hroom outstanding. destruct (request_leaves a dst cs behv_tid d t e Ra Hd Hwf Hroom) as (i & e1 & E & Hi & Hl & Htr & W & L1 & G).
  exists i, e1. split; [exact E|]. split; [done|]. split; [done|]. split; [done|]. split; [exact Htr|]. clear dependent e1. intros e' m (W & L1 & G) Hr Ht Hp.
  destruct (response_arrives m e' i new_promise Hr Hp W L1 G (promise_set_value new_promise m) ltac:(now left)) as (e2 & E2 & G2 & W2 & L2).
  exists e2. split; [exact E2|]. split; [exact G2|]. intros R as_ret load r Hret.
  destruct (remove_ok _ _ W2 L2) as (pm3 & E3 & W3 & _ & L3). unfold send_and_wait_done. rewrite E3. cbn [mbind res_bind].
  destruct (from_network (e_hdr m)); cbn [negb]; [destruct Hret as (q & -> & ->)|rewrite Hret];
    (eexists; split; [reflexivity|]; efields; split; [rewrite L3; now rewrite decide_True|done]).
Qed.

(** ** Broadcasts *)
Definition sent (tr : list eout) : list emsg := omap (fun o => match o with ESendLocal m | ESendNet m => Some m | _ => None end) tr.

Lemma sent_app a b : sent (a ++ b) = sent a ++ sent b.
Proof. apply omap_app. Qed.

Lemma sent_stopped force ids : sent ((fun id => EStopped id force) <$> ids) = [].
Proof. induction ids as [|i ids IH]; [done|exact IH]. Qed.

Lemma emit_sent os e : sent os = [] -> sent (trace (emit os e)) = sent (trace e).
Proof. intros H. cbn. now rewrite sent_app, H, app_nil_r. Qed.

Lemma stop_actor_system_sent force e e' : stop_actor_system force e = Ok e' -> sent (trace e') = sent (trace e).
Proof.
  unfold stop_actor_system. destruct (negb _); intros H; [now simplify_eq|]. res_inv.
  destruct (_ =? 0); cbn; rewrite !sent_app, sent_stopped; cbn; now rewrite ?app_nil_r.
Qed.

(** A message that is no request is never answered. *)
Lemma receive_sent m e e' : pr_id (e_hdr m) = 0 -> receive m e = Ok e' -> sent (trace e') = sent (trace e).
Proof.
  intros Hp. rewrite receive_eq. unfold receive_step. intros H.
  assert (Hs : stopped_actor_enqueue receive_root m e = Ok e' -> sent (trace e') = sent (trace e)).
  { unfold stopped_actor_enqueue. rewrite Hp. cbn. intros E. simplify_eq. now apply emit_sent. }
  destruct (_ =? _).
  - revert H. unfold receive_root. intros H.
    destruct (_ =? RESPONSE); [|destruct (_ =? EXCEPTION_RESPONSE); [|destruct (_ =? PEACE_STOP); [|destruct (_ =? FORCE_STOP); [|done]]]].
    + res_inv. destruct x; res_inv; [done|now apply emit_sent].
    + res_inv. destruct x; [destruct (e_data m); try done|]; res_inv; now rewrite emit_sent.
    + res_inv. rewrite emit_sent by done. eapply stop_actor_system_sent. eassumption.
    + res_inv. rewrite emit_sent by done. eapply stop_actor_system_sent. eassumption.
  - apply bind_ok in H as (id & _ & H). destruct (inst_map e !! id) as [[]|]; [| |].
    + destruct (_ || _); [simplify_eq; now apply emit_sent|auto].
    + auto.
    + destruct (negb _); [auto|]. apply bind_ok in H as (e1 & H1 & H). simplify_eq. unfold deliver. rewrite emit_sent by done.
      unfold create_child in H1. apply bind_ok in H1 as (ty & _ & H1). cbv zeta in H1. destruct (sem_wait _ id) as [s []]; simplify_eq;
        efields; rewrite !sent_app; cbn; now rewrite ?app_nil_r.
Qed.

Lemma broadcast_sent cs a t k : forall sid e e',
  (exists sh, repr a sh cs) -> 0 <= sid -> sid + Z.of_nat k <= 4294967296 ->
  broadcast k sid a t e = Ok e' ->
  exists rs, sent (trace e') = sent (trace e) ++ rs /\
    Forall2 (fun s r => repr (addr (e_hdr r)) s cs /\ Message.m_type (e_hdr r) = t /\ pr_id (e_hdr r) = 0)
      (filter (fun s => s <> this_gsid) (seqZ sid (Z.of_nat k))) rs.
Proof.
  induction k as [|k IH]; intros sid e e' Ra H0 Hk H; cbn [broadcast] in H.
  - simplify_eq. exists []. split; [now rewrite app_nil_r|]. constructor.
  - apply bind_ok in H as (dst & Hd & H). apply bind_ok in H as (e1 & H1 & H).
    pose proof Ra as [sh R].
    destruct (repr_set_shard _ _ _ sid R) as (d & Ed & Rd). unfold on_shard in Hd. rewrite Ed in Hd. cbn [mbind res_bind] in Hd. simplify_eq.
    rewrite (seqZ_cons sid) by lia. rewrite filter_cons. rewrite Nat2Z.inj_succ in *.
    assert (Hnext : exists rs, sent (trace e') = sent (trace e1) ++ rs /\
      Forall2 (fun s r => repr (addr (e_hdr r)) s cs /\ Message.m_type (e_hdr r) = t /\ pr_id (e_hdr r) = 0)
        (filter (fun s => s <> this_gsid) (seqZ (Z.succ sid) (Z.pred (Z.succ (Z.of_nat k))))) rs).
    { rewrite Z.pred_succ. destruct k as [|k].
      - cbn in H. simplify_eq. exists []. split; [now rewrite app_nil_r|constructor].
      - rewrite u32_small in H by lia. eapply IH; [exact Ra| | |exact H]; lia. }
    unfold send, send_with in H1. cbn [e_hdr addr] in H1. rewrite (repr_get_shard _ _ _ Rd) in H1. cbn [mbind res_bind] in H1.
    rewrite (u32_small sid) in H1 by lia. destruct Hnext as (rs & Hrs & HF).
    destruct (Z.eqb_spec sid this_gsid) as [Hs|Hs]; cbn [negb] in H1.
    + rewrite decide_False by tauto. exists rs. split; [|done]. rewrite Hrs. f_equal. eapply receive_sent; [|exact H1]. done.
    + rewrite decide_True by done. simplify_eq. eexists. split; [rewrite Hrs; cbn; rewrite sent_app, <-app_assoc; reflexivity|].
      destruct (is_local sid); cbn; constructor; done.
Qed.

(** Cancelling a scope reaches the whole cluster: for every shard but its own the engine sends exactly one
    stop message, in the order of the shards, addressed to the same path on that shard; its own copy
    it handles at once.  [exit] does the same with the root of every shard. *)
Theorem broadcast_covers_cluster b sh cs force e :
  repr (ScopeBuilder.addr b) sh cs -> 0 <= num_shards <= 4294967296 ->
  let reaches cs e' := exists rs, sent (trace e') = sent (trace e) ++ rs /\
    Forall2 (fun s r => repr (addr (e_hdr r)) s cs /\ Message.m_type (e_hdr r) = stop_type force /\ pr_id (e_hdr r) = 0)
      (filter (fun s => s <> this_gsid) (seqZ 0 num_shards)) rs in
  (forall e', cancel_scope b force e = Ok e' -> reaches cs e') /\
  (forall e', exit force e = Ok e' -> reaches [] e').
Proof.
  intros R Hn reaches. unfold reaches. split; intros e' H.
  - unfold cancel_scope in H. replace num_shards with (Z.of_nat (Z.to_nat num_shards)) by lia.
    eapply broadcast_sent; [eauto| | |exact H]; lia.
  - unfold exit in H. replace num_shards with (Z.of_nat (Z.to_nat num_shards)) by lia.
    destruct (repr_shard_only (addr_data address_zero) 0 eq_refl) as (d & Hd & R0).
    eapply broadcast_sent; [exists 0| | |exact H]; try lia. apply memcpy_ok in Hd as [_ Hd].
    replace (addr_data address_zero) with d by exact Hd. exact R0.
Qed.

End Engine.

(** ** Witnesses

    Shard 1 of a cluster of three, whose machine runs shards 0 and 1; promises record what
    they were resolved with. *)
Definition toy_msg : Type := emsg (D := Z) (Q := list bytes).
Definition toy_promise : Type := option (toy_msg + ex).
Definition toy_value (p : toy_promise) (m : toy_msg) : toy_promise := Some (inl m).
Definition toy_exception (p : toy_promise) (x : ex) : toy_promise := Some (inr x).
Definition toy_local (s : Z) : bool := s <? 2.
Definition toy_disabled (_ : Z) (_ : toy_msg) : bool := false.

Definition toy_header (a : address) (src pr t : Z) : header := mk_header a 0 src pr t false.
Definition toy_resp (pr t : Z) (d : edata) : toy_msg := mk_emsg (toy_header (ex_addr 1 []) 0 pr t) d.

(** A table with request 1 outstanding. *)
Definition toy_pm0 : pr_manager (P := toy_promise) :=
  pr_manager_new None toy_value (toy_resp 0 RESPONSE NoData).
Definition toy_pm : pr_manager (P := toy_promise) := mk_pr_manager (pr_array toy_pm0 ++ [node_new None]) 0.
Definition toy_engine : engine (D := Z) (Q := list bytes) (Sem := Z * list Z) := engine_new toy_pm.

Lemma toy_pm0_wf : wf toy_pm0.
Proof. exists []. apply wf_new. Qed.
Lemma toy_pm0_room : room toy_pm0.
Proof. unfold room, pr_size. cbn. lia. Qed.
Lemma toy_pm_wf : wf toy_pm.
Proof. exists []. exact (proj2 (acquire_grow None toy_pm0 (wf_new _ _ _) toy_pm0_room)). Qed.

Definition toy_cell : ScopeBuilder.scope := ScopeBuilder.mk_scope 5 10.
Definition toy_from (src pr : Z) : toy_msg := mk_emsg (toy_header (ex_addr 1 [toy_cell]) src pr USER) (Data 7).
Definition toy_to_child (pr : Z) : toy_msg := toy_from 1 pr.

Lemma toy_repr sh cs : (length cs <= 1)%nat -> repr (ex_addr sh cs) sh cs.
Proof.
  intros H. destruct cs as [|c [|]]; [..|cbn in H; lia]; constructor; try reflexivity; try (cbn; addr_lia).
Qed.

Definition toy_events : list event :=
  [EvReceive (toy_to_child 0); EvReceive (mk_emsg (toy_header (ex_addr 1 []) 0 0 PEACE_STOP) NoData); EvGone (cell_key toy_cell)].

Example engine_exits_once_witness :
  exists e, run toy_value toy_exception 1 toy_local toy_disabled [] toy_events toy_engine = Ok e /\
    running e = false /\ alive e = ∅ /\ barriers (trace e) = 1%nat.
Proof.
  eexists. split; [vm_compute; reflexivity|]. split; [reflexivity|]. split; [reflexivity|].
  refine (eq_trans (proj1 (engine_exits_once toy_value toy_exception 1 toy_local toy_disabled [] toy_events toy_pm _ _)) _);
    vm_compute; reflexivity.
Defined.

Example receive_routes_witness :
  exists e' sc, receive toy_value toy_exception 1 toy_local toy_disabled [] (toy_to_child 0) toy_engine = Ok e' /\
    inst_map e' = <[cell_key toy_cell := true]> (inst_map toy_engine) /\
    trace e' = trace toy_engine ++ [ECreated (cell_key toy_cell) 5] ++ sc ++ [EDeliver (cell_key toy_cell) false (toy_to_child 0)] /\
    (sc = [EScheduled (cell_key toy_cell)] \/ (sc = [] /\ waiting (sem e') = waiting (sem toy_engine) ++ [cell_key toy_cell])).
Proof.
  apply (receive_routes toy_value toy_exception 1 toy_local toy_disabled [] (toy_to_child 0) toy_engine 1 toy_cell []).
  - apply toy_repr. cbn. lia.
  - split; unfold in_u; cbn; lia.
Defined.

(** Requests of shard 1 itself and of shard 2, on another machine. *)
Example refused_request_answered_witness :
  (exists r pm, stopped_actor_enqueue 1 toy_local [] (receive_root toy_value toy_exception) (toy_to_child 1) toy_engine =
      Ok (emit [EDeleted r; EDeleted (toy_to_child 1)] (with_pm pm toy_engine)) /\
    get_future pm 1 = Ok (toy_exception None (MethodException []))) /\
  exists r, stopped_actor_enqueue 1 toy_local [] (receive_root toy_value toy_exception) (toy_from 2 9) toy_engine =
      Ok (emit [ESendNet r; EDeleted (toy_from 2 9)] toy_engine) /\ pr_id (e_hdr r) = 9.
Proof.
  split.
  - destruct (refused_request_answered toy_value toy_exception 1 toy_local [] (toy_to_child 1) toy_engine) as (r & _ & _ & _ & _ & pm & E & H);
      [unfold in_u; cbn; lia|]. exists r, pm. split; [exact E|exact H].
  - destruct (refused_request_answered toy_value toy_exception 1 toy_local [] (toy_from 2 9) toy_engine) as (r & _ & Hp & _ & _ & E);
      [unfold in_u; cbn; lia|]. exists r. split; [exact E|exact Hp].
Defined.

Example exception_response_cast_witness :
  receive toy_value toy_exception 1 toy_local toy_disabled [] (toy_resp 1 EXCEPTION_RESPONSE (Net [])) toy_engine = Fault BadCast.
Proof.
  refine (proj1 (exception_response_cast toy_value toy_exception 1 toy_local toy_disabled []
    (toy_resp 1 EXCEPTION_RESPONSE (Net [])) toy_engine 1 eq_refl eq_refl eq_refl toy_pm_wf eq_refl) [] eq_refl).
Defined.

(** A request to shard 2, on another machine, and its response, whose payload is read from the bytes. *)
Definition toy_load (q : list bytes) : res Z := match q with [[b]] => Ok (Z.of_N (Byte.to_N b)) | _ => Fault OutOfBounds end.
Definition toy_net_resp (pr : Z) : toy_msg := mk_emsg (mk_header (ex_addr 1 []) 0 0 pr RESPONSE true) (Net [[Byte.x07]]).
Example request_response_witness :
  exists i e1 e2 e3, client_request None toy_value toy_exception 1 toy_local toy_disabled [] (ex_addr 2 [toy_cell]) 0 (Data 7) USER toy_engine
      = Ok (Z.of_nat i, e1) /\ i <> 0%nat /\ live toy_pm i = false /\
    receive toy_value toy_exception 1 toy_local toy_disabled [] (toy_net_resp (Z.of_nat i)) e1 = Ok e2 /\
    send_and_wait_done (fun _ => None) toy_load (Z.of_nat i) None (inr (toy_net_resp (Z.of_nat i))) e2 = Ok (inr 7, e3) /\
    live (response_pr_manager e3) i = false.
Proof.
  destruct (request_response None toy_value toy_exception 1 toy_local toy_disabled [] (ex_addr 2 [toy_cell]) 2 [toy_cell] 0 (Data 7) USER toy_engine)
    as (i & e1 & H1 & H2 & H3 & H4 & _ & H5); [apply toy_repr; cbn; lia|discriminate|exact toy_pm_wf|unfold room, pr_size; cbn; lia|].
  destruct (H5 e1 (toy_net_resp (Z.of_nat i)) H4 eq_refl eq_refl eq_refl) as (e2 & H6 & _ & H7).
  destruct (H7 Z (fun _ => None) toy_load 7 ltac:(exists [[Byte.x07]]; split; reflexivity)) as (e3 & H8 & H9 & _).
  exists i, e1, e2, e3. split; [exact H1|]. split; [exact H2|]. split; [exact H3|]. split; [exact H6|]. split; [exact H8|exact H9].
Defined.

Example broadcast_covers_cluster_witness :
  exists e', exit toy_value toy_exception 1 3 toy_local toy_disabled [] true toy_engine = Ok e' /\
  exists rs, sent (trace e') = [] ++ rs /\
    Forall2 (fun s r => repr (addr (e_hdr r)) s [] /\ Message.m_type (e_hdr r) = FORCE_STOP /\ pr_id (e_hdr r) = 0) [0; 2] rs.
Proof.
  eexists. split; [vm_compute; reflexivity|].
  refine (proj2 (broadcast_covers_cluster toy_value toy_exception 1 3 toy_local toy_disabled []
    (ScopeBuilder.mk (ex_addr 0 [])) 0 [] true toy_engine _ _) _ _);
    [apply toy_repr; cbn; lia|lia|vm_compute; reflexivity].
Defined.
