(* ===== verification/TmpBuf.v ===== *)
(** * Storage and [seastar::temporary_buffer]

    The code that keeps raw pointers into buffers ([column_batch.hh]) needs the storage
    behind a buffer and its sharing to be visible.  Storage is a finite map from block
    identifiers to bytes; a pointer is a block and an offset.  Blocks are never
    released: the deleters of Seastar's buffers are outside the model.

    [temporary_buffer] itself is Seastar's: it is the interface [TmpBuf], what it
    documents is [TmpBufLaws], and [view_buf] is an implementation that runs. *)
From S2P Require Import Prelude.
#[local] Open Scope cxx_scope.

Abbreviation block := positive.
Abbreviation loc := (block * nat)%type.
Abbreviation store := (gmap block bytes).

(** [n] bytes at [p + o]; [p] may be null. *)
Definition load (h : store) (p : option loc) (o n : Z) : res bytes :=
  l ← of_option NullDeref p;
  m ← of_option UseAfterFree (h !! l.1);
  mem_read m (l.2 + Z.to_nat o) (Z.to_nat n).

Definition write (h : store) (p : option loc) (o : Z) (src : bytes) : res store :=
  l ← of_option NullDeref p;
  m ← of_option UseAfterFree (h !! l.1);
  m' ← memcpy m (l.2 + Z.to_nat o) src;
  Ok (<[l.1 := m']> h).

(** Pointer arithmetic on a pointer that may be null. *)
Definition shift (p : option loc) (o : Z) : option loc :=
  match p with Some (b, i) => Some (b, i + Z.to_nat o)%nat | None => None end.

Class TmpBuf (B : Type) := {
  tb_null : B;                                  (* temporary_buffer(), or moved from *)
  tb_get : B -> option loc;                     (* get(), get_write() *)
  tb_size : B -> Z;                             (* size() *)
  tb_alloc : store -> Z -> bytes -> store * B;  (* temporary_buffer(size); what the storage held *)
  tb_share : B -> B;                            (* share() *)
  tb_share_n : B -> Z -> B                      (* share(0, len) *)
}.

Definition tb_empty {B} `{TmpBuf B} (b : B) : bool := tb_size b =? 0.

Class TmpBufLaws (B : Type) {TB : TmpBuf B} := {
  tb_get_null : tb_get tb_null = None;
  tb_size_null : tb_size tb_null = 0;
  tb_alloc_fresh h n junk : 0 < n -> exists k,
    h !! k = None /\ (tb_alloc h n junk).1 = <[k := resize (Z.to_nat n) Byte.x00 junk]> h /\
    tb_get (tb_alloc h n junk).2 = Some (k, 0%nat) /\ tb_size (tb_alloc h n junk).2 = n;
  tb_share_get b : tb_get (tb_share b) = tb_get b;
  tb_share_size b : tb_size (tb_share b) = tb_size b;
  tb_share_n_get b n : 0 <= n <= tb_size b -> tb_get (tb_share_n b n) = tb_get b;
  tb_share_n_size b n : 0 <= n <= tb_size b -> tb_size (tb_share_n b n) = n
}.

(** The bytes of a buffer. *)
Definition contents {B} `{TmpBuf B} (h : store) (b : B) : res bytes :=
  match tb_get b with None => Ok [] | p => load h p 0 (tb_size b) end.

(** An implementation: a view of a block. *)
Record view := mk_view { v_ptr : option loc; v_size : Z }.

#[export] Instance view_buf : TmpBuf view := {
  tb_null := mk_view None 0;
  tb_get := v_ptr;
  tb_size := v_size;
  tb_alloc h n junk :=
    let k := fresh (dom h) in
    (<[k := resize (Z.to_nat n) Byte.x00 junk]> h, mk_view (Some (k, 0%nat)) n);
  tb_share b := b;
  tb_share_n b n := mk_view (v_ptr b) n
}.

#[export, refine] Instance view_buf_laws : TmpBufLaws view := {}.
Proof.
  - done.
  - done.
  - intros h n junk Hn. exists (fresh (dom h)). split; [|done].
    apply not_elem_of_dom, is_fresh.
  - done.
  - done.
  - done.
  - done.
Defined.

(** ** Loads and writes *)
Lemma load_ok h k i o n m bs :
  h !! k = Some m -> mem_read m (i + Z.to_nat o) (Z.to_nat n) = Ok bs -> load h (Some (k, i)) o n = Ok bs.
Proof. intros E H. unfold load. cbn. rewrite E. exact H. Qed.

Lemma write_ok h k i o src m m' :
  h !! k = Some m -> memcpy m (i + Z.to_nat o) src = Ok m' ->
  write h (Some (k, i)) o src = Ok (<[k := m']> h).
Proof. intros E H. unfold write. cbn. rewrite E. cbn. now rewrite H. Qed.

Lemma load_shift h p o o' n : 0 <= o -> 0 <= o' -> load h (shift p o) o' n = load h p (o + o') n.
Proof.
  intros Ho Ho'. destruct p as [[k i]|]; [|done]. unfold load, shift. cbn.
  now rewrite Z2Nat.inj_add, Nat.add_assoc by done.
Qed.

Lemma write_shift h p o o' src : 0 <= o -> 0 <= o' -> write h (shift p o) o' src = write h p (o + o') src.
Proof.
  intros Ho Ho'. destruct p as [[k i]|]; [|done]. unfold write, shift. cbn.
  now rewrite Z2Nat.inj_add, Nat.add_assoc by done.
Qed.

(** [room h p n]: [p] points to at least [n] bytes of live storage. *)
Definition room (h : store) (p : option loc) (n : Z) : Prop :=
  exists k i m, p = Some (k, i) /\ h !! k = Some m /\ (i + Z.to_nat n <= length m)%nat.

Lemma write_keeps_room h p o src h' q n : write h p o src = Ok h' -> room h q n -> room h' q n.
Proof.
  unfold write. intros W (k' & i' & m2 & -> & E' & H'). destruct p as [[k i]|]; [|done]. cbn in W.
  destruct (h !! k) as [m|] eqn:E; [|done]. cbn in W. res_inv.
  destruct (decide (k = k')) as [<-|Hk].
  - exists k, i', x. rewrite lookup_insert_eq. split; [done|]. split; [done|].
    rewrite E in E'. simplify_eq. now rewrite (memcpy_length _ _ _ _ H).
  - exists k', i', m2. now rewrite lookup_insert_ne.
Qed.

Lemma write_room h p o src n :
  room h p n -> 0 <= o -> o + Z.of_nat (length src) <= n ->
  exists h', write h p o src = Ok h' /\ forall p' n', room h p' n' -> room h' p' n'.
Proof.
  intros (k & i & m & -> & E & Hm) Ho Hn.
  destruct (memcpy_total m (i + Z.to_nat o) src) as [m' Hc]; [lia|].
  pose proof (write_ok _ _ _ _ _ _ _ E Hc) as W. exists (<[k := m']> h). split; [exact W|].
  intros p' n'. now apply (write_keeps_room _ _ _ _ _ _ _ W).
Qed.

Lemma load_write h p o src h' :
  write h p o src = Ok h' -> load h' p o (Z.of_nat (length src)) = Ok src.
Proof.
  unfold write, load. intros H. destruct p as [[k i]|]; [|done]. cbn in *.
  destruct (h !! k) as [m|] eqn:E; [|done]. cbn in H. res_inv. rewrite lookup_insert_eq. cbn.
  rewrite Nat2Z.id. now apply mem_read_memcpy in H0.
Qed.

(** A write leaves every disjoint range alone. *)
Lemma load_write_ne h p o src h' o' n :
  write h p o src = Ok h' -> 0 <= o -> 0 <= o' -> 0 <= n ->
  (o' + n <= o \/ o + Z.of_nat (length src) <= o') ->
  load h' p o' n = load h p o' n.
Proof.
  unfold write, load. intros H Ho Ho' Hn Hd. destruct p as [[k i]|]; [|done]. cbn in *.
  destruct (h !! k) as [m|] eqn:E; [|done]. cbn in H. res_inv. rewrite lookup_insert_eq. cbn.
  eapply mem_read_memcpy_ne; [eassumption|]. lia.
Qed.

(** And every other block. *)
Lemma load_write_block h k i o src h' k' i' o' n :
  write h (Some (k, i)) o src = Ok h' -> k <> k' ->
  load h' (Some (k', i')) o' n = load h (Some (k', i')) o' n.
Proof.
  unfold write, load. intros H Hk. cbn in *. destruct (h !! k) as [m|] eqn:E; [|done]. cbn in H. res_inv.
  now rewrite lookup_insert_ne.
Qed.

(** Adjacent loads. *)
Lemma load_app h p o n1 n2 b1 b2 :
  0 <= o -> 0 <= n1 -> 0 <= n2 ->
  load h p o n1 = Ok b1 -> load h p (o + n1) n2 = Ok b2 -> load h p o (n1 + n2) = Ok (b1 ++ b2).
Proof.
  unfold load. intros Ho H1 H2 L1 L2. destruct p as [[k i]|]; [|done]. cbn in *.
  destruct (h !! k) as [m|]; [|done]. cbn in *.
  rewrite Z2Nat.inj_add by done. apply mem_read_app; [done|].
  now rewrite <-Nat.add_assoc, <-Z2Nat.inj_add by done.
Qed.

Lemma load_length h p o n bs : 0 <= n -> load h p o n = Ok bs -> Z.of_nat (length bs) = n.
Proof. unfold load. intros Hn H. res_inv. apply mem_read_length in H. lia. Qed.

(** A load of a part of a range that was loaded. *)
Lemma load_part h p o n pre b post :
  0 <= o -> load h p o n = Ok (pre ++ b ++ post) ->
  load h p (o + Z.of_nat (length pre)) (Z.of_nat (length b)) = Ok b.
Proof.
  unfold load. intros Ho H. destruct p as [[k i]|]; [|done]. cbn in *.
  destruct (h !! k) as [m|]; [|done]. cbn in *.
  pose proof (mem_read_split _ _ _ _ H) as (pr & po & -> & Hp & Hl). rewrite Nat2Z.id, <-!app_assoc, app_assoc.
  apply mem_read_mid; [|done]. len.
Qed.

Lemma load_room h p o n : room h p (o + n) -> 0 <= o -> 0 <= n -> exists bs, load h p o n = Ok bs.
Proof.
  intros (k & i & m & -> & E & Hm) Ho Hn.
  destruct (mem_read_total m (i + Z.to_nat o) (Z.to_nat n)) as [bs Hb]; [lia|].
  exists bs. exact (load_ok _ _ _ _ _ _ _ E Hb).
Qed.

Lemma room_le h p n n' : room h p n -> n' <= n -> room h p n'.
Proof. intros (k & i & m & ? & ? & ?) Hn. exists k, i, m. split; [done|]. split; [done|]. lia. Qed.

(** A fresh buffer has room, and what was there before stays. *)
Section Alloc.
Context {B : Type} {TB : TmpBuf B} {TBL : TmpBufLaws B}.

Lemma alloc_room h n junk h' b :
  0 < n -> tb_alloc h n junk = (h', b) -> room h' (tb_get b) n /\ tb_size b = n.
Proof.
  intros Hn E. destruct (tb_alloc_fresh h n junk Hn) as (k & _ & E1 & E2 & E3). rewrite E in *. cbn in *.
  split; [|done]. exists k, 0%nat, (resize (Z.to_nat n) Byte.x00 junk). subst h'.
  rewrite lookup_insert_eq, length_resize. split; [done|]. split; [done|]. lia.
Qed.

Lemma alloc_load h n junk h' b p o len bs :
  0 < n -> tb_alloc h n junk = (h', b) -> load h p o len = Ok bs -> load h' p o len = Ok bs.
Proof.
  intros Hn E L. destruct (tb_alloc_fresh h n junk Hn) as (k & Hk & E1 & _ & _). rewrite E in *. cbn in *.
  subst h'. unfold load in *. destruct p as [[k' i]|]; [|done]. cbn in *.
  destruct (decide (k = k')) as [<-|]; [now rewrite Hk in L|]. now rewrite lookup_insert_ne.
Qed.

Lemma alloc_keeps_room h n junk h' b p len :
  0 < n -> tb_alloc h n junk = (h', b) -> room h p len -> room h' p len.
Proof.
  intros Hn E (k' & i & m & -> & Em & Hm).
  destruct (tb_alloc_fresh h n junk Hn) as (k & Hk & E1 & _ & _). rewrite E in *. cbn in *. subst h'.
  exists k', i, m. rewrite lookup_insert_ne by congruence. done.
Qed.

(** The new block is not one that was there. *)
Lemma alloc_new_block h n junk h' b k i m :
  0 < n -> tb_alloc h n junk = (h', b) -> h !! k = Some m -> tb_get b <> Some (k, i).
Proof.
  intros Hn E Hm Hb. destruct (tb_alloc_fresh h n junk Hn) as (k' & Hk & E1 & E2 & _). rewrite E in *. cbn in *.
  congruence.
Qed.

(** A received buffer is a fresh one that holds the bytes. *)
Lemma alloc_contents h bs h' b :
  bs <> [] -> tb_alloc h (Z.of_nat (length bs)) bs = (h', b) -> contents h' b = Ok bs.
Proof.
  intros Hb E. assert (Hn : 0 < Z.of_nat (length bs)) by (destruct bs; [done|cbn [length]; lia]).
  destruct (tb_alloc_fresh h _ bs Hn) as (k & _ & E1 & E2 & E3). rewrite E in *. cbn in *.
  unfold contents. rewrite E2, E3. subst h'. apply (load_ok _ _ _ _ _ bs).
  - rewrite lookup_insert_eq. now rewrite Nat2Z.id, resize_all.
  - apply mem_read_ok. cbn. rewrite Nat2Z.id, drop_0, firstn_all. done.
Qed.

Lemma contents_load h b bs : contents h b = Ok bs -> bs <> [] -> load h (tb_get b) 0 (tb_size b) = Ok bs.
Proof. unfold contents. destruct (tb_get b); [done|]. intros [= <-]. done. Qed.
End Alloc.

Lemma load_gives_room h p o n bs : 0 <= o -> load h p o n = Ok bs -> room h p (o + n).
Proof.
  unfold load. intros Ho H. destruct p as [[k i]|]; [|done]. cbn in H.
  destruct (h !! k) as [m|] eqn:E; [|done]. cbn in H. apply mem_read_ok in H as [Hm _].
  exists k, i, m. split; [done|]. split; [done|]. lia.
Qed.

Lemma load_size h p o n bs : load h p o n = Ok bs -> bs <> [] -> Z.of_nat (length bs) = n.
Proof.
  unfold load. intros H Hb. res_inv. pose proof (mem_read_length _ _ _ _ H).
  destruct bs; [done|]. cbn [length] in *. lia.
Qed.

Lemma load_nil h p n : room h p n -> 0 <= n -> load h p n 0 = Ok [].
Proof.
  intros Hr Hn. destruct (load_room h p n 0) as [bs E]; [now rewrite Z.add_0_r|done|done|].
  pose proof (load_length _ _ _ _ _ (Z.le_refl 0) E). destruct bs; [done|]. cbn [length] in *. lia.
Qed.

(** Three parts in a row. *)
Lemma load_app3 h p n1 n2 n3 b1 b2 b3 :
  0 <= n1 -> 0 <= n2 -> 0 <= n3 ->
  load h p 0 n1 = Ok b1 -> load h p n1 n2 = Ok b2 -> load h p (n1 + n2) n3 = Ok b3 ->
  load h p 0 (n1 + n2 + n3) = Ok (b1 ++ b2 ++ b3).
Proof.
  intros H1 H2 H3 L1 L2 L3. rewrite app_assoc. apply load_app; [lia..| |done].
  apply load_app; [lia..|done|done].
Qed.

(** Rows of [s] bytes, one after the other. *)
Lemma rows_length (s : Z) (rows : list bytes) :
  0 <= s -> Forall (fun r => Z.of_nat (length r) = s) rows ->
  Z.of_nat (length (mjoin rows)) = s * Z.of_nat (length rows).
Proof.
  intros Hs H. induction H as [|r rows Hr H IH]; [cbn; lia|].
  change (mjoin (r :: rows)) with (r ++ mjoin rows). rewrite length_app, Nat2Z.inj_add, IH. cbn [length]. lia.
Qed.

(** Two pointers into different blocks: a write through one is not seen through the other. *)
Definition far (p q : option loc) : Prop :=
  match p, q with Some (k, _), Some (k', _) => k <> k' | _, _ => False end.

Lemma load_write_far h p o src h' q o' n :
  write h p o src = Ok h' -> far p q -> load h' q o' n = load h q o' n.
Proof.
  intros H F. destruct p as [[k i]|], q as [[k' i']|]; try done. eapply load_write_block; eassumption.
Qed.

Lemma far_sym p q : far p q -> far q p.
Proof. destruct p as [[k i]|], q as [[k' i']|]; cbn; congruence. Qed.

#[export] Hint Resolve room_le far_sym : hiactor.
