(* ===== verification/ColumnBatch.v ===== *)
(** * Column batches

    [src/include/hiactor/core/column_batch.hh] and [cb_table.hh]: columns of values that
    live in the buffers they are sent in.  A [fixed_column_batch<T>] is one buffer
    (header with the row count, then the rows); a [dynamic_column_batch<T>] is a buffer
    of row descriptors and a buffer of elements that grows.

    A value of a trivially copyable type is its bytes; [sizeT] is [sizeof(T)] and
    [off_data] the offset of [fake_data] in the layout struct.  The batch keeps raw
    pointers into the buffers next to the buffers, so that sharing and moving behave as
    in the code. *)
From S2P Require Import Prelude Bytes TmpBuf BufferQueue.
#[local] Open Scope cxx_scope.

(** ** fixed_column_batch *)
Module Fixed.

Record buf_wrapper (B : Type) := mk_bw { buf : B; data : option loc }.
Arguments mk_bw {B} _ _.
Arguments buf {B} _.
Arguments data {B} _.

Record fixed_column_batch (B : Type) := mk { _bw : buf_wrapper B; _size : Z; _capacity : Z }.
Arguments mk {B} _ _ _.
Arguments _bw {B} _.
Arguments _size {B} _.
Arguments _capacity {B} _.

Section Operations.
Context {B : Type} {TB : TmpBuf B}.
(** [sizeof(T)] and [offset_of(&layout::fake_data)]. *)
Variables (sizeT off_data : Z).

Definition buf_size (capacity : Z) : Z := off_data +[64] sizeT * capacity.

Definition data_ptr (b : B) : option loc := shift (tb_get b) off_data.

Definition used (h : store) (bw : buf_wrapper B) : res Z :=
  bs ← load h (tb_get (buf bw)) 0 4; Ok (dec_uint bs).

Definition set_used (h : store) (bw : buf_wrapper B) (n : Z) : res store :=
  write h (tb_get (buf bw)) 0 (enc_uint 4 n).

(** The product is a [size_t], the result a [uint32_t]. *)
Definition get_length (h : store) (bw : buf_wrapper B) : res Z :=
  n ← used h bw; Ok (u32 (n * sizeT + off_data)).

Definition bw_new (h : store) (junk : bytes) (capacity : Z) : store * buf_wrapper B :=
  let '(h, b) := tb_alloc (B:=B) h (buf_size capacity) junk in (h, mk_bw b (data_ptr b)).

Definition bw_from_buf (tb : B) : buf_wrapper B := mk_bw tb (data_ptr tb).

(** [buf_wrapper(buf_wrapper&&)]: the new wrapper and what is left of the old one. *)
Definition bw_move (x : buf_wrapper B) : buf_wrapper B * buf_wrapper B :=
  (x, mk_bw tb_null None).

Definition bw_share (bw : buf_wrapper B) : buf_wrapper B :=
  mk_bw (tb_share (buf bw)) (data bw).

Definition new (h : store) (junk : bytes) (capacity : Z) : store * fixed_column_batch B :=
  let '(h, bw) := bw_new h junk capacity in (h, mk bw 0 capacity).

Definition from_buf (h : store) (tb : B) : res (fixed_column_batch B) :=
  let bw := bw_from_buf tb in
  n ← used h bw; Ok (mk bw n n).

Definition move (x : fixed_column_batch B) : fixed_column_batch B * fixed_column_batch B :=
  let '(bw, bw') := bw_move (_bw x) in
  (mk bw (_size x) (_capacity x), mk bw' 0 0).

(** [*this = std::move(other)]; [same] when [other] is [*this]. *)
Definition move_assign (same : bool) (this other : fixed_column_batch B)
    : fixed_column_batch B * fixed_column_batch B :=
  if same then (this, this) else move other.

Definition share (b : fixed_column_batch B) : fixed_column_batch B :=
  mk (bw_share (_bw b)) (_size b) (_capacity b).

Definition get (h : store) (b : fixed_column_batch B) (idx : Z) : res bytes :=
  load h (data (_bw b)) (idx * sizeT) sizeT.

Definition push_back (h : store) (b : fixed_column_batch B) (v : bytes)
    : res (store * fixed_column_batch B) :=
  h ← write h (data (_bw b)) (_size b * sizeT) v;
  Ok (h, mk (_bw b) (_size b +[32] 1) (_capacity b)).

Definition size (b : fixed_column_batch B) : Z := _size b.
Definition capacity (b : fixed_column_batch B) : Z := _capacity b.

(** [dump_to(byte_tmpbuf_t&)]. *)
Definition dump_to (h : store) (b : fixed_column_batch B) (tmp_buf : B)
    : res (store * fixed_column_batch B * B) :=
  match tb_get (buf (_bw b)) with
  | None => Ok (h, b, tmp_buf)
  | Some _ =>
      h ← set_used h (_bw b) (_size b);
      let '(bw, bw') := bw_move (_bw b) in
      n ← get_length h bw;
      Ok (h, mk bw' 0 0, tb_share_n (buf bw) n)
  end.

(** [dump_to(serializable_queue&)]; the queue's model holds the bytes of its buffers. *)
Definition dump_to_queue {Q} `{BufferQueue Q} (h : store) (b : fixed_column_batch B) (sq : Q)
    : res (store * fixed_column_batch B * Q) :=
  '(h, b, tmp) ← dump_to h b tb_null;
  bs ← contents h tmp;
  sq ← bq_push sq bs;
  Ok (h, b, sq).

Fixpoint push_rows (h : store) (b : fixed_column_batch B) (rows : list bytes)
    : res (store * fixed_column_batch B) :=
  match rows with
  | [] => Ok (h, b)
  | v :: rows => '(h, b) ← push_back h b v; push_rows h b rows
  end.

End Operations.
End Fixed.

(** ** dynamic_column_batch *)
Module Dynamic.

Record buf_wrapper (B : Type) := mk_bw {
  meta_buf : B; data_buf : B;
  data : option loc; meta : option loc;
  occupied : Z; _reserved : Z
}.
Arguments mk_bw {B} _ _ _ _ _ _.
Arguments meta_buf {B} _.
Arguments data_buf {B} _.
Arguments data {B} _.
Arguments meta {B} _.
Arguments occupied {B} _.
Arguments _reserved {B} _.

Record dynamic_column_batch (B : Type) := mk { _bw : buf_wrapper B; _size : Z; _capacity : Z }.
Arguments mk {B} _ _ _.
Arguments _bw {B} _.
Arguments _size {B} _.
Arguments _capacity {B} _.

(** [struct metadata] and its layout. *)
Record metadata := mk_meta { m_offset : Z; m_len : Z }.
Definition sizeof_metadata : Z := 8.
Definition offset_of_meta : Z := 4.
Definition enc_meta (m : metadata) : bytes := enc_uint 4 (m_offset m) ++ enc_uint 4 (m_len m).
Definition dec_meta (bs : bytes) : metadata := mk_meta (dec_uint (take 4 bs)) (dec_uint (drop 4 bs)).

Section Operations.
Context {B : Type} {TB : TmpBuf B}.
(** [sizeof(data_type)]. *)
Variable sizeD : Z.

Definition metabuf_size (capacity : Z) : Z := offset_of_meta +[64] sizeof_metadata * capacity.
Definition databuf_size (size : Z) : Z := sizeD *[64] size.
Definition meta_ptr (b : B) : option loc := shift (tb_get b) offset_of_meta.
Definition data_ptr (b : B) : option loc := tb_get b.

Definition used (h : store) (bw : buf_wrapper B) : res Z :=
  bs ← load h (tb_get (meta_buf bw)) 0 4; Ok (dec_uint bs).
Definition set_used (h : store) (bw : buf_wrapper B) (n : Z) : res store :=
  write h (tb_get (meta_buf bw)) 0 (enc_uint 4 n).

Definition get_meta (h : store) (p : option loc) (idx : Z) : res metadata :=
  bs ← load h p (idx * sizeof_metadata) sizeof_metadata; Ok (dec_meta bs).
Definition set_meta (h : store) (p : option loc) (idx : Z) (m : metadata) : res store :=
  write h p (idx * sizeof_metadata) (enc_meta m).

Definition get_meta_length (h : store) (bw : buf_wrapper B) : res Z :=
  n ← used h bw; Ok (u32 (n * sizeof_metadata + offset_of_meta)).
Definition get_data_length (bw : buf_wrapper B) : Z := occupied bw *[32] sizeD.

Definition bw_empty (bw : buf_wrapper B) : bool := tb_empty (meta_buf bw) && tb_empty (data_buf bw).

(** [get_occupied]: [meta[used() - 1]], the index a [uint32_t]. *)
Definition get_occupied (h : store) (mb : B) : res Z :=
  n ← used h (mk_bw mb mb None None 0 0);
  mt ← get_meta h (meta_ptr mb) (n -[32] 1);
  Ok (m_len mt +[32] m_offset mt).

Definition bw_new (h : store) (junk1 junk2 : bytes) (cap reserved : Z) : store * buf_wrapper B :=
  let '(h, mb) := tb_alloc (B:=B) h (metabuf_size cap) junk1 in
  let '(h, db) := tb_alloc (B:=B) h (databuf_size reserved) junk2 in
  (h, mk_bw mb db (data_ptr db) (meta_ptr mb) 0 reserved).

Definition bw_from_bufs (h : store) (tb1 tb2 : B) : res (buf_wrapper B) :=
  o ← get_occupied h tb1;
  Ok (mk_bw tb1 tb2 (data_ptr tb2) (meta_ptr tb1) o o).

Definition clear_all (bw : buf_wrapper B) : buf_wrapper B :=
  mk_bw (meta_buf bw) (data_buf bw) None None 0 0.
Definition member_substitute (bw other : buf_wrapper B) : buf_wrapper B :=
  mk_bw (meta_buf bw) (data_buf bw) (data other) (meta other) (occupied other) (_reserved other).

(** The moved-from buffers are empty. *)
Definition release_bufs (x : buf_wrapper B) : buf_wrapper B :=
  mk_bw tb_null tb_null (data x) (meta x) (occupied x) (_reserved x).

(** [buf_wrapper(buf_wrapper&&)] and the assignment from another wrapper. *)
Definition bw_move (x : buf_wrapper B) : buf_wrapper B * buf_wrapper B :=
  (x, clear_all (release_bufs x)).
Definition bw_move_assign (this other : buf_wrapper B) : buf_wrapper B * buf_wrapper B :=
  let this := mk_bw (meta_buf other) (data_buf other) (data this) (meta this) (occupied this) (_reserved this) in
  (member_substitute this other, clear_all (release_bufs other)).

Definition bw_share (bw : buf_wrapper B) : buf_wrapper B :=
  mk_bw (tb_share (meta_buf bw)) (tb_share (data_buf bw)) (data bw) (meta bw) (occupied bw) (_reserved bw).

(** [do { _reserved *= 2; } while (_reserved < required);] *)
Fixpoint reserve_loop (fuel : nat) (reserved required : Z) : res Z :=
  match fuel with
  | O => Fault NoFuel
  | S fuel =>
      let reserved := reserved *[32] 2 in
      if reserved <? required then reserve_loop fuel reserved required else Ok reserved
  end.

(** A 32-bit value doubled 32 times is 0, so a loop that runs 33 times never ends
    ([reserve_loop_fuel] below). *)
Definition RESERVE_FUEL : nat := 33.

Definition ensure_space (h : store) (junk : bytes) (bw : buf_wrapper B) (len : Z)
    : res (store * buf_wrapper B) :=
  let required := occupied bw +[32] len in
  if _reserved bw <? required then
    reserved ← reserve_loop RESERVE_FUEL (_reserved bw) required;
    let '(h, new_databuf) := tb_alloc (B:=B) h (databuf_size reserved) junk in
    old ← load h (tb_get (data_buf bw)) 0 (databuf_size (occupied bw));
    h ← write h (tb_get new_databuf) 0 old;
    Ok (h, mk_bw (meta_buf bw) new_databuf (data_ptr new_databuf) (meta_ptr (meta_buf bw))
             (occupied bw) reserved)
  else Ok (h, bw).

Definition new (h : store) (junk1 junk2 : bytes) (capacity init_reserved : Z)
    : store * dynamic_column_batch B :=
  let '(h, bw) := bw_new h junk1 junk2 capacity init_reserved in (h, mk bw 0 capacity).

Definition from_bufs (h : store) (tb1 tb2 : B) : res (dynamic_column_batch B) :=
  bw ← bw_from_bufs h tb1 tb2; n ← used h bw; Ok (mk bw n n).

Definition move (x : dynamic_column_batch B) : dynamic_column_batch B * dynamic_column_batch B :=
  let '(bw, bw') := bw_move (_bw x) in
  (mk bw (_size x) (_capacity x), mk bw' 0 0).

Definition move_assign (same : bool) (this other : dynamic_column_batch B)
    : dynamic_column_batch B * dynamic_column_batch B :=
  if same then (this, this)
  else let '(bw, bw') := bw_move_assign (_bw this) (_bw other) in
       (mk bw (_size other) (_capacity other), mk bw' 0 0).

Definition share (b : dynamic_column_batch B) : dynamic_column_batch B :=
  mk (bw_share (_bw b)) (_size b) (_capacity b).

(** [operator[]]: the returned [T{ptr, len}]. *)
Definition get (h : store) (b : dynamic_column_batch B) (idx : Z) : res (option loc * Z) :=
  mt ← get_meta h (meta (_bw b)) idx;
  Ok (shift (data (_bw b)) (m_offset mt * sizeD), m_len mt).

(** The elements such a value spans. *)
Definition elements (h : store) (t : option loc * Z) : res bytes :=
  if t.2 =? 0 then Ok [] else load h t.1 0 (t.2 * sizeD).

Definition push_back_helper (h : store) (junk : bytes) (b : dynamic_column_batch B) (src : bytes) (len : Z)
    : res (store * dynamic_column_batch B) :=
  '(h, bw) ← ensure_space h junk (_bw b) len;
  h ← set_meta h (meta bw) (_size b) (mk_meta (occupied bw) len);
  s ← mem_read src 0 (Z.to_nat (len * sizeD));
  h ← write h (data bw) (occupied bw * sizeD) s;
  Ok (h, mk (mk_bw (meta_buf bw) (data_buf bw) (data bw) (meta bw) (occupied bw +[32] len) (_reserved bw))
           (_size b +[32] 1) (_capacity b)).

(** The overload that appends one more element. *)
Definition push_back_helper_val (h : store) (junk : bytes) (b : dynamic_column_batch B)
    (src : bytes) (len : Z) (val : bytes) : res (store * dynamic_column_batch B) :=
  let total_len := len +[32] 1 in
  '(h, bw) ← ensure_space h junk (_bw b) total_len;
  h ← set_meta h (meta bw) (_size b) (mk_meta (occupied bw) total_len);
  s ← mem_read src 0 (Z.to_nat (len * sizeD));
  h ← write h (data bw) (occupied bw * sizeD) s;
  let occ := occupied bw +[32] total_len in
  h ← write h (data bw) ((occ -[32] 1) * sizeD) val;
  Ok (h, mk (mk_bw (meta_buf bw) (data_buf bw) (data bw) (meta bw) occ (_reserved bw))
           (_size b +[32] 1) (_capacity b)).

Definition size (b : dynamic_column_batch B) : Z := _size b.
Definition capacity (b : dynamic_column_batch B) : Z := _capacity b.

Definition dump_to (h : store) (b : dynamic_column_batch B) (tb1 tb2 : B)
    : res (store * dynamic_column_batch B * B * B) :=
  if bw_empty (_bw b) then Ok (h, b, tb1, tb2)
  else
    h ← set_used h (_bw b) (_size b);
    let '(bw, bw') := bw_move (_bw b) in
    n ← get_meta_length h bw;
    Ok (h, mk bw' 0 0, tb_share_n (meta_buf bw) n, tb_share_n (data_buf bw) (get_data_length bw)).

Definition dump_to_queue {Q} `{BufferQueue Q} (h : store) (b : dynamic_column_batch B) (sq : Q)
    : res (store * dynamic_column_batch B * Q) :=
  '(h, b, buf_1, buf_2) ← dump_to h b tb_null tb_null;
  bs_1 ← contents h buf_1;
  bs_2 ← contents h buf_2;
  sq ← bq_push sq bs_1;
  sq ← bq_push sq bs_2;
  Ok (h, b, sq).

(** The rows of a column are pushed one after the other; [junk] is what newly allocated
    storage holds. *)
Fixpoint push_rows (h : store) (junk : bytes) (b : dynamic_column_batch B) (rows : list bytes)
    : res (store * dynamic_column_batch B) :=
  match rows with
  | [] => Ok (h, b)
  | v :: rows =>
      '(h, b) ← push_back_helper h junk b v (Z.of_nat (length v) / sizeD);
      push_rows h junk b rows
  end.

End Operations.
End Dynamic.

(** ** column_batch<string> and column_batch<path>

    The two dynamic columns: [string] is a span of [char], [path] of [int64_t]. *)
Module Columns.
Import Dynamic.

(** [struct string], [struct path]: the bytes [ptr] points to, and the element count. *)
Record span := mk_span { ptr : bytes; len : Z }.
Definition sizeof_char : Z := 1.
Definition sizeof_int64 : Z := 8.

Section Operations.
Context {B : Type} {TB : TmpBuf B}.

Definition string_push_back (h : store) (junk : bytes) (b : dynamic_column_batch B) (str : span) :=
  push_back_helper sizeof_char h junk b (ptr str) (len str).
Definition string_push_back_element (h : store) (junk : bytes) (b : dynamic_column_batch B) (str : span)
    (element : bytes) :=
  push_back_helper_val sizeof_char h junk b (ptr str) (len str) element.
Definition path_push_back (h : store) (junk : bytes) (b : dynamic_column_batch B) (pth : span) :=
  push_back_helper sizeof_int64 h junk b (ptr pth) (len pth).
Definition path_push_back_element (h : store) (junk : bytes) (b : dynamic_column_batch B) (pth : span)
    (element : bytes) :=
  push_back_helper_val sizeof_int64 h junk b (ptr pth) (len pth) element.
End Operations.
End Columns.

(** ** cb::table *)
Module Table.

(** A column of the tuple: a fixed batch with its two sizes, or a dynamic one. *)
Inductive column (B : Type) : Type :=
  | FixedColumn (sizeT off_data : Z) (b : Fixed.fixed_column_batch B)
  | DynamicColumn (sizeD : Z) (b : Dynamic.dynamic_column_batch B).
Arguments FixedColumn {B} _ _ _.
Arguments DynamicColumn {B} _ _.

Section Operations.
Context {B : Type} {TB : TmpBuf B} {Q : Type} {BQ : BufferQueue Q}.

Definition column_dump (h : store) (c : column B) (qu : Q) : res (store * column B * Q) :=
  match c with
  | FixedColumn s off b => '(h, b, qu) ← Fixed.dump_to_queue s off h b qu; Ok (h, FixedColumn s off b, qu)
  | DynamicColumn s b => '(h, b, qu) ← Dynamic.dump_to_queue s h b qu; Ok (h, DynamicColumn s b, qu)
  end.

(** [foreach_dump_to<I>], the index being the head of the list of columns left. *)
Fixpoint foreach_dump_to (h : store) (cols : list (column B)) (qu : Q)
    : res (store * list (column B) * Q) :=
  match cols with
  | [] => Ok (h, [], qu)
  | c :: cols =>
      '(h, c, qu) ← column_dump h c qu;
      '(h, cols, qu) ← foreach_dump_to h cols qu;
      Ok (h, c :: cols, qu)
  end.

Definition dump_to (h : store) (cols : list (column B)) (qu : Q) : res (store * list (column B) * Q) :=
  foreach_dump_to h cols qu.
End Operations.
End Table.

(** ** The fixed batch holds the rows that were pushed *)
Module FixedSpec.
Import Fixed.

Section Spec.
Context {B : Type} {TB : TmpBuf B} {TBL : TmpBufLaws B}.
Variables (sizeT off_data : Z).
Hypothesis sizeT_pos : 0 < sizeT.
Hypothesis off_data_ge : 4 <= off_data.

Definition row (r : bytes) : Prop := Z.of_nat (length r) = sizeT.

(** What a batch with room for [cap] rows that holds [rows] looks like. *)
Record holds (h : store) (b : fixed_column_batch B) (cap : Z) (rows : list bytes) : Prop := {
  h_capacity : _capacity b = cap;
  h_size : _size b = Z.of_nat (length rows);
  h_le : Z.of_nat (length rows) <= cap;
  h_bound : cap < 4294967296 /\ off_data + sizeT * cap < 18446744073709551616;
  h_data : data (_bw b) = shift (tb_get (buf (_bw b))) off_data;
  h_room : room h (tb_get (buf (_bw b))) (off_data + sizeT * cap);
  h_bytes : tb_size (buf (_bw b)) = off_data + sizeT * cap;
  h_load : load h (tb_get (buf (_bw b))) off_data (sizeT * Z.of_nat (length rows)) = Ok (mjoin rows);
  h_rows : Forall row rows
}.

(** The bytes a batch is sent as. *)
Definition image (rows : list bytes) (bs : bytes) : Prop :=
  exists pad, bs = enc_uint 4 (Z.of_nat (length rows)) ++ pad ++ mjoin rows /\
    Z.of_nat (length pad) = off_data - 4.

Lemma new_holds h junk cap :
  0 <= cap < 4294967296 -> off_data + sizeT * cap < 18446744073709551616 ->
  holds (new sizeT off_data h junk cap).1 (new sizeT off_data h junk cap).2 cap [].
Proof.
  intros Hc Hb. unfold new, bw_new.
  destruct (tb_alloc (B:=B) h (buf_size sizeT off_data cap) junk) as [h1 b] eqn:E. cbn.
  assert (Hbs : buf_size sizeT off_data cap = off_data + sizeT * cap) by (apply wrap_small; unfold in_u; nia).
  rewrite Hbs in E. apply alloc_room in E as [Hr Hz]; [|nia].
  constructor; cbn; try (done || nia || constructor).
  rewrite Z.mul_0_r. apply load_nil; [|lia]. eapply room_le; [exact Hr|nia].
Qed.

Lemma push_holds h b cap rows v :
  holds h b cap rows -> row v -> Z.of_nat (length rows) < cap ->
  exists h' b', push_back sizeT h b v = Ok (h', b') /\ holds h' b' cap (rows ++ [v]).
Proof.
  intros H Hv Hn. destruct H. pose proof (rows_length sizeT rows ltac:(lia) h_rows0) as Hl. unfold row in Hv.
  unfold push_back. rewrite h_data0, h_size0, write_shift by nia.
  destruct (write_room h (tb_get (buf (_bw b))) (off_data + Z.of_nat (length rows) * sizeT) v _ h_room0)
    as (h' & E & Hr); [nia..|]. rewrite E. cbn [mbind res_bind]. rewrite u32_small by nia.
  eexists _, _. split; [reflexivity|].
  constructor; cbn; rewrite ?length_app; cbn [length]; try (done || lia); try (now apply Hr).
  - rewrite join_app. cbn [mjoin list_join]. rewrite app_nil_r.
    replace (sizeT * Z.of_nat (length rows + 1)) with (sizeT * Z.of_nat (length rows) + sizeT) by lia.
    apply load_app; [lia|nia|lia| |].
    + rewrite <-h_load0. eapply load_write_ne; [exact E|nia..].
    + apply load_write in E. rewrite Hv, (Z.mul_comm _ sizeT) in E. exact E.
  - now apply Forall_app_2, Forall_singleton.
Qed.

Lemma push_rows_holds rows : forall h b cap rows0,
  holds h b cap rows0 -> Forall row rows -> Z.of_nat (length rows0 + length rows) <= cap ->
  exists h' b', push_rows sizeT h b rows = Ok (h', b') /\ holds h' b' cap (rows0 ++ rows).
Proof.
  induction rows as [|v rows IH]; intros h b cap rows0 H Hr Hn; cbn [push_rows].
  - eexists _, _. split; [reflexivity|]. now rewrite app_nil_r.
  - apply Forall_cons_1 in Hr as [Hv Hr]. cbn [length] in Hn.
    destruct (push_holds h b cap rows0 v H Hv) as (h1 & b1 & E & H1); [lia|]. rewrite E. cbn [mbind res_bind].
    replace (rows0 ++ v :: rows) with ((rows0 ++ [v]) ++ rows) by now rewrite <-app_assoc.
    apply IH; [done..|]. rewrite length_app. cbn [length]. lia.
Qed.

Lemma get_holds h b cap rows i r :
  holds h b cap rows -> rows !! i = Some r -> get sizeT h b (Z.of_nat i) = Ok r.
Proof.
  intros H Hi. destruct H. unfold get. rewrite h_data0, load_shift by nia.
  apply take_drop_middle in Hi as E.
  assert (Hr : Forall row (take i rows) /\ row r).
  { split; [now apply Forall_take|]. eapply Forall_lookup_1; eassumption. }
  destruct Hr as [Ht Hr]. pose proof (rows_length sizeT _ ltac:(lia) Ht) as Hl. unfold row in Hr.
  pose proof (lookup_lt_Some _ _ _ Hi). rewrite length_take, Nat.min_l in Hl by lia.
  rewrite <-E, join_app in h_load0.
  change (mjoin (r :: drop (S i) rows)) with (r ++ mjoin (drop (S i) rows)) in h_load0.
  rewrite E in h_load0. rewrite (Z.mul_comm _ sizeT), <-Hl, <-Hr at 1. eapply load_part; [lia|exact h_load0].
Qed.

Lemma dump_holds h b cap rows tmp :
  holds h b cap rows -> off_data + sizeT * Z.of_nat (length rows) < 4294967296 ->
  exists h' tb bs, dump_to sizeT off_data h b tmp = Ok (h', mk (mk_bw tb_null None) 0 0, tb) /\
    contents h' tb = Ok bs /\ image rows bs /\
    exists hdr, write h (tb_get (buf (_bw b))) 0 hdr = Ok h'.
Proof.
  intros H Hd. destruct H. unfold dump_to, set_used.
  destruct (tb_get (buf (_bw b))) as [l|] eqn:El; [|destruct h_room0 as (k & i & m & ? & _); done].
  destruct (write_room h (Some l) 0 (enc_uint 4 (_size b)) _ h_room0)
    as (h' & E & Hr); [lia|rewrite enc_uint_length; nia|]. rewrite E. cbn [mbind res_bind bw_move].
  pose proof (load_write _ _ _ _ _ E) as L1. rewrite enc_uint_length in L1. change (Z.of_nat 4) with 4 in L1.
  unfold get_length, used. cbn [mbind res_bind buf]. rewrite El, L1. cbn [mbind res_bind].
  rewrite dec_enc_uint_small, h_size0 by (unfold in_u; change (2 ^ (8 * Z.of_nat 4)) with 4294967296; nia).
  assert (R4 : room h' (Some l) (4 + (off_data - 4))).
  { apply Hr. eapply room_le; [exact h_room0|nia]. }
  destruct (load_room _ _ _ _ R4) as [pad L2]; [lia..|].
  assert (Hp : Z.of_nat (length pad) = off_data - 4) by (eapply load_length; [|exact L2]; lia).
  rewrite u32_small by nia. eexists _, _, _. split; [reflexivity|]. unfold contents.
  rewrite tb_share_n_get, tb_share_n_size, El by nia.
  split; [|split; [exists pad; split; [reflexivity|exact Hp]|eauto]].
  replace (Z.of_nat (length rows) * sizeT + off_data)
    with (4 + (off_data - 4) + sizeT * Z.of_nat (length rows)) by lia.
  rewrite h_size0 in L1. apply load_app3; [lia|lia|nia|exact L1|exact L2|].
  replace (4 + (off_data - 4)) with off_data by lia. rewrite <-h_load0.
  rewrite h_size0 in E. eapply load_write_ne; [exact E|lia..|nia|rewrite enc_uint_length; lia].
Qed.

Lemma load_image h tb rows bs :
  contents h tb = Ok bs -> image rows bs -> Forall row rows ->
  off_data + sizeT * Z.of_nat (length rows) < 4294967296 ->
  exists b, from_buf off_data h tb = Ok b /\ holds h b (Z.of_nat (length rows)) rows.
Proof.
  intros Hc (pad & -> & Hp) Hr Hb. set (n := Z.of_nat (length rows)) in *.
  assert (Hne : enc_uint 4 n ++ pad ++ mjoin rows <> []) by done.
  apply contents_load in Hc; [|exact Hne].
  pose proof (load_size _ _ _ _ _ Hc Hne) as Hz.
  pose proof (rows_length sizeT rows ltac:(lia) Hr) as Hl.
  rewrite !length_app, enc_uint_length in Hz.
  pose proof (load_part _ _ 0 _ [] (enc_uint 4 n) (pad ++ mjoin rows) ltac:(lia) Hc) as L1.
  rewrite enc_uint_length in L1.
  pose proof (load_part h (tb_get tb) 0 (tb_size tb) (enc_uint 4 n ++ pad) (mjoin rows) [] ltac:(lia)) as L2.
  rewrite app_nil_r, <-app_assoc in L2. specialize (L2 Hc).
  rewrite length_app, enc_uint_length in L2.
  unfold from_buf, used, bw_from_buf. cbn [buf]. change (load h (tb_get tb) 0 4 = Ok (enc_uint 4 n)) in L1. rewrite L1. cbn [mbind res_bind].
  rewrite dec_enc_uint_small by (unfold in_u; change (2 ^ (8 * Z.of_nat 4)) with 4294967296; nia).
  eexists. split; [reflexivity|]. constructor; cbn; try (done || lia).
  - replace (off_data + sizeT * n) with (0 + tb_size tb) by lia. eapply load_gives_room; [lia|exact Hc].
  - replace off_data with (0 + Z.of_nat (4 + length pad)) by lia. rewrite <-Hl. exact L2.
Qed.

(** [get_length] has 32 bits: of more bytes only the rest modulo 2^32 is handed over. *)
Theorem fixed_dump_cut h b cap rows tmp :
  holds h b cap rows ->
  exists h' b' tb, dump_to sizeT off_data h b tmp = Ok (h', b', tb) /\ tb_size tb = u32 (Z.of_nat (length rows) * sizeT + off_data).
Proof.
  intros H. destruct H. unfold dump_to, set_used.
  destruct (tb_get (buf (_bw b))) as [l|] eqn:El; [|destruct h_room0 as (k & i & m & ? & _); done].
  destruct (write_room h (Some l) 0 (enc_uint 4 (_size b)) _ h_room0) as (h' & E & Hr); [lia|rewrite enc_uint_length; nia|]. rewrite E. cbn [mbind res_bind bw_move].
  pose proof (load_write _ _ _ _ _ E) as L1. rewrite enc_uint_length in L1. change (Z.of_nat 4) with 4 in L1.
  unfold get_length, used. cbn [mbind res_bind buf]. rewrite El, L1. cbn [mbind res_bind].
  rewrite dec_enc_uint_small, h_size0 by (unfold in_u; change (2 ^ (8 * Z.of_nat 4)) with 4294967296; nia).
  eexists _, _, _. split; [reflexivity|]. pose proof (u32_range (Z.of_nat (length rows) * sizeT + off_data)).
  assert (u32 (Z.of_nat (length rows) * sizeT + off_data) <= Z.of_nat (length rows) * sizeT + off_data) by (apply Z.mod_le; nia).
  apply tb_share_n_size. nia.
Qed.


(** A shared batch and the original write the same storage: rows pushed through both
    after [share] overwrite each other. *)
Theorem shared_batches_overwrite h b cap rows v1 v2 :
  holds h b cap rows -> row v1 -> row v2 -> Z.of_nat (length rows) < cap ->
  exists h1 b1 h2 b2,
    push_back sizeT h b v1 = Ok (h1, b1) /\ push_back sizeT h1 (share b) v2 = Ok (h2, b2) /\
    get sizeT h1 b1 (Z.of_nat (length rows)) = Ok v1 /\
    get sizeT h2 b1 (Z.of_nat (length rows)) = Ok v2.
Proof.
  intros H Hv1 Hv2 Hn. destruct (push_holds h b cap rows v1 H Hv1 Hn) as (h1 & b1 & E1 & H1).
  assert (Hs : holds h1 (share b) cap rows).
  { destruct H, H1. unfold push_back in E1. res_inv. injection E1 as <- <-. cbn in *.
    constructor; cbn; rewrite ?tb_share_get, ?tb_share_size; try done.
    rewrite h_data0, h_size0, write_shift in H by nia. rewrite <-h_load0.
    pose proof (rows_length sizeT rows ltac:(lia) h_rows0).
    eapply load_write_ne; [exact H|nia..]. }
  destruct (push_holds h1 (share b) cap rows v2 Hs Hv2 Hn) as (h2 & b2 & E2 & H2).
  exists h1, b1, h2, b2. split; [exact E1|]. split; [exact E2|].
  assert (Hrow : forall v, (rows ++ [v]) !! length rows = Some v) by (intros; now rewrite list_lookup_middle).
  split; [eapply get_holds; [exact H1|apply Hrow]|].
  pose proof (get_holds h2 b2 cap _ _ _ H2 (Hrow v2)) as G. unfold get in *.
  unfold push_back in E1, E2. res_inv. injection E1 as <- <-. injection E2 as <- <-. cbn in *. exact G.
Qed.

(** [push_back] does not look at the capacity: in a full batch the row is written past
    the end of the buffer's storage. *)
Theorem push_beyond_capacity k m b rows v :
  let h := {[ k := m ]} in
  tb_get (buf (_bw b)) = Some (k, 0%nat) -> Z.of_nat (length m) = off_data + sizeT * _capacity b ->
  holds h b (_capacity b) rows -> Z.of_nat (length rows) = _capacity b -> row v ->
  push_back sizeT h b v = Fault OutOfBounds.
Proof.
  intros h Hg Hm H Hn Hv. destruct H. unfold row in Hv. unfold push_back. rewrite h_data0, Hg.
  rewrite write_shift by nia. unfold write. cbn. subst h. rewrite lookup_singleton_eq. cbn. unfold memcpy.
  rewrite decide_False; [done|]. rewrite h_size0. nia.
Qed.

End Spec.
End FixedSpec.

(** ** The dynamic batch *)
Module DynamicSpec.
Import Dynamic.

(** *** The growth of the reservation *)
Lemma reserve_loop_nofuel fuel : forall r q,
  reserve_loop fuel r q = Fault NoFuel <->
  forall k, (1 <= k <= fuel)%nat -> u32 (r * 2 ^ Z.of_nat k) < q.
Proof.
  induction fuel as [|fuel IH]; intros r q; cbn [reserve_loop]; [split; [lia|done]|].
  assert (Hs : forall k, u32 (u32 (r * 2) * 2 ^ Z.of_nat k) = u32 (r * 2 ^ Z.of_nat (S k))).
  { intros k. unfold wrap. rewrite Zmult_mod_idemp_l, Nat2Z.inj_succ, Z.pow_succ_r by lia. f_equal. lia. }
  case_match eqn:E.
  - rewrite IH. apply Z.ltb_lt in E. split; intros H k Hk.
    + destruct k as [|[|k]]; [lia|exact E|]. rewrite <-Hs. apply H. lia.
    + rewrite Hs. apply H. lia.
  - apply Z.ltb_ge in E. split; [done|]. intros H. specialize (H 1%nat ltac:(lia)).
    change (2 ^ Z.of_nat 1) with 2 in H. lia.
Qed.

(** The bound is exact: a loop that does not end within [RESERVE_FUEL] rounds never does. *)
Lemma reserve_loop_fuel r q fuel :
  reserve_loop RESERVE_FUEL r q = Fault NoFuel -> reserve_loop fuel r q = Fault NoFuel.
Proof.
  rewrite !reserve_loop_nofuel. intros H k Hk. destruct (decide (k <= 32)%nat) as [Hs|Hb].
  - apply H. unfold RESERVE_FUEL. lia.
  - assert (E : forall j, (32 <= j)%nat -> u32 (r * 2 ^ Z.of_nat j) = 0).
    { intros j Hj. unfold wrap. replace (Z.of_nat j) with (Z.of_nat (j - 32) + 32) by lia.
      rewrite Z.pow_add_r, Z.mul_assoc by lia. apply Z.mod_mul. lia. }
    rewrite E by lia. rewrite <-(E 32%nat) by lia. apply H. unfold RESERVE_FUEL. lia.
Qed.

Lemma reserve_loop_ok fuel : forall r q,
  0 < r -> r < q -> q <= 2147483648 -> q <= r * 2 ^ Z.of_nat fuel ->
  exists r', reserve_loop fuel r q = Ok r' /\ q <= r' < 2 * q.
Proof.
  induction fuel as [|fuel IH]; intros r q Hr Hq Hb Hf; [cbn in Hf; lia|]. cbn [reserve_loop].
  rewrite u32_small by lia. case_match eqn:E.
  - apply Z.ltb_lt in E. apply IH; [lia..|].
    rewrite Nat2Z.inj_succ, Z.pow_succ_r in Hf by lia. lia.
  - apply Z.ltb_ge in E. eexists. split; [reflexivity|]. lia.
Qed.

(** The loop of [ensure_space] ends with room for the request, less than twice of it,
    whenever something was reserved and the request is at most 2^31 elements.  With
    nothing reserved, or with a power of two and a larger request, it never ends. *)
Theorem reserve_loop_terminates r q :
  0 <= r < q -> q < 4294967296 ->
  (0 < r -> q <= 2147483648 -> exists r', reserve_loop RESERVE_FUEL r q = Ok r' /\ q <= r' < 2 * q) /\
  (r = 0 \/ (2147483648 < q /\ exists j, r = 2 ^ Z.of_nat j) ->
    forall fuel, reserve_loop fuel r q = Fault NoFuel).
Proof.
  intros Hr Hq. split.
  - intros H0 Hb. apply reserve_loop_ok; [lia|lia|lia|]. change (2 ^ Z.of_nat RESERVE_FUEL) with 8589934592. lia.
  - intros Hd fuel. apply reserve_loop_nofuel. intros k Hk. destruct Hd as [->|[Hb [j ->]]]; [rewrite Z.mul_0_l; change (u32 0) with 0; lia|].
    unfold wrap. rewrite <-Z.pow_add_r by lia. set (e := Z.of_nat j + Z.of_nat k).
    destruct (decide (e < 32)) as [Hs|Hl].
    + assert (2 ^ e <= 2 ^ 31) by (apply Z.pow_le_mono_r; lia). change (2 ^ 31) with 2147483648 in *.
      assert (0 < 2 ^ e) by (apply Z.pow_pos_nonneg; lia).
      rewrite Z.mod_small; [lia|]. change (2 ^ 32) with 4294967296. lia.
    + replace e with ((e - 32) + 32) by lia. rewrite Z.pow_add_r, Z.mod_mul by lia. lia.
Qed.
(** *** The rows of a batch *)
Section Spec.
Context {B : Type} {TB : TmpBuf B} {TBL : TmpBufLaws B}.
Variable sizeD : Z.
Hypothesis sizeD_range : 0 < sizeD < 4294967296.

(** A row is a whole number of elements. *)
Definition lenD (r : bytes) : Z := Z.of_nat (length r) / sizeD.
Definition row (r : bytes) : Prop := Z.of_nat (length r) = lenD r * sizeD.
Definition elems (rows : list bytes) : Z := foldr (fun r n => lenD r + n) 0 rows.

(** The descriptors of rows that start at element [o]. *)
Fixpoint metas (o : Z) (rows : list bytes) : list metadata :=
  match rows with
  | [] => []
  | r :: rows => mk_meta o (lenD r) :: metas (o + lenD r) rows
  end.
Definition metas_bytes (rows : list bytes) : bytes := mjoin (enc_meta <$> metas 0 rows).

Lemma lenD_nonneg r : 0 <= lenD r.
Proof. unfold lenD. apply Z.div_pos; lia. Qed.

Lemma elems_nonneg rows : 0 <= elems rows.
Proof. induction rows as [|r rows IH]; cbn; [lia|]. pose proof (lenD_nonneg r). fold (elems rows). lia. Qed.

Lemma elems_app r1 r2 : elems (r1 ++ r2) = elems r1 + elems r2.
Proof. induction r1 as [|r r1 IH]; cbn; [done|]. fold (elems (r1 ++ r2)) (elems r1). lia. Qed.

Lemma elems_length rows : Forall row rows -> Z.of_nat (length (mjoin rows)) = elems rows * sizeD.
Proof.
  induction 1 as [|r rows Hr H IH]; [done|]. change (mjoin (r :: rows)) with (r ++ mjoin rows).
  rewrite length_app, Nat2Z.inj_add, IH. unfold row in Hr. cbn. fold (elems rows). lia.
Qed.

Lemma metas_app o r1 r2 : metas o (r1 ++ r2) = metas o r1 ++ metas (o + elems r1) r2.
Proof.
  revert o. induction r1 as [|r r1 IH]; intros o; cbn; [now rewrite Z.add_0_r|].
  rewrite IH. fold (elems r1). now rewrite Z.add_assoc.
Qed.

Lemma enc_meta_length m : length (enc_meta m) = 8%nat.
Proof. unfold enc_meta. now rewrite length_app, !enc_uint_length. Qed.

Lemma dec_enc_meta m :
  in_u 32 (m_offset m) -> in_u 32 (m_len m) -> dec_meta (enc_meta m) = m.
Proof.
  intros H1 H2. unfold dec_meta, enc_meta. destruct m as [o l]. cbn [m_offset m_len] in *.
  rewrite take_app_length', drop_app_length' by now rewrite enc_uint_length.
  now rewrite !dec_enc_uint_small.
Qed.

Lemma metas_rows o rows : Forall (fun r => Z.of_nat (length r) = 8) (enc_meta <$> metas o rows).
Proof.
  revert o. induction rows as [|r rows IH]; intros o; cbn [metas fmap list_fmap]; constructor; [|apply IH].
  now rewrite enc_meta_length.
Qed.

Lemma metas_length o rows : length (metas o rows) = length rows.
Proof. revert o. induction rows as [|r rows IH]; intros o; cbn; [done|]. now rewrite IH. Qed.

Lemma metas_bytes_length rows : Z.of_nat (length (metas_bytes rows)) = 8 * Z.of_nat (length rows).
Proof.
  unfold metas_bytes. rewrite (rows_length 8) by (lia || apply metas_rows).
  now rewrite length_fmap, metas_length.
Qed.

Lemma metas_bytes_snoc rows r :
  metas_bytes (rows ++ [r]) = metas_bytes rows ++ enc_meta (mk_meta (elems rows) (lenD r)).
Proof.
  unfold metas_bytes. rewrite metas_app, fmap_app, join_app, Z.add_0_l.
  cbn [metas fmap list_fmap mjoin list_join]. now rewrite app_nil_r.
Qed.

(** What a batch with room for [cap] rows that holds [rows] looks like. *)
Record holds (h : store) (b : dynamic_column_batch B) (cap : Z) (rows : list bytes) : Prop := {
  d_capacity : _capacity b = cap;
  d_size : _size b = Z.of_nat (length rows);
  d_le : Z.of_nat (length rows) <= cap;
  d_bound : 4 + 8 * cap < 4294967296;
  d_meta : meta (_bw b) = shift (tb_get (meta_buf (_bw b))) 4;
  d_data : data (_bw b) = tb_get (data_buf (_bw b));
  d_mroom : room h (tb_get (meta_buf (_bw b))) (4 + 8 * cap);
  d_droom : room h (tb_get (data_buf (_bw b))) (sizeD * _reserved (_bw b));
  d_msize : tb_size (meta_buf (_bw b)) = 4 + 8 * cap;
  d_dsize : tb_size (data_buf (_bw b)) = sizeD * _reserved (_bw b);
  d_far : far (tb_get (meta_buf (_bw b))) (tb_get (data_buf (_bw b)));
  d_occ : occupied (_bw b) = elems rows;
  d_res : elems rows <= _reserved (_bw b) < 4294967296;
  d_pos : 0 < _reserved (_bw b);
  d_mload : load h (tb_get (meta_buf (_bw b))) 4 (8 * Z.of_nat (length rows)) = Ok (metas_bytes rows);
  d_dload : load h (tb_get (data_buf (_bw b))) 0 (elems rows * sizeD) = Ok (mjoin rows);
  d_rows : Forall row rows
}.

Lemma new_dholds h junk1 junk2 cap reserved :
  0 <= cap -> 4 + 8 * cap < 4294967296 -> 0 < reserved < 4294967296 ->
  holds (new sizeD h junk1 junk2 cap reserved).1 (new sizeD h junk1 junk2 cap reserved).2 cap [].
Proof.
  intros Hc Hb Hr. unfold new, bw_new.
  assert (E1 : metabuf_size cap = 4 + 8 * cap) by (apply wrap_small; unfold in_u, offset_of_meta, sizeof_metadata; lia).
  assert (E2 : databuf_size sizeD reserved = sizeD * reserved).
  { apply wrap_small. unfold in_u. change (2 ^ 64) with (4294967296 * 4294967296). nia. }
  rewrite E1, E2. destruct (tb_alloc (B:=B) h _ junk1) as [h1 mb] eqn:A1.
  destruct (tb_alloc (B:=B) h1 _ junk2) as [h2 db] eqn:A2. cbn.
  edestruct alloc_room as [R1 S1]; [|exact A1|]; [lia|].
  edestruct alloc_room as [R2 S2]; [|exact A2|]; [nia|].
  edestruct (alloc_keeps_room h1) as (k1 & i1 & m1 & Ek1 & Em1 & Hm1); [|exact A2|exact R1|]; [nia|].
  assert (R1' : room h2 (tb_get mb) (4 + 8 * cap)) by (exists k1, i1, m1; done). clear Ek1 Em1 Hm1.
  constructor; cbn; try (done || lia || constructor).
  - destruct R1 as (k & i & m & Ek & Em & _). destruct R2 as (k' & i' & m' & Ek' & _ & _).
    rewrite Ek, Ek'. cbn. intros <-. eapply (alloc_new_block h1); [|exact A2|exact Em|exact Ek']. nia.
  - apply load_nil; [|lia]. eapply room_le; [exact R1'|lia].
  - apply load_nil; [|lia]. eapply room_le; [exact R2|nia].
Qed.

(** [ensure_space] makes room and keeps the rows. *)
Lemma ensure_space_dholds h junk b cap rows len :
  holds h b cap rows -> 0 <= len -> elems rows + len <= 2147483648 ->
  exists h' bw, ensure_space sizeD h junk (_bw b) len = Ok (h', bw) /\
    holds h' (mk bw (_size b) (_capacity b)) cap rows /\ elems rows + len <= _reserved bw.
Proof.
  intros H Hl Hb. pose proof (elems_nonneg rows) as He. unfold ensure_space. destruct H.
  rewrite d_occ0, u32_small by lia. case_match eqn:Hlt.
  2: { apply Z.ltb_ge in Hlt. eexists _, _. split; [reflexivity|]. split; [|done]. constructor; done. }
  apply Z.ltb_lt in Hlt.
  destruct (reserve_loop_terminates (_reserved (_bw b)) (elems rows + len)) as [T _]; [lia..|].
  destruct T as (r' & -> & Hr'); [lia..|]. cbn [mbind res_bind].
  assert (E2 : forall n, 0 <= n < 4294967296 -> databuf_size sizeD n = sizeD * n).
  { intros n Hn. apply wrap_small. unfold in_u. change (2 ^ 64) with (4294967296 * 4294967296). nia. }
  rewrite !E2 by lia. destruct (tb_alloc (B:=B) h _ junk) as [h1 nb] eqn:A.
  edestruct alloc_room as [R1 S1]; [|exact A|]; [nia|].
  assert (Ld : forall p o n bs, load h p o n = Ok bs -> load h1 p o n = Ok bs).
  { intros. eapply alloc_load; [|exact A|done]. nia. }
  rewrite (Z.mul_comm sizeD (elems rows)), (Ld _ _ _ _ d_dload0). cbn [mbind res_bind].
  pose proof (elems_length rows d_rows0) as Hel.
  destruct (write_room h1 (tb_get nb) 0 (mjoin rows) _ R1) as (h2 & W & Kr); [lia|nia|].
  rewrite W. cbn [mbind res_bind]. eexists _, _. split; [reflexivity|]. cbn. split; [|lia].
  assert (Hfar : far (tb_get nb) (tb_get (meta_buf (_bw b)))).
  { apply far_sym. destruct d_mroom0 as (k & i & m & Ek & Em & _). destruct R1 as (k' & i' & m' & Ek' & _ & _).
    rewrite Ek, Ek'. cbn. intros <-. eapply (alloc_new_block h); [|exact A|exact Em|exact Ek']. nia. }
  constructor; cbn; try (done || lia).
  - apply Kr. eapply alloc_keeps_room; [|exact A|done]. nia.
  - now apply Kr.
  - now apply far_sym.
  - rewrite (load_write_far _ _ _ _ _ _ _ _ W Hfar). now apply Ld.
  - rewrite <-Hel. eapply load_write. exact W.
Qed.

Lemma push_dholds h junk b cap rows v :
  holds h b cap rows -> row v -> Z.of_nat (length rows) < cap -> elems rows + lenD v <= 2147483648 ->
  exists h' b', push_back_helper sizeD h junk b v (lenD v) = Ok (h', b') /\ holds h' b' cap (rows ++ [v]).
Proof.
  intros H Hv Hn Hb. pose proof (lenD_nonneg v) as Hl0. pose proof (elems_nonneg rows) as He0.
  destruct (ensure_space_dholds h junk b cap rows (lenD v) H Hl0 Hb) as (h1 & bw & E & H1 & Hr).
  unfold push_back_helper. rewrite E. cbn [mbind res_bind]. clear E H. destruct H1. cbn in *.
  unfold set_meta, sizeof_metadata. rewrite d_meta0, write_shift, d_size0 by lia.
  pose proof (enc_meta_length (mk_meta (occupied bw) (lenD v))) as Hme.
  destruct (write_room h1 _ (4 + Z.of_nat (length rows) * 8) (enc_meta (mk_meta (occupied bw) (lenD v))) _ d_mroom0)
    as (h2 & W1 & K1); [lia|rewrite Hme; lia|]. rewrite W1. cbn [mbind res_bind].
  unfold row in Hv. unfold mem_read. rewrite decide_True by lia. cbn [mbind res_bind].
  rewrite drop_0, <-Hv, Nat2Z.id, firstn_all, d_data0, d_occ0.
  pose proof (elems_length rows d_rows0) as Hel.
  destruct (write_room h2 (tb_get (data_buf bw)) (elems rows * sizeD) v _ (K1 _ _ d_droom0))
    as (h3 & W2 & K2); [nia|nia|]. rewrite W2. cbn [mbind res_bind].
  eexists _, _. split; [reflexivity|]. rewrite !u32_small by lia.
  constructor; cbn; rewrite ?length_app, ?elems_app; cbn [length elems foldr]; try (done || lia).
  - auto.
  - auto.
  - rewrite (load_write_far _ _ _ _ _ _ _ _ W2) by now apply far_sym. rewrite metas_bytes_snoc, <-d_occ0.
    replace (8 * Z.of_nat (length rows + 1)) with (8 * Z.of_nat (length rows) + 8) by lia.
    apply load_app; [lia..| |].
    + rewrite <-d_mload0. eapply load_write_ne; [exact W1|rewrite ?Hme; lia..].
    + apply load_write in W1. rewrite Hme in W1. rewrite (Z.mul_comm 8). exact W1.
  - rewrite Z.add_0_r, Z.mul_add_distr_r, join_app. cbn [mjoin list_join]. rewrite app_nil_r.
    apply load_app; [lia|nia|nia| |].
    + rewrite <-d_dload0, <-(load_write_far _ _ _ _ _ _ _ _ W1 d_far0).
      eapply load_write_ne; [exact W2|nia..].
    + apply load_write in W2. now rewrite Hv in W2.
  - now apply Forall_app_2, Forall_singleton.
Qed.
(** The overload with one more element stores the row that ends in it. *)
Lemma push_val_dholds h junk b cap rows src val :
  holds h b cap rows -> row src -> Z.of_nat (length val) = sizeD ->
  Z.of_nat (length rows) < cap -> elems rows + lenD src + 1 <= 2147483648 ->
  exists h' b', push_back_helper_val sizeD h junk b src (lenD src) val = Ok (h', b') /\
    holds h' b' cap (rows ++ [src ++ val]).
Proof.
  intros H Hv Hval Hn Hb. pose proof (lenD_nonneg src) as Hl0. pose proof (elems_nonneg rows) as He0.
  assert (Hl : lenD (src ++ val) = lenD src + 1).
  { unfold lenD. rewrite length_app, Nat2Z.inj_add, Hval. rewrite <-(Z.mul_1_l sizeD) at 1. now rewrite Z.div_add by lia. }
  assert (Hrow : row (src ++ val)) by (unfold row in *; rewrite length_app, Hl; lia).
  destruct (ensure_space_dholds h junk b cap rows (lenD src + 1) H) as (h1 & bw & E & H1 & Hr); [lia..|].
  unfold push_back_helper_val. rewrite (u32_small (lenD src + 1)), E by lia. cbn [mbind res_bind].
  clear E H. destruct H1. cbn in *. unfold set_meta, sizeof_metadata. rewrite d_meta0, write_shift, d_size0 by lia.
  pose proof (enc_meta_length (mk_meta (occupied bw) (lenD src + 1))) as Hme.
  destruct (write_room h1 _ (4 + Z.of_nat (length rows) * 8) (enc_meta (mk_meta (occupied bw) (lenD src + 1))) _ d_mroom0)
    as (h2 & W1 & K1); [lia|rewrite Hme; lia|]. rewrite W1. cbn [mbind res_bind].
  unfold row in Hv. unfold mem_read. rewrite decide_True by lia. cbn [mbind res_bind].
  rewrite drop_0, <-Hv, Nat2Z.id, firstn_all, d_data0, d_occ0.
  pose proof (elems_length rows d_rows0) as Hel.
  destruct (write_room h2 (tb_get (data_buf bw)) (elems rows * sizeD) src _ (K1 _ _ d_droom0))
    as (h3 & W2 & K2); [nia|nia|]. rewrite W2. cbn [mbind res_bind]. rewrite !u32_small by lia.
  replace ((elems rows + (lenD src + 1) - 1) * sizeD) with (elems rows * sizeD + Z.of_nat (length src)) by lia.
  destruct (write_room h3 (tb_get (data_buf bw)) (elems rows * sizeD + Z.of_nat (length src)) val _ (K2 _ _ (K1 _ _ d_droom0)))
    as (h4 & W3 & K3); [nia|nia|]. rewrite W3. cbn [mbind res_bind].
  pose proof (far_sym _ _ d_far0) as Hf.
  eexists _, _. split; [reflexivity|].
  constructor; cbn; rewrite ?length_app, ?elems_app; cbn [length elems foldr]; rewrite ?Hl; try (done || lia).
  - auto.
  - auto.
  - rewrite (load_write_far _ _ _ _ _ _ _ _ W3 Hf), (load_write_far _ _ _ _ _ _ _ _ W2 Hf), metas_bytes_snoc, Hl, <-d_occ0.
    replace (8 * Z.of_nat (length rows + 1)) with (8 * Z.of_nat (length rows) + 8) by lia.
    apply load_app; [lia..| |].
    + rewrite <-d_mload0. eapply load_write_ne; [exact W1|rewrite ?Hme; lia..].
    + apply load_write in W1. rewrite Hme in W1. rewrite (Z.mul_comm 8). exact W1.
  - rewrite join_app. cbn [mjoin list_join]. rewrite app_nil_r.
    replace ((elems rows + (lenD src + 1 + 0)) * sizeD)
      with (elems rows * sizeD + Z.of_nat (length src) + Z.of_nat (length val)) by lia.
    rewrite app_assoc. apply load_app; [lia|nia|nia| |exact (load_write _ _ _ _ _ W3)].
    apply load_app; [lia|nia|nia| |].
    + rewrite <-d_dload0, <-(load_write_far _ _ _ _ _ _ _ _ W1 d_far0).
      rewrite (load_write_ne _ _ _ _ _ _ _ W3) by nia. eapply load_write_ne; [exact W2|nia..].
    + rewrite (load_write_ne _ _ _ _ _ _ _ W3) by nia. exact (load_write _ _ _ _ _ W2).
  - apply Forall_app_2, Forall_singleton; done.
Qed.

Lemma push_rows_dholds junk rows : forall h b cap rows0,
  holds h b cap rows0 -> Forall row rows -> Z.of_nat (length rows0 + length rows) <= cap ->
  elems (rows0 ++ rows) <= 2147483648 ->
  exists h' b', push_rows sizeD h junk b rows = Ok (h', b') /\ holds h' b' cap (rows0 ++ rows).
Proof.
  induction rows as [|v rows IH]; intros h b cap rows0 H Hr Hn He; cbn [push_rows].
  - eexists _, _. split; [reflexivity|]. now rewrite app_nil_r.
  - apply Forall_cons_1 in Hr as [Hv Hr]. cbn [length] in Hn.
    rewrite elems_app in He. change (elems (v :: rows)) with (lenD v + elems rows) in He.
    pose proof (elems_nonneg rows). fold (lenD v).
    destruct (push_dholds h junk b cap rows0 v H Hv) as (h1 & b1 & E & H1); [lia..|]. rewrite E. cbn [mbind res_bind].
    replace (rows0 ++ v :: rows) with ((rows0 ++ [v]) ++ rows) by now rewrite <-app_assoc.
    apply IH; [done..| |].
    + rewrite length_app. cbn [length]. lia.
    + rewrite <-app_assoc, elems_app. cbn. fold (elems rows). lia.
Qed.

(** The two buffers a batch is sent as. *)
Definition meta_image (rows : list bytes) : bytes := enc_uint 4 (Z.of_nat (length rows)) ++ metas_bytes rows.
Definition data_image (rows : list bytes) : bytes := mjoin rows.

Lemma dump_dholds h b cap rows tb1 tb2 :
  holds h b cap rows -> elems rows * sizeD < 4294967296 ->
  exists h' m d, dump_to sizeD h b tb1 tb2 =
      Ok (h', mk (mk_bw tb_null tb_null None None 0 0) 0 0, m, d) /\
    contents h' m = Ok (meta_image rows) /\ contents h' d = Ok (data_image rows) /\
    (exists hdr, write h (tb_get (meta_buf (_bw b))) 0 hdr = Ok h').
Proof.
  intros H He. pose proof (elems_nonneg rows) as He0. destruct H. unfold dump_to, bw_empty, tb_empty.
  rewrite d_msize0. replace (4 + 8 * cap =? 0) with false by (symmetry; apply Z.eqb_neq; lia). cbn [andb].
  destruct (tb_get (meta_buf (_bw b))) as [lm|] eqn:Em; [|destruct d_mroom0 as (k & i & m & ? & _); done].
  destruct (tb_get (data_buf (_bw b))) as [ld|] eqn:Ed; [|destruct d_droom0 as (k & i & m & ? & _); done].
  unfold set_used. rewrite Em.
  destruct (write_room h (Some lm) 0 (enc_uint 4 (_size b)) _ d_mroom0)
    as (h' & W & Hr); [lia|rewrite enc_uint_length; lia|]. rewrite W. cbn [mbind res_bind bw_move].
  pose proof (load_write _ _ _ _ _ W) as L1. rewrite enc_uint_length in L1. change (Z.of_nat 4) with 4 in L1.
  unfold get_meta_length, used. cbn [meta_buf]. rewrite Em, L1. cbn [mbind res_bind].
  rewrite dec_enc_uint_small, d_size0 by (unfold in_u; change (2 ^ (8 * Z.of_nat 4)) with 4294967296; lia).
  unfold get_data_length, sizeof_metadata, offset_of_meta. rewrite !u32_small, d_occ0 by (rewrite ?d_occ0; lia).
  eexists _, _, _. split; [reflexivity|]. unfold contents.
  rewrite !tb_share_n_get, !tb_share_n_size, Em, Ed by nia. rewrite d_size0 in L1, W. split; [|split; [|eauto]].
  - unfold meta_image. replace (Z.of_nat (length rows) * 8 + 4) with (4 + 8 * Z.of_nat (length rows)) by lia.
    apply load_app; [lia..|exact L1|]. rewrite <-d_mload0.
    eapply load_write_ne; [exact W|rewrite ?enc_uint_length; lia..].
  - unfold data_image. rewrite <-d_dload0. eapply load_write_far; [exact W|exact d_far0].
Qed.

(** What reading a batch needs. *)
Record readable (h : store) (b : dynamic_column_batch B) (rows : list bytes) : Prop := {
  r_size : _size b = Z.of_nat (length rows);
  r_meta : load h (meta (_bw b)) 0 (8 * Z.of_nat (length rows)) = Ok (metas_bytes rows);
  r_data : 0 < elems rows -> load h (data (_bw b)) 0 (elems rows * sizeD) = Ok (mjoin rows);
  r_rows : Forall row rows;
  r_elems : elems rows < 4294967296
}.

Lemma holds_readable h b cap rows : holds h b cap rows -> readable h b rows.
Proof.
  intros []. constructor; try done.
  - rewrite d_meta0, load_shift by lia. exact d_mload0.
  - intros _. now rewrite d_data0.
  - lia.
Qed.

Lemma get_meta_ok h p r1 r r2 :
  load h p 0 (8 * Z.of_nat (length (r1 ++ r :: r2))) = Ok (metas_bytes (r1 ++ r :: r2)) ->
  elems (r1 ++ r :: r2) < 4294967296 ->
  get_meta h p (Z.of_nat (length r1)) = Ok (mk_meta (elems r1) (lenD r)).
Proof.
  intros L He. rewrite elems_app in He. change (elems (r :: r2)) with (lenD r + elems r2) in He.
  pose proof (elems_nonneg r1). pose proof (elems_nonneg r2). pose proof (lenD_nonneg r).
  unfold get_meta, sizeof_metadata. set (mt := mk_meta (elems r1) (lenD r)) in *.
  assert (E : exists post, metas_bytes (r1 ++ r :: r2) = metas_bytes r1 ++ enc_meta mt ++ post).
  { replace (r1 ++ r :: r2) with ((r1 ++ [r]) ++ r2) by now rewrite <-app_assoc.
    unfold metas_bytes at 1. rewrite metas_app, fmap_app, join_app. fold (metas_bytes (r1 ++ [r])).
    rewrite metas_bytes_snoc, <-app_assoc. eauto. }
  destruct E as [post E]. rewrite E in L. apply load_part in L; [|lia].
  rewrite enc_meta_length, metas_bytes_length in L.
  replace (Z.of_nat (length r1) * 8) with (0 + 8 * Z.of_nat (length r1)) by lia.
  change (Z.of_nat 8) with 8 in L. rewrite L. cbn [mbind res_bind].
  rewrite dec_enc_meta; [done|unfold in_u; cbn; lia..].
Qed.

Lemma get_readable h b rows i r :
  readable h b rows -> rows !! i = Some r ->
  exists t, get sizeD h b (Z.of_nat i) = Ok t /\ elements sizeD h t = Ok r.
Proof.
  intros [Hs Hm Hd Hr He] Hi. pose proof (lookup_lt_Some _ _ _ Hi).
  destruct (list_elem_of_split_length _ _ _ Hi) as (r1 & r2 & -> & ->).
  apply Forall_app in Hr as [Hr1 Hr2]. apply Forall_cons_1 in Hr2 as [Hr Hr2].
  unfold get. rewrite (get_meta_ok h _ r1 r r2 Hm He). cbn [mbind res_bind].
  eexists. split; [reflexivity|]. unfold elements. cbn [fst snd].
  pose proof (elems_nonneg r1). pose proof (elems_nonneg r2). pose proof (lenD_nonneg r).
  pose proof (elems_length r1 Hr1) as Hl. unfold row in Hr. case_match eqn:E0.
  - apply Z.eqb_eq in E0. cbn [m_len] in E0. rewrite E0 in Hr. f_equal. destruct r; [done|]. cbn [length] in Hr. lia.
  - apply Z.eqb_neq in E0. cbn [m_len] in E0. rewrite elems_app in Hd. change (elems (r :: r2)) with (lenD r + elems r2) in Hd.
    specialize (Hd ltac:(lia)). rewrite join_app in Hd.
    change (mjoin (r :: r2)) with (r ++ mjoin r2) in Hd. apply load_part in Hd; [|lia].
    cbn [m_offset m_len]. rewrite load_shift by nia. rewrite Hl, Hr, Z.add_0_l in Hd. now rewrite Z.add_0_r.
Qed.
Lemma load_dimage h tb1 tb2 rows :
  contents h tb1 = Ok (meta_image rows) -> contents h tb2 = Ok (data_image rows) ->
  Forall row rows -> rows <> [] -> elems rows < 4294967296 -> Z.of_nat (length rows) < 536870912 ->
  exists b, from_bufs h tb1 tb2 = Ok b /\ readable h b rows /\
    occupied (_bw b) = elems rows /\ _reserved (_bw b) = elems rows /\ _capacity b = Z.of_nat (length rows).
Proof.
  intros C1 C2 Hr Hne He Hn.
  assert (Hm : meta_image rows <> []) by done.
  apply contents_load in C1; [|exact Hm]. unfold meta_image in C1.
  pose proof (load_part h (tb_get tb1) 0 _ [] _ _ ltac:(lia) C1) as L1.
  rewrite enc_uint_length in L1. change (load h (tb_get tb1) 0 4 = Ok (enc_uint 4 (Z.of_nat (length rows)))) in L1.
  pose proof (load_part h (tb_get tb1) 0 (tb_size tb1) (enc_uint 4 (Z.of_nat (length rows))) (metas_bytes rows) []
    ltac:(lia)) as L2.
  rewrite app_nil_r in L2. specialize (L2 C1). rewrite enc_uint_length, metas_bytes_length in L2.
  change (0 + Z.of_nat 4) with 4 in L2.
  assert (Hd : dec_uint (enc_uint 4 (Z.of_nat (length rows))) = Z.of_nat (length rows)).
  { apply dec_enc_uint_small. unfold in_u. change (2 ^ (8 * Z.of_nat 4)) with 4294967296. lia. }
  unfold from_bufs, bw_from_bufs, get_occupied, used. cbn [meta_buf]. rewrite L1. cbn [mbind res_bind].
  rewrite Hd. destruct (exists_last Hne) as (r1 & r & Er). rewrite Er in *. rewrite length_app in *. cbn [length] in *.
  assert (L3 : load h (meta_ptr tb1) 0 (8 * Z.of_nat (length (r1 ++ [r]))) = Ok (metas_bytes (r1 ++ [r]))).
  { unfold meta_ptr. rewrite load_shift, length_app by done. exact L2. }
  rewrite u32_small by lia. replace (Z.of_nat (length r1 + 1) - 1) with (Z.of_nat (length r1)) by lia.
  rewrite (get_meta_ok h _ r1 r [] L3 He). cbn [mbind res_bind meta_buf m_len m_offset].
  rewrite L1. cbn [mbind res_bind]. rewrite Hd.
  assert (Ee : elems (r1 ++ [r]) = lenD r + elems r1) by (rewrite elems_app; cbn; lia).
  pose proof (elems_nonneg r1). pose proof (lenD_nonneg r). rewrite u32_small by lia. rewrite <-Ee.
  eexists. split; [reflexivity|]. cbn. split; [|done]. constructor; cbn; rewrite ?length_app; try done.
  - rewrite length_app in L3. exact L3.
  - intros Hpos. unfold data_ptr. pose proof (elems_length _ Hr) as Hl.
    assert (Hne2 : mjoin (r1 ++ [r]) <> []).
    { intros E0. rewrite E0 in Hl. cbn [length] in Hl. nia. }
    apply contents_load in C2; [|exact Hne2]. pose proof (load_size _ _ _ _ _ C2 Hne2) as Hz.
    unfold data_image in *. now rewrite <-Hl, Hz.
Qed.


(** A dynamic batch without rows can be dumped but not loaded: the number of occupied
    elements is read from [meta[0 - 1]], 32 GiB past the end of the buffer. *)
Theorem empty_dynamic_batch_unloadable k tb1 tb2 :
  tb_get tb1 = Some (k, 0%nat) ->
  from_bufs (B:=B) {[ k := meta_image [] ]} tb1 tb2 = Fault OutOfBounds.
Proof.
  intros E. unfold from_bufs, bw_from_bufs, get_occupied, used. cbn [meta_buf]. rewrite E.
  assert (L : load {[ k := meta_image [] ]} (Some (k, 0%nat)) 0 4 = Ok (enc_uint 4 0)).
  { unfold load. cbn [of_option mbind res_bind fst snd]. now rewrite lookup_singleton_eq. }
  rewrite L. cbn [mbind res_bind]. unfold get_meta, meta_ptr. rewrite E, load_shift by done.
  unfold load. cbn [of_option mbind res_bind fst snd]. rewrite lookup_singleton_eq. cbn [of_option mbind res_bind].
  unfold mem_read. rewrite decide_False; [done|].
  change (dec_uint (enc_uint 4 0)) with 0. change (u32 (0 - 1)) with 4294967295.
  unfold offset_of_meta, sizeof_metadata. change (length (meta_image [])) with 4%nat. lia.
Qed.
End Spec.
End DynamicSpec.

(** Appending one vertex to a path column stores the longer path. *)
Lemma path_push_back_element_holds {B} `{TmpBufLaws B} h junk (b : Dynamic.dynamic_column_batch B) cap rows pth v :
  DynamicSpec.holds 8 h b cap rows -> DynamicSpec.row 8 (Columns.ptr pth) ->
  Columns.len pth = DynamicSpec.lenD 8 (Columns.ptr pth) -> Z.of_nat (length v) = 8 ->
  Z.of_nat (length rows) < cap -> DynamicSpec.elems 8 rows + Columns.len pth + 1 <= 2147483648 ->
  exists h' b', Columns.path_push_back_element h junk b pth v = Ok (h', b') /\
    DynamicSpec.holds 8 h' b' cap (rows ++ [Columns.ptr pth ++ v]).
Proof.
  intros Hh Hr Hl Hv Hn He. unfold Columns.path_push_back_element. rewrite Hl in *.
  apply DynamicSpec.push_val_dholds; try done. 
Qed.

(** ** Tables *)
Module TableSpec.
Import Table.

Section Spec.
Context {B : Type} {TB : TmpBuf B} {TBL : TmpBufLaws B} {Q : Type} {BQ : BufferQueue Q} {BQL : BufferQueueLaws Q}.

(** The buffers a column owns, the one its header is written to first. *)
Definition column_bufs (c : column B) : list (option loc) :=
  match c with
  | FixedColumn _ _ b => [tb_get (Fixed.buf (Fixed._bw b))]
  | DynamicColumn _ b => [tb_get (Dynamic.meta_buf (Dynamic._bw b)); tb_get (Dynamic.data_buf (Dynamic._bw b))]
  end.
Definition column_head (c : column B) : option loc := default None (head (column_bufs c)).
Definition apart (c c' : column B) : Prop := Forall (far (column_head c)) (column_bufs c').

Definition column_holds (h : store) (c : column B) (rows : list bytes) : Prop :=
  match c with
  | FixedColumn s off b => 0 < s /\ 4 <= off /\ off + s * Z.of_nat (length rows) < 4294967296 /\ exists cap, FixedSpec.holds s off h b cap rows
  | DynamicColumn s b =>
      0 < s < 4294967296 /\ DynamicSpec.elems s rows * s < 4294967296 /\ rows <> [] /\
      exists cap, DynamicSpec.holds s h b cap rows
  end.

(** Buffers that hold the bytes [bufs] load into a column of the same rows. *)
Definition column_arrives (c : column B) (rows bufs : list bytes) : Prop :=
  match c with
  | FixedColumn s off _ => exists bs, bufs = [bs] /\
      forall h (tb : B), contents h tb = Ok bs -> exists b,
        Fixed.from_buf off h tb = Ok b /\ Fixed.size b = Z.of_nat (length rows) /\
        forall i r, rows !! i = Some r -> Fixed.get s h b (Z.of_nat i) = Ok r
  | DynamicColumn s _ => exists bs1 bs2, bufs = [bs1; bs2] /\
      forall h (tb1 tb2 : B), contents h tb1 = Ok bs1 -> contents h tb2 = Ok bs2 -> exists b,
        Dynamic.from_bufs h tb1 tb2 = Ok b /\ Dynamic.size b = Z.of_nat (length rows) /\
        forall i r, rows !! i = Some r ->
          exists t, Dynamic.get s h b (Z.of_nat i) = Ok t /\ Dynamic.elements s h t = Ok r
  end.

Lemma column_holds_write h p o src h' c rows :
  column_holds h c rows -> write h p o src = Ok h' -> Forall (far p) (column_bufs c) -> column_holds h' c rows.
Proof.
  intros H W F. pose proof (fun q n => write_keeps_room _ _ _ _ _ q n W) as Kr.
  destruct c as [s off b|s b]; cbn in *.
  - destruct H as (Hs & Ho & Hb & cap & H). split; [done|]. split; [done|]. split; [done|]. exists cap.
    apply Forall_cons_1 in F as [F _]. destruct H. constructor; auto.
    rewrite <-h_load. eapply load_write_far; eassumption.
  - destruct H as (Hs & He & Hne & cap & H). split; [done|]. split; [done|]. split; [done|]. exists cap.
    apply Forall_cons_1 in F as [F1 F]. apply Forall_cons_1 in F as [F2 _]. destruct H. constructor; auto.
    + rewrite <-d_mload. eapply load_write_far; eassumption.
    + rewrite <-d_dload. eapply load_write_far; eassumption.
Qed.

Lemma column_dump_ok h c rows q s n :
  column_holds h c rows -> bq_rel q s n -> n + 2 < 4294967296 ->
  exists h' c' q' bufs, column_dump h c q = Ok (h', c', q') /\
    bq_rel q' (s ++ bufs) (n + Z.of_nat (length bufs)) /\ (length bufs <= 2)%nat /\
    column_arrives c rows bufs /\ exists hdr, write h (column_head c) 0 hdr = Ok h'.
Proof.
  intros H Hq Hn. destruct c as [sz off b|sz b]; cbn in H.
  - destruct H as (Hs & Ho & Hb & cap & H).
    destruct (FixedSpec.dump_holds sz off Hs Ho _ _ _ _ tb_null H Hb) as (h' & tb & bs & E & C & I & W).
    cbn. unfold Fixed.dump_to_queue. rewrite E. cbn [mbind res_bind]. rewrite C. cbn [mbind res_bind].
    destruct (bq_push_rel q s n bs Hq) as (q1 & E1 & H1); [lia|]. rewrite E1. cbn [mbind res_bind].
    eexists _, _, q1, [bs]. split; [reflexivity|]. split; [exact H1|]. split; [cbn; lia|]. split; [|exact W].
    exists bs. split; [done|]. intros h2 tb2 C2.
    destruct (FixedSpec.load_image sz off Hs Ho h2 tb2 rows bs C2 I) as (b2 & E2 & H2); [apply H|exact Hb|].
    exists b2. split; [exact E2|]. split; [apply H2|]. intros i r Hi. eapply FixedSpec.get_holds; eassumption.
  - destruct H as (Hs & He & Hne & cap & H).
    destruct (DynamicSpec.dump_dholds sz Hs _ _ _ _ tb_null tb_null H He) as (h' & m & d & E & C1 & C2 & W).
    cbn. unfold Dynamic.dump_to_queue. rewrite E. cbn [mbind res_bind]. rewrite C1. cbn [mbind res_bind].
    rewrite C2. cbn [mbind res_bind].
    destruct (bq_push_rel q s n (DynamicSpec.meta_image sz rows) Hq) as (q1 & E1 & H1); [lia|].
    rewrite E1. cbn [mbind res_bind].
    destruct (bq_push_rel q1 _ _ (DynamicSpec.data_image rows) H1) as (q2 & E2 & H2); [lia|].
    rewrite E2. cbn [mbind res_bind].
    eexists _, _, q2, [_; _]. split; [reflexivity|]. rewrite <-app_assoc, <-Z.add_assoc in H2.
    split; [exact H2|]. split; [cbn; lia|]. split; [|exact W].
    eexists _, _. split; [done|]. intros h2 tb1 tb2 C1' C2'.
    assert (Hr : Forall (DynamicSpec.row sz) rows) by apply H.
    destruct (DynamicSpec.load_dimage sz Hs h2 tb1 tb2 rows C1' C2' Hr Hne) as (b2 & E3 & H3 & _);
      [destruct H; lia..|].
    exists b2. split; [exact E3|]. split; [apply H3|]. intros i r Hi. eapply DynamicSpec.get_readable; eassumption.
Qed.

End Spec.
End TableSpec.

(** ** Concrete instances *)
Module BatchExamples.

Definition ints : list bytes := [enc_uint 8 7; enc_uint 8 9].
Definition words : list bytes := [enc_uint 3 16; []; enc_uint 5 9].



Lemma reserve_loop_terminates_witness :
  (exists r', Dynamic.reserve_loop Dynamic.RESERVE_FUEL 3 100 = Ok r' /\ 100 <= r' < 200) /\
  (forall fuel, Dynamic.reserve_loop fuel 0 1 = Fault NoFuel).
Proof.
  split.
  - apply (proj1 (DynamicSpec.reserve_loop_terminates 3 100 ltac:(lia) ltac:(lia))); lia.
  - apply (proj2 (DynamicSpec.reserve_loop_terminates 0 1 ltac:(lia) ltac:(lia))). now left.
Defined.

(** A table of a column of two integers and a column of three strings, dumped to the list queue. *)
Definition filled : store * Fixed.fixed_column_batch view * Dynamic.dynamic_column_batch view :=
  let '(h, bf) := Fixed.new 8 8 ∅ [] 2 in
  let '(h, bd) := Dynamic.new 1 h [] [] 3 2 in
  match ('(h, bf) ← Fixed.push_rows 8 h bf ints; '(h, bd) ← Dynamic.push_rows 1 h [] bd words; Ok (h, bf, bd)) with Ok r => r | Fault _ => (h, bf, bd) end.
Definition filled_store : store := filled.1.1.
Definition numbers_column : Table.column view := Table.FixedColumn 8 8 filled.1.2.
Definition words_column : Table.column view := Table.DynamicColumn 1 filled.2.

Lemma room_at h p n k i m : p = Some (k, i) -> h !! k = Some m -> (i + Z.to_nat n <=? length m)%nat = true -> room h p n.
Proof. intros Hp Hm Hn. exists k, i, m. split; [done|]. split; [done|]. now apply Nat.leb_le. Qed.
Ltac see := vm_compute; (reflexivity || (split; (reflexivity || discriminate)) || discriminate).
Lemma numbers_hold : TableSpec.column_holds filled_store numbers_column ints.
Proof.
  split; [lia|]. split; [lia|]. split; [see|]. exists 2. constructor; try see; [|repeat constructor].
  eapply room_at; [vm_compute; reflexivity|vm_compute; reflexivity|vm_compute; reflexivity].
Qed.
Lemma words_hold : TableSpec.column_holds filled_store words_column words.
Proof.
  split; [lia|]. split; [see|]. split; [done|]. exists 3. constructor; try see; [..|repeat constructor].
  - eapply room_at; [vm_compute; reflexivity|vm_compute; reflexivity|vm_compute; reflexivity].
  - eapply room_at; [vm_compute; reflexivity|vm_compute; reflexivity|vm_compute; reflexivity].
Qed.

End BatchExamples.
