(* ===== verification/Coordinator.v ===== *)
(** * The coordinator

    [coordinator] (src/include/hiactor/core/coordinator.hh, src/src/core/coordinator.cc)
    and its worker thread ([coordinator_worker], src/include/hiactor/core/coordinator_worker.hh,
    src/src/core/coordinator_worker.cc): the barriers between shards and machines, and the
    queue through which shard 0 runs blocking functions on a thread of their own.

    Seastar's semaphore and boost's [spsc_queue] are interfaces; [list_lf] and
    [units_sem] implement them.  Main thread and worker thread are interleaved: [step]
    has one event for each access they make to what they share. *)
From stdpp Require Import strings.
From S2P Require Import Prelude.

Definition queue_length : Z := 128.

(** ** boost::lockfree::spsc_queue: [push] fails when full, [consume_all] takes everything *)
Class LfQueue (R W : Type) := {
  lf_new : R;
  lf_items : R -> list W;
  lf_push : R -> W -> bool * R;
  lf_consume_all : R -> list W * R;
  lf_new_items : lf_items lf_new = [];
  lf_push_room r w : Z.of_nat (length (lf_items r)) < queue_length ->
    (lf_push r w).1 = true /\ lf_items (lf_push r w).2 = lf_items r ++ [w];
  lf_push_full r w : queue_length <= Z.of_nat (length (lf_items r)) -> lf_push r w = (false, r);
  lf_consume_spec r : (lf_consume_all r).1 = lf_items r /\ lf_items (lf_consume_all r).2 = []
}.

#[export, refine] Instance list_lf (W : Type) : LfQueue (list W) W := {
  lf_new := [];
  lf_items r := r;
  lf_push r w := if Z.of_nat (length r) <? queue_length then (true, r ++ [w]) else (false, r);
  lf_consume_all r := (r, [])
}.
Proof.
  - done.
  - intros r w H. now rewrite (proj2 (Z.ltb_lt _ _) H).
  - intros r w H. now rewrite (proj2 (Z.ltb_ge _ _) H).
  - done.
Defined.

(** ** seastar::semaphore: units, and those who wait for some, in order *)

(** [signal] serves the waiters in order while the units last. *)
Fixpoint grant {K} (units : Z) (ws : list (Z * K)) : Z * list K * list (Z * K) :=
  match ws with
  | [] => (units, [], [])
  | (n, k) :: ws' =>
      if n <=? units then let '(u, ks, rest) := grant (units - n) ws' in (u, k :: ks, rest)
      else (units, [], ws)
  end.

Lemma grant_units {K} (ws : list (Z * K)) : forall u u' ks ws',
  Forall (fun p => p.1 = 1) ws -> 0 <= u -> grant u ws = (u', ks, ws') ->
  ws.*2 = ks ++ ws'.*2 /\ u = u' + Z.of_nat (length ks) /\ 0 <= u' /\ Forall (fun p => p.1 = 1) ws' /\
  (ws' <> [] -> u' = 0).
Proof.
  induction ws as [|[n k] ws IH]; intros u u' ks ws' Hf Hu H; cbn [grant] in H.
  - injection H as <- <- <-. cbn. repeat (split; [done || lia|]). done.
  - apply Forall_cons in Hf as [Hn Hf]. cbn in Hn. subst n. destruct (Z.leb_spec 1 u) as [Hl|Hl].
    + destruct (grant (u - 1) ws) as [[u2 ks2] ws2] eqn:E. injection H as <- <- <-.
      destruct (IH (u - 1) _ _ _ Hf ltac:(lia) E) as (H1 & H2 & H3 & H4 & H5).
      cbn [fmap list_fmap snd app length]. rewrite H1. split; [done|]. split; [lia|]. done.
    + injection H as <- <- <-. cbn [length]. split; [done|]. split; [lia|]. split; [lia|]. split; [now constructor|]. lia.
Qed.

Class CountSem (S K : Type) := {
  sem_new : Z -> S;
  sem_units : S -> Z;
  sem_waiters : S -> list (Z * K);
  sem_wait : S -> Z -> K -> S * bool;        (* [true]: the future is ready *)
  sem_signal : S -> Z -> S * list K;         (* whose futures become ready *)
  sem_new_units n : sem_units (sem_new n) = n /\ sem_waiters (sem_new n) = [];
  sem_wait_spec s n k :
    let now := bool_decide (sem_waiters s = [] /\ n <= sem_units s) in
    (sem_wait s n k).2 = now /\
    sem_units (sem_wait s n k).1 = (if now then sem_units s - n else sem_units s) /\
    sem_waiters (sem_wait s n k).1 = (if now then [] else sem_waiters s ++ [(n, k)]);
  sem_signal_spec s n :
    grant (sem_units s + n) (sem_waiters s) =
      (sem_units (sem_signal s n).1, (sem_signal s n).2, sem_waiters (sem_signal s n).1)
}.

#[export, refine] Instance units_sem (K : Type) : CountSem (Z * list (Z * K)) K := {
  sem_new n := (n, []);
  sem_units s := s.1;
  sem_waiters s := s.2;
  sem_wait s n k :=
    if bool_decide (s.2 = [] /\ n <= s.1) then ((s.1 - n, []), true) else ((s.1, s.2 ++ [(n, k)]), false);
  sem_signal s n := let '(u, ks, ws) := grant (s.1 + n) s.2 in ((u, ws), ks)
}.
Proof.
  - done.
  - intros s n k. cbn. case_bool_decide; done.
  - intros s n. destruct (grant _ _) as [[u ks] ws]. done.
Defined.

(** ** coord_work_queue and coordinator_worker *)
Module Worker.
Section Worker.
Context {W T R RC S : Type} {LF : LfQueue R W} {LFC : LfQueue RC (W * T)} {SM : CountSem S W}.
(** A work item's function; its promise is the item itself. *)
Variable process : W -> T.

Record coord_work_queue := mk_wq {
  _pending : R;
  _completed : RC;
  _start_eventfd : Z;
  _queue_has_room : S
}.
Definition coord_work_queue_new : coord_work_queue := mk_wq lf_new lf_new 0 (sem_new queue_length).

(** The worker thread in [work()]: blocked in [read], past it, or in the loop over the
    items it took; [Waking]: it saw the idle flag set and is about to call [_reactor->wakeup()]. *)
Inductive worker_state := Reading | GotEvent | Processing (tmp_buf : list W) | Waking | Exited.

(** The reactor thread: [try_enter_interrupt_mode] sets the idle flag before it polls. *)
Inductive main_state := Awake | Entering | Asleep.

Record sys := mk {
  wq : coord_work_queue;
  granted : list W;          (* continuations of [_queue_has_room.wait()] to be run *)
  signalling : bool;         (* between [_pending.push] and [_start_eventfd.signal] *)
  worker : worker_state;
  _stopped : bool;
  _main_thread_idle : bool;
  main : main_state;
  resolved : list (W * T);   (* promises set, in order *)
  lost : list W;             (* items whose push failed *)
  notified : bool            (* the reactor's wakeup signal is set *)
}.
Definition sys_new : sys := mk coord_work_queue_new [] false Reading false false Awake [] [] false.

Definition set_wq q s := mk q (granted s) (signalling s) (worker s) (_stopped s) (_main_thread_idle s) (main s) (resolved s) (lost s) (notified s).

(** [submit_item] *)
Definition submit_item (item : W) (s : sys) : sys :=
  let '(sem, now) := sem_wait (_queue_has_room (wq s)) 1 item in
  mk (mk_wq (_pending (wq s)) (_completed (wq s)) (_start_eventfd (wq s)) sem)
     (if (now : bool) then granted s ++ [item] else granted s) (signalling s) (worker s) (_stopped s)
     (_main_thread_idle s) (main s) (resolved s) (lost s) (notified s).

(** Its continuation: [_pending.push(item.release())], whose result is ignored, and
    [_start_eventfd.signal(1)]. *)
Definition run_granted (s : sys) : sys :=
  match granted s with
  | [] => s
  | item :: rest =>
      let '(ok, r) := lf_push (_pending (wq s)) item in
      mk (mk_wq r (_completed (wq s)) (_start_eventfd (wq s)) (_queue_has_room (wq s)))
         rest true (worker s) (_stopped s) (_main_thread_idle s) (main s) (resolved s)
         (if (ok : bool) then lost s else lost s ++ [item]) (notified s)
  end.
Definition signal_eventfd (s : sys) : sys :=
  mk (mk_wq (_pending (wq s)) (_completed (wq s)) (_start_eventfd (wq s) + 1) (_queue_has_room (wq s)))
     (granted s) false (worker s) (_stopped s) (_main_thread_idle s) (main s) (resolved s) (lost s) (notified s).

(** [complete()]: the items that came back, up to the size of [tmp_buf], and their number. *)
Definition complete (s : sys) : res (Z * sys) :=
  let '(items, rc) := lf_consume_all (_completed (wq s)) in
  let nr := Z.of_nat (length items) in
  if queue_length <? nr then Fault OutOfBounds
  else
    let '(sem, ks) := sem_signal (_queue_has_room (wq s)) nr in
    Ok (nr, mk (mk_wq (_pending (wq s)) rc (_start_eventfd (wq s)) sem)
              (granted s ++ ks) (signalling s) (worker s) (_stopped s) (_main_thread_idle s) (main s)
              (resolved s ++ items) (lost s) (notified s)).

Definition set_main (idle : bool) (m : main_state) (s : sys) : sys :=
  mk (wq s) (granted s) (signalling s) (worker s) (_stopped s) idle m (resolved s) (lost s) (notified s).
Definition set_worker (w : worker_state) (s : sys) : sys :=
  mk (wq s) (granted s) (signalling s) w (_stopped s) (_main_thread_idle s) (main s) (resolved s) (lost s) (notified s).
Definition set_notified (b : bool) (s : sys) : sys :=
  mk (wq s) (granted s) (signalling s) (worker s) (_stopped s) (_main_thread_idle s) (main s) (resolved s) (lost s) b.

(** [coordinator_pollfn::try_enter_interrupt_mode]: the flag, then the poll. *)
Definition enter_interrupt_mode (s : sys) : sys := set_main true Entering s.
Definition exit_interrupt_mode (s : sys) : sys := set_main false Awake s.
Definition poll_before_sleep (s : sys) : res sys :=
  '(nr, s) ← complete s;
  Ok (if nr =? 0 then set_main (_main_thread_idle s) Asleep s else exit_interrupt_mode s).

(** [~coordinator_worker()], up to the [join]. *)
Definition stop_worker (s : sys) : sys :=
  mk (mk_wq (_pending (wq s)) (_completed (wq s)) (_start_eventfd (wq s) + 1) (_queue_has_room (wq s)))
     (granted s) (signalling s) (worker s) true (_main_thread_idle s) (main s) (resolved s) (lost s) (notified s).

(** The steps of [work()]: the read of the event counter (which blocks at 0 and resets
    it), taking the pending items, processing one, and the test of the idle flag. *)
Definition work_read (s : sys) : sys :=
  if _start_eventfd (wq s) =? 0 then s
  else
    let q := mk_wq (_pending (wq s)) (_completed (wq s)) 0 (_queue_has_room (wq s)) in
    set_worker (if _stopped s then Exited else GotEvent) (set_wq q s).

Definition work_consume (s : sys) : res sys :=
  let '(items, r) := lf_consume_all (_pending (wq s)) in
  if queue_length <? Z.of_nat (length items) then Fault OutOfBounds
  else
    let q := mk_wq r (_completed (wq s)) (_start_eventfd (wq s)) (_queue_has_room (wq s)) in
    Ok (set_worker (Processing items) (set_wq q s)).

Definition work_process (wi : W) (rest : list W) (s : sys) : sys :=
  let '(ok, rc) := lf_push (_completed (wq s)) (wi, process wi) in
  mk (mk_wq (_pending (wq s)) rc (_start_eventfd (wq s)) (_queue_has_room (wq s)))
     (granted s) (signalling s) (Processing rest) (_stopped s) (_main_thread_idle s) (main s) (resolved s)
     (if (ok : bool) then lost s else lost s ++ [wi]) (notified s).

(** [if (_main_thread_idle) _reactor->wakeup();]: the load, then the call, which sets the reactor's signal. *)
Definition work_test (s : sys) : sys := set_worker (if _main_thread_idle s then Waking else Reading) s.
Definition work_wakeup (s : sys) : sys := set_notified true (set_worker Reading s).

(** The reactor leaves its sleep, for its signal, which it resets, or for any other reason. *)
Definition wake (s : sys) : sys := set_notified false (exit_interrupt_mode s).

(** ** The two threads interleaved

    The main thread is sequential: it does nothing else between the push and the signal,
    and only polls while it enters the sleep.  Awake, it may find its signal set and reset it. *)
Inductive event := Submit (item : W) | Granted | Signal | Complete | Enter | PollBeforeSleep | Wake | SeeSignal | Stop | Work.

Definition main_free (s : sys) : bool :=
  negb (signalling s) && match main s with Awake => true | _ => false end.

Definition step (s : sys) (ev : event) : res sys :=
  match ev with
  | Submit item => Ok (if main_free s then submit_item item s else s)
  | Granted => Ok (if main_free s then run_granted s else s)
  | Signal => Ok (if signalling s then signal_eventfd s else s)
  | Complete => if main_free s then '(_, s) ← complete s; Ok s else Ok s
  | Enter => Ok (if main_free s then enter_interrupt_mode s else s)
  | PollBeforeSleep => match main s with Entering => poll_before_sleep s | _ => Ok s end
  | Wake => Ok (match main s with Asleep => wake s | _ => s end)
  | SeeSignal => Ok (if main_free s then set_notified false s else s)
  | Stop => Ok (if main_free s then stop_worker s else s)
  | Work =>
      match worker s with
      | Reading => Ok (work_read s)
      | GotEvent => work_consume s
      | Processing (wi :: rest) => Ok (work_process wi rest s)
      | Processing [] => Ok (work_test s)
      | Waking => Ok (work_wakeup s)
      | Exited => Ok s
      end
  end.

(** The items submitted, in order, and the state after the events. *)
Definition submitted_by (s : sys) (ev : event) : list W :=
  match ev with Submit item => if main_free s then [item] else [] | _ => [] end.
Fixpoint run (s : sys) (acc : list W) (evs : list event) : res (sys * list W) :=
  match evs with
  | [] => Ok (s, acc)
  | ev :: evs => s' ← step s ev; run s' (acc ++ submitted_by s ev) evs
  end.

(** ** The invariant *)
Definition tmp_items (w : worker_state) : list W := match w with Processing l => l | _ => [] end.

Record inv (s : sys) (sub : list W) : Prop := {
  i_order : sub = (resolved s).*1 ++ (lf_items (_completed (wq s))).*1 ++ tmp_items (worker s) ++
                  lf_items (_pending (wq s)) ++ granted s ++ (sem_waiters (_queue_has_room (wq s))).*2;
  i_results : Forall (fun p => p.2 = process p.1) (resolved s ++ lf_items (_completed (wq s)));
  i_room : sem_units (_queue_has_room (wq s)) + Z.of_nat (length (granted s) + length (lf_items (_pending (wq s))) +
             length (tmp_items (worker s)) + length (lf_items (_completed (wq s)))) = queue_length;
  i_units : 0 <= sem_units (_queue_has_room (wq s));
  i_waiters : Forall (fun p => p.1 = 1) (sem_waiters (_queue_has_room (wq s)));
  i_wait : sem_waiters (_queue_has_room (wq s)) <> [] -> sem_units (_queue_has_room (wq s)) = 0;
  i_lost : lost s = [];
  i_event : 0 <= _start_eventfd (wq s);
  i_pending : lf_items (_pending (wq s)) <> [] ->
    0 < _start_eventfd (wq s) \/ signalling s = true \/ worker s = GotEvent \/ worker s = Exited;
  i_asleep : main s = Asleep -> _main_thread_idle s = true /\
    (lf_items (_completed (wq s)) <> [] -> (exists l, worker s = Processing l) \/ worker s = Waking \/ notified s = true);
  i_entering : main s = Entering -> _main_thread_idle s = true
}.

Ltac inv_facts H :=
  destruct H as [Horder Hresults Hroom Hunits Hwaiters Hwait Hlost Hevent Hpending Hasleep Hentering].

Lemma coord_inv_new : inv sys_new [].
Proof.
  destruct (sem_new_units (S := S) (K := W) queue_length) as [H1 H2].
  constructor; cbn; rewrite ?lf_new_items, ?H1, ?H2; cbn; done || constructor.
Qed.

Lemma coord_inv_submit s sub item : inv s sub -> main_free s = true -> inv (submit_item item s) (sub ++ [item]).
Proof.
  intros H Hm. inv_facts H. unfold submit_item.
  pose proof (sem_wait_spec (_queue_has_room (wq s)) 1 item) as (Hn & Hu & Hw).
  destruct (sem_wait (_queue_has_room (wq s)) 1 item) as [sem now]. cbn [fst snd] in *. subst now.
  unfold main_free in Hm. apply andb_prop in Hm as [_ Hm].
  case_bool_decide as Hb; cbn [fst snd] in *.
  - destruct Hb as [Hb1 Hb2]. rewrite Hb1 in *.
    constructor; cbn; rewrite ?Hu, ?Hw; try done.
    + rewrite Horder. rewrite ?Hb1. cbn. rewrite !app_nil_r, <-!app_assoc. done.
    + rewrite length_app. cbn [length]. lia.
    + lia.
  - constructor; cbn; rewrite ?Hu, ?Hw; try done.
    + rewrite Horder, fmap_app. cbn. rewrite <-!app_assoc. done.
    + apply Forall_app_2; [done|now repeat constructor].
    + intros _. destruct (sem_waiters (_queue_has_room (wq s))) as [|p ws] eqn:E; [|apply Hwait; done].
      destruct (decide (1 <= sem_units (_queue_has_room (wq s)))); [tauto|lia].
Qed.

Lemma coord_inv_granted s sub : inv s sub -> main_free s = true -> inv (run_granted s) sub.
Proof.
  intros H Hm. inv_facts H. unfold run_granted. destruct (granted s) as [|item rest] eqn:Eg.
  { constructor; rewrite ?Eg; done. }
  cbn [length] in Hroom.
  destruct (lf_push_room (_pending (wq s)) item) as [Hp1 Hp2]; [lia|].
  destruct (lf_push (_pending (wq s)) item) as [ok r]. cbn [fst snd] in *. subst ok.
  constructor; cbn; rewrite ?Hp2; try done.
  - rewrite Horder, <-!app_assoc. done.
  - rewrite length_app. cbn [length]. lia.
  - intros _. right. now left.
Qed.

Lemma coord_inv_signal s sub : inv s sub -> inv (signal_eventfd s) sub.
Proof. intros H. inv_facts H. constructor; cbn; try done; [lia|]. intros _. left. lia. Qed.

Lemma complete_inv s sub : inv s sub ->
  exists nr s', complete s = Ok (nr, s') /\ inv (set_main (_main_thread_idle s) Awake s') sub /\
    main s' = main s /\ _main_thread_idle s' = _main_thread_idle s /\ lf_items (_completed (wq s')) = [] /\
    resolved s' = resolved s ++ lf_items (_completed (wq s)) /\ worker s' = worker s /\ signalling s' = signalling s.
Proof.
  intros H. inv_facts H. unfold complete.
  destruct (lf_consume_spec (_completed (wq s))) as [Hc1 Hc2].
  destruct (lf_consume_all (_completed (wq s))) as [items rc]. cbn [fst snd] in *. subst items.
  set (done_ := lf_items (_completed (wq s))) in *.
  rewrite (proj2 (Z.ltb_ge _ _)) by lia.
  pose proof (sem_signal_spec (_queue_has_room (wq s)) (Z.of_nat (length done_))) as Hs.
  destruct (sem_signal (_queue_has_room (wq s)) (Z.of_nat (length done_))) as [sem ks]. cbn [fst snd] in *.
  apply grant_units in Hs as (G1 & G2 & G3 & G4 & G5); [|done|lia].
  eexists _, _. split; [reflexivity|]. cbn. split; [|done].
  constructor; cbn; rewrite ?Hc2; try done.
  - rewrite Horder, G1, fmap_app, <-!app_assoc. done.
  - now rewrite app_nil_r.
  - rewrite length_app. cbn [length]. lia.
Qed.

Lemma coord_inv_set_awake s sub : inv s sub -> inv (exit_interrupt_mode s) sub.
Proof. intros H. inv_facts H. constructor; cbn; done. Qed.

Lemma coord_inv_main_awake s sub idle : main s = Awake -> inv (set_main idle Awake s) sub -> inv s sub.
Proof. intros Hm H. inv_facts H. constructor; cbn in *; try done; rewrite Hm; done. Qed.

Lemma coord_inv_complete s sub : inv s sub -> main_free s = true ->
  exists nr s', complete s = Ok (nr, s') /\ inv s' sub.
Proof.
  intros H Hm. destruct (complete_inv s sub H) as (nr & s' & E & Hi & Hm' & _).
  exists nr, s'. split; [exact E|]. eapply coord_inv_main_awake; [|exact Hi]. rewrite Hm'.
  unfold main_free in Hm. apply andb_prop in Hm as [_ Hm]. destruct (main s); done.
Qed.

Lemma coord_inv_enter s sub : inv s sub -> inv (enter_interrupt_mode s) sub.
Proof. intros H. inv_facts H. constructor; cbn; done. Qed.

Lemma coord_inv_poll_before_sleep s sub : inv s sub -> main s = Entering ->
  exists s', poll_before_sleep s = Ok s' /\ inv s' sub.
Proof.
  intros H Hm. pose proof (i_entering _ _ H Hm) as Hidle.
  destruct (complete_inv s sub H) as (nr & s' & E & Hi & Hm' & Hidle' & Hc & _).
  unfold poll_before_sleep. rewrite E. cbn [mbind res_bind]. eexists. split; [reflexivity|].
  case_match.
  - inv_facts Hi. constructor; cbn in *; try done. intros _. split; [congruence|]. now rewrite Hc.
  - inv_facts Hi. constructor; cbn in *; done.
Qed.

Lemma coord_inv_stop s sub : inv s sub -> inv (stop_worker s) sub.
Proof. intros H. inv_facts H. constructor; cbn; try done; [lia|]. intros _. left. lia. Qed.

Lemma coord_inv_work_read s sub : inv s sub -> worker s = Reading -> inv (work_read s) sub.
Proof.
  intros H Hw. unfold work_read. case_match eqn:E0; [done|]. inv_facts H. rewrite Hw in *. cbn in *.
  constructor; cbn; try done; destruct (_stopped s); cbn; try done; try lia; auto.
  - intros Ha. destruct (Hasleep Ha) as [H1 H2]. split; [done|]. intros Hc. destruct (H2 Hc) as [[l ?]|[?|?]]; [congruence..|auto].
  - intros Ha. destruct (Hasleep Ha) as [H1 H2]. split; [done|]. intros Hc. destruct (H2 Hc) as [[l ?]|[?|?]]; [congruence..|auto].
Qed.

Lemma coord_inv_work_consume s sub : inv s sub -> worker s = GotEvent ->
  exists s', work_consume s = Ok s' /\ inv s' sub.
Proof.
  intros H Hw. inv_facts H. unfold work_consume. rewrite Hw in *. cbn in *.
  destruct (lf_consume_spec (_pending (wq s))) as [Hc1 Hc2].
  destruct (lf_consume_all (_pending (wq s))) as [items r]. cbn [fst snd] in *. subst items.
  rewrite (proj2 (Z.ltb_ge _ _)) by lia. eexists. split; [reflexivity|].
  constructor; cbn; rewrite ?Hc2; try done.
  - cbn [length]. lia.
  - intros Ha. destruct (Hasleep Ha) as [H1 H2]. split; [done|]. eauto.
Qed.

Lemma coord_inv_work_process s sub wi rest : inv s sub -> worker s = Processing (wi :: rest) -> inv (work_process wi rest s) sub.
Proof.
  intros H Hw. inv_facts H. unfold work_process. rewrite Hw in *. cbn [tmp_items length] in *.
  destruct (lf_push_room (_completed (wq s)) (wi, process wi)) as [Hp1 Hp2]; [lia|].
  destruct (lf_push (_completed (wq s)) (wi, process wi)) as [ok r]. cbn [fst snd] in *. subst ok.
  constructor; cbn; rewrite ?Hp2; try done.
  - rewrite Horder, fmap_app. cbn. rewrite <-!app_assoc. done.
  - rewrite app_assoc. apply Forall_app_2; [done|]. now repeat constructor.
  - rewrite length_app. cbn [length]. lia.
  - intros Hp. destruct (Hpending Hp) as [?|[?|[?|?]]]; auto; congruence.
  - intros Ha. destruct (Hasleep Ha) as [H1 H2]. split; [done|]. eauto.
Qed.

(** What waits is not affected by a worker that goes on to [Reading] or [Waking]. *)
Lemma pending_after s w' : (lf_items (_pending (wq s)) <> [] -> 0 < _start_eventfd (wq s) \/ signalling s = true \/ worker s = GotEvent \/ worker s = Exited) ->
  worker s <> GotEvent -> worker s <> Exited ->
  lf_items (_pending (wq s)) <> [] -> 0 < _start_eventfd (wq s) \/ signalling s = true \/ w' = GotEvent \/ w' = Exited.
Proof. intros H H1 H2 Hp. destruct (H Hp) as [?|[?|[?|?]]]; auto; congruence. Qed.

Lemma coord_inv_work_test s sub : inv s sub -> worker s = Processing [] -> inv (work_test s) sub.
Proof.
  intros H Hw. inv_facts H. unfold work_test. pose proof (fun w' => pending_after s w' Hpending ltac:(congruence) ltac:(congruence)) as Hp. rewrite Hw in *. cbn in *.
  destruct (_main_thread_idle s) eqn:Ei; constructor; cbn; rewrite ?Ei; try done; try apply Hp.
  - intros Ha. split; [done|]. auto.
  - intros Ha. now destruct (Hasleep Ha).
Qed.

Lemma coord_inv_work_wakeup s sub : inv s sub -> worker s = Waking -> inv (work_wakeup s) sub.
Proof.
  intros H Hw. inv_facts H. unfold work_wakeup. pose proof (pending_after s Reading Hpending ltac:(congruence) ltac:(congruence)) as Hp. rewrite Hw in *. cbn in *.
  constructor; cbn; try done. intros Ha. destruct (Hasleep Ha) as [H1 H2]. auto.
Qed.

Lemma coord_inv_awake s sub b idle : inv s sub -> inv (set_notified b (set_main idle Awake s)) sub.
Proof. intros H. inv_facts H. constructor; cbn; done. Qed.

Lemma coord_inv_step s sub ev : inv s sub -> exists s', step s ev = Ok s' /\ inv s' (sub ++ submitted_by s ev).
Proof.
  intros H. assert (H0 : inv s (sub ++ [])) by now rewrite app_nil_r.
  destruct ev; cbn [step submitted_by]; rewrite ?app_nil_r.
  - destruct (main_free s) eqn:Em; eexists; (split; [reflexivity|]); [now apply coord_inv_submit|done].
  - destruct (main_free s) eqn:Em; eexists; (split; [reflexivity|]); [now apply coord_inv_granted|done].
  - destruct (signalling s); eexists; (split; [reflexivity|]); [now apply coord_inv_signal|done].
  - destruct (main_free s) eqn:Em; [|eauto]. destruct (coord_inv_complete s sub H Em) as (nr & s' & -> & Hi). cbn. eauto.
  - destruct (main_free s) eqn:Em; eexists; (split; [reflexivity|]); [now apply coord_inv_enter|done].
  - destruct (main s) eqn:Em; [eauto| |eauto]. now apply coord_inv_poll_before_sleep.
  - destruct (main s); eexists; (split; [reflexivity|]); [done..|now apply coord_inv_awake].
  - destruct (main_free s) eqn:Em; eexists; (split; [reflexivity|]); [|done]. unfold main_free in Em. destruct (main s) eqn:E; [|now rewrite andb_false_r in Em..].
    inv_facts H. constructor; cbn; rewrite ?E; done.
  - destruct (main_free s) eqn:Em; eexists; (split; [reflexivity|]); [now apply coord_inv_stop|done].
  - destruct (worker s) as [| |[|wi rest]| |] eqn:Ew; [..|eauto].
    + eexists. split; [reflexivity|]. now apply coord_inv_work_read.
    + now apply coord_inv_work_consume.
    + eexists. split; [reflexivity|]. now apply coord_inv_work_test.
    + eexists. split; [reflexivity|]. now apply coord_inv_work_process.
    + eexists. split; [reflexivity|]. now apply coord_inv_work_wakeup.
Qed.

Lemma worker_run_inv evs : forall s acc, inv s acc -> exists s' sub, run s acc evs = Ok (s', sub) /\ inv s' sub.
Proof.
  induction evs as [|ev evs IH]; intros s acc H; cbn [run]; [eauto|].
  destruct (coord_inv_step s acc ev H) as (s' & E & H'). rewrite E. cbn [mbind res_bind]. now apply IH.
Qed.

(** However the reactor thread and the worker thread interleave, the queue never loses an
    item or runs past one of its arrays of 128: the promises are set in the order of the
    submissions, each once and with the value its function returned. *)
Theorem coord_results_in_order evs :
  exists s sub, run sys_new [] evs = Ok (s, sub) /\ lost s = [] /\
    resolved s = (fun w => (w, process w)) <$> take (length (resolved s)) sub.
Proof.
  destruct (worker_run_inv evs sys_new [] coord_inv_new) as (s & sub & E & H). exists s, sub. split; [exact E|].
  inv_facts H. split; [done|]. rewrite Horder. rewrite take_app_le by (now rewrite length_fmap).
  rewrite take_ge by (now rewrite length_fmap). apply Forall_app in Hresults as [Hr _]. clear -Hr.
  induction Hr as [|[w t] l Ht Hr IH]; [done|]. cbn in *. subst t. now rewrite <-IH.
Qed.

End Worker.
End Worker.

(** ** The barriers *)
Module Barriers.
Section Barriers.
Context {S : Type} {SM : CountSem S string}.
(** [impl::global_barrier], which an application provides. *)
Variable impl_global_barrier : Z -> string -> Z.

(** [impl_]: its [sync_size_]; [worker_]: has it been launched? *)
Record coordinator := mk {
  worker_ : bool;
  impl_ : option Z;
  local_sems_ : gmap string S;
  global_sems_ : gmap string S
}.
Definition coordinator_new : coordinator := mk false None ∅ ∅.

Definition launch_worker (c : coordinator) : coordinator :=
  mk true (impl_ c) (local_sems_ c) (global_sems_ c).
Definition set_impl (impl : option Z) (c : coordinator) : coordinator :=
  mk (worker_ c) impl (local_sems_ c) (global_sems_ c).
(** Without an implementation only a warning is printed. *)
Definition set_sync_size (sync_size : Z) (c : coordinator) : coordinator :=
  match impl_ c with
  | Some _ => mk (worker_ c) (Some sync_size) (local_sems_ c) (global_sems_ c)
  | None => c
  end.

Definition sems (global : bool) (c : coordinator) : gmap string S :=
  if global then global_sems_ c else local_sems_ c.
Definition set_sems (global : bool) (m : gmap string S) (c : coordinator) : coordinator :=
  if global then mk (worker_ c) (impl_ c) (local_sems_ c) m else mk (worker_ c) (impl_ c) m (global_sems_ c).

(** [get_sem]: the semaphore of the barrier, made if there is none. *)
Definition get_sem (barrier_id : string) (global : bool) (c : coordinator) : S :=
  match sems global c !! barrier_id with Some s => s | None => sem_new 0 end.

(** What runs on shard 0: the signal of another shard, with the waiters it releases, and
    shard 0's own wait. *)
Definition signal_sem (barrier_id : string) (global : bool) (c : coordinator) : coordinator * list string :=
  let '(s, released) := sem_signal (get_sem barrier_id global c) 1 in
  (set_sems global (<[barrier_id := s]> (sems global c)) c, released).
Definition wait_sem (barrier_id : string) (global : bool) (n : Z) (c : coordinator) : coordinator * bool :=
  let '(s, now) := sem_wait (get_sem barrier_id global c) n barrier_id in
  (set_sems global (<[barrier_id := s]> (sems global c)) c, now).
Definition erase (barrier_id : string) (global : bool) (c : coordinator) : coordinator :=
  set_sems global (delete barrier_id (sems global c)) c.

(** A call on shard [sid]: the new state, whether the caller's future is ready, and the
    barriers of shard 0 that this call releases. *)
Definition local_barrier (sid local_shard_count : Z) (barrier_id : string) (c : coordinator)
    : coordinator * bool * list string :=
  if sid =? 0 then
    let '(c, now) := wait_sem barrier_id false (u64 (local_shard_count - 1)) c in
    if (now : bool) then (erase barrier_id false c, true, []) else (c, false, [])
  else
    let '(c, released) := signal_sem barrier_id false c in (c, true, released).
(** The continuation of a wait that was not ready. *)
Definition local_barrier_released (barrier_id : string) (c : coordinator) : coordinator := erase barrier_id false c.

(** What [global_barrier] has the worker thread run. *)
Definition barrier_job (barrier_id : string) (c : coordinator) : Z :=
  match impl_ c with Some sync_size => impl_global_barrier sync_size barrier_id | None => 0 end.

(** The first part, up to the submission: [Some job] when a job was submitted. *)
Definition submit_job (barrier_id : string) (c : coordinator) : res Z :=
  _ ← assert (worker_ c); Ok (barrier_job barrier_id c).
Definition global_barrier (sid local_shard_count : Z) (barrier_id : string) (with_local : bool) (c : coordinator)
    : res (coordinator * bool * list string * option Z) :=
  if negb (sid =? 0) && with_local then
    let '(c, released) := signal_sem barrier_id true c in Ok (c, true, released, None)
  else if with_local then
    let '(c, now) := wait_sem barrier_id true (u64 (local_shard_count - 1)) c in
    if (now : bool) then job ← submit_job barrier_id c; Ok (c, false, [], Some job)
    else Ok (c, false, [], None)
  else job ← submit_job barrier_id c; Ok (c, false, [], Some job).
(** Its continuations: the wait was released; the job returned. *)
Definition global_barrier_released (barrier_id : string) (c : coordinator) : res Z := submit_job barrier_id c.
Definition global_barrier_done (barrier_id : string) (c : coordinator) : coordinator := erase barrier_id true c.

(** ** One use of a barrier: shards arrive, shard 0 waits, shards arrive *)
Fixpoint arrivals (sids : list Z) (count : Z) (barrier_id : string) (c : coordinator) : coordinator * list string :=
  match sids with
  | [] => (c, [])
  | sid :: sids =>
      let '(c, _, r1) := local_barrier sid count barrier_id c in
      let '(c, r2) := arrivals sids count barrier_id c in (c, r1 ++ r2)
  end.

(** Did shard 0 pass? *)
Definition shard0_passes (before after : list Z) (count : Z) (barrier_id : string) (c : coordinator) : bool :=
  let '(c, _) := arrivals before count barrier_id c in
  let '(c, now, _) := local_barrier 0 count barrier_id c in
  let '(_, released) := arrivals after count barrier_id c in
  now || bool_decide (barrier_id ∈ released).

(** *** Lemmas *)
Lemma sems_set g m c : sems g (set_sems g m c) = m.
Proof. destruct g; done. Qed.

Lemma get_sem_insert id g s c : get_sem id g (set_sems g (<[id := s]> (sems g c)) c) = s.
Proof. unfold get_sem. now rewrite sems_set, lookup_insert_eq. Qed.

(** Arrivals with nobody waiting add units. *)
Lemma arrivals_free sids count id : forall c,
  Forall (fun sid => sid <> 0) sids -> sem_waiters (get_sem id false c) = [] ->
  let r := arrivals sids count id c in
  r.2 = [] /\ sem_waiters (get_sem id false r.1) = [] /\
  sem_units (get_sem id false r.1) = sem_units (get_sem id false c) + Z.of_nat (length sids).
Proof.
  induction sids as [|sid sids IH]; intros c Hf Hw; cbn [arrivals length]; [cbn; split_and!; [done|done|lia]|].
  apply Forall_cons in Hf as [Hs Hf]. unfold local_barrier, signal_sem. rewrite (proj2 (Z.eqb_neq sid 0) Hs).
  pose proof (sem_signal_spec (get_sem id false c) 1) as Hg. rewrite Hw in Hg. cbn [grant] in Hg.
  destruct (sem_signal (get_sem id false c) 1) as [s ks]. cbn [fst snd] in Hg. injection Hg as Hu <- Hws.
  set (c1 := set_sems false (<[id := s]> (sems false c)) c).
  assert (G : get_sem id false c1 = s) by apply get_sem_insert.
  specialize (IH c1 Hf). rewrite G in IH. specialize (IH (eq_sym Hws)).
  destruct (arrivals sids count id c1) as [c2 r2]. cbn in *. destruct IH as (H1 & H2 & H3).
  split; [done|]. split; [done|]. lia.
Qed.

(** Arrivals while shard 0 waits for [n] more release it when there are [n]. *)
Lemma arrivals_waited sids count id n : forall c u,
  Forall (fun sid => sid <> 0) sids -> sem_waiters (get_sem id false c) = [(n, id)] ->
  sem_units (get_sem id false c) = u -> u < n ->
  id ∈ (arrivals sids count id c).2 <-> n <= u + Z.of_nat (length sids).
Proof.
  induction sids as [|sid sids IH]; intros c u Hf Hw Hu Hlt; cbn [arrivals length].
  { cbn. split; [intros H; now apply not_elem_of_nil in H|lia]. }
  apply Forall_cons in Hf as [Hs Hf]. unfold local_barrier, signal_sem. rewrite (proj2 (Z.eqb_neq sid 0) Hs).
  pose proof (sem_signal_spec (get_sem id false c) 1) as Hg. rewrite Hw, Hu in Hg. cbn [grant] in Hg.
  destruct (sem_signal (get_sem id false c) 1) as [s ks]. cbn [fst snd] in Hg.
  set (c1 := set_sems false (<[id := s]> (sems false c)) c).
  assert (G : get_sem id false c1 = s) by apply get_sem_insert.
  destruct (Z.leb_spec n (u + 1)) as [Hl|Hl].
  - injection Hg as Hu' <- Hws. destruct (arrivals sids count id c1) as [c2 r2]. cbn.
    split; [intros _; lia|intros _; left].
  - injection Hg as Hu' <- Hws. specialize (IH c1 (u + 1) Hf). rewrite G in IH.
    specialize (IH (eq_sym Hws) (eq_sym Hu') Hl).
    destruct (arrivals sids count id c1) as [c2 r2]. cbn in *. rewrite IH. lia.
Qed.

Lemma shard0_passes_spec before after count id c :
  Forall (fun sid => sid <> 0) (before ++ after) -> local_sems_ c !! id = None -> 0 < count < 4294967296 ->
  shard0_passes before after count id c = true <-> count - 1 <= Z.of_nat (length (before ++ after)).
Proof.
  intros Hf Hno Hc. apply Forall_app in Hf as [Hb Ha]. unfold shard0_passes.
  assert (Hg : get_sem id false c = sem_new 0) by (unfold get_sem; cbn; now rewrite Hno).
  destruct (sem_new_units (S := S) (K := string) 0) as [N1 N2].
  pose proof (arrivals_free before count id c Hb) as Hfree. rewrite Hg, N1 in Hfree. specialize (Hfree N2).
  destruct (arrivals before count id c) as [c1 r1]. cbn [fst snd] in Hfree. destruct Hfree as (_ & Hw & Hu).
  unfold local_barrier, wait_sem. cbn [Z.eqb].
  rewrite wrap_small by (unfold in_u; change (2 ^ 64) with 18446744073709551616; lia).
  pose proof (sem_wait_spec (get_sem id false c1) (count - 1) id) as (Hn & Hu2 & Hw2).
  destruct (sem_wait (get_sem id false c1) (count - 1) id) as [s now]. cbn [fst snd] in *. subst now.
  rewrite Hw in *. rewrite length_app. case_bool_decide as Hb2.
  - destruct (arrivals after count id _) as [c2 r2]. cbn. split; [lia|done].
  - set (c2 := set_sems false (<[id := s]> (sems false c1)) c1).
    assert (G : get_sem id false c2 = s) by apply get_sem_insert.
    assert (Hlt : sem_units (get_sem id false c1) < count - 1).
    { destruct (Z.lt_ge_cases (sem_units (get_sem id false c1)) (count - 1)); [done|]. exfalso. apply Hb2. split; [done|lia]. }
    pose proof (arrivals_waited after count id (count - 1) c2 (sem_units (get_sem id false c1)) Ha) as Hr.
    rewrite G in Hr. specialize (Hr Hw2 Hu2 Hlt).
    destruct (arrivals after count id c2) as [c3 r3]. cbn [fst snd] in *.
    cbn [orb]. rewrite bool_decide_eq_true, Hr. lia.
Qed.

(** C35: Used once, the barrier holds shard 0 back until every other shard has arrived,
    whichever arrive before it and whichever after; it then lets it pass. *)
Theorem barrier_waits_for_all before after count id c :
  NoDup (before ++ after) -> Forall (fun sid => 0 < sid < count) (before ++ after) ->
  local_sems_ c !! id = None -> 0 < count < 4294967296 ->
  shard0_passes before after count id c = true <-> forall sid, 0 < sid < count -> sid ∈ before ++ after.
Proof.
  intros Hnd Hf Hno Hc. rewrite shard0_passes_spec; [|eapply Forall_impl; [exact Hf|cbn; lia]|done|done].
  set (l := before ++ after) in *. set (others := seqZ 1 (count - 1)).
  assert (Hol : length others = Z.to_nat (count - 1)) by (unfold others; now rewrite length_seqZ).
  assert (Hsub : l ⊆+ others).
  { apply NoDup_submseteq; [done|]. intros x Hx. apply elem_of_seqZ.
    pose proof (proj1 (Forall_forall _ _) Hf x Hx) as Hr. cbn in Hr. lia. }
  split.
  - intros Hl sid Hs. assert (Hp : l ≡ₚ others).
    { apply submseteq_length_Permutation; [done|]. lia. }
    rewrite Hp. apply elem_of_seqZ. lia.
  - intros Hall. assert (Hs2 : others ⊆+ l).
    { apply NoDup_submseteq; [apply NoDup_seqZ|]. intros x Hx. apply elem_of_seqZ in Hx. apply Hall. lia. }
    apply submseteq_length in Hs2. lia.
Qed.

(** The other shards do not wait: the future of their call is ready once it was counted,
    whoever else has arrived. *)
Theorem other_shards_do_not_wait sid count id c :
  sid <> 0 -> (local_barrier sid count id c).1.2 = true.
Proof.
  intros Hs. unfold local_barrier. rewrite (proj2 (Z.eqb_neq sid 0) Hs). destruct (signal_sem id false c). done.
Qed.

(** So a shard can run ahead to the next use of the same barrier, and since arrivals are
    only counted, its second arrival stands in for a shard that never came. *)
Theorem reused_barrier_miscounts id c :
  local_sems_ c !! id = None -> shard0_passes [1; 1] [] 3 id c = true.
Proof. intros H. apply shard0_passes_spec; [repeat constructor; done|done|lia|cbn; lia]. Qed.

(** The global barrier needs the worker thread: without it the assertion fails. *)
Theorem global_barrier_needs_worker sid count id c :
  worker_ c = false -> global_barrier sid count id false c = Fault AssertFail.
Proof. intros H. unfold global_barrier, submit_job. rewrite andb_false_r, H. done. Qed.

End Barriers.
End Barriers.

(** ** Concrete runs *)
Module CoordinatorExamples.
Import Worker.

Definition events : list (event (W := Z)) :=
  [Submit 3; Submit 4; Granted; Signal; Work; Work; Work; Granted; Signal; Enter; PollBeforeSleep; Work; Work; Work;
   Enter; PollBeforeSleep; Work; Work].
Abbreviation final := (run (T := Z) (R := list Z) (RC := list (Z * Z)) (S := Z * list (Z * Z)) (fun x => x * x) sys_new [] events).

Definition final_state := match final with Ok (s, _) => s | Fault _ => sys_new end.

Lemma final_run : final = Ok (final_state, [3; 4]).
Proof. vm_compute. reflexivity. Qed.


(** Stopped before it reads, the worker leaves the item where it is. *)
Theorem stopped_worker_leaves_item :
  exists s, run (T := Z) (R := list Z) (RC := list (Z * Z)) (S := Z * list (Z * Z)) (fun x => x * x) sys_new [] [Submit 3; Granted; Signal; Stop; Work] = Ok (s, [3]) /\
    worker s = Exited /\ lf_items (_pending (wq s)) = [3] /\ resolved s = [].
Proof. eexists. split; [vm_compute; reflexivity|]. repeat split. Qed.

Lemma barrier_waits_for_all_witness :
  Barriers.shard0_passes (S := Z * list (Z * string)) [2] [1; 3] 4 "b" Barriers.coordinator_new = true <->
    forall sid, 0 < sid < 4 -> sid ∈ [2] ++ [1; 3].
Proof.
  apply (Barriers.barrier_waits_for_all (S := Z * list (Z * string)) [2] [1; 3] 4 "b" Barriers.coordinator_new).
  - apply (bool_decide_unpack _). vm_compute. exact I.
  - apply (bool_decide_unpack _). vm_compute. exact I.
  - apply lookup_empty.
  - lia.
Defined.
End CoordinatorExamples.
