(* ===== verification/ThreadPools.v ===== *)
(** * Pools of threads

    [thread_resource_pool] and [work_thread] (src/include/hiactor/core/thread_resource_pool.hh,
    src/src/core/thread_resource_pool.cc): blocking functions that the shards have run on a
    common pool of worker threads.  [alien_thread_pool] (src/include/hiactor/core/alien_thread_pool.hh,
    src/src/core/alien_thread_pool.cc): threads outside Seastar that drain a queue of tasks.

    [boost::lockfree::queue] is the interface [MpQueue]; a queue of dynamic size always
    accepts a push. *)
From S2P Require Import Prelude.

Class MpQueue (R W : Type) := {
  mp_new : R;
  mp_items : R -> list W;
  mp_push : R -> W -> R;
  mp_pop : R -> option (W * R);
  mp_consume_all : R -> list W * R;
  mp_new_items : mp_items mp_new = [];
  mp_push_spec r w : mp_items (mp_push r w) = mp_items r ++ [w];
  mp_pop_spec r : match mp_pop r with
                  | None => mp_items r = []
                  | Some (w, r') => mp_items r = w :: mp_items r'
                  end;
  mp_consume_spec r : (mp_consume_all r).1 = mp_items r /\ mp_items (mp_consume_all r).2 = []
}.

#[export, refine] Instance list_mp (W : Type) : MpQueue (list W) W := {
  mp_new := [];
  mp_items r := r;
  mp_push r w := r ++ [w];
  mp_pop r := match r with [] => None | w :: r => Some (w, r) end;
  mp_consume_all r := (r, [])
}.
Proof. all: try done. intros [|w r]; done. Defined.

(** A state indexed by shard or by worker. *)
Definition set {A} (f : nat -> A) (i : nat) (a : A) : nat -> A := fun j => if decide (j = i) then a else f j.

Lemma set_at_same {A} (f : nat -> A) i a : set f i a i = a.
Proof. unfold set. now rewrite decide_True. Qed.

Lemma set_at_other {A} (f : nat -> A) i j a : j <> i -> set f i a j = f j.
Proof. intros H. unfold set. now rewrite decide_False. Qed.

(** Everything that lies at the places [0 .. n-1]. *)
Definition gather {A} (n : nat) (f : nat -> list A) : list A := mjoin (f <$> seq 0 n).

Lemma gather_ext {A} n (f g : nat -> list A) : (forall i, (i < n)%nat -> f i = g i) -> gather n f = gather n g.
Proof.
  intros H. unfold gather. f_equal. apply list_fmap_ext. intros i x Hx. apply lookup_seq in Hx as [-> Hx].
  apply H. lia.
Qed.

(** Changing one place. *)
Lemma gather_set {A} n (f : nat -> list A) i l :
  (i < n)%nat -> gather n (set f i l) ++ f i ≡ₚ gather n f ++ l.
Proof.
  intros Hi. unfold gather. replace n with (i + S (n - S i))%nat by lia. rewrite seq_app. cbn [seq]. rewrite Nat.add_0_l.
  rewrite !fmap_app, !join_app. cbn [fmap list_fmap mjoin list_join]. rewrite set_at_same.
  assert (E : forall a k, (a + k <= i \/ i < a)%nat -> set f i l <$> seq a k = f <$> seq a k).
  { intros a k H. apply list_fmap_ext. intros j x Hx. apply lookup_seq in Hx as [-> Hx]. apply set_at_other. lia. }
  rewrite !E by lia. solve_Permutation.
Qed.

Lemma gather_set_fmap {A B} n (h : A -> list B) (f : nat -> A) i a :
  (i < n)%nat -> gather n (fun k => h (set f i a k)) ++ h (f i) ≡ₚ gather n (fun k => h (f k)) ++ h a.
Proof.
  intros Hi. rewrite <-(gather_set n (fun k => h (f k)) i (h a) Hi). f_equiv.
  erewrite gather_ext; [reflexivity|]. intros k _. unfold set. case_decide; [now subst|done].
Qed.

(** Adding to one place. *)
Lemma gather_add {A} n (f g : nat -> list A) i x :
  (i < n)%nat -> (forall j, j <> i -> g j = f j) -> g i ≡ₚ f i ++ x -> gather n g ≡ₚ gather n f ++ x.
Proof.
  intros Hi Hj Hx. apply (Permutation_app_inv_r (f i)).
  assert (E : gather n g = gather n (set f i (g i))).
  { apply gather_ext. intros k _. unfold set. case_decide; [now subst|now apply Hj]. }
  rewrite E, gather_set by done. rewrite Hx. solve_Permutation.
Qed.

(** ** thread_resource_pool *)
Module Resource.
Section Resource.
Context {F T : Type}.

(** [work_item_returning]: the shard it came from and its function; once processed, with
    the result. *)
Record work_item := mk_item { from_shard : nat; func : F }.
Context {RT RC : Type} {MT : MpQueue RT nat} {MC : MpQueue RC (work_item * T)}.
(** What the function returns. *)
Variable call : F -> T.

(** Where a worker thread is in [work()]: blocked in [read]; processing an item; its
    result handed over, not yet back in the pool; back, before the test of the idle flag. *)
Inductive worker_pc := Reading | Processing (wi : work_item) | Returning | Checking.

Record work_thread := mk_thread {
  _work_item : option work_item;
  _start_eventfd : Z;
  _employer_shard : nat;       (* and [_employer], its reactor *)
  pc : worker_pc
}.
Definition work_thread_new : work_thread := mk_thread None 0 0 Reading.

(** A reactor: [try_enter_interrupt_mode] sets the flag before it polls. *)
Inductive reactor_state := Awake | Entering | Asleep.

Record pool := mk {
  _active : bool;
  _worker_num : nat;
  _sleep_duration_in_microseconds : Z;
  _threads : RT;
  _completed : nat -> RC;
  _reactors_idle : nat -> bool;
  workers : nat -> work_thread;
  reactors : nat -> reactor_state;
  resolved : nat -> list (work_item * T)    (* promises set on a shard, in order *)
}.

Definition set_threads r p := mk (_active p) (_worker_num p) (_sleep_duration_in_microseconds p) r (_completed p) (_reactors_idle p) (workers p) (reactors p) (resolved p).
Definition set_completed f p := mk (_active p) (_worker_num p) (_sleep_duration_in_microseconds p) (_threads p) f (_reactors_idle p) (workers p) (reactors p) (resolved p).
Definition set_idle f p := mk (_active p) (_worker_num p) (_sleep_duration_in_microseconds p) (_threads p) (_completed p) f (workers p) (reactors p) (resolved p).
Definition set_workers f p := mk (_active p) (_worker_num p) (_sleep_duration_in_microseconds p) (_threads p) (_completed p) (_reactors_idle p) f (reactors p) (resolved p).
Definition set_reactors f p := mk (_active p) (_worker_num p) (_sleep_duration_in_microseconds p) (_threads p) (_completed p) (_reactors_idle p) (workers p) f (resolved p).
Definition set_resolved f p := mk (_active p) (_worker_num p) (_sleep_duration_in_microseconds p) (_threads p) (_completed p) (_reactors_idle p) (workers p) (reactors p) f.

(** The command line: the options that were given. *)
Record options := mk_options { opt_open : option bool; opt_number : option Z; opt_retry : option Z }.

Definition configure (configs : options) : res pool :=
  let active := default false (opt_open configs) in
  let off := mk false 8 500 mp_new (fun _ => mp_new) (fun _ => false) (fun _ => work_thread_new)
               (fun _ => Awake) (fun _ => []) in
  if (active : bool) then
    let worker_num := default 8 (opt_number configs) in
    _ ← assert (0 <? worker_num);
    let n := Z.to_nat worker_num in
    Ok (mk true n (default 500 (opt_retry configs)) (foldl mp_push mp_new (seq 0 n))
          (fun _ => mp_new) (fun _ => false) (fun _ => work_thread_new) (fun _ => Awake) (fun _ => []))
  else Ok off.

(** [work_thread::submit] *)
Definition submit (sid : nat) (f : F) (wt : work_thread) : work_thread :=
  mk_thread (Some (mk_item sid f)) (_start_eventfd wt + 1) sid (pc wt).

(** One round of the loop in [submit_work]: a thread is popped and given the function;
    [false] when there is none and the shard sleeps before it tries again. *)
Definition try_submit (sid : nat) (f : F) (p : pool) : pool * bool :=
  match mp_pop (_threads p) with
  | Some (k, r) => (set_workers (set (workers p) k (submit sid f (workers p k))) (set_threads r p), true)
  | None => (p, false)
  end.

Definition complete_work_item (wi : work_item) (shard_count : nat) (p : pool) : res pool :=
  _ ← assert (from_shard wi <? shard_count)%nat;
  Ok (set_completed (set (_completed p) (from_shard wi)
        (mp_push (_completed p (from_shard wi)) (wi, call (func wi)))) p).
Definition return_worker (k : nat) (p : pool) : pool := set_threads (mp_push (_threads p) k) p.

Definition set_pc (k : nat) (c : worker_pc) (p : pool) : pool :=
  let wt := workers p k in
  set_workers (set (workers p) k (mk_thread (_work_item wt) (_start_eventfd wt) (_employer_shard wt) c)) p.

(** [exit_interrupt_mode], [wakeup] of a reactor. *)
Definition exit_interrupt_mode (sid : nat) (p : pool) : pool :=
  set_reactors (set (reactors p) sid Awake) (set_idle (set (_reactors_idle p) sid false) p).
Definition enter_interrupt_mode (sid : nat) (p : pool) : pool :=
  set_reactors (set (reactors p) sid Entering) (set_idle (set (_reactors_idle p) sid true) p).
Definition wakeup (sid : nat) (p : pool) : pool :=
  match reactors p sid with Asleep => exit_interrupt_mode sid p | _ => p end.

(** The steps of [work()] on worker [k]. *)
Definition work (shard_count k : nat) (p : pool) : res pool :=
  let wt := workers p k in
  match pc wt with
  | Reading =>
      if _start_eventfd wt =? 0 then Ok p
      else
        wi ← of_option NullDeref (_work_item wt);
        Ok (set_workers (set (workers p) k (mk_thread None 0 (_employer_shard wt) (Processing wi))) p)
  | Processing wi => p ← complete_work_item wi shard_count p; Ok (set_pc k Returning p)
  | Returning => Ok (set_pc k Checking (return_worker k p))
  | Checking =>
      let p := set_pc k Reading p in
      Ok (if _reactors_idle p (_employer_shard wt) then wakeup (_employer_shard wt) p else p)
  end.

Definition poll_queues (sid : nat) (p : pool) : bool * pool :=
  let '(items, r) := mp_consume_all (_completed p sid) in
  (negb (Z.of_nat (length items) =? 0),
   set_resolved (set (resolved p) sid (resolved p sid ++ items)) (set_completed (set (_completed p) sid r) p)).

Definition pure_poll_queues (sid : nat) (p : pool) : bool :=
  match mp_items (_completed p sid) with [] => false | _ => true end.

(** The second half of [thread_resource_pollfn::try_enter_interrupt_mode]. *)
Definition poll_before_sleep (sid : nat) (p : pool) : pool :=
  let '(got, p) := poll_queues sid p in
  if (got : bool) then exit_interrupt_mode sid p else set_reactors (set (reactors p) sid Asleep) p.

(** [stop()]: the threads in the pool are deleted (and joined), the others are not; every
    completion queue must be empty. *)
Fixpoint assert_empty (shards : list nat) (p : pool) : res unit :=
  match shards with
  | [] => Ok tt
  | i :: shards => _ ← assert (negb (pure_poll_queues i p)); assert_empty shards p
  end.
Definition stop (shard_count : nat) (p : pool) : res (list nat * pool) :=
  if _active p then
    let '(ks, r) := mp_consume_all (_threads p) in
    let p := set_threads r p in
    _ ← assert_empty (seq 0 shard_count) p;
    Ok (ks, p)
  else Ok ([], p).

(** ** Shards and worker threads interleaved *)
Inductive event := Submit (sid : nat) (f : F) | Work (k : nat) | Poll (sid : nat) | Enter (sid : nat) | PollBeforeSleep (sid : nat).

Definition awake (sid : nat) (p : pool) : bool := match reactors p sid with Awake => true | _ => false end.

Definition step (shard_count : nat) (p : pool) (ev : event) : res pool :=
  match ev with
  | Submit sid f => Ok (if (sid <? shard_count)%nat && awake sid p then fst (try_submit sid f p) else p)
  | Work k => if (k <? _worker_num p)%nat then work shard_count k p else Ok p
  | Poll sid => Ok (if awake sid p then snd (poll_queues sid p) else p)
  | Enter sid => Ok (if awake sid p then enter_interrupt_mode sid p else p)
  | PollBeforeSleep sid => Ok (match reactors p sid with Entering => poll_before_sleep sid p | _ => p end)
  end.

(** The functions a thread was found for, with their shards. *)
Definition submitted_by (shard_count : nat) (p : pool) (ev : event) : list work_item :=
  match ev with
  | Submit sid f => if (sid <? shard_count)%nat && awake sid p && snd (try_submit sid f p) then [mk_item sid f] else []
  | _ => []
  end.

Fixpoint run (shard_count : nat) (p : pool) (acc : list work_item) (evs : list event) : res (pool * list work_item) :=
  match evs with
  | [] => Ok (p, acc)
  | ev :: evs => p' ← step shard_count p ev; run shard_count p' (acc ++ submitted_by shard_count p ev) evs
  end.

(** ** The invariant *)

(** The work a thread holds. *)
Definition holding (wt : work_thread) : list work_item :=
  option_list (_work_item wt) ++ match pc wt with Processing wi => [wi] | _ => [] end.

(** A thread in the pool has nothing to do; one outside has exactly one item, or has just
    handed over its result. *)
Definition waits (c : worker_pc) : Prop := c = Reading \/ c = Checking.
Definition thread_ok (pooled : bool) (wt : work_thread) : Prop :=
  if pooled then _work_item wt = None /\ _start_eventfd wt = 0 /\ waits (pc wt)
  else match pc wt with
       | Reading | Checking => is_Some (_work_item wt) /\ _start_eventfd wt = 1
       | Processing _ | Returning => _work_item wt = None /\ _start_eventfd wt = 0
       end.

(** The items a shard has back: with results waiting, and with their promises set. *)
Definition back (p : pool) (sid : nat) : list (work_item * T) := mp_items (_completed p sid) ++ resolved p sid.

Record inv (sc n : nat) (p : pool) (sub : list work_item) : Prop := {
  p_num : _worker_num p = n;
  p_nodup : NoDup (mp_items (_threads p));
  p_pool : Forall (fun k => (k < n)%nat) (mp_items (_threads p));
  p_threads : forall k, (k < n)%nat -> thread_ok (bool_decide (k ∈ mp_items (_threads p))) (workers p k);
  p_home : forall k, (k < n)%nat -> Forall (fun wi => (from_shard wi < sc)%nat) (holding (workers p k));
  p_back : forall sid, Forall (fun r => from_shard r.1 = sid /\ r.2 = call (func r.1)) (back p sid);
  p_all : sub ≡ₚ gather n (fun k => holding (workers p k)) ++ gather sc (fun sid => (back p sid).*1)
}.

Ltac pool_facts H := destruct H as [Hnum Hnodup Hpool Hthreads Hhome Hback Hall].

Lemma foldl_push (l : list nat) : forall r : RT, mp_items (foldl mp_push r l) = mp_items r ++ l.
Proof.
  induction l as [|k l IH]; intros r; cbn; [now rewrite app_nil_r|]. rewrite IH, mp_push_spec, <-app_assoc. done.
Qed.

Lemma gather_nil {A} n : gather n (fun _ => []) = ([] : list A).
Proof. unfold gather. generalize (seq 0 n). induction l as [|i l IH]; [done|exact IH]. Qed.

Lemma pool_inv_configure sc n retry :
  0 < n -> exists p, configure (mk_options (Some true) (Some n) retry) = Ok p /\ inv sc (Z.to_nat n) p [].
Proof.
  intros Hn. unfold configure. cbn [default opt_open opt_number opt_retry from_option id].
  rewrite (proj2 (Z.ltb_lt 0 n) Hn). cbn [assert mbind res_bind]. eexists. split; [reflexivity|].
  constructor; cbn; rewrite ?foldl_push, ?mp_new_items; cbn [app].
  - done.
  - apply NoDup_seq.
  - apply Forall_forall. intros x Hx. apply elem_of_seq in Hx. lia.
  - intros k Hk. rewrite bool_decide_true by (apply elem_of_seq; lia). repeat split. now left.
  - constructor.
  - intros sid. unfold back. cbn. rewrite mp_new_items. constructor.
  - unfold holding, back. cbn. rewrite gather_nil. cbn. erewrite gather_ext; [now rewrite gather_nil|].
    intros i _. cbn. now rewrite mp_new_items.
Qed.

Lemma pool_thread_change sc n p sub k wt r :
  inv sc n p sub -> (k < n)%nat -> NoDup (mp_items r) -> Forall (fun k => (k < n)%nat) (mp_items r) ->
  (forall j, j <> k -> j ∈ mp_items r <-> j ∈ mp_items (_threads p)) ->
  thread_ok (bool_decide (k ∈ mp_items r)) wt -> Forall (fun wi => (from_shard wi < sc)%nat) (holding wt) ->
  forall sub', sub' ++ holding (workers p k) ≡ₚ sub ++ holding wt ->
  inv sc n (set_workers (set (workers p) k wt) (set_threads r p)) sub'.
Proof.
  intros H Hk Hnd Hr Hj Hok Hh sub' Hsub. pool_facts H. constructor; cbn; try done.
  - intros j Hjn. destruct (decide (j = k)) as [->|Hne]; [now rewrite set_at_same|]. rewrite set_at_other by done.
    rewrite (bool_decide_ext _ _ (Hj j Hne)). now apply Hthreads.
  - intros j Hjn. destruct (decide (j = k)) as [->|Hne]; [now rewrite set_at_same|]. rewrite set_at_other by done. now apply Hhome.
  - pose proof (gather_set_fmap n holding (workers p) k wt Hk) as G.
    apply (Permutation_app_inv_r (holding (workers p k))). rewrite Hsub, Hall, (Permutation_app_comm _ (holding wt)), app_assoc,
      (Permutation_app_comm (holding wt)), <-G. unfold back. cbn. solve_Permutation.
Qed.

Lemma pool_inv_submit sc n p sub sid f :
  inv sc n p sub -> (sid < sc)%nat ->
  inv sc n (fst (try_submit sid f p)) (sub ++ if snd (try_submit sid f p) then [mk_item sid f] else []).
Proof.
  intros H Hs. unfold try_submit. pose proof (mp_pop_spec (_threads p)) as Hp.
  destruct (mp_pop (_threads p)) as [[k r]|]; cbn [fst snd]; [|now rewrite app_nil_r].
  pose proof H as H'. pool_facts H'. rewrite Hp in Hnodup, Hpool.
  apply NoDup_cons in Hnodup as [Hni Hnd]. apply Forall_cons in Hpool as [Hk Hr].
  pose proof (Hthreads k Hk) as Hok. rewrite Hp, bool_decide_true in Hok by left. destruct Hok as (Hw & He & Hc).
  apply (pool_thread_change sc n p sub); try done.
  - intros j Hne. rewrite Hp, elem_of_cons. split; [now right|]. now intros [?|?].
  - rewrite bool_decide_false by done. unfold submit, thread_ok. cbn. rewrite He. destruct Hc as [->| ->]; split; eauto.
  - unfold holding, submit. cbn. destruct Hc as [->| ->]; now repeat constructor.
  - unfold holding, submit. cbn. rewrite Hw. destruct Hc as [->| ->]; cbn; now rewrite app_nil_r.
Qed.

(** A step of worker [k] that neither loses nor gains work. *)
Lemma pool_thread_step sc n p sub k wt r :
  inv sc n p sub -> (k < n)%nat -> NoDup (mp_items r) -> Forall (fun k => (k < n)%nat) (mp_items r) ->
  (forall j, j <> k -> j ∈ mp_items r <-> j ∈ mp_items (_threads p)) ->
  thread_ok (bool_decide (k ∈ mp_items r)) wt -> holding wt = holding (workers p k) ->
  inv sc n (set_workers (set (workers p) k wt) (set_threads r p)) sub.
Proof.
  intros H Hk Hnd Hr Hj Hok Hh. eapply pool_thread_change; try done.
  - rewrite Hh. now apply (p_home _ _ _ _ H).
  - now rewrite Hh.
Qed.

Lemma set_threads_id p : set_threads (_threads p) p = p.
Proof. now destruct p. Qed.

Lemma pool_inv_read sc n p sub k :
  inv sc n p sub -> (k < n)%nat -> pc (workers p k) = Reading ->
  exists p', work sc k p = Ok p' /\ inv sc n p' sub.
Proof.
  intros H Hk Ep. pose proof (p_threads _ _ _ _ H k Hk) as Hok. unfold work, thread_ok in *. rewrite Ep in *.
  destruct (_start_eventfd (workers p k) =? 0) eqn:E0; [eauto|]. apply Z.eqb_neq in E0.
  case_bool_decide as Hin; [lia|].
  destruct Hok as ([wi Hwi] & He). rewrite Hwi. cbn [of_option mbind res_bind]. eexists. split; [reflexivity|].
  pose proof (p_nodup _ _ _ _ H); pose proof (p_pool _ _ _ _ H). rewrite <-(set_threads_id p) at 2. apply (pool_thread_step sc n p sub); try done.
  - now rewrite bool_decide_false by done.
  - unfold holding. now rewrite Hwi, Ep.
Qed.

Lemma pool_inv_process sc n p sub k wi :
  inv sc n p sub -> (k < n)%nat -> pc (workers p k) = Processing wi ->
  exists p', work sc k p = Ok p' /\ inv sc n p' sub.
Proof.
  intros H Hk Ep. pool_facts H. pose proof (Hthreads k Hk) as Hok. unfold work, thread_ok in *. rewrite Ep in *.
  case_bool_decide as Hin; [destruct Hok as (_ & _ & [?|?]); congruence|]. destruct Hok as [Hw He].
  pose proof (Hhome k Hk) as Hh. unfold holding in Hh. rewrite Hw, Ep in Hh. apply Forall_cons in Hh as [Hwi _].
  unfold complete_work_item. rewrite (proj2 (Nat.ltb_lt _ _) Hwi). cbn [assert mbind res_bind].
  eexists. split; [reflexivity|]. unfold set_pc. cbn [workers set_completed]. rewrite Hw. set (p' := set_workers _ _).
  assert (Hb : forall sid, back p' sid = if decide (sid = from_shard wi)
    then (mp_items (_completed p sid) ++ [(wi, call (func wi))]) ++ resolved p sid else back p sid).
  { intros sid. unfold back. cbn. unfold set. case_decide; [subst sid; now rewrite mp_push_spec|done]. }
  constructor; cbn; try done.
  - intros j Hj. destruct (decide (j = k)) as [->|Hne]; [|rewrite set_at_other by done; now apply Hthreads].
    rewrite set_at_same, bool_decide_false by done. done.
  - intros j Hj. destruct (decide (j = k)) as [->|Hne]; [|rewrite set_at_other by done; now apply Hhome].
    rewrite set_at_same. constructor.
  - intros sid. rewrite Hb. case_decide as Hd; [subst sid|apply Hback].
    specialize (Hback (from_shard wi)). apply Forall_app in Hback as [H1 H2]. rewrite !Forall_app, Forall_singleton. done.
  - rewrite Hall. rewrite (gather_add sc (fun sid => (back p sid).*1) (fun sid => (back p' sid).*1) (from_shard wi) [wi]); [|done|..].
    + rewrite (gather_add n (fun i => holding (set (workers p) k (mk_thread None (_start_eventfd (workers p k))
        (_employer_shard (workers p k)) Returning) i)) (fun i => holding (workers p i)) k [wi]); [|done|..].
      * solve_Permutation.
      * intros j Hne. now rewrite set_at_other.
      * rewrite set_at_same. unfold holding. now rewrite Hw, Ep.
    + intros j Hne. rewrite Hb, decide_False by done. done.
    + rewrite Hb, decide_True by done. unfold back. rewrite !fmap_app. cbn. solve_Permutation.
Qed.

Lemma pool_inv_return sc n p sub k :
  inv sc n p sub -> (k < n)%nat -> pc (workers p k) = Returning ->
  exists p', work sc k p = Ok p' /\ inv sc n p' sub.
Proof.
  intros H Hk Ep. pose proof (p_threads _ _ _ _ H k Hk) as Hok. unfold work, thread_ok in *. rewrite Ep in *.
  case_bool_decide as Hin; [destruct Hok as (_ & _ & [?|?]); congruence|]. destruct Hok as [Hw He].
  pose proof (p_nodup _ _ _ _ H) as Hnd; pose proof (p_pool _ _ _ _ H) as Hr. eexists. split; [reflexivity|].
  unfold set_pc, return_worker. cbn [workers set_threads]. apply (pool_thread_step sc n p sub); rewrite ?mp_push_spec; try done.
  - apply NoDup_app. split; [done|]. split; [|apply NoDup_singleton]. intros x Hx ->%list_elem_of_singleton. done.
  - now apply Forall_app_2, Forall_singleton.
  - intros j Hne. rewrite elem_of_app, list_elem_of_singleton. tauto.
  - rewrite bool_decide_true by (apply elem_of_app; right; now apply list_elem_of_singleton). split; [done|].
    split; [done|]. now right.
  - unfold holding. cbn. now rewrite Ep.
Qed.

Lemma pool_inv_wakeup sc n p sub sid : inv sc n p sub -> inv sc n (wakeup sid p) sub.
Proof. intros H. unfold wakeup. case_match; try done. pool_facts H. now constructor. Qed.

Lemma pool_inv_check sc n p sub k :
  inv sc n p sub -> (k < n)%nat -> pc (workers p k) = Checking ->
  exists p', work sc k p = Ok p' /\ inv sc n p' sub.
Proof.
  intros H Hk Ep. pose proof (p_threads _ _ _ _ H k Hk) as Hok. unfold work, thread_ok in *. rewrite Ep in *.
  eexists. split; [reflexivity|].
  assert (H1 : inv sc n (set_pc k Reading p) sub).
  { pose proof (p_nodup _ _ _ _ H); pose proof (p_pool _ _ _ _ H). unfold set_pc. rewrite <-(set_threads_id p) at 5.
    apply (pool_thread_step sc n p sub); try done.
    - unfold thread_ok. case_bool_decide; [|done]. destruct Hok as (? & ? & _). repeat split; try done. now left.
    - unfold holding. cbn. now rewrite Ep. }
  destruct (_reactors_idle _ _); [|done]. now apply pool_inv_wakeup.
Qed.

Lemma pool_inv_poll sc n p sub sid : inv sc n p sub -> inv sc n (snd (poll_queues sid p)) sub.
Proof.
  intros H. pool_facts H. unfold poll_queues. destruct (mp_consume_spec (_completed p sid)) as [H1 H2].
  destruct (mp_consume_all (_completed p sid)) as [items r]. cbn [fst snd] in *. subst items. set (p' := set_resolved _ _).
  assert (Hb : forall s, (back p' s) ≡ₚ back p s).
  { intros s. unfold back. cbn. unfold set. case_decide; [subst s|done]. rewrite H2. cbn. apply Permutation_app_comm. }
  constructor; cbn; try done.
  - intros s. rewrite Hb. apply Hback.
  - rewrite Hall. f_equiv. unfold gather. induction (seq 0 sc) as [|s l IH]; [done|].
    change ((back p s).*1 ++ mjoin ((fun s => (back p s).*1) <$> l) ≡ₚ (back p' s).*1 ++ mjoin ((fun s => (back p' s).*1) <$> l)).
    now rewrite IH, Hb.
Qed.

Lemma pool_inv_step sc n p sub ev :
  inv sc n p sub -> exists p', step sc p ev = Ok p' /\ inv sc n p' (sub ++ submitted_by sc p ev).
Proof.
  intros H. assert (H0 : inv sc n p (sub ++ [])) by now rewrite app_nil_r.
  destruct ev as [sid f|k|sid|sid|sid]; cbn [step submitted_by].
  - eexists. split; [reflexivity|]. destruct (Nat.ltb_spec sid sc) as [Hs|Hs]; cbn [andb]; [|done].
    destruct (awake sid p); cbn [andb]; [|done]. now apply pool_inv_submit.
  - rewrite app_nil_r. rewrite (p_num _ _ _ _ H). destruct (Nat.ltb_spec k n) as [Hk|Hk]; [|eauto].
    destruct (pc (workers p k)) eqn:Ep; [now apply pool_inv_read|eapply pool_inv_process; [exact H|exact Hk|exact Ep]|now apply pool_inv_return|now apply pool_inv_check].
  - eexists. split; [reflexivity|]. rewrite app_nil_r. destruct (awake sid p); [now apply pool_inv_poll|done].
  - eexists. split; [reflexivity|]. rewrite app_nil_r. destruct (awake sid p); [|done]. pool_facts H. now constructor.
  - eexists. split; [reflexivity|]. rewrite app_nil_r. destruct (reactors p sid); [done| |done].
    unfold poll_before_sleep. pose proof (pool_inv_poll sc n p sub sid H) as Hp. destruct (poll_queues sid p) as [got p1].
    cbn in Hp. pool_facts Hp. destruct got; now constructor.
Qed.

Lemma pool_run_inv sc n evs : forall p sub, inv sc n p sub -> exists p' sub', run sc p sub evs = Ok (p', sub') /\ inv sc n p' sub'.
Proof.
  induction evs as [|ev evs IH]; intros p sub H; cbn [run]; [eauto|].
  destruct (pool_inv_step sc n p sub ev H) as (p' & E & H'). rewrite E. cbn [mbind res_bind]. now apply IH.
Qed.

(** C30: Whatever shards and worker threads do and in whatever order, no work is lost, done
    twice or given to a thread that still has some: every function a thread was found for
    is held by exactly one thread or is back, with the value it returned, on the shard
    that submitted it.  A thread in the pool holds nothing. *)
Theorem pool_work_conserved sc n retry evs :
  0 < n ->
  exists p0 p sub, configure (mk_options (Some true) (Some n) retry) = Ok p0 /\ run sc p0 [] evs = Ok (p, sub) /\
    sub ≡ₚ gather (Z.to_nat n) (fun k => holding (workers p k)) ++ gather sc (fun sid => (back p sid).*1) /\
    (forall sid, Forall (fun r => from_shard r.1 = sid /\ r.2 = call (func r.1)) (back p sid)) /\
    NoDup (mp_items (_threads p)) /\
    (forall k, k ∈ mp_items (_threads p) -> holding (workers p k) = []).
Proof.
  intros Hn. destruct (pool_inv_configure sc n retry Hn) as (p0 & E0 & H0).
  destruct (pool_run_inv sc _ evs p0 [] H0) as (p & sub & E & H). exists p0, p, sub. split; [exact E0|]. split; [exact E|].
  pool_facts H. split; [done|]. split; [done|]. split; [done|]. intros k Hk.
  pose proof (proj1 (Forall_forall _ _) Hpool k Hk) as Hkn. specialize (Hthreads k Hkn).
  rewrite bool_decide_true in Hthreads by done. destruct Hthreads as (Hw & _ & [Hc|Hc]); unfold holding; now rewrite Hw, Hc.
Qed.

(** [stop] deletes the threads that are in the pool; one that is still busy is neither
    stopped nor joined, and its result goes to a queue that nobody polls. *)
Theorem stop_leaves_busy_threads sc n p sub ks p' :
  inv sc n p sub -> _active p = true -> stop sc p = Ok (ks, p') ->
  forall k, (k < n)%nat -> holding (workers p k) <> [] -> k ∉ ks /\ workers p' k = workers p k.
Proof.
  intros H Ha E k Hk Hh. unfold stop in E. rewrite Ha in E. destruct (mp_consume_spec (_threads p)) as [H1 _].
  destruct (mp_consume_all (_threads p)) as [ks' r]. cbn in H1. res_inv. injection E as <- <-. split; [|done].
  intros Hin. pool_facts H. specialize (Hthreads k Hk). rewrite bool_decide_true in Hthreads by done.
  apply Hh. destruct Hthreads as (Hw & _ & [Hc|Hc]); unfold holding; now rewrite Hw, Hc.
Qed.
End Resource.
End Resource.

(** ** The wakeup that goes to the wrong shard

    One thread, two shards.  Shard 0 submits work and goes to sleep; the thread hands the
    result over and returns to the pool; shard 1 takes it before the thread has read
    [_employer_shard] for the test of the idle flag. *)
Module ResourceExamples.
Import Resource.
Abbreviation queues := (list (work_item (F := Z) * Z)).
Abbreviation run2 := (run (F := Z) (T := Z) (RT := list nat) (RC := queues) (fun x => x * x) 2).

Definition pool1 : res (pool (F := Z) (T := Z) (RT := list nat) (RC := queues)) :=
  configure (mk_options (Some true) (Some 1) None).

Definition race : list (event (F := Z)) :=
  [Submit 0 3; Work 0; Enter 0; PollBeforeSleep 0; Work 0; Work 0; Submit 1 5; Work 0;
   Work 0; Work 0; Work 0; Work 0; Poll 1].

(** What is seen of the pool afterwards. *)
Definition observed (r : res (pool (F := Z) (T := Z) (RT := list nat) (RC := queues) * list (work_item (F := Z)))) :=
  match r with
  | Ok (p, sub) => Some (reactors p 0%nat, _completed p 0%nat, workers p 0%nat, resolved p 1%nat, sub)
  | Fault _ => None
  end.

Lemma observed_race :
  observed (p0 ← pool1; run2 p0 [] race) =
  Some (Asleep, [(mk_item 0 3, 9)], mk_thread None 0 1 Reading, [(mk_item 1 5, 25)], [mk_item 0 3; mk_item 1 5]).
Proof. vm_compute. reflexivity. Qed.

(** The thread tests the idle flag of its present employer, not of the shard whose
    result it just handed over: shard 0 sleeps on with its result in the queue while no
    thread has anything left to do. *)
Theorem employer_race_loses_wakeup :
  exists p, (p0 ← pool1; run2 p0 [] race) = Ok (p, [mk_item 0 3; mk_item 1 5]) /\
    reactors p 0 = Asleep /\ _completed p 0 = [(mk_item 0 3, 9)] /\
    pc (workers p 0) = Reading /\ _start_eventfd (workers p 0) = 0 /\ resolved p 1 = [(mk_item 1 5, 25)].
Proof.
  pose proof observed_race as H. destruct (p0 ← pool1; run2 p0 [] race) as [[p sub]|]; [|discriminate H].
  cbn [observed] in H. injection H as H1 H2 H3 H4 H5. exists p. rewrite H1, H2, H3, H4, H5. done.
Qed.

Lemma pool_work_conserved_witness :
  exists p0 p sub, pool1 = Ok p0 /\ run2 p0 [] race = Ok (p, sub) /\
    sub ≡ₚ gather 1 (fun k => holding (workers p k)) ++ gather 2 (fun sid => (back p sid).*1).
Proof.
  destruct (pool_work_conserved (T := Z) (RT := list nat) (RC := queues) (fun x => x * x) 2 1 None race)
    as (p0 & p & sub & E0 & E & H & _); [lia|]. exists p0, p, sub. split; [exact E0|]. split; [exact E|exact H].
Defined.
End ResourceExamples.

(** ** alien_thread_pool *)
Module Alien.
Section Alien.
Context {Task : Type}.

(** [task_queue]; its mutex makes each operation one step. *)
Abbreviation task_queue := (list Task).
Definition next_task (q : task_queue) : option Task * task_queue :=
  match q with [] => (None, []) | t :: q => (Some t, q) end.
Definition add_task (nt : Task) (q : task_queue) : task_queue := q ++ [nt].
(** [~task_queue()] asserts that no task is left. *)
Definition task_queue_destroy (q : task_queue) : res unit := assert (match q with [] => true | _ => false end).

(** A thread in [thread_routine]: about to take a task, running one, gone. *)
Inductive thread := Fetching | Running (task : Task) | Gone.

Record alien_thread_pool := mk {
  _queue : task_queue;
  _threads : list thread;
  started : list Task       (* the tasks whose [run] was called, in order *)
}.

(** Construction; [initialize_and_run] creates the threads. *)
Definition alien_thread_pool_new : alien_thread_pool := mk [] [] [].
Definition initialize_and_run (num_threads : nat) (p : alien_thread_pool) : alien_thread_pool :=
  mk (_queue p) (replicate num_threads Fetching) (started p).
Definition pool_add_task (t : Task) (p : alien_thread_pool) : alien_thread_pool :=
  mk (add_task t (_queue p)) (_threads p) (started p).

(** [thread_routine]: a thread that finds the queue empty exits. *)
Definition thread_routine (i : nat) (p : alien_thread_pool) : alien_thread_pool :=
  match _threads p !! i with
  | Some Fetching =>
      match next_task (_queue p) with
      | (Some task, q) => mk q (<[i := Running task]> (_threads p)) (started p ++ [task])
      | (None, q) => mk q (<[i := Gone]> (_threads p)) (started p)
      end
  | Some (Running _) => mk (_queue p) (<[i := Fetching]> (_threads p)) (started p)
  | _ => p
  end.

(** [~alien_thread_pool()] joins every thread (here: they have exited), then the members
    go. *)
Definition joined (p : alien_thread_pool) : bool := forallb (fun t => match t with Gone => true | _ => false end) (_threads p).
Definition alien_thread_pool_destroy (p : alien_thread_pool) : res unit := task_queue_destroy (_queue p).

Inductive event := Add (t : Task) | Thread (i : nat).
Definition step (p : alien_thread_pool) (ev : event) : alien_thread_pool :=
  match ev with Add t => pool_add_task t p | Thread i => thread_routine i p end.
Fixpoint run (evs : list event) (p : alien_thread_pool) : alien_thread_pool :=
  match evs with [] => p | ev :: evs => run evs (step p ev) end.
Fixpoint added (evs : list event) : list Task :=
  match evs with [] => [] | Add t :: evs => t :: added evs | Thread _ :: evs => added evs end.

(** Every task added is started once, in the order of addition, or still in the queue. *)
Theorem tasks_start_in_order evs : forall p,
  started (run evs p) ++ _queue (run evs p) = started p ++ _queue p ++ added evs.
Proof.
  induction evs as [|[t|i] evs IH]; intros p; cbn [run added step].
  - now rewrite app_nil_r.
  - rewrite IH. cbn. unfold add_task. now rewrite <-app_assoc.
  - rewrite IH, app_assoc, (app_assoc (started p)). f_equal. unfold thread_routine, next_task.
    destruct (_threads p !! i) as [[|task|]|]; try done. destruct (_queue p); cbn; [done|]. now rewrite <-app_assoc.
Qed.

(** A thread that is gone found the queue empty, and without further additions the queue
    stays empty. *)
Lemma gone_queue evs : forall p,
  Forall (fun ev => match ev with Thread _ => True | _ => False end) evs ->
  (Gone ∈ _threads p -> _queue p = []) -> Gone ∈ _threads (run evs p) -> _queue (run evs p) = [].
Proof.
  induction evs as [|ev evs IH]; intros p Hf Hp; cbn [run]; [exact Hp|].
  apply Forall_cons in Hf as [Hev Hf]. destruct ev as [t|i]; [done|]. apply IH; [done|]. cbn [step]. clear IH.
  unfold thread_routine, next_task. destruct (_threads p !! i) as [[|task|]|] eqn:E; [..|exact Hp].
  - destruct (_queue p) as [|t q] eqn:Eq; cbn; [done|]. intros Hin. exfalso.
    apply list_elem_of_lookup in Hin as [j Hj]. destruct (decide (j = i)) as [->|Hne].
    + rewrite list_lookup_insert_eq in Hj by (eapply lookup_lt_Some; exact E). done.
    + rewrite list_lookup_insert_ne in Hj by done. specialize (Hp (list_elem_of_lookup_2 _ _ _ Hj)). done.
  - cbn. intros Hin. apply Hp. apply list_elem_of_lookup in Hin as [j Hj]. destruct (decide (j = i)) as [->|Hne].
    + rewrite list_lookup_insert_eq in Hj by (eapply lookup_lt_Some; exact E). done.
    + rewrite list_lookup_insert_ne in Hj by done. eapply list_elem_of_lookup_2. exact Hj.
  - exact Hp.
Qed.

(** Tasks that were all added before the threads were created have been started by the
    time one thread has exited: destroying the pool passes its assertion. *)
Theorem pool_drains tasks n evs :
  Forall (fun ev => match ev with Thread _ => True | _ => False end) evs ->
  let p := run evs (initialize_and_run (S n) (run (Add <$> tasks) alien_thread_pool_new)) in
  joined p = true -> started p = tasks /\ alien_thread_pool_destroy p = Ok tt.
Proof.
  intros Hf p Hj.
  assert (Hlen : forall l q, length (_threads (run l q)) = length (_threads q)).
  { induction l as [|ev l IH]; intros q; cbn [run]; [done|]. rewrite IH. destruct ev as [t|i]; [done|]. cbn [step].
    unfold thread_routine. destruct (_threads q !! i) as [[| |]|]; try done; [destruct (next_task _) as [[|] ]|];
      cbn; now rewrite ?length_insert. }
  assert (Hstart : forall l q, started (run (Add <$> l) q) = started q /\ _queue (run (Add <$> l) q) = _queue q ++ l).
  { induction l as [|t l IH]; intros q; cbn; [now rewrite app_nil_r|]. destruct (IH (pool_add_task t q)) as [-> ->].
    cbn. unfold add_task. now rewrite <-app_assoc. }
  assert (Hq : _queue p = []).
  { apply gone_queue; [done|intros H; cbn [initialize_and_run _threads] in H; now apply elem_of_replicate in H as [? _]|].
    assert (Hl : length (_threads p) = S n) by (unfold p; rewrite Hlen; cbn; now rewrite length_replicate).
    unfold joined in Hj. fold p. destruct (_threads p) as [|t l]; [done|]. cbn in Hj. apply andb_prop in Hj as [Ht _].
    destruct t; [done|done|]. left. }
  split; [|unfold alien_thread_pool_destroy; now rewrite Hq].
  pose proof (tasks_start_in_order evs (initialize_and_run (S n) (run (Add <$> tasks) alien_thread_pool_new))) as H.
  fold p in H. rewrite Hq, app_nil_r in H. rewrite H. cbn. destruct (Hstart tasks alien_thread_pool_new) as [-> ->]. cbn.
  assert (added evs = []) as ->; [|now rewrite app_nil_r].
  clear -Hf. induction Hf as [|ev evs Hev _ IH]; [done|]. destruct ev; [done|exact IH].
Qed.

(** A task added after the threads found the queue empty is never run, and the pool's
    destruction fails its assertion. *)
Theorem late_task_never_runs t evs :
  let p := run (Thread 0 :: Add t :: (Thread <$> evs)) (initialize_and_run 1 alien_thread_pool_new) in
  started p = [] /\ alien_thread_pool_destroy p = Fault AssertFail.
Proof.
  cbn. unfold thread_routine. cbn. set (p := mk [t] [Gone] []).
  assert (E : run (Thread <$> evs) p = p).
  { induction evs as [|i evs IH]; [done|]. cbn. unfold thread_routine at 1. cbn.
    destruct i as [|[|i]]; cbn; exact IH. }
  change (pool_add_task t (mk [] [Gone] [])) with p. rewrite E. done.
Qed.
End Alien.
End Alien.
