(* ===== verification/Startup.v ===== *)
(** * Starting and stopping the network of a machine

    [network_io] (src/include/hiactor/net/network_io.hh, src/src/net/network_io.cc),
    [entry] (src/include/hiactor/net/entry.hh) and the two sides of
    [connection_manager] (src/include/hiactor/net/connection.hh, src/src/net/connection.cc):
    the shards of a machine accept connections from the machines with higher ids and
    connect to those with lower ids.

    What Seastar decides is an event or an argument: which shard accepts a connection
    and when, when a call submitted to another shard runs there, when a timeout fires,
    whether and in which order connection attempts succeed. *)
From S2P Require Import Prelude Bytes Address BufferQueue SerializableQueue DataType Message.
From S2P Require Import NetworkConfig RoutingTable DynamicQueue Connection.

(** ** entry: an object constructed on demand *)
Module Entry.
Section Entry.
Context {T : Type}.

(** [o]: the object constructed in the union's storage, when there is one. *)
Record entry := mk_entry { _empty : bool; o : option T }.
Definition entry_new : entry := mk_entry true None.

(** [init]: whether an object was constructed. *)
Definition init (t : T) (e : entry) : bool * entry :=
  if _empty e then (true, mk_entry false (Some t)) else (false, e).

(** [finalize]: the object whose destructor ran. *)
Definition finalize (e : entry) : res (option T * entry) :=
  if negb (_empty e) then t ← of_option Uninit (o e); Ok (Some t, mk_entry true None)
  else Ok (None, e).

(** [o.t] *)
Definition get (e : entry) : res T := of_option Uninit (o e).

(** [entries_deleter]: the destructors of [entry] and of its union are empty, so these
    objects are never destroyed. *)
Definition entries_deleter (es : list entry) : list T := es ≫= (fun e => option_list (o e)).

Inductive op := Init (t : T) | Finalize.
(** The objects constructed and the objects destroyed. *)
Definition step (e : entry) (x : op) : res (list T * list T * entry) :=
  match x with
  | Init t => let '(b, e) := init t e in Ok (if (b : bool) then [t] else [], [], e)
  | Finalize => '(d, e) ← finalize e; Ok ([], option_list d, e)
  end.
Fixpoint run (e : entry) (ops : list op) : res (list T * list T * entry) :=
  match ops with
  | [] => Ok ([], [], e)
  | x :: ops =>
      '(c1, d1, e) ← step e x; '(c2, d2, e) ← run e ops; Ok (c1 ++ c2, d1 ++ d2, e)
  end.

Definition entry_ok (e : entry) : Prop := _empty e = bool_decide (o e = None).

Lemma entry_step e x :
  entry_ok e -> exists c d e', step e x = Ok (c, d, e') /\ entry_ok e' /\ option_list (o e) ++ c = d ++ option_list (o e').
Proof.
  destruct e as [em ob]. unfold entry_ok. cbn. destruct x as [t|]; destruct ob as [t'|]; cbn; intros ->;
    do 3 eexists; (split; [reflexivity|]); cbn; now rewrite ?app_nil_r.
Qed.

(** Whatever the order of [init] and [finalize], nothing is destroyed that was not
    constructed, nothing twice, and at most one object is alive. *)
Theorem entry_balanced ops : forall e, entry_ok e ->
  exists c d e', run e ops = Ok (c, d, e') /\ entry_ok e' /\ option_list (o e) ++ c = d ++ option_list (o e').
Proof.
  induction ops as [|x ops IH]; intros e H; cbn [run].
  - exists [], [], e. cbn. now rewrite app_nil_r.
  - destruct (entry_step e x H) as (c1 & d1 & e1 & -> & H1 & B1). cbn [mbind res_bind].
    destruct (IH e1 H1) as (c2 & d2 & e2 & -> & H2 & B2). cbn [mbind res_bind].
    do 3 eexists. split; [reflexivity|]. split; [done|]. now rewrite app_assoc, B1, <-app_assoc, B2, app_assoc.
Qed.

End Entry.
Arguments entry : clear implicits.
Arguments op : clear implicits.
End Entry.

(** ** The server side: accepting connections on every shard *)
Module Server.
Section Server.
Context {C : Type}.

(** The accept loop of a shard: at [accept()]; waiting for the other shards to abort
    theirs; ended. *)
Inductive loop_state := Accepting | Aborting | Ended.

Record server_side := mk_server {
  loop : loop_state;
  accept_aborted : bool;           (* [abort_accept] was called on its listener *)
  timed_out : bool;                (* [with_timeout] gave up on the loop *)
  failed : bool;                   (* its [accept()] failed without being aborted *)
  _holder : list (Z * C)
}.

(** The servers of a machine: [num_total_conns] is shared, [aborts] are the calls
    submitted to other shards that did not run yet, with the shard that waits for them. *)
Record servers := mk_servers {
  num_total_conns : Z;
  shards : list server_side;
  aborts : list (nat * nat)
}.

(** [optional_listen] on [n] shards, waiting for [init_ntc] connections. *)
Definition optional_listen (n : nat) (init_ntc : Z) : servers :=
  mk_servers init_ntc (replicate n (mk_server (if init_ntc =? 0 then Ended else Accepting) false false false [])) [].

Definition others (n c : nat) : list nat := filter (fun k => k <> c) (seq 0 n).

(** A connection is accepted on shard [c]. *)
Definition accept (c : nat) (conn : C) (s : servers) : res servers :=
  sh ← of_option OutOfBounds (shards s !! c);
  match loop sh, accept_aborted sh with
  | Accepting, false =>
      let holder := _holder sh ++ [(0, conn)] in
      let cur_total_remains := u32 (num_total_conns s - 1) in
      let sh' := fun l => mk_server l false (timed_out sh) (failed sh) holder in
      if cur_total_remains =? 0 then
        Ok (mk_servers cur_total_remains (<[c := sh' Aborting]> (shards s))
              (aborts s ++ ((fun k => (c, k)) <$> others (length (shards s)) c)))
      else Ok (mk_servers cur_total_remains (<[c := sh' Accepting]> (shards s)) (aborts s))
  | _, _ => Ok s
  end.

(** One of the submitted calls runs, [abort_accept] on its shard: the shards run independently of each other. *)
Definition run_abort (i : nat) (s : servers) : res servers :=
  match aborts s !! i with
  | None => Ok s
  | Some (_, k) =>
      sh ← of_option OutOfBounds (shards s !! k);
      Ok (mk_servers (num_total_conns s) (<[k := mk_server (loop sh) true (timed_out sh) (failed sh) (_holder sh)]> (shards s)) (delete i (aborts s)))
  end.

(** [accept()] fails on shard [c] for a reason of its own: the handler ends the loop. *)
Definition accept_fails (c : nat) (s : servers) : res servers :=
  sh ← of_option OutOfBounds (shards s !! c);
  match loop sh, accept_aborted sh with
  | Accepting, false => Ok (mk_servers (num_total_conns s) (<[c := mk_server Ended false (timed_out sh) true (_holder sh)]> (shards s)) (aborts s))
  | _, _ => Ok s
  end.

(** The aborted [accept()] of shard [c] fails, or the calls it waits for are done: its loop ends. *)
Definition may_end (c : nat) (sh : server_side) (s : servers) : bool :=
  match loop sh with
  | Accepting => accept_aborted sh
  | Aborting => bool_decide (c ∉ (aborts s).*1)
  | Ended => false
  end.
Definition end_loop (c : nat) (s : servers) : res servers :=
  sh ← of_option OutOfBounds (shards s !! c);
  if may_end c sh s then
    Ok (mk_servers (num_total_conns s) (<[c := mk_server Ended (accept_aborted sh) (timed_out sh) (failed sh) (_holder sh)]> (shards s)) (aborts s))
  else Ok s.

(** The timeout of shard [c] fires while its loop runs; the loop goes on. *)
Definition time_out (c : nat) (s : servers) : res servers :=
  sh ← of_option OutOfBounds (shards s !! c);
  match loop sh with
  | Ended => Ok s
  | _ => Ok (mk_servers (num_total_conns s) (<[c := mk_server (loop sh) (accept_aborted sh) true (failed sh) (_holder sh)]> (shards s)) (aborts s))
  end.

Inductive event := Accept (c : nat) (conn : C) | AcceptFails (c : nat) | RunAbort (i : nat) | EndLoop (c : nat) | TimeOut (c : nat).

Definition step (s : servers) (ev : event) : res servers :=
  match ev with
  | Accept c conn => if (c <? length (shards s))%nat then accept c conn s else Ok s
  | AcceptFails c => if (c <? length (shards s))%nat then accept_fails c s else Ok s
  | RunAbort i => run_abort i s
  | EndLoop c => if (c <? length (shards s))%nat then end_loop c s else Ok s
  | TimeOut c => if (c <? length (shards s))%nat then time_out c s else Ok s
  end.
Fixpoint run (s : servers) (evs : list event) : res servers :=
  match evs with
  | [] => Ok s
  | ev :: evs => s ← step s ev; run s evs
  end.

(** The connections accepted so far, on all shards. *)
Definition accepted (s : servers) : list (Z * C) := mjoin (_holder <$> shards s).
Definition total (s : servers) : Z := Z.of_nat (length (accepted s)).

(** A shard that listens, unless its [accept()] failed. *)
Definition listening (sh : server_side) : Prop := loop sh = Accepting /\ accept_aborted sh = false \/ loop sh = Ended /\ failed sh = true.
(** What happens to shard [c] once all connections were accepted. *)
Definition told (s : servers) (c : nat) (sh : server_side) : Prop :=
  loop sh = Ended \/ loop sh = Aborting \/ accept_aborted sh = true \/ c ∈ (aborts s).*2.

Record inv (n : nat) (w : Z) (s : servers) : Prop := {
  i_len : length (shards s) = n;
  i_count : num_total_conns s = u32 (w - total s);
  i_targets : Forall (fun p => p.1 < n /\ p.2 < n /\ p.1 <> p.2)%nat (aborts s);
  i_ids : Forall (fun p => p.1 = 0) (accepted s);
  i_before : total s < w -> aborts s = [] /\ Forall listening (shards s);
  i_after : w <= total s -> forall c sh, shards s !! c = Some sh -> told s c sh
}.

Lemma accepted_same (shs : list server_side) c sh sh' :
  shs !! c = Some sh -> _holder sh' = _holder sh -> _holder <$> <[c := sh']> shs = _holder <$> shs.
Proof. intros H E. rewrite list_fmap_insert, E. apply list_insert_id. now rewrite list_lookup_fmap, H. Qed.

Lemma accepted_push (shs : list server_side) c sh sh' x :
  shs !! c = Some sh -> _holder sh' = _holder sh ++ [x] ->
  mjoin (_holder <$> <[c := sh']> shs) ≡ₚ mjoin (_holder <$> shs) ++ [x].
Proof. intros H E. rewrite list_fmap_insert, E. apply join_push. now rewrite list_lookup_fmap, H. Qed.

Lemma others_spec n c k : k ∈ others n c <-> (k < n)%nat /\ k <> c.
Proof. unfold others. rewrite list_elem_of_filter, elem_of_seq. lia. Qed.

Lemma inv_listen n w : 0 <= w < 4294967296 -> inv n w (optional_listen n w).
Proof.
  intros Hw. assert (Ht : accepted (optional_listen n w) = []).
  { unfold accepted, optional_listen. cbn. generalize (if w =? 0 then Ended else Accepting). intros l.
    induction n; cbn; auto. }
  assert (H0 : total (optional_listen n w) = 0) by (unfold total; now rewrite Ht).
  constructor; rewrite ?H0, ?Ht; cbn.
  - apply length_replicate.
  - now rewrite Z.sub_0_r, u32_small.
  - constructor.
  - constructor.
  - intros Hlt. split; [done|]. apply Forall_replicate. rewrite (proj2 (Z.eqb_neq w 0)) by lia. now left.
  - intros Hle c sh Hc. apply lookup_replicate in Hc as [-> _]. left. cbn. now rewrite (proj2 (Z.eqb_eq w 0)) by lia.
Qed.

(** A step that changes no holder. *)
Lemma inv_update n w s c sh sh' ab :
  inv n w s -> shards s !! c = Some sh -> _holder sh' = _holder sh ->
  Forall (fun p => p ∈ aborts s) ab ->
  (total s < w -> listening sh') ->
  (w <= total s -> told (mk_servers (num_total_conns s) (<[c := sh']> (shards s)) ab) c sh') ->
  (forall k, k <> c -> k ∈ (aborts s).*2 -> k ∈ ab.*2) ->
  inv n w (mk_servers (num_total_conns s) (<[c := sh']> (shards s)) ab).
Proof.
  intros [Hl Hn Ht Hi Hb Ha] Hc Hh Hab Hs Htold Hk.
  set (s' := mk_servers _ _ _). assert (E : accepted s' = accepted s) by (unfold accepted; cbn; now rewrite (accepted_same _ _ _ _ Hc Hh)).
  assert (E' : total s' = total s) by (unfold total; now rewrite E).
  constructor; rewrite ?E, ?E'; cbn; try done.
  - now rewrite length_insert.
  - rewrite Forall_forall in *. auto.
  - intros Hlt. destruct (Hb Hlt) as [Hab0 Hf]. split.
    + rewrite Hab0 in Hab. destruct ab as [|p ab]; [done|]. apply Forall_cons in Hab as [Hp _]. now apply not_elem_of_nil in Hp.
    + apply Forall_insert; [done|]. now apply Hs.
  - intros Hle k shk. destruct (decide (k = c)) as [->|Hne].
    + rewrite list_lookup_insert_eq by (eapply lookup_lt_Some; eassumption). intros [= <-]. now apply Htold.
    + rewrite list_lookup_insert_ne by done. intros Hshk. destruct (Ha Hle k shk Hshk) as [?|[?|[?|?]]]; unfold told; cbn; auto 6.
Qed.

Lemma inv_accept n w s c conn : 0 <= w < 4294967296 -> inv n w s -> (c < n)%nat ->
  exists s', accept c conn s = Ok s' /\ inv n w s'.
Proof.
  intros Hw H Hc. pose proof H as [Hl Hn Ht Hi Hb Ha]. unfold accept.
  destruct (lookup_lt_is_Some_2 (shards s) c) as [sh Hsh]; [lia|]. rewrite Hsh. cbn [of_option mbind res_bind].
  destruct (loop sh) eqn:El; [|eauto..]. destruct (accept_aborted sh) eqn:Eab; [eauto|].
  set (sh' := fun l => mk_server l false (timed_out sh) (failed sh) (_holder sh ++ [(0, conn)])).
  set (l := if u32 (num_total_conns s - 1) =? 0 then Aborting else Accepting).
  set (ab := if u32 (num_total_conns s - 1) =? 0 then aborts s ++ ((fun k => (c, k)) <$> others (length (shards s)) c) else aborts s).
  exists (mk_servers (u32 (num_total_conns s - 1)) (<[c := sh' l]> (shards s)) ab).
  split; [unfold l, ab; now destruct (_ =? 0)|]. set (s' := mk_servers _ _ _).
  assert (Hperm : accepted s' ≡ₚ accepted s ++ [(0, conn)]) by (now apply (accepted_push _ _ sh)).
  assert (Htot : total s' = total s + 1) by (unfold total; rewrite Hperm, length_app; cbn; lia).
  assert (Hcnt : u32 (num_total_conns s - 1) = u32 (w - total s')).
  { rewrite Hn, Htot. unfold u32, wrap. rewrite Zminus_mod_idemp_l. f_equal. lia. }
  assert (Hin : forall k, k <> c -> (k < n)%nat -> u32 (num_total_conns s - 1) = 0 -> k ∈ ab.*2).
  { intros k Hne Hk E0. unfold ab. rewrite (proj2 (Z.eqb_eq _ _) E0), fmap_app, elem_of_app. right.
    rewrite <-list_fmap_compose. apply list_elem_of_fmap. exists k. split; [done|]. apply others_spec. lia. }
  constructor.
  - cbn. now rewrite length_insert.
  - exact Hcnt.
  - cbn. unfold ab. destruct (_ =? 0); [|done]. apply Forall_app. split; [done|]. apply Forall_fmap, Forall_forall.
    intros k Hk%others_spec. cbn. lia.
  - rewrite Hperm. apply Forall_app. split; [done|]. now apply Forall_singleton.
  - intros Hlt. rewrite Htot in Hlt. destruct (Hb ltac:(lia)) as [Hb1 Hb2].
    assert (E0 : u32 (num_total_conns s - 1) =? 0 = false).
    { rewrite Hcnt, u32_small by (unfold total in *; lia). lia. }
    cbn. unfold ab, l. rewrite E0. split; [done|]. apply Forall_insert; [done|now left].
  - assert (Hk4 : forall k, k ∈ (aborts s).*2 -> k ∈ ab.*2).
    { intros k Hk. unfold ab. destruct (_ =? 0); [|done]. rewrite fmap_app, elem_of_app. now left. }
    assert (Hlast : w <= total s' -> u32 (num_total_conns s - 1) <> 0 -> w <= total s).
    { intros Hle H0. destruct (Z.eq_dec w (total s')) as [He|]; [|lia]. rewrite Hcnt, He, Z.sub_diag in H0. done. }
    intros Hle k shk. cbn. destruct (decide (k = c)) as [->|Hne].
    + rewrite list_lookup_insert_eq by lia. intros [= <-]. unfold told, l. cbn.
      destruct (Z.eqb_spec (u32 (num_total_conns s - 1)) 0) as [E0|E0]; [now auto|].
      destruct (Ha (Hlast Hle E0) c sh Hsh) as [?|[?|[?|?]]]; [congruence..|]. auto 6.
    + rewrite list_lookup_insert_ne by done. intros Hshk. pose proof (lookup_lt_Some _ _ _ Hshk).
      destruct (Z.eq_dec (u32 (num_total_conns s - 1)) 0) as [E0|E0]; [right; right; right; apply Hin; lia|].
      destruct (Ha (Hlast Hle E0) k shk Hshk) as [?|[?|[?|?]]]; unfold told; cbn; auto 6.
Qed.

Lemma inv_abort n w s i : inv n w s -> exists s', run_abort i s = Ok s' /\ inv n w s'.
Proof.
  intros H. pose proof H as [Hl Hn Ht Hi Hb Ha]. unfold run_abort. destruct (aborts s !! i) as [[f k]|] eqn:Eab; [|eauto].
  pose proof (Forall_lookup_1 _ _ _ _ Ht Eab) as (Hf & Hk & Hfk). cbn in Hf, Hk, Hfk.
  destruct (lookup_lt_is_Some_2 (shards s) k) as [sh Hsh]; [lia|]. rewrite Hsh. cbn [of_option mbind res_bind].
  eexists. split; [reflexivity|]. eapply inv_update; try eassumption; try done.
  - apply Forall_forall. intros p Hp. rewrite (delete_Permutation _ _ _ Eab). now right.
  - intros Hlt. destruct (Hb Hlt) as [E0 _]. now rewrite E0 in Eab.
  - unfold told. cbn. auto.
  - intros j Hne Hj. apply list_elem_of_fmap in Hj as (p & -> & Hp). apply list_elem_of_fmap. exists p. split; [done|].
    rewrite (delete_Permutation _ _ _ Eab) in Hp. apply elem_of_cons in Hp as [->|Hp]; [done|exact Hp].
Qed.

Lemma inv_fails n w s c : inv n w s -> (c < n)%nat -> exists s', accept_fails c s = Ok s' /\ inv n w s'.
Proof.
  intros H Hc. pose proof H as [Hl Hn Ht Hi Hb Ha]. unfold accept_fails.
  destruct (lookup_lt_is_Some_2 (shards s) c) as [sh Hsh]; [lia|]. rewrite Hsh. cbn [of_option mbind res_bind].
  destruct (loop sh) eqn:El; [|eauto..]. destruct (accept_aborted sh) eqn:Eab; [eauto|].
  eexists. split; [reflexivity|]. eapply inv_update; try eassumption; try done.
  - now apply Forall_forall.
  - intros _. now right.
  - intros _. now left.
Qed.

Lemma inv_end n w s c : inv n w s -> (c < n)%nat -> exists s', end_loop c s = Ok s' /\ inv n w s'.
Proof.
  intros H Hc. pose proof H as [Hl Hn Ht Hi Hb Ha]. unfold end_loop.
  destruct (lookup_lt_is_Some_2 (shards s) c) as [sh Hsh]; [lia|]. rewrite Hsh. cbn [of_option mbind res_bind].
  unfold may_end. destruct (match loop sh with Accepting => _ | _ => _ end) eqn:E; [|eauto].
  eexists. split; [reflexivity|]. eapply inv_update; try eassumption; try done.
  - now apply Forall_forall.
  - intros Hlt. destruct (Hb Hlt) as [_ Hf]. rewrite Forall_lookup in Hf. destruct (Hf c sh Hsh) as [[E1 E2]|[E1 E2]]; rewrite E1, ?E2 in E; done.
  - unfold told. cbn. auto.
Qed.

Lemma inv_timeout n w s c : inv n w s -> (c < n)%nat -> exists s', time_out c s = Ok s' /\ inv n w s'.
Proof.
  intros H Hc. pose proof H as [Hl Hn Ht Hi Hb Ha]. unfold time_out.
  destruct (lookup_lt_is_Some_2 (shards s) c) as [sh Hsh]; [lia|]. rewrite Hsh. cbn [of_option mbind res_bind].
  assert (H' : inv n w (mk_servers (num_total_conns s) (<[c := mk_server (loop sh) (accept_aborted sh) true (failed sh) (_holder sh)]> (shards s)) (aborts s))).
  { eapply inv_update; try eassumption; try done.
    - now apply Forall_forall.
    - intros Hlt. destruct (Hb Hlt) as [_ Hf]. rewrite Forall_lookup in Hf. now apply (Hf c sh).
    - intros Hle. apply (Ha Hle c sh Hsh). }
  destruct (loop sh); eauto.
Qed.

Lemma server_run_inv n w evs : 0 <= w < 4294967296 -> forall s, inv n w s -> exists s', run s evs = Ok s' /\ inv n w s'.
Proof.
  intros Hw. induction evs as [|ev evs IH]; intros s H; cbn [run]; [eauto|].
  assert (Hs : exists s', step s ev = Ok s' /\ inv n w s').
  { destruct ev as [c conn|c|i|c|c]; cbn [step]; rewrite ?(i_len _ _ _ H); [| |now apply inv_abort|..];
      (destruct (Nat.ltb_spec c n) as [Hc|]; [|eauto]); auto using inv_accept, inv_fails, inv_end, inv_timeout. }
  destruct Hs as (s1 & -> & H1). cbn [mbind res_bind]. auto.
Qed.

Lemma server_run_app a b : forall s, run s (a ++ b) = run s a ≫= fun s => run s b.
Proof. induction a as [|ev a IH]; intros s; cbn [run app]; [done|]. destruct (step s ev); cbn [mbind res_bind]; auto. Qed.

(** The submitted calls run. *)
Lemma run_aborts n w k : forall s, inv n w s -> length (aborts s) = k ->
  exists s', run s (replicate k (RunAbort 0)) = Ok s' /\ inv n w s' /\ aborts s' = [] /\ accepted s' = accepted s.
Proof.
  induction k as [|k IH]; intros s H Hk; cbn [replicate run].
  - exists s. split; [done|]. split; [done|]. split; [|done]. now apply nil_length_inv.
  - destruct (inv_abort n w s 0 H) as (s1 & E & H1). cbn [step]. rewrite E. cbn [mbind res_bind].
    unfold run_abort in E. destruct (aborts s) as [|[f j] rest] eqn:Eab; [done|]. cbn [lookup list_lookup] in E.
    destruct (shards s !! j) as [sh|] eqn:Hsh; [|done]. cbn [of_option mbind res_bind] in E.
    injection E as <-. destruct (IH _ H1) as (s2 & E2 & H2 & Hab & Hacc); [cbn in *; lia|].
    exists s2. split; [done|]. split; [done|]. split; [done|]. rewrite Hacc. unfold accepted. cbn.
    now rewrite (accepted_same _ _ sh).
Qed.

(** Then every loop ends. *)
Lemma end_loops n w l : forall s, inv n w s -> aborts s = [] -> w <= total s -> Forall (fun c => (c < n)%nat) l ->
  exists s', run s (EndLoop <$> l) = Ok s' /\ accepted s' = accepted s /\
    forall c sh', shards s' !! c = Some sh' -> c ∈ l \/ (exists sh, shards s !! c = Some sh /\ loop sh = Ended) -> loop sh' = Ended.
Proof.
  induction l as [|c l IH]; intros s H Hab Hle Hl; cbn [fmap list_fmap run].
  - exists s. split; [done|]. split; [done|]. intros c sh' Hc [Hin|(sh & Hsh & Hend)]; [now apply not_elem_of_nil in Hin|congruence].
  - apply Forall_cons in Hl as [Hc Hl]. cbn [step]. rewrite (i_len _ _ _ H). rewrite (proj2 (Nat.ltb_lt _ _) Hc).
    destruct (inv_end n w s c H Hc) as (s1 & E & H1). rewrite E. cbn [mbind res_bind].
    assert (Hs1 : accepted s1 = accepted s /\ aborts s1 = [] /\ (exists sh, shards s1 !! c = Some sh /\ loop sh = Ended) /\
      forall k, k <> c -> shards s1 !! k = shards s !! k).
    { unfold end_loop in E. destruct (shards s !! c) as [sh|] eqn:Hsh; [|done]. cbn [of_option mbind res_bind] in E.
      pose proof (i_after _ _ _ H Hle c sh Hsh) as Htold. unfold told, may_end in *. rewrite Hab in *. cbn in *.
      destruct (loop sh) eqn:El; cbn in E.
      - destruct (accept_aborted sh) eqn:Ea; [|destruct Htold as [?|[?|[?|Hn]]]; try done; now apply not_elem_of_nil in Hn].
        injection E as <-. cbn. rewrite (accepted_same _ _ sh) by done. split; [done|]. split; [done|]. split.
        + eexists. rewrite list_lookup_insert_eq by (eapply lookup_lt_Some; eassumption). done.
        + intros k Hk. now rewrite list_lookup_insert_ne.
      - injection E as <-. unfold accepted. cbn. rewrite (accepted_same _ _ sh) by done. split; [done|]. split; [done|]. split.
        + eexists. rewrite list_lookup_insert_eq by (eapply lookup_lt_Some; eassumption). done.
        + intros k Hk. now rewrite list_lookup_insert_ne.
      - injection E as <-. eauto 6. }
    destruct Hs1 as (Hacc & Hab1 & (sh1 & Hsh1 & Hend1) & Hother).
    destruct (IH s1 H1 Hab1) as (s2 & E2 & Hacc2 & H2); [unfold total in *; now rewrite Hacc|done|].
    exists s2. split; [done|]. split; [congruence|]. intros k sh' Hk Hin. apply (H2 k sh' Hk).
    destruct (decide (k = c)) as [->|Hne]; [right; eauto|]. rewrite (Hother k Hne).
    destruct Hin as [Hin|Hin]; [|now right]. apply elem_of_cons in Hin as [?|?]; [done|now left].
Qed.


End Server.
End Server.

(** ** The client side: connecting to the machines with lower ids *)
Module Clients.
Section Clients.
Context {I Out : Type} {OS : OutputStream Out}.

Record connection := mk_conn { in_ : I; out : Out }.

(** [_mc_map.find(mid)->second], changed by [f]. *)
Fixpoint update_first (mid : Z) (f : connection -> connection) (l : list (Z * connection)) : list (Z * connection) :=
  match l with
  | [] => []
  | (m, c) :: l => if m =? mid then (m, f c) :: l else (m, c) :: update_first mid f l
  end.

(** [out.write(&this_mid, 4)] on the connection that [find] returns. *)
Definition say_hello (this_mid mid : Z) (t : connection_table connection) : res (connection_table connection) :=
  _ ← find t mid;
  Ok (mk_table (update_first mid (fun c => mk_conn (in_ c) (client_hello this_mid (out c))) (_mc_map t)) (_managed_mach_ids t)).

(** The continuation of one attempt to connect to machine [target_mid], which gave a
    connection or failed; whether it ends without an exception. *)
Definition connected (this_mid : Z) (p : Z * option connection) (t : connection_table connection)
    : res (bool * connection_table connection) :=
  let '(target_mid, fut) := p in
  match fut with
  | None => Ok (false, t)
  | Some conn => t ← say_hello this_mid target_mid (add t (target_mid, conn)); Ok (true, t)
  end.

(** [start]: the attempts of a shard in the order they complete. *)
Fixpoint start (this_mid : Z) (attempts : list (Z * option connection)) (t : connection_table connection)
    : res (bool * connection_table connection) :=
  match attempts with
  | [] => Ok (true, t)
  | p :: attempts =>
      '(ok1, t) ← connected this_mid p t; '(ok2, t) ← start this_mid attempts t; Ok (ok1 && ok2, t)
  end.

(** The connections that were made, each with the hello written once. *)
Definition greeted (this_mid : Z) (attempts : list (Z * option connection)) : list (Z * connection) :=
  omap (fun p => (fun c => (p.1, mk_conn (in_ c) (client_hello this_mid (out c)))) <$> p.2) attempts.

Lemma update_first_app mid f l c : mid ∉ l.*1 -> update_first mid f (l ++ [(mid, c)]) = l ++ [(mid, f c)].
Proof.
  induction l as [|[m c'] l IH]; cbn; intros H; [now rewrite Z.eqb_refl|].
  apply not_elem_of_cons in H as [Hne H]. rewrite (proj2 (Z.eqb_neq m mid)) by congruence. now rewrite IH.
Qed.

Lemma update_first_keys mid f l : (update_first mid f l).*1 = l.*1.
Proof. induction l as [|[m c] l IH]; cbn; [done|]. destruct (m =? mid); cbn; now rewrite ?IH. Qed.

Lemma update_first_snoc mid f l x : mid ∈ l.*1 -> update_first mid f (l ++ [x]) = update_first mid f l ++ [x].
Proof.
  induction l as [|[m c] l IH]; cbn; intros H; [now apply not_elem_of_nil in H|].
  destruct (Z.eqb_spec m mid) as [->|Hne]; [done|]. apply elem_of_cons in H as [?|H]; [congruence|]. cbn. now rewrite IH.
Qed.

Lemma find_added t mid (c : connection) : exists c', find (add t (mid, c)) mid = Ok c'.
Proof.
  unfold find. destruct (lookup_conn (add t (mid, c)) mid) as [c'|] eqn:E; [eauto|].
  apply lookup_conn_None in E. cbn in E. rewrite fmap_app, not_elem_of_app in E. cbn in E.
  destruct E as [_ E]. exfalso. apply E. left.
Qed.

Lemma connected_table_ok this_mid p t : table_ok t ->
  exists b t', connected this_mid p t = Ok (b, t') /\ table_ok t' /\ b = bool_decide (is_Some p.2) /\
    (_mc_map t').*1 = (_mc_map t).*1 ++ (if p.2 then [p.1] else []).
Proof.
  intros H. destruct p as [m [c|]]; cbn; [|exists false, t; now rewrite app_nil_r].
  unfold say_hello. destruct (find_added t m c) as [c' ->]. cbn [mbind res_bind].
  do 2 eexists. split; [reflexivity|]. destruct (table_add_ok t (m, c) H) as [Hn Hk].
  split; [split; [done|]|]; cbn; rewrite ?update_first_keys; [done|]. split; [done|]. now rewrite fmap_app.
Qed.

(** The machines a shard is connected to after [start], whatever happened. *)
Lemma start_table_ok this_mid attempts : forall t, table_ok t ->
  exists b t', start this_mid attempts t = Ok (b, t') /\ table_ok t' /\ b = forallb (fun p => bool_decide (is_Some p.2)) attempts /\
    (_mc_map t').*1 = (_mc_map t).*1 ++ omap (fun p => (fun _ => p.1) <$> p.2) attempts.
Proof.
  induction attempts as [|p attempts IH]; intros t H; cbn [start].
  - exists true, t. cbn. now rewrite app_nil_r.
  - destruct (connected_table_ok this_mid p t H) as (b1 & t1 & -> & H1 & -> & K1). cbn [mbind res_bind].
    destruct (IH t1 H1) as (b2 & t2 & -> & H2 & -> & K2). cbn [mbind res_bind].
    do 2 eexists. split; [reflexivity|]. split; [done|]. split; [done|].
    rewrite K2, K1, <-app_assoc. do 2 f_equal. cbn. now destruct (p.2).
Qed.

(** When the machines a shard connects to are distinct, every connection it makes carries
    its hello, exactly once, and enters the table; the shard reports failure exactly
    when an attempt failed. *)
Theorem hello_once this_mid attempts : forall t,
  NoDup ((_mc_map t).*1 ++ attempts.*1) ->
  exists t', start this_mid attempts t = Ok (forallb (fun p => bool_decide (is_Some p.2)) attempts, t') /\
    _mc_map t' = _mc_map t ++ greeted this_mid attempts.
Proof.
  induction attempts as [|[m [c|]] attempts IH]; intros t H; cbn [start connected fmap list_fmap fst snd] in *.
  - exists t. cbn. now rewrite app_nil_r.
  - assert (Hm : m ∉ (_mc_map t).*1).
    { apply NoDup_app in H as (_ & H & _). intros Hin. apply (H m Hin). left. }
    unfold say_hello. destruct (find_added t m c) as [c' ->]. cbn [mbind res_bind add _mc_map _managed_mach_ids].
    rewrite update_first_app by done. set (t1 := mk_table _ _).
    destruct (IH t1) as (t2 & -> & E2).
    { unfold t1. cbn [_mc_map]. rewrite fmap_app, <-app_assoc. exact H. }
    exists t2. cbn [mbind res_bind]. split; [done|]. rewrite E2. unfold t1. cbn. now rewrite <-app_assoc.
  - cbn [mbind res_bind]. destruct (IH t) as (t2 & -> & E2).
    { apply NoDup_app in H as (H1 & H2 & H3). apply NoDup_cons in H3 as [_ H3]. apply NoDup_app. split; [done|].
      split; [|done]. intros x Hx Hin. apply (H2 x Hx). now right. }
    exists t2. cbn [mbind res_bind]. now rewrite E2.
Qed.

(** A second connection to the same machine: its hello goes to the first one, and nothing
    is ever written to it. *)
Theorem second_connection_silent this_mid mid (c1 c2 : connection) :
  exists t', start this_mid [(mid, Some c1); (mid, Some c2)] connection_table_new = Ok (true, t') /\
    _mc_map t' = [(mid, mk_conn (in_ c1) (client_hello this_mid (client_hello this_mid (out c1)))); (mid, c2)] /\
    find t' mid = Ok (mk_conn (in_ c1) (client_hello this_mid (client_hello this_mid (out c1)))).
Proof.
  eexists. cbn. unfold say_hello, add, find, lookup_conn. cbn. rewrite !Z.eqb_refl. cbn. rewrite !Z.eqb_refl. cbn.
  split; [reflexivity|]. cbn. rewrite Z.eqb_refl. done.
Qed.
End Clients.
Arguments connection : clear implicits.
End Clients.
