(* ===== verification/NetworkIO.v ===== *)
(** * The start-up of the network, composed

    [network_io] (src/include/hiactor/net/network_io.hh, src/src/net/network_io.cc) on a
    machine: a connection manager per shard, the connections of every shard, the barriers
    between the phases and the routing table built from what is connected.

    A phase that waits ends with what the rest of the world did meanwhile: which
    connections each shard accepted, whether its listening timed out, and how its
    attempts to connect ended ([shard_outcome]).  [Startup] has the steps in between. *)
From S2P Require Import Prelude Bytes Address BufferQueue SerializableQueue DataType Message.
From S2P Require Import NetworkConfig RoutingTable DynamicQueue Connection Startup.
From stdpp Require Import strings.
#[local] Open Scope Z_scope.
Import Startup.Clients.

(** ** Futures that are done *)
Inductive exn := TimedOut | ConnectionFailed.
Inductive future (A : Type) := Ready (a : A) | Failed (e : exn).
Arguments Ready {A} _.
Arguments Failed {A} _.

(** [seastar::when_all] resolves with the futures it was given, failed ones included. *)
Class WhenAll := {
  when_all : forall {A B}, future A -> future B -> future (future A * future B);
  when_all_spec {A B} (a : future A) (b : future B) : when_all a b = Ready (a, b)
}.
#[export, refine] Instance when_all_ready : WhenAll := { when_all A B a b := Ready (a, b) }.
Proof. done. Defined.

Definition discard_result {A} (f : future A) : future unit :=
  match f with Ready _ => Ready tt | Failed e => Failed e end.

(** A connection as an input stream. *)
#[export, refine] Instance connection_input {I Out} {IS : InputStream I} : InputStream (connection I Out) := {
  in_rest c := in_rest (in_ c);
  in_eof c := in_eof (in_ c);
  read_exactly c n := let '(b, i) := read_exactly (in_ c) n in (b, mk_conn i (out c))
}.
Proof.
  - intros [i o] n. pose proof (read_bytes i n). cbn. now destruct (read_exactly i n).
  - intros [i o] n. pose proof (read_rest i n). cbn. now destruct (read_exactly i n).
  - intros [i o] n. pose proof (read_eof i n). cbn. now destruct (read_exactly i n).
Defined.

Section NetworkIO.
Context {I Out : Type} {IS : InputStream I} {OS : OutputStream Out} {WA : WhenAll} {T E : Type}.
Abbreviation conn := (connection I Out).
Abbreviation net_buffer := (dynamic_queue (T := T) (E := E)).

(** ** connection_manager *)
Record connection_manager := mk_manager {
  _buffers : list net_buffer;
  _conn_table : connection_table conn;
  _running_loops : bool;             (* [run_senders] and [run_receivers] were called *)
  _abort_connection : bool
}.

(** The constructor, with its default [q_size]. *)
Definition connection_manager_new (nc : network_config) : connection_manager :=
  mk_manager (Connection.build (Z.to_nat (_num_machines nc)) 16) connection_table_new false false.

Record shard_outcome := mk_outcome {
  accepted : list conn;                 (* the holder when the accept loop ended *)
  listen_timed_out : bool;
  attempts : list (Z * option conn);    (* in the order they completed *)
  collected_after : nat                 (* how many attempts completed before the ids were collected *)
}.

(** [server_side::start] *)
Definition server_start (oc : shard_outcome) (t : connection_table conn) : res (future unit * connection_table conn) :=
  if listen_timed_out oc then Ok (Failed TimedOut, t)
  else t ← collect_machine_ids ((fun c => (0, c)) <$> accepted oc) t; Ok (Ready tt, t).

(** [establish_connections] of a shard *)
Definition establish_shard (nc : network_config) (oc : shard_outcome) (m : connection_manager)
    : res (future unit * connection_manager) :=
  let mid := _machine_id nc in
  '(ok1, t) ← start mid (take (collected_after oc) (attempts oc)) (_conn_table m);
  '(server_ready, t) ← server_start oc t;
  '(ok2, t) ← start mid (drop (collected_after oc) (attempts oc)) t;
  let clients := if ok1 && ok2 then Ready tt else Failed ConnectionFailed in
  Ok (discard_result (when_all clients server_ready), mk_manager (_buffers m) t (_running_loops m) (_abort_connection m)).

(** [run_loops]: the machines this shard is connected to. *)
Definition run_loops (m : connection_manager) : list Z * connection_manager :=
  (_managed_mach_ids (_conn_table m), mk_manager (_buffers m) (_conn_table m) true (_abort_connection m)).

(** ** network_io *)
Record network_io := mk_io {
  _running : bool;
  _cms : list (Entry.entry connection_manager);
  _routing_tbl : option routing_table;
  _published : bool;                 (* [network_channel::_cms] was set *)
  barriers : list string             (* the global barriers passed *)
}.
Definition network_io_init : network_io := mk_io false [] None false [].

(** [start_server]: an entry for each shard, initialized on it. *)
Definition start_server (nc : network_config) (shard_count : nat) : list (Entry.entry connection_manager) :=
  (fun e => snd (Entry.init (connection_manager_new nc) e)) <$> replicate shard_count Entry.entry_new.

(** The shards of [establish_connections]; the first exception, if there is one. *)
Fixpoint establish_all (nc : network_config) (outcomes : list shard_outcome) (cms : list (Entry.entry connection_manager))
    : res (future unit * list (Entry.entry connection_manager)) :=
  match outcomes, cms with
  | oc :: outcomes, e :: cms =>
      m ← Entry.get e;
      '(f1, m) ← establish_shard nc oc m;
      '(f2, cms) ← establish_all nc outcomes cms;
      Ok (match f1 with Failed e => Failed e | Ready _ => f2 end, Entry.mk_entry (Entry._empty e) (Some m) :: cms)
  | _, _ => Ok (Ready tt, cms)
  end.

Fixpoint run_all_loops (cms : list (Entry.entry connection_manager)) : res (list (list Z) * list (Entry.entry connection_manager)) :=
  match cms with
  | [] => Ok ([], [])
  | e :: cms =>
      m ← Entry.get e;
      let '(mids, m) := run_loops m in
      '(sharded, cms) ← run_all_loops cms;
      Ok (mids :: sharded, Entry.mk_entry (Entry._empty e) (Some m) :: cms)
  end.

(** [establish_connections] of the machine, the routing table included. *)
Definition establish_connections (nc : network_config) (num_g_shards : Z) (shard_count : nat) (outcomes : list shard_outcome)
    (n : network_io) : res (future unit * network_io) :=
  '(f, cms) ← establish_all nc outcomes (_cms n);
  match f with
  | Failed e => Ok (Failed e, mk_io (_running n) cms (_routing_tbl n) (_published n) (barriers n))
  | Ready _ =>
      '(sharded_mids, cms) ← run_all_loops cms;
      t ← RoutingTable.build (_node_list nc) (Z.to_nat (_num_machines nc)) num_g_shards (Z.of_nat shard_count) sharded_mids;
      Ok (Ready tt, mk_io (_running n) cms (Some t) true (barriers n))
  end.

(** Only shard 0 may call it. *)
Definition start_and_connect (sid : nat) (nc : network_config) (num_g_shards : Z) (shard_count : nat) (outcomes : list shard_outcome)
    (n : network_io) : res (future unit * network_io) :=
  _ ← assert (sid =? 0)%nat;
  if _running n then Ok (Ready tt, n)
  else
    let n := mk_io true (start_server nc shard_count) (_routing_tbl n) (_published n)
               (barriers n ++ ["HIACTOR_SERVER_STARTED"%string]) in
    '(f, n) ← establish_connections nc num_g_shards shard_count outcomes n;
    match f with
    | Failed e => Ok (Failed e, n)
    | Ready _ => Ok (Ready tt, mk_io (_running n) (_cms n) (_routing_tbl n) (_published n)
                       (barriers n ++ ["HIACTOR_CONNECTION_ESTABLISHED"%string]))
    end.

(** [connection_manager::stop]: the queued messages it deletes; the exception when the
    buffers were aborted before. *)
Definition stop_manager (ex : E) (m : connection_manager) : res (list T * option E * connection_manager) :=
  '(deleted, qs, e) ← abort_buffers ex (Z.to_nat <$> _managed_mach_ids (_conn_table m)) (_buffers m);
  Ok (deleted, e, mk_manager qs (_conn_table m) (_running_loops m) true).

(** [network_io::stop]: the messages deleted and the managers destroyed. *)
Fixpoint stop_all (ex : E) (cms : list (Entry.entry connection_manager))
    : res (list T * list connection_manager * list (Entry.entry connection_manager)) :=
  match cms with
  | [] => Ok ([], [], [])
  | e :: cms =>
      '(ms, ds, e) ← (if negb (Entry._empty e) then
         m ← Entry.get e;
         '(ms, failed, m) ← stop_manager ex m;
         let e := Entry.mk_entry (Entry._empty e) (Some m) in
         match failed with
         | Some _ => Ok (ms, [], e)
         | None => '(d, e) ← Entry.finalize e; Ok (ms, option_list d, e)
         end
       else Ok ([], [], e));
      '(ms', ds', cms) ← stop_all ex cms;
      Ok (ms ++ ms', ds ++ ds', e :: cms)
  end.
Definition stop (ex : E) (n : network_io) : res (list T * list connection_manager * network_io) :=
  '(ms, ds, cms) ← stop_all ex (_cms n);
  Ok (ms, ds, mk_io (_running n) cms (_routing_tbl n) (_published n) (barriers n)).

(** ** What a shard ends up connected to *)

(** The peers behind the accepted connections, each having sent its hello; they are read
    only if listening did not time out. *)
Definition said_hello (p : Z * conn) : Prop := in_u 32 p.1 /\ exists rest, in_rest p.2 = enc_uint 4 p.1 ++ rest.
Definition peers_of (oc : shard_outcome) (peers : list (Z * conn)) : Prop :=
  listen_timed_out oc = false -> accepted oc = peers.*2 /\ Forall said_hello peers.

(** A connection that was closed before its hello was complete. *)
Definition closed_early (oc : shard_outcome) : Prop :=
  listen_timed_out oc = false /\ Exists (fun c => (length (in_rest c) < 4)%nat) (accepted oc).

Lemma hello_or_closed oc : closed_early oc \/ exists peers, peers_of oc peers.
Proof.
  destruct (listen_timed_out oc) eqn:Ht; [right; exists []; unfold peers_of; congruence|].
  destruct (decide (Exists (fun c => (length (in_rest c) < 4)%nat) (accepted oc))) as [He|Hn]; [now left|right].
  exists ((fun c => (dec_uint (take 4 (in_rest c)), c)) <$> accepted oc). intros _. rewrite <-list_fmap_compose. split.
  - symmetry. apply list_fmap_id.
  - apply Forall_fmap, Forall_forall. intros c Hc. cbn.
    assert (Hl : length (take 4 (in_rest c)) = 4%nat).
    { rewrite length_take. apply Forall_Exists_neg in Hn. rewrite Forall_forall in Hn. pose proof (Hn c Hc) as Hl. cbv beta in Hl. lia. }
    split; cbn [fst snd].
    + exact (dec_uint_range (take 4 (in_rest c)) 4 Hl).
    + exists (drop 4 (in_rest c)). rewrite (enc_dec_uint _ 4) by done. now rewrite take_drop.
Qed.

Lemma collect_closed (holder : list (Z * conn)) t :
  Exists (fun p => (length (in_rest p.2) < 4)%nat) holder -> collect_machine_ids holder t = Fault OutOfBounds.
Proof.
  intros H. unfold collect_machine_ids. enough (collect_holder holder = Fault OutOfBounds) as -> by done.
  induction holder as [|p holder IH]; [now apply Exists_nil in H|]. cbn [collect_holder].
  assert (Hp : forall q : Z * conn, read_machine_id q = Fault OutOfBounds \/
    ((4 <= length (in_rest q.2))%nat /\ exists v, read_machine_id q = Ok v)).
  { intros q. unfold read_machine_id. pose proof (read_bytes q.2 4) as B. destruct (read_exactly q.2 4) as [b i]. cbn [fst] in B. subst b.
    unfold load_unaligned_int, mem_read. case_decide as Hd; cbn [mbind res_bind]; [right|now left].
    rewrite length_take in Hd. split; [lia|eauto]. }
  destruct (Hp p) as [->|[Hl [v ->]]]; [done|]. cbn [mbind res_bind]. rewrite IH; [done|].
  apply Exists_cons in H as [H|H]; [lia|done].
Qed.

Definition made (l : list (Z * option conn)) : list Z := omap (fun p => (fun _ => p.1) <$> p.2) l.
Definition machines (oc : shard_outcome) (peers : list (Z * conn)) : list Z :=
  (if listen_timed_out oc then [] else peers.*1) ++ made (attempts oc).

Definition keys (t : connection_table conn) : list Z := (_mc_map t).*1.

Lemma collect_ok (peers : list (Z * conn)) t :
  Forall said_hello peers -> Connection.table_ok t ->
  exists t', collect_machine_ids ((fun c => (0, c)) <$> peers.*2) t = Ok t' /\ Connection.table_ok t' /\
    keys t' = keys t ++ peers.*1.
Proof.
  intros Hp Ht. rewrite <-list_fmap_compose. assert (Hr : exists rests, Forall2 (fun (p : Z * conn) rest => in_u 32 (fst p) /\
    in_rest (snd p) = written (client_hello (OS := bytes_output) (fst p) []) ++ rest) peers rests).
  { clear Ht. induction Hp as [|p peers [Hu [rest Hr]] _ [rests IH]]; [now exists []|]. exists (rest :: rests).
    constructor; [|done]. split; [done|]. unfold client_hello. rewrite written_write. exact Hr. }
  destruct Hr as [rests Hr].
  destruct (handshake_files_by_machine (OS := bytes_output) peers rests [] t eq_refl Hr) as (conns & t' & Ec & Em & _ & Hl).
  exists t'. split; [done|]. unfold collect_machine_ids in Ec. apply bind_ok in Ec as (holder & _ & Ec). injection Ec as <-.
  destruct (add_all_ok holder t Ht) as [Hok _]. split; [done|]. unfold keys. rewrite Em, fmap_app. f_equal.
  apply fst_zip. rewrite length_fmap. lia.
Qed.

Lemma made_take_drop k l : made (take k l) ++ made (drop k l) = made l.
Proof. unfold made. now rewrite <-omap_app, take_drop. Qed.

(** Whatever the outcome, the future of a shard is ready. *)
Lemma establish_shard_ok nc oc peers m :
  peers_of oc peers -> Connection.table_ok (_conn_table m) ->
  exists m', establish_shard nc oc m = Ok (Ready tt, m') /\ Connection.table_ok (_conn_table m') /\
    keys (_conn_table m') ≡ₚ keys (_conn_table m) ++ machines oc peers.
Proof.
  intros Hpe Ht. unfold establish_shard.
  destruct (start_table_ok (_machine_id nc) (take (collected_after oc) (attempts oc)) _ Ht) as (b1 & t1 & -> & H1 & _ & K1).
  cbn [mbind res_bind].
  assert (Hs : exists f t2, server_start oc t1 = Ok (f, t2) /\ Connection.table_ok t2 /\
    keys t2 = keys t1 ++ (if listen_timed_out oc then [] else peers.*1)).
  { unfold server_start. unfold peers_of in Hpe. destruct (listen_timed_out oc); [do 2 eexists; rewrite app_nil_r; eauto|].
    destruct (Hpe eq_refl) as [-> Hp]. destruct (collect_ok peers t1 Hp H1) as (t2 & -> & H2 & K2). cbn [mbind res_bind]. eauto 6. }
  destruct Hs as (f & t2 & -> & H2 & K2). cbn [mbind res_bind].
  destruct (start_table_ok (_machine_id nc) (drop (collected_after oc) (attempts oc)) _ H2) as (b2 & t3 & -> & H3 & _ & K3).
  cbn [mbind res_bind]. rewrite when_all_spec. cbn [discard_result]. eexists. split; [reflexivity|]. cbn [_conn_table].
  split; [done|]. unfold keys in *. rewrite K3, K2, K1. unfold machines. rewrite <-(made_take_drop (collected_after oc) (attempts oc)).
  unfold made. solve_Permutation.
Qed.

(** A connection closed before its hello: the shard reads past what it received. *)
Lemma establish_shard_closed nc oc m :
  closed_early oc -> Connection.table_ok (_conn_table m) -> establish_shard nc oc m = Fault OutOfBounds.
Proof.
  intros [Hto He] Ht. unfold establish_shard.
  destruct (start_table_ok (_machine_id nc) (take (collected_after oc) (attempts oc)) _ Ht) as (b1 & t1 & -> & _).
  cbn [mbind res_bind]. unfold server_start. rewrite Hto, collect_closed; [done|]. now apply Exists_fmap.
Qed.

Lemma establish_all_closed nc outcomes :
  Exists closed_early outcomes -> establish_all nc outcomes (start_server nc (length outcomes)) = Fault OutOfBounds.
Proof.
  assert (H0 : Connection.table_ok (_conn_table (connection_manager_new nc))) by (split; cbn; [constructor|done]).
  induction outcomes as [|oc outcomes IH]; intros H; [now apply Exists_nil in H|].
  change (start_server nc (length (oc :: outcomes)))
    with (Entry.mk_entry false (Some (connection_manager_new nc)) :: start_server nc (length outcomes)).
  cbn [establish_all Entry.get Entry.o of_option mbind res_bind].
  destruct (hello_or_closed oc) as [Hc|[peers Hp]]; [now rewrite (establish_shard_closed nc oc _ Hc H0)|].
  apply Exists_cons in H as [Hc|H]; [now rewrite (establish_shard_closed nc oc _ Hc H0)|].
  destruct (establish_shard_ok nc oc peers _ Hp H0) as (m & -> & _). cbn [mbind res_bind]. now rewrite IH.
Qed.

(** The manager of a shard after its phase. *)
Definition connected_as (oc : shard_outcome) (peers : list (Z * conn)) (e : Entry.entry connection_manager) : Prop :=
  exists m, Entry.get e = Ok m /\ Connection.table_ok (_conn_table m) /\ keys (_conn_table m) ≡ₚ machines oc peers.

Lemma establish_all_ok nc outcomes peerss :
  Forall2 peers_of outcomes peerss ->
  exists cms, establish_all nc outcomes (start_server nc (length outcomes)) = Ok (Ready tt, cms) /\
    length cms = length outcomes /\
    forall i oc peers, outcomes !! i = Some oc -> peerss !! i = Some peers -> exists e, cms !! i = Some e /\ connected_as oc peers e.
Proof.
  induction 1 as [|oc peers outcomes peerss Hp HF (cms & Ec & Hl & Hc)].
  - exists []. split; [done|]. split; [done|]. intros i oc peers H. now rewrite lookup_nil in H.
  - change (start_server nc (length (oc :: outcomes)))
      with (Entry.mk_entry false (Some (connection_manager_new nc)) :: start_server nc (length outcomes)).
    cbn [establish_all Entry.get Entry.o of_option mbind res_bind].
    destruct (establish_shard_ok nc oc peers (connection_manager_new nc) Hp) as (m & -> & Hm & Km).
    { split; cbn; [constructor|done]. }
    cbn [mbind res_bind]. rewrite Ec. cbn [mbind res_bind].
    eexists. split; [reflexivity|]. split; [cbn; now rewrite Hl|]. intros [|i] oc' peers' H1 H2; cbn in *.
    + injection H1 as <-. injection H2 as <-. eexists. split; [done|]. exists m. split; [done|]. split; [done|]. exact Km.
    + apply Hc; done.
Qed.

(** The machines the routing table is built from, shard by shard. *)
Lemma run_all_loops_ok (P : nat -> Z -> Prop) cms :
  (forall i e, cms !! i = Some e -> exists m, Entry.get e = Ok m /\ Connection.table_ok (_conn_table m) /\
     forall k, k ∈ keys (_conn_table m) <-> P i k) ->
  exists sharded cms', run_all_loops cms = Ok (sharded, cms') /\ length sharded = length cms /\
    (forall i mids, sharded !! i = Some mids -> NoDup mids /\
       (forall k, k ∈ mids <-> P i k) /\
       exists e m, cms' !! i = Some e /\ Entry.get e = Ok m /\ forall k, k ∈ mids -> exists c, Connection.find (_conn_table m) k = Ok c).
Proof.
  revert P. induction cms as [|e cms IH]; intros P H; cbn [run_all_loops].
  - exists [], []. split; [done|]. split; [done|]. intros i mids Hi. now rewrite lookup_nil in Hi.
  - destruct (H 0%nat e eq_refl) as (m & -> & [Hn Hk] & HP). cbn [mbind res_bind run_loops].
    destruct (IH (fun i => P (S i))) as (sharded & cms' & -> & Hl & Hs); [intros i e' Hi; exact (H (S i) e' Hi)|].
    cbn [mbind res_bind]. do 2 eexists. split; [reflexivity|]. split; [cbn; now rewrite Hl|].
    intros [|i] mids Hi; cbn in Hi |- *; [|now apply Hs]. injection Hi as <-. split; [done|]. split.
    { intros k. rewrite Hk. apply HP. }
    do 2 eexists. split; [reflexivity|]. split; [reflexivity|]. cbn [_conn_table]. intros k Hin.
    unfold Connection.find. destruct (lookup_conn (_conn_table m) k) as [c|] eqn:Ef; [eauto|].
    apply lookup_conn_None in Ef. now apply Hk in Hin.
Qed.

Lemma shards_for_elem m sh : forall i s, s ∈ shards_for m sh i <->
  exists mids, i <= s /\ sh !! Z.to_nat (s - i) = Some mids /\ Z.of_nat m ∈ mids.
Proof.
  induction sh as [|mids sh IH]; intros i s; cbn [shards_for].
  - split; [intros H; now apply not_elem_of_nil in H|]. intros (mids & _ & H & _). now rewrite lookup_nil in H.
  - rewrite elem_of_app, IH. split.
    + intros [H|(mids' & Hi & Hl & Hm)].
      * case_decide as Hd; [|now apply not_elem_of_nil in H]. apply list_elem_of_singleton in H as ->.
        exists mids. rewrite Z.sub_diag. split; [lia|done].
      * exists mids'. split; [lia|]. split; [|done]. replace (Z.to_nat (s - i)) with (S (Z.to_nat (s - (i + 1)))) by lia. done.
    + intros (mids' & Hi & Hl & Hm). destruct (Z.eq_dec s i) as [->|Hne].
      * rewrite Z.sub_diag in Hl. injection Hl as <-. left. rewrite decide_True by done. now apply list_elem_of_singleton.
      * right. exists mids'. split; [lia|]. split; [|done]. replace (Z.to_nat (s - i)) with (S (Z.to_nat (s - (i + 1)))) in Hl by lia. done.
Qed.

(** ** What start-up gives *)
Section Start.
Context (nodes : list worker_node_info) (nc : network_config).
Context (outcomes : list shard_outcome) (peerss : list (list (Z * conn))).

(** Shard [i] made a connection to machine [k]. *)
Definition connects (i : nat) (k : Z) : Prop :=
  exists oc peers, outcomes !! i = Some oc /\ peerss !! i = Some peers /\ k ∈ machines oc peers.

Record start_ok : Prop := {
  so_nodes : _node_list nc = nodes;
  so_num : _num_machines nc = Z.of_nat (length nodes);
  so_cores : Forall (fun c => 0 < nr_cores c) nodes;
  so_size : total_cores nodes + (2 + Z.of_nat (length outcomes)) * Z.of_nat (length nodes) < 4294967296;
  so_shards : 0 < Z.of_nat (length outcomes) < 4294967294;
  so_peers : Forall2 peers_of outcomes peerss;
  so_range : forall i k, connects i k -> 0 <= k < Z.of_nat (length nodes)
}.

(** Shard [i] of the started network holds a connection to machine [k]. *)
Definition holds (n : network_io) (i : nat) (k : Z) : Prop :=
  exists e m c, _cms n !! i = Some e /\ Entry.get e = Ok m /\ Connection.find (_conn_table m) k = Ok c.

Lemma start_runs : start_ok ->
  exists n' sharded t, start_and_connect 0 nc (total_cores nodes) (length outcomes) outcomes network_io_init = Ok (Ready tt, n') /\
    _running n' = true /\ _published n' = true /\ _routing_tbl n' = Some t /\
    length sharded = length outcomes /\ nodes_ok nodes sharded /\
    RoutingTable.build nodes (length nodes) (total_cores nodes) (Z.of_nat (length sharded)) sharded = Ok t /\
    forall i mids k, sharded !! i = Some mids -> (k ∈ mids <-> connects i k) /\ (k ∈ mids -> holds n' i k).
Proof.
  intros [Hnl Hnm Hc Hsz Hsh Hp Hr]. pose proof (Forall2_length _ _ _ Hp) as Hlp.
  destruct (establish_all_ok nc outcomes peerss Hp) as (cms & E1 & Hl1 & Hcms).
  destruct (run_all_loops_ok connects cms) as (sharded & cms' & E2 & Hl2 & Hs).
  { intros i e He. pose proof (lookup_lt_Some _ _ _ He) as Hi. rewrite Hl1 in Hi.
    destruct (lookup_lt_is_Some_2 outcomes i Hi) as [oc Hoc]. rewrite Hlp in Hi.
    destruct (lookup_lt_is_Some_2 peerss i Hi) as [peers Hpe].
    destruct (Hcms i oc peers Hoc Hpe) as (e' & He' & m & Hm & Hok & Hk). assert (e' = e) as -> by congruence.
    exists m. split; [done|]. split; [done|]. intros k. rewrite Hk. unfold connects. split; [eauto 6|].
    intros (oc' & peers' & H1 & H2 & H3). congruence. }
  assert (Hn : nodes_ok nodes sharded).
  { split; [done|]. split; [|rewrite Hl2, Hl1; done]. apply Forall_lookup. intros i mids Hi.
    destruct (Hs i mids Hi) as (H1 & H2 & _). split; [done|]. apply Forall_forall. intros k Hk. apply (Hr i k). now apply H2. }
  destruct (build_ok nodes sharded Hn) as (t & _ & _ & Et & _).
  unfold start_and_connect, establish_connections. cbn [Nat.eqb assert mbind res_bind network_io_init _running _cms]. rewrite E1. cbn [mbind res_bind].
  rewrite E2. cbn [mbind res_bind]. rewrite Hnl, Hnm, Nat2Z.id. rewrite Hl2, Hl1 in Et. rewrite Et. cbn [mbind res_bind].
  eexists _, sharded, t. split; [reflexivity|]. do 3 (split; [reflexivity|]). split; [congruence|]. split; [done|].
  split; [now rewrite Hl2, Hl1|]. intros i mids k Hi. destruct (Hs i mids Hi) as (_ & H2 & e & m & He & Hm & Hf).
  split; [apply H2|]. intros Hk. destruct (Hf k Hk) as [c Hfc]. exists e, m, c. done.
Qed.

Lemma start_routes g k c :
  start_ok -> nodes !! k = Some c -> cores_before nodes k <= g < cores_before nodes k + nr_cores c ->
  exists n' t, start_and_connect 0 nc (total_cores nodes) (length outcomes) outcomes network_io_init = Ok (Ready tt, n') /\
    _published n' = true /\ _routing_tbl n' = Some t /\
    ((exists i, connects i (Z.of_nat k)) ->
       exists s, get_destination t g = Ok (mk_dest (Z.of_nat k) (Z.of_nat s)) /\ holds n' s (Z.of_nat k)) /\
    ((forall i, ~ connects i (Z.of_nat k)) -> get_destination t g = Fault DivByZero).
Proof.
  intros H Hk Hg. destruct (start_runs H) as (n' & sharded & t & Es & _ & Hpub & Ht & Hl & Hn & Eb & Hs).
  exists n', t. split; [done|]. split; [done|]. split; [done|]. split.
  - intros (i & Hi). destruct (lookup_lt_is_Some_2 sharded i) as [mids Hmids].
    { destruct Hi as (oc & _ & Hoc & _). apply lookup_lt_Some in Hoc. lia. }
    assert (Hne : shards_for k sharded 0 <> []).
    { intros E0. apply (not_elem_of_nil (Z.of_nat i)). rewrite <-E0. apply shards_for_elem. exists mids. split; [lia|].
      rewrite Z.sub_0_r, Nat2Z.id. split; [done|]. now apply (Hs i mids). }
    destruct (route_ok nodes sharded g k c Hn Hk Hg Hne) as (t' & s & Et' & Ed & Hls). assert (t' = t) as -> by congruence.
    apply list_elem_of_lookup_2 in Hls. apply shards_for_elem in Hls as (mids' & H0 & Hls & Hin).
    rewrite Z.sub_0_r in Hls. exists (Z.to_nat s). rewrite Z2Nat.id by done. split; [done|]. now apply (Hs _ mids').
  - intros Hno. destruct (route_to_unmanaged nodes sharded g k c Hn Hk Hg) as (t' & Et' & Ed); [|congruence].
    destruct (shards_for k sharded 0) as [|s l] eqn:El; [done|]. exfalso.
    assert (Hin : s ∈ shards_for k sharded 0) by (rewrite El; left). apply shards_for_elem in Hin as (mids & _ & Hls & Hin).
    apply (Hno (Z.to_nat (s - 0))). now apply (Hs _ mids).
Qed.
End Start.
(** ** Stopping *)

(** A manager that was not stopped. *)
Definition stoppable (m : connection_manager) : Prop :=
  Connection.table_ok (_conn_table m) /\
  (forall k, k ∈ keys (_conn_table m) -> 0 <= k < Z.of_nat (length (_buffers m))) /\
  Forall (fun q : net_buffer => _ex q = None) (_buffers m).

(** What its buffers hold for the machines it is connected to. *)
Definition queued (m : connection_manager) : list T :=
  mjoin ((fun k => default [] (_q <$> _buffers m !! Z.to_nat k)) <$> _managed_mach_ids (_conn_table m)).

Lemma stop_manager_ok ex m : stoppable m ->
  exists m', stop_manager ex m = Ok (queued m, None, m') /\ _abort_connection m' = true.
Proof.
  intros ([Hn Hk] & Hr & Hex). unfold stop_manager.
  assert (Hpos : forall k, k ∈ _managed_mach_ids (_conn_table m) -> 0 <= k < Z.of_nat (length (_buffers m))).
  { intros k Hin. now apply Hr, Hk. }
  destruct (abort_buffers_deletes_all ex (Z.to_nat <$> _managed_mach_ids (_conn_table m)) (_buffers m)) as (qs & -> & _).
  - apply NoDup_fmap_2_strong; [|done]. intros x y Hx%Hpos Hy%Hpos Exy. lia.
  - apply Forall_fmap, Forall_forall. intros k Hin. cbn. pose proof (Hpos k Hin).
    destruct (lookup_lt_is_Some_2 (_buffers m) (Z.to_nat k)) as [q Hq]; [lia|]. exists q. split; [done|].
    exact (proj1 (Forall_lookup _ _) Hex _ _ Hq).
  - cbn [mbind res_bind]. rewrite <-list_fmap_compose. eexists. split; reflexivity.
Qed.

(** Stopping the network deletes every message that is queued for a connected machine and
    destroys the connection manager of every shard, each exactly once; afterwards every
    entry is empty (a shard that still sent to another machine would use the storage of
    a destroyed manager), and stopping again does nothing. *)
Theorem stop_destroys_managers ex n ms :
  Forall2 (fun e m => e = Entry.mk_entry false (Some m)) (_cms n) ms -> Forall stoppable ms ->
  exists ms' n', stop ex n = Ok (mjoin (queued <$> ms), ms', n') /\ length ms' = length ms /\
    Forall (fun m => _abort_connection m = true) ms' /\
    Forall (fun e => Entry.get e = Fault Uninit) (_cms n') /\ stop ex n' = Ok ([], [], n').
Proof.
  intros Hc Hs. assert (H : exists ms' cms', stop_all ex (_cms n) = Ok (mjoin (queued <$> ms), ms', cms') /\
    length ms' = length ms /\ Forall (fun m => _abort_connection m = true) ms' /\
    Forall (fun e => Entry.get e = Fault Uninit) cms' /\ stop_all ex cms' = Ok ([], [], cms')).
  { induction Hc as [|e m cms ms -> Hc IH]; [now exists [], []|]. apply Forall_cons in Hs as [Hm Hs].
    destruct (IH Hs) as (ms' & cms' & E1 & Hl & Ha & He & E2). destruct (stop_manager_ok ex m Hm) as (m' & Em & Hm').
    cbn [stop_all Entry._empty negb Entry.get Entry.o of_option mbind res_bind]. rewrite Em.
    cbn [mbind res_bind Entry.finalize Entry._empty negb Entry.o of_option option_list]. rewrite E1.
    cbn [mbind res_bind app]. do 2 eexists. split; [reflexivity|]. split; [cbn; now rewrite Hl|].
    split; [now constructor|]. split; [now constructor|]. cbn [stop_all Entry._empty negb]. rewrite bind_Ok_l, E2. done. }
  destruct H as (ms' & cms' & E1 & Hl & Ha & He & E2). unfold stop. rewrite E1. cbn [mbind res_bind].
  do 2 eexists. split; [reflexivity|]. cbn [_cms]. rewrite E2. done.
Qed.
End NetworkIO.

(** ** A configured cluster *)

Lemma config_machine_fields configs p2p m c nc mi :
  configs_ok configs -> Z.of_nat p2p * Z.of_nat (length configs) < 4294967296 -> configs !! m = Some c ->
  config_machine configs p2p m = Ok (nc, mi) ->
  _node_list nc = configs /\ _num_machines nc = Z.of_nat (length configs) /\ _machine_id nc = Z.of_nat m /\
  dealt (nr_cores c) (_server_lists nc) (client_targets configs m p2p) /\ _num_shards mi = total_cores configs.
Proof.
  intros Hok Hp Hm E. pose proof (proj1 (Forall_lookup _ _) (co_cores _ Hok) m c Hm) as Hc. cbn beta in Hc.
  pose proof (cores_before_lt configs m Hok m c Hm) as Hb.
  pose proof (cores_before_le configs 0 m (co_cores _ Hok) ltac:(lia)) as H0.
  destruct (set_network_config_spec configs m p2p (nr_cores c) Hok ltac:(lia) Hp c Hm) as (nc' & E' & _ & H1 & H2 & H3 & H4).
  unfold config_machine in E. rewrite Hm in E. cbn [of_option mbind res_bind] in E. rewrite E' in E. cbn [mbind res_bind] in E.
  injection E as <- <-. done.
Qed.

(** The ids of the machines a machine connects to, in order. *)
Lemma client_targets_mids configs p2p m :
  configs_ok configs -> (m <= length configs)%nat ->
  (client_targets configs m p2p).*2 = (fun k => Z.of_nat (k / p2p)) <$> seq 0 (m * p2p).
Proof.
  intros Hok. induction m as [|m IH]; intros Hm; [done|].
  destruct (lookup_lt_is_Some_2 configs m) as [c Hc]; [lia|].
  rewrite (client_targets_S configs p2p m c Hc), fmap_app, IH by lia.
  rewrite (configs_id configs m c Hok Hc), fmap_replicate. cbn [snd].
  replace (S m * p2p)%nat with (m * p2p + p2p)%nat by lia. rewrite seq_app, fmap_app. f_equal. cbn [Nat.add].
  apply list_eq. intros i. rewrite list_lookup_fmap.
  destruct (decide (i < p2p)%nat) as [Hi|Hi].
  - rewrite lookup_replicate_2, lookup_seq_lt by done. cbn. f_equal. f_equal.
    symmetry. rewrite Nat.add_comm, Nat.div_add by lia. rewrite Nat.div_small by lia. lia.
  - rewrite lookup_seq_ge by lia. apply lookup_ge_None_2. rewrite length_replicate. lia.
Qed.

(** The ids a shard gets. *)
Lemma pick_mids cores s L (f : nat -> Z) :
  L.*2 = f <$> seq 0 (length L) ->
  (pick cores s L).*2 = f <$> filter (fun k => Z.of_nat k mod cores = Z.of_nat s) (seq 0 (length L)).
Proof.
  induction L as [|x L IH] using rev_ind; intros H; [done|].
  rewrite length_app in *. cbn [length] in *. rewrite seq_app in *. cbn [seq Nat.add] in *.
  rewrite !fmap_app in H. cbn [fmap list_fmap] in H. apply app_inj_2 in H as [H Hx]; [|done].
  injection Hx as Hx. rewrite pick_snoc, filter_app, !fmap_app, (IH H). f_equal.
  rewrite filter_cons, filter_nil. destruct (Z.eqb_spec (Z.of_nat (length L) mod cores) (Z.of_nat s));
    [rewrite decide_True by done|rewrite decide_False by done]; cbn; congruence.
Qed.

(** A shard connects at most once to each machine if there are no more connections
    between two machines than shards. *)
Lemma server_list_distinct configs p2p m cores s :
  configs_ok configs -> (m <= length configs)%nat -> Z.of_nat p2p <= cores -> (0 < p2p)%nat ->
  NoDup (pick cores s (client_targets configs m p2p)).*2.
Proof.
  intros Hok Hm Hp Hp0. pose proof (client_targets_mids configs p2p m Hok Hm) as Ht.
  assert (Hl : length (client_targets configs m p2p) = (m * p2p)%nat).
  { apply (f_equal length) in Ht. now rewrite !length_fmap, length_seq in Ht. }
  rewrite (pick_mids cores s _ (fun k => Z.of_nat (k / p2p))) by (now rewrite Hl).
  apply NoDup_fmap_2_strong; [|apply NoDup_filter, NoDup_seq].
  intros x y Hx%list_elem_of_filter Hy%list_elem_of_filter E. destruct Hx as [Hx _], Hy as [Hy _].
  pose proof (Z.div_mod (Z.of_nat x) cores ltac:(lia)). pose proof (Z.div_mod (Z.of_nat y) cores ltac:(lia)).
  pose proof (Nat.div_mod_eq x p2p). pose proof (Nat.div_mod_eq y p2p).
  pose proof (Nat.mod_upper_bound x p2p ltac:(lia)). pose proof (Nat.mod_upper_bound y p2p ltac:(lia)).
  apply Nat2Z.inj in E. rewrite E in *. rewrite Hx, Hy in *.
  assert (Hd : Z.of_nat x - Z.of_nat y < cores /\ Z.of_nat y - Z.of_nat x < cores) by lia.
  assert (Z.of_nat x / cores = Z.of_nat y / cores) by nia. nia.
Qed.

(** Otherwise the first shard connects to machine 0 twice. *)
Lemma server_list_repeats configs p2p m cores :
  configs_ok configs -> (0 < m <= length configs)%nat -> 0 < cores < Z.of_nat p2p ->
  exists a1 a2 l, pick cores 0 (client_targets configs m p2p) = (a1, 0) :: (a2, 0) :: l.
Proof.
  intros Hok Hm Hc. pose proof (client_targets_mids configs p2p m Hok ltac:(lia)) as Ht.
  assert (Hl : length (client_targets configs m p2p) = (m * p2p)%nat).
  { apply (f_equal length) in Ht. now rewrite !length_fmap, length_seq in Ht. }
  assert (Hpick := pick_mids cores 0 (client_targets configs m p2p) (fun k => Z.of_nat (k / p2p)) ltac:(now rewrite Hl)).
  rewrite Hl in Hpick. set (n := Z.to_nat cores).
  assert (Hnone : filter (fun k => Z.of_nat k mod cores = Z.of_nat 0) (seq 1 (n - 1)) = []).
  { destruct (filter _ (seq 1 (n - 1))) as [|k l] eqn:E; [done|]. exfalso. assert (Hk : k ∈ k :: l) by left. rewrite <-E in Hk.
    apply list_elem_of_filter in Hk as [Hk Hks]. apply elem_of_seq in Hks. rewrite Z.mod_small in Hk by (unfold n in Hks; lia). lia. }
  assert (Hseq : filter (fun k => Z.of_nat k mod cores = Z.of_nat 0) (seq 0 (m * p2p)) =
    0%nat :: n :: filter (fun k => Z.of_nat k mod cores = Z.of_nat 0) (seq (S n) (m * p2p - S n))).
  { replace (m * p2p)%nat with (1 + (n - 1) + (1 + (m * p2p - S n)))%nat at 1 by (unfold n; nia).
    rewrite seq_app, filter_app, seq_app, filter_app. cbn [seq Nat.add].
    rewrite filter_cons_True by (cbn; apply Zmod_0_l). rewrite filter_nil. cbn [app]. f_equal.
    rewrite Hnone.
    cbn [app]. replace (S (n - 1)) with n by (unfold n; lia).
    rewrite filter_cons_True; [done|]. unfold n. rewrite Z2Nat.id by lia. now rewrite Z_mod_same_full. }
  rewrite Hseq in Hpick. destruct (pick cores 0 (client_targets configs m p2p)) as [|[a1 z1] [|[a2 z2] l]]; [done..|].
  cbn [fmap list_fmap snd] in Hpick. injection Hpick as -> -> _. exists a1, a2, l.
  rewrite Nat.div_0_l by lia. rewrite Nat.div_small by (unfold n; lia). done.
Qed.

Section Configured.
Context {I Out : Type} {IS : InputStream I} {OS : OutputStream Out} {WA : WhenAll}.
Abbreviation conn := (connection I Out).
Context (configs : list worker_node_info) (p2p m : nat) (c : worker_node_info) (nc : network_config) (mi : machine_info).
Context (Hok : configs_ok configs) (Hp2p : (0 < p2p)%nat).
Context (Hbound : Z.of_nat p2p * Z.of_nat (length configs) < 4294967296).
Context (Hm : configs !! m = Some c) (Hnc : config_machine configs p2p m = Ok (nc, mi)).

(** With no more connections between two machines than shards, each shard says hello
    exactly once on each connection it makes, in whatever order they are made. *)
Theorem configured_hellos s l (attempts : list (Z * option conn)) :
  Z.of_nat p2p <= nr_cores c -> _server_lists nc !! s = Some l -> attempts.*1 ≡ₚ l.*2 ->
  exists t, start (_machine_id nc) attempts connection_table_new = Ok (forallb (fun p => bool_decide (is_Some p.2)) attempts, t) /\
    _mc_map t = greeted (Z.of_nat m) attempts.
Proof using Hok Hp2p Hbound Hm Hnc.
  intros Hle Hl Ha. destruct (config_machine_fields configs p2p m c nc mi Hok Hbound Hm Hnc) as (_ & _ & Hid & [Hd Hlen _] & _).
  pose proof (lookup_lt_Some _ _ _ Hl) as Hs. rewrite Hlen in Hs. rewrite (Hd s Hs) in Hl. injection Hl as <-.
  rewrite Hid. apply (hello_once (Z.of_nat m) attempts connection_table_new). cbn. rewrite Ha.
  apply (server_list_distinct configs p2p m); try done. pose proof (lookup_lt_Some _ _ _ Hm). lia.
Qed.

(** With more connections than shards the first shard connects to machine 0 twice, and
    the second connection stays silent: machine 0 waits for its hello for ever. *)
Theorem too_many_connections (c1 c2 : conn) :
  nr_cores c < Z.of_nat p2p -> (0 < m)%nat ->
  exists a1 a2 l, _server_lists nc !! 0%nat = Some ((a1, 0) :: (a2, 0) :: l) /\
    exists t, start (_machine_id nc) [(0, Some c1); (0, Some c2)] connection_table_new = Ok (true, t) /\
      _mc_map t = [(0, mk_conn (in_ c1) (client_hello (_machine_id nc) (client_hello (_machine_id nc) (out c1)))); (0, c2)].
Proof using Hok Hp2p Hbound Hm Hnc.
  intros Hlt H0. destruct (config_machine_fields configs p2p m c nc mi Hok Hbound Hm Hnc) as (_ & _ & Hid & [Hd Hlen _] & _).
  pose proof (proj1 (Forall_lookup _ _) (co_cores _ Hok) m c Hm) as Hc. cbn beta in Hc.
  pose proof (lookup_lt_Some _ _ _ Hm).
  destruct (server_list_repeats configs p2p m (nr_cores c) Hok ltac:(lia) ltac:(lia)) as (a1 & a2 & l & E).
  exists a1, a2, l. split; [rewrite (Hd 0%nat) by lia; now rewrite E|].
  destruct (second_connection_silent (_machine_id nc) 0 c1 c2) as (t & Et & Ht & _). eauto.
Qed.

(** The machines in the lists of servers: those with lower ids. *)
Lemma server_list_ids z :
  (exists s l, _server_lists nc !! s = Some l /\ z ∈ l.*2) <-> 0 <= z < Z.of_nat m.
Proof using Hok Hp2p Hbound Hm Hnc.
  destruct (config_machine_fields configs p2p m c nc mi Hok Hbound Hm Hnc) as (_ & _ & _ & [_ _ Hperm] & _).
  pose proof (lookup_lt_Some _ _ _ Hm) as Hml. pose proof (client_targets_mids configs p2p m Hok ltac:(lia)) as Hmids.
  assert (H : (exists s l, _server_lists nc !! s = Some l /\ z ∈ l.*2) <-> z ∈ (client_targets configs m p2p).*2).
  { rewrite <-Hperm, list_elem_of_fmap. split.
    - intros (s & l & Hl & (x & -> & Hx)%list_elem_of_fmap). exists x. split; [done|]. apply list_elem_of_join.
      exists l. split; [done|]. now apply list_elem_of_lookup_2 in Hl.
    - intros (x & -> & (l & Hx & [s Hl]%list_elem_of_lookup_1)%list_elem_of_join). exists s, l. split; [done|].
      apply list_elem_of_fmap. eauto. }
  rewrite H, Hmids, list_elem_of_fmap. split.
  - intros (q & -> & Hq%elem_of_seq). pose proof (Nat.div_lt_upper_bound q p2p m ltac:(lia) ltac:(lia)). lia.
  - intros Hz. exists (Z.to_nat z * p2p)%nat. rewrite Nat.div_mul by lia. split; [lia|]. apply elem_of_seq. nia.
Qed.

(** A machine of a configured cluster, all of whose attempts to connect succeed and which
    every machine with a higher id reaches on some shard: after start-up, a message to
    any shard of any other machine has a route, through a shard connected to it. *)
Theorem configured_network_routes (outcomes : list (shard_outcome (I := I) (Out := Out))) peerss g k ck :
  length outcomes = Z.to_nat (nr_cores c) -> Forall2 peers_of outcomes peerss ->
  total_cores configs + (2 + nr_cores c) * Z.of_nat (length configs) < 4294967296 -> nr_cores c < 4294967294 ->
  (forall s oc l, outcomes !! s = Some oc -> _server_lists nc !! s = Some l -> made (attempts oc) ≡ₚ l.*2) ->
  (forall s peers p, peerss !! s = Some peers -> p ∈ peers -> Z.of_nat m < p.1 < Z.of_nat (length configs)) ->
  (forall j, (m < j < length configs)%nat -> exists s oc peers, outcomes !! s = Some oc /\ peerss !! s = Some peers /\
     listen_timed_out oc = false /\ Z.of_nat j ∈ peers.*1) ->
  configs !! k = Some ck -> k <> m -> cores_before configs k <= g < cores_before configs k + nr_cores ck ->
  exists (n' : network_io (T := unit) (E := unit)) t s,
    start_and_connect 0 nc (_num_shards mi) (length outcomes) outcomes network_io_init = Ok (Ready tt, n') /\
    _routing_tbl n' = Some t /\ get_destination t g = Ok (mk_dest (Z.of_nat k) (Z.of_nat s)) /\ holds n' s (Z.of_nat k).
Proof using Hok Hp2p Hbound Hm Hnc.
  intros Hlo Hpe Hsz Hsz2 Hatt Hpeers Hhigh Hk Hne Hg.
  destruct (config_machine_fields configs p2p m c nc mi Hok Hbound Hm Hnc) as (Hnl & Hnm & _ & [_ Hlen _] & Hns).
  pose proof (proj1 (Forall_lookup _ _) (co_cores _ Hok) m c Hm) as Hc. cbn beta in Hc.
  pose proof (lookup_lt_Some _ _ _ Hm) as Hml. pose proof (lookup_lt_Some _ _ _ Hk) as Hkl.
  assert (Hstart : start_ok configs nc outcomes peerss).
  { constructor; try done; try lia; [apply Hok|]. intros s z (oc & peers & Hs & Hps & [Hz|Hz]%elem_of_app).
    - destruct (listen_timed_out oc); [now apply not_elem_of_nil in Hz|]. apply list_elem_of_fmap in Hz as (p & -> & Hp).
      pose proof (Hpeers s peers p Hps Hp). lia.
    - destruct (lookup_lt_is_Some_2 (_server_lists nc) s) as [l Hl]; [apply lookup_lt_Some in Hs; lia|].
      rewrite (Hatt s oc l Hs Hl) in Hz. enough (0 <= z < Z.of_nat m) by lia. apply server_list_ids. eauto. }
  assert (Hreach : exists s, connects outcomes peerss s (Z.of_nat k)).
  { destruct (Nat.lt_gt_cases k m) as [[Hlt|Hgt] _]; [done|..].
    - destruct (proj2 (server_list_ids (Z.of_nat k)) ltac:(lia)) as (s & l & Hl & Hin). pose proof (lookup_lt_Some _ _ _ Hl).
      destruct (lookup_lt_is_Some_2 outcomes s) as [oc Hs]; [lia|].
      destruct (lookup_lt_is_Some_2 peerss s) as [peers Hps]; [rewrite <-(Forall2_length _ _ _ Hpe); lia|].
      exists s, oc, peers. split; [done|]. split; [done|]. apply elem_of_app. right. now rewrite (Hatt s oc l Hs Hl).
    - destruct (Hhigh k) as (s & oc & peers & Hs & Hps & Hto & Hj); [lia|]. exists s, oc, peers. split; [done|]. split; [done|].
      apply elem_of_app. left. now rewrite Hto. }
  destruct (start_routes (T := unit) (E := unit) configs nc outcomes peerss g k ck Hstart Hk Hg) as (n' & t & Es & _ & Ht & Hyes & _).
  destruct (Hyes Hreach) as (s & Ed & Hh). exists n', t, s. rewrite Hns. done.
Qed.
End Configured.

(** ** Machine 0 of a cluster of two: machine 1 connects to its second shard *)
Module StartExamples.
Definition sample_nc : network_config := mk_config 1 1 0 2 9000 ∅ [[]; []; []] sample_nodes.
Definition sample_peer : Z * connection (bytes * bool) bytes := (1, mk_conn (enc_uint 4 1, false) []).
Definition idle : shard_outcome (I := bytes * bool) (Out := bytes) := mk_outcome [] false [] 0.
Definition sample_outcomes := [idle; mk_outcome [snd sample_peer] false [] 0; idle].
Definition sample_peerss : list (list (Z * connection (bytes * bool) bytes)) := [[]; [sample_peer]; []].

Lemma sample_start_ok : start_ok sample_nodes sample_nc sample_outcomes sample_peerss.
Proof.
  constructor; try done.
  - repeat constructor.
  - assert (Hs : said_hello sample_peer) by (split; [unfold in_u; cbn; lia|now exists []]).
    repeat (apply Forall2_cons; split; [intros _; split; [done|]|]); try apply Forall2_nil; try apply Forall_nil; try done.
    now apply Forall_singleton.
  - intros i k (oc & peers & Ho & Hp & Hk).
    destruct i as [|[|[|i]]]; try done; cbn in Ho, Hp; injection Ho as <-; injection Hp as <-; cbn in Hk.
    + now apply not_elem_of_nil in Hk.
    + apply list_elem_of_singleton in Hk as ->. cbn. lia.
    + now apply not_elem_of_nil in Hk.
Qed.

Lemma sample_connects : connects sample_outcomes sample_peerss 1 1.
Proof. exists (mk_outcome [snd sample_peer] false [] 0), [sample_peer]. split; [done|]. split; [done|]. left. Qed.

(** The second time the peer closes the connection after two bytes. *)
Definition cut_outcomes := [idle; mk_outcome [mk_conn ([Byte.x01; Byte.x00], true) []] false [] 0; idle].


(** The connection attempts of a machine fail; start-up reports success. *)
Example refused_start_is_ready :
  exists n', start_and_connect (T := unit) (E := unit) 0 sample_nc 5 3 [idle; mk_outcome [] true [(1, None)] 0; idle] network_io_init
    = Ok (Ready tt, n').
Proof. eexists. vm_compute. reflexivity. Qed.


Lemma configured_hellos_witness :
  exists t, start 1 [(0, Some (mk_conn tt ([] : bytes)))] connection_table_new = Ok (true, t) /\
    _mc_map t = [(0, mk_conn tt (enc_uint 4 1))].
Proof.
  destruct (config_machine sample_configs 2 1) as [[nc mi]|] eqn:E; [|vm_compute in E; discriminate].
  pose proof (configured_hellos (I := unit) (Out := bytes) sample_configs 2 1 _ nc mi sample_configs_ok ltac:(lia) eq_refl eq_refl E 0
    [(mk_addr 1 9000, 0)] [(0, Some (mk_conn tt []))] ltac:(cbn; lia)) as H.
  vm_compute in E. injection E as <- <-. exact (H eq_refl (Permutation_refl _)).
Defined.
End StartExamples.
