(* ===== verification/Timer.v ===== *)
(** * Time slices

    The clock and quota of a shard (src/include/hiactor/core/actor_timer.hh,
    src/src/core/actor_timer.cc), [set_timer] and [need_yield] of an actor
    (src/src/core/actor_core.cc) and the loops of [run_and_dispose] as far as they
    decide when an actor yields (src/src/core/actor-template.cc).

    Points in time are nanoseconds of the steady clock, quotas are microseconds.  How
    long a message or task runs and what [need_preempt()] answers are inputs. *)
From S2P Require Import Prelude.

(** ** The thread-local variables *)
Record clock := mk_clock { actor_clock : Z; actor_quota : Z; actor_execution_count : Z }.

Definition default_actor_quota : Z := 500.
Definition default_execution_interval : Z := 1.
Definition clock_init : clock := mk_clock 0 default_actor_quota 0.

(** [actor_smp::configure]: the option [execution-interval]. *)
Definition configure_interval (opt : option Z) : Z :=
  match opt with Some i => Z.max i 1 | None => default_execution_interval end.

Definition read_actor_clock (c : clock) : Z := actor_clock c.
Definition read_actor_quota (c : clock) : Z := actor_quota c.
Definition set_actor_quota (quota : Z) (c : clock) : clock := mk_clock (actor_clock c) quota (actor_execution_count c).

(** [++actor_execution_count], in 32 bits. *)
Definition advance_actor_clock (interval now : Z) (c : clock) : clock :=
  let n := u32 (actor_execution_count c + 1) in
  if n <? interval then mk_clock (actor_clock c) (actor_quota c) n else mk_clock now (actor_quota c) 0.

(** ** The timer of an actor *)
Record timer := mk_timer { _unused_quota : Z; _stop_time : Z }.

(** [set_timer]; [top]: the execution context is the actor engine. *)
Definition set_timer (top : bool) (now : Z) (c : clock) : clock * timer :=
  let c := if top then mk_clock now default_actor_quota (actor_execution_count c) else c in
  (c, mk_timer (read_actor_quota c) (read_actor_clock c + 1000 * read_actor_quota c)).

(** [need_yield]; [duration_cast] truncates. *)
Definition need_yield (preempt : bool) (c : clock) (t : timer) : bool * timer :=
  if preempt then (true, t)
  else let unused := Z.quot (_stop_time t - read_actor_clock c) 1000 in
       (unused <=? 0, mk_timer unused (_stop_time t)).

(** ** run_and_dispose

    A message or task: how long it runs, and whether the reactor wants to preempt
    afterwards. *)
Abbreviation item := (Z * bool)%type.

(** The loop over a mailbox or over the tasks of an actor: whether it yielded, the time
    it ended. *)
Fixpoint run_items (interval now : Z) (items : list item) (c : clock) (t : timer) : bool * Z * clock * timer :=
  match items with
  | [] => (false, now, c, t)
  | (duration, preempt) :: items =>
      let now := now + duration in
      let c := advance_actor_clock interval now c in
      let '(y, t) := need_yield preempt c t in
      if (y : bool) then (true, now, c, t) else run_items interval now items c t
  end.

(** What a scheduled actor has to do: tasks, then messages, the last of which may bring it
    to its concurrency limit ([blocked]: how long that one runs); or, for a group,
    messages, then its runnable children, each with the answer of [need_preempt()] after
    it. *)
Inductive work :=
  | Leaf (tasks messages : list item) (blocked : option Z)
  | Group (messages : list item) (children : list (work * bool)).

Fixpoint run_and_dispose (interval : Z) (top : bool) (now : Z) (w : work) (c : clock) : Z * clock :=
  let '(c, t) := set_timer top now c in
  match w with
  | Leaf tasks messages blocked =>
      let '(y, now, c, t) := run_items interval now tasks c t in
      if (y : bool) then (now, c)
      else
        let '(y, now, c, _) := run_items interval now messages c t in
        if (y : bool) then (now, c)
        else match blocked with
             | Some duration => (now + duration, c)    (* [goto FINAL] *)
             | None => (now, c)
             end
  | Group messages children =>
      let '(y, now, c, t) := run_items interval now messages c t in
      if (y : bool) then (now, c)
      else
        (fix run_children (children : list (work * bool)) (now : Z) (c : clock) (t : timer) : Z * clock :=
           match children with
           | [] => (now, c)
           | (child, preempt) :: children =>
               let '(now, c) := run_and_dispose interval false now child (set_actor_quota (_unused_quota t) c) in
               let '(y, t) := need_yield preempt c t in
               if (y : bool) then (now, c) else run_children children now c t
           end) children now c t
  end.

(** ** How long a slice takes *)
Section Slices.
Context (interval tau : Z) (Hinterval : 1 <= interval < 4294967296) (Htau : 0 <= tau).

Definition paced : list item -> Prop := Forall (fun p => 0 <= p.1 <= tau).
Inductive paced_work : work -> Prop :=
  | PLeaf tasks messages : paced tasks -> paced messages -> paced_work (Leaf tasks messages None)
  | PGroup messages children : paced messages -> Forall (fun p => paced_work p.1) children -> paced_work (Group messages children).

(** The clock was read at most [actor_execution_count] messages ago. *)
Definition in_sync (now : Z) (c : clock) : Prop :=
  0 <= actor_execution_count c < interval /\ actor_clock c <= now <= actor_clock c + actor_execution_count c * tau.

(** What [need_yield] knew when it let the loop go on. *)
Definition going (c : clock) (t : timer) : Prop :=
  1 <= _unused_quota t /\ actor_clock c + 1000 * _unused_quota t <= _stop_time t.

Definition limit (t : timer) : Z := _stop_time t - 1000 + interval * tau.

Lemma advance_sync now d c : in_sync now c -> 0 <= d <= tau -> in_sync (now + d) (advance_actor_clock interval (now + d) c).
Proof using Hinterval Htau.
  intros [Hn Hc] Hd. unfold advance_actor_clock. rewrite u32_small by lia.
  destruct (Z.ltb_spec (actor_execution_count c + 1) interval); split; cbn; nia.
Qed.

Lemma going_limit now c t : in_sync now c -> going c t -> now + tau <= limit t.
Proof using Hinterval Htau. intros [Hn Hc] [H1 H2]. unfold limit. nia. Qed.

Lemma no_yield preempt c t t' : need_yield preempt c t = (false, t') -> going c t' /\ _stop_time t' = _stop_time t.
Proof using.
  unfold need_yield. destruct preempt; [done|]. intros [= Hle <-]. apply Z.leb_gt in Hle. unfold going. cbn.
  split; [|done]. split; [lia|]. unfold read_actor_clock in *.
  destruct (Z.le_gt_cases 0 (_stop_time t - actor_clock c)) as [H0|H0].
  - pose proof (Z.mul_quot_le (_stop_time t - actor_clock c) 1000). lia.
  - pose proof (Z.quot_opp_l (_stop_time t - actor_clock c) 1000 ltac:(lia)).
    pose proof (Z.quot_pos (- (_stop_time t - actor_clock c)) 1000 ltac:(lia) ltac:(lia)). lia.
Qed.

Lemma yield_stop preempt c t y t' : need_yield preempt c t = (y, t') -> _stop_time t' = _stop_time t.
Proof using. unfold need_yield. destruct preempt; now intros [= <- <-]. Qed.

(** A loop that starts with time left ends before the limit, whatever it runs. *)
Lemma run_items_limit items : forall now c t y now' c' t',
  paced items -> in_sync now c -> going c t -> run_items interval now items c t = (y, now', c', t') ->
  in_sync now' c' /\ now <= now' <= limit t /\ _stop_time t' = _stop_time t /\ (y = false -> going c' t').
Proof using Hinterval Htau.
  induction items as [|[d preempt] items IH]; intros now c t y now' c' t' Hp Hs Hg E; cbn [run_items] in E.
  - injection E as <- <- <- <-. pose proof (going_limit _ _ _ Hs Hg). split; [done|]. split; [lia|done].
  - apply Forall_cons in Hp as [Hd Hp]. cbn [fst] in Hd. pose proof (going_limit _ _ _ Hs Hg) as Hlim.
    pose proof (advance_sync now d c Hs Hd) as Hs1. set (c1 := advance_actor_clock _ _ _) in *.
    destruct (need_yield preempt c1 t) as [[|] t1] eqn:En.
    + injection E as <- <- <- <-. split; [done|]. split; [lia|]. split; [|done]. exact (yield_stop _ _ _ _ _ En).
    + apply no_yield in En as [Hg1 Hst]. destruct (IH _ _ _ _ _ _ _ Hp Hs1 Hg1 E) as (H1 & H2 & H3 & H4).
      unfold limit in *. rewrite Hst in *. split; [done|]. split; [lia|done].
Qed.

(** What a child gets of its group's time: its slice ends no later than the group's. *)
Lemma child_stops_first c t t' c' now :
  going c t -> set_timer false now (set_actor_quota (_unused_quota t) c) = (c', t') ->
  going c' t' /\ _stop_time t' <= _stop_time t.
Proof using.
  intros [H1 H2] [= <- <-]. unfold going, read_actor_clock, read_actor_quota, set_actor_quota.
  cbn [actor_clock actor_quota _unused_quota _stop_time]. lia.
Qed.

Lemma set_timer_going top now c c' t :
  in_sync now c -> (top = false -> 1 <= actor_quota c) -> set_timer top now c = (c', t) ->
  in_sync now c' /\ going c' t /\ _stop_time t = (if top then now + 500000 else actor_clock c + 1000 * actor_quota c).
Proof using Hinterval Htau.
  intros [Hn Hc] Hq [= <- <-]. unfold in_sync, going, read_actor_clock, read_actor_quota, default_actor_quota.
  destruct top; cbn [actor_clock actor_quota actor_execution_count _unused_quota _stop_time]; [nia|].
  specialize (Hq eq_refl). lia.
Qed.

(** The time by which an actor that is run now has to be done. *)
Definition deadline (top : bool) (now : Z) (c : clock) : Z :=
  (if top then now + 500000 else actor_clock c + 1000 * actor_quota c) - 1000 + interval * tau.

Fixpoint run_deadline (w : work) : forall top now c now' c',
  paced_work w -> in_sync now c -> (top = false -> 1 <= actor_quota c) ->
  run_and_dispose interval top now w c = (now', c') -> in_sync now' c' /\ now <= now' <= deadline top now c.
Proof using Hinterval Htau.
  intros top now c now' c' Hp Hs Hq E. unfold deadline.
  destruct w as [tasks messages blocked|messages children]; cbn [run_and_dispose] in E;
    destruct (set_timer top now c) as [c0 t0] eqn:E0;
    destruct (set_timer_going top now c c0 t0 Hs Hq E0) as (Hs0 & Hg0 & <-).
  - inversion Hp as [? ? Hp1 Hp2|]; subst. destruct (run_items interval now tasks c0 t0) as [[[y now1] c1] t1] eqn:E1.
    destruct (run_items_limit tasks now c0 t0 _ _ _ _ Hp1 Hs0 Hg0 E1) as (Hs1 & Hn1 & Hst & Hg1).
    unfold limit in *. destruct y; [injection E as <- <-; split; [done|lia]|]. specialize (Hg1 eq_refl).
    destruct (run_items interval now1 messages c1 t1) as [[[y now2] c2] t2] eqn:E2.
    destruct (run_items_limit messages now1 c1 t1 _ _ _ _ Hp2 Hs1 Hg1 E2) as (Hs2 & Hn2 & _). unfold limit in *.
    destruct y; injection E as <- <-; (split; [done|lia]).
  - inversion Hp as [|? ? Hp1 Hp2]; subst. destruct (run_items interval now messages c0 t0) as [[[y now1] c1] t1] eqn:E1.
    destruct (run_items_limit messages now c0 t0 _ _ _ _ Hp1 Hs0 Hg0 E1) as (Hs1 & Hn1 & Hst & Hg1).
    unfold limit in *. destruct y; [injection E as <- <-; split; [done|lia]|]. specialize (Hg1 eq_refl).
    rewrite <-Hst. enough (H : in_sync now' c' /\ now1 <= now' <= _stop_time t1 - 1000 + interval * tau) by (split; [apply H|lia]).
    clear -run_deadline Hinterval Htau Hp2 Hs1 Hg1 E. revert now1 c1 t1 Hs1 Hg1 E. induction Hp2 as [|[child preempt] children Hc _ IH]; intros now1 c1 t1 Hs1 Hg1 E.
    + injection E as <- <-. pose proof (going_limit _ _ _ Hs1 Hg1). unfold limit in *. split; [done|lia].
    + destruct (run_and_dispose interval false now1 child (set_actor_quota (_unused_quota t1) c1)) as [now2 c2] eqn:E2.
      apply run_deadline in E2; [|done|exact Hs1|intros _; cbn; apply Hg1]. destruct E2 as [Hs2 Hn2].
      unfold deadline, set_actor_quota in Hn2. cbn [actor_clock actor_quota] in Hn2. destruct Hg1 as [Hg1 Hg1'].
      destruct (need_yield preempt c2 t1) as [[|] t2] eqn:E3; [injection E as <- <-; split; [done|lia]|].
      apply no_yield in E3 as [Hg2 Hst2]. destruct (IH now2 c2 t2 Hs2 Hg2 E) as [H1 H2]. split; [done|]. lia.
Qed.
End Slices.

(** C38: A slice of a top-level actor, whatever tree of groups and actors it runs, is over
    499 microseconds and [interval] messages after it began (the quota of 500, in
    whole microseconds, plus the messages processed between two readings of the clock),
    provided no message brings an actor to its concurrency limit. *)
Theorem slice_bounded opt interval tau now w c :
  configure_interval opt = interval -> interval < 4294967296 -> 0 <= tau -> paced_work tau w ->
  0 <= actor_execution_count c < interval ->
  exists now' c', run_and_dispose interval true now w c = (now', c') /\
    now <= now' <= now + 499000 + interval * tau /\ 0 <= actor_execution_count c' < interval.
Proof.
  intros Hi Hlt Htau Hw Hc. assert (1 <= interval) by (unfold configure_interval, default_execution_interval in Hi; destruct opt; lia).
  set (c0 := mk_clock now (actor_quota c) (actor_execution_count c)).
  assert (Heq : run_and_dispose interval true now w c = run_and_dispose interval true now w c0) by (now destruct w).
  destruct (run_and_dispose interval true now w c0) as [now' c'] eqn:Er.
  destruct (run_deadline interval tau ltac:(lia) Htau w true now c0 now' c' Hw) as [[H1 _] H2]; try done.
  { unfold c0, in_sync. cbn [actor_clock actor_execution_count]. nia. }
  exists now', c'. split; [done|]. split; [unfold deadline in H2; lia|done].
Qed.

(** A message that brings its actor to the concurrency limit is not counted: a group
    runs one of them on each of its children in one slice, however many children there
    are and however long it takes, unless the reactor preempts it. *)
Theorem blocked_messages_uncounted interval n d now c :
  0 <= d ->
  run_and_dispose interval true now (Group [] (replicate n (Leaf [] [] (Some d), false))) c =
    (now + Z.of_nat n * d, mk_clock now default_actor_quota (actor_execution_count c)).
Proof.
  intros Hd. cbn [run_and_dispose set_timer run_items]. set (t := mk_timer _ _).
  set (c0 := mk_clock now default_actor_quota (actor_execution_count c)).
  assert (Hy : need_yield false c0 t = (false, t)).
  { unfold need_yield, t, c0. cbn [_stop_time _unused_quota read_actor_clock actor_clock read_actor_quota actor_quota].
    unfold default_actor_quota. replace (now + 1000 * 500 - now) with (500 * 1000) by lia. now rewrite Z.quot_mul. }
  change (set_actor_quota (_unused_quota t) c0) with c0. generalize now at 1 2. induction n as [|n IH]; intros now0.
  - cbn [replicate]. f_equal. lia.
  - cbn [replicate run_and_dispose set_timer run_items].
    change (set_actor_quota (_unused_quota t) c0) with c0. cbn zeta. rewrite Hy, IH. f_equal. lia.
Qed.

(** A group with an actor that has enough messages for two slices and a second actor. *)
Definition sample_work : work :=
  Group [(1000, false)]
    [(Leaf [] (replicate 20 (30000, false)) None, false); (Leaf [(1000, false)] [] None, false)].

Lemma slice_bounded_witness :
  exists now' c', run_and_dispose 4 true 7 sample_work clock_init = (now', c') /\
    7 <= now' <= 7 + 499000 + 4 * 30000 /\ 0 <= actor_execution_count c' < 4.
Proof.
  refine (slice_bounded (Some 4) 4 30000 7 sample_work clock_init eq_refl ltac:(lia) ltac:(lia) _ ltac:(cbn; lia)).
  repeat constructor; cbn; lia.
Defined.

(** The first actor is cut off after 19 of its messages; the second one has to wait. *)
Example sample_slice : run_and_dispose 4 true 7 sample_work clock_init = (571007, mk_clock 571007 500 0).
Proof. vm_compute. reflexivity. Qed.
