(* ===== verification/Registry.v ===== *)
(** * Registries: actor constructors and service groups

    [actor_factory] (src/include/hiactor/core/actor_factory.hh, src/src/core/actor_factory.cc):
    the table from actor type ids to constructors, filled by static initializers
    (src/src/core/actor-template.cc registers the two kinds of actor group) and read when
    a message reaches an actor that does not exist yet.  Service groups
    (src/include/hiactor/core/local_channel.hh, src/src/core/local_channel.cc): the
    semaphores that limit what a group of clients may send to other shards; every shard
    keeps its own vector of them, indexed by the same ids. *)
From S2P Require Import Prelude.
From stdpp Require Import strings.
#[local] Open Scope Z_scope.

(** [vector::resize] to at least [n] elements. *)
Definition resize_up {A} (n : nat) (a : A) (v : list A) : list A := v ++ replicate (n - length v) a.

Lemma length_resize_up {A} n (a : A) v : length (resize_up n a v) = Nat.max n (length v).
Proof. unfold resize_up. rewrite length_app, length_replicate. lia. Qed.

Lemma lookup_resize_up {A} n (a : A) v i :
  resize_up n a v !! i = if decide (i < length v)%nat then v !! i else if decide (i < n)%nat then Some a else None.
Proof.
  unfold resize_up. case_decide; [now apply lookup_app_l|]. rewrite lookup_app_r by lia.
  case_decide; [apply lookup_replicate_2; lia|]. apply lookup_ge_None_2. rewrite length_replicate. lia.
Qed.

(** ** actor_factory *)
Module Factory.
Section Factory.
(** What a constructor makes of an execution context and an address. *)
Context {Ctx Addr Actor : Type}.
Definition ActorInstBuilder : Type := Ctx -> Addr -> Actor.

(** [_actor_directory]: null where nothing was registered. *)
Abbreviation actor_factory := (list (option ActorInstBuilder)).

(** Type ids are 16-bit; [actor_tid + 1] is an [int]. *)
Definition register_actor (actor_tid : Z) (func : ActorInstBuilder) (f : actor_factory) : actor_factory :=
  let reserved_size := Z.to_nat (actor_tid + 1) in
  let f := if (length f <? reserved_size)%nat then resize_up reserved_size None f else f in
  <[Z.to_nat actor_tid := Some func]> f.

Definition create (actor_tid : Z) (exec_ctx : Ctx) (addr : Addr) (f : actor_factory) : res Actor :=
  build_func ← of_option OutOfBounds (f !! Z.to_nat actor_tid);
  build_func ← of_option NullDeref build_func;
  Ok (build_func exec_ctx addr).

(** The registrations of a program, in the order the initializers run. *)
Fixpoint register_all (regs : list (Z * ActorInstBuilder)) (f : actor_factory) : actor_factory :=
  match regs with
  | [] => f
  | (tid, func) :: regs => register_all regs (register_actor tid func f)
  end.

(** [get_actor_group_type_id<actor_group>()], [..<schedulable_actor_group>()], and their
    registrations. *)
Definition actor_group_type_id : Z := 61440.
Definition schedulable_actor_group_type_id : Z := 61441.
Definition group_registrations (group schedulable : ActorInstBuilder) : list (Z * ActorInstBuilder) :=
  [(actor_group_type_id, group); (schedulable_actor_group_type_id, schedulable)].

(** *** The table as a map *)

(** The registration that counts: the last one. *)
Fixpoint registered (regs : list (Z * ActorInstBuilder)) (tid : Z) : option ActorInstBuilder :=
  match regs with
  | [] => None
  | (t, func) :: regs => match registered regs tid with
                         | Some b => Some b
                         | None => if t =? tid then Some func else None
                         end
  end.
(** The size of the table. *)
Definition highest (regs : list (Z * ActorInstBuilder)) : nat := foldr Nat.max 0%nat ((fun p => Z.to_nat (p.1 + 1)) <$> regs).

Lemma register_lookup tid func (f : actor_factory) i :
  0 <= tid ->
  register_actor tid func f !! i =
    if decide (i = Z.to_nat tid) then Some (Some func)
    else if decide (i < length f)%nat then f !! i else if decide (i < Z.to_nat (tid + 1))%nat then Some None else None.
Proof.
  intros Ht. unfold register_actor. cbn zeta.
  set (f1 := if (length f <? Z.to_nat (tid + 1))%nat then resize_up (Z.to_nat (tid + 1)) None f else f).
  assert (Hf1 : forall j, f1 !! j = if decide (j < length f)%nat then f !! j else if decide (j < Z.to_nat (tid + 1))%nat then Some None else None).
  { intros j. unfold f1. destruct (Nat.ltb_spec (length f) (Z.to_nat (tid + 1))); [apply lookup_resize_up|].
    case_decide; [done|]. rewrite decide_False by lia. apply lookup_ge_None_2. lia. }
  assert (Hlen : (Z.to_nat tid < length f1)%nat).
  { unfold f1. destruct (Nat.ltb_spec (length f) (Z.to_nat (tid + 1))); [rewrite length_resize_up|]; lia. }
  destruct (decide (i = Z.to_nat tid)) as [->|Hne]; [now apply list_lookup_insert_eq|].
  now rewrite list_lookup_insert_ne by done.
Qed.

Lemma register_length tid func (f : actor_factory) : length (register_actor tid func f) = Nat.max (length f) (Z.to_nat (tid + 1)).
Proof.
  unfold register_actor. rewrite length_insert.
  destruct (Nat.ltb_spec (length f) (Z.to_nat (tid + 1))); [rewrite length_resize_up|]; lia.
Qed.

Lemma register_all_lookup regs : forall (f : actor_factory) tid,
  Forall (fun p => 0 <= p.1) regs -> 0 <= tid ->
  register_all regs f !! Z.to_nat tid =
    match registered regs tid with
    | Some b => Some (Some b)
    | None => if decide (Z.to_nat tid < length f)%nat then f !! Z.to_nat tid
              else if decide (Z.to_nat tid < highest regs)%nat then Some None else None
    end.
Proof.
  induction regs as [|[t func] regs IH]; intros f tid Hf Ht; cbn [register_all registered].
  - case_decide; [done|]. cbn. apply lookup_ge_None_2. lia.
  - apply Forall_cons in Hf as [Ht0 Hf]. cbn in Ht0. rewrite IH by done. destruct (registered regs tid); [done|].
    rewrite register_lookup, register_length by done. unfold highest. cbn. fold (highest regs).
    destruct (Z.eqb_spec t tid) as [->|Hne]; [rewrite !decide_True by lia; done|].
    rewrite (decide_False (P := Z.to_nat tid = Z.to_nat t)) by lia. repeat case_decide; try done; lia.
Qed.

(** The factory implements the map from type ids to the constructors registered last:
    an actor is built by exactly that constructor, whatever was registered for other ids
    and in whatever order.  It does not check for ids nobody registered: below the
    highest registered id the call goes through a null pointer, above it the table is
    read past its end. *)
Theorem factory_refines_map regs tid (exec_ctx : Ctx) (addr : Addr) :
  Forall (fun p => 0 <= p.1) regs -> 0 <= tid ->
  create tid exec_ctx addr (register_all regs []) =
    match registered regs tid with
    | Some b => Ok (b exec_ctx addr)
    | None => Fault (if (Z.to_nat tid <? highest regs)%nat then NullDeref else OutOfBounds)
    end.
Proof.
  intros Hf Ht. unfold create. rewrite register_all_lookup by done. destruct (registered regs tid) as [b|]; [done|].
  cbn [length]. rewrite decide_False by lia. destruct (Nat.ltb_spec (Z.to_nat tid) (highest regs)) as [H|H].
  - now rewrite decide_True.
  - now rewrite decide_False by lia.
Qed.
End Factory.
End Factory.

(** ** Service groups *)
Module ServiceGroups.

(** A shard's vector: for each id the semaphores of its clients, one per shard; none
    when the id is free. *)
Abbreviation groups := (list (list Z)).

Section ServiceGroups.
(** [seastar::semaphore::max_counter()] *)
Variable max_counter : Z.

(** [init_default_actor_msg_service_group] *)
Definition init_default (count : nat) (g : groups) : groups := g ++ [replicate count max_counter].

(** [find_if] over the vector of shard 0. *)
Fixpoint first_free (g : groups) : nat :=
  match g with
  | [] => 0
  | [] :: _ => 0
  | _ :: g => S (first_free g)
  end.

(** Where an allocation of a shard fails. *)
Inductive outcome := Success | ResizeThrows | ReserveThrows.
#[export] Instance outcome_eq_dec : EqDecision outcome.
Proof. solve_decision. Defined.

(** The lambda of [create_actor_msg_service_group] on one shard: whether it ended without
    an exception. *)
Definition create_on_shard (count : nat) (max_nonlocal_requests : Z) (id : nat) (oc : outcome) (g : groups) : bool * groups :=
  match oc with
  | ResizeThrows => (false, g)
  | ReserveThrows => (false, resize_up (S id) [] g)
  | Success =>
      let g := resize_up (S id) [] g in
      let per_client := if (1 <? count)%nat then max_nonlocal_requests / (Z.of_nat count - 1) else 0 in
      (true, <[id := default [] (g !! id) ++ replicate count per_client]> g)
  end.
Definition rollback_on_shard (id : nat) (g : groups) : groups := if (id <? length g)%nat then <[id := []]> g else g.
(** [clients.clear()] of an element past the end is undefined. *)
Definition destroy_on_shard (id : nat) (g : groups) : res groups :=
  _ ← of_option OutOfBounds (g !! id); Ok (<[id := []]> g).

(** All shards; the management semaphore makes each operation exclusive.  [None]: the
    exception is rethrown. *)
Definition create_actor_msg_service_group (max_nonlocal_requests : Z) (ocs : list outcome) (all : list groups)
    : option nat * list groups :=
  let count := length all in
  let max_nonlocal_requests := Z.max max_nonlocal_requests (Z.of_nat count - 1) in
  let id := first_free (default [] (head all)) in
  let rs := zip_with (create_on_shard count max_nonlocal_requests id) ocs all in
  if forallb fst rs then (Some id, rs.*2) else (None, rollback_on_shard id <$> rs.*2).

Fixpoint destroy_actor_msg_service_group (id : nat) (all : list groups) : res (list groups) :=
  match all with
  | [] => Ok []
  | g :: all => g ← destroy_on_shard id g; all ← destroy_actor_msg_service_group id all; Ok (g :: all)
  end.

(** What clients do: create a group, or give back the [k]-th of those they hold.  The
    state: the shards' vectors and the ids handed out. *)
Inductive op := Create (max_nonlocal_requests : Z) (ocs : list outcome) | Destroy (k : nat).

Definition step (x : op) (all : list groups) (ids : list nat) : res (list groups * list nat) :=
  match x with
  | Create m ocs =>
      match create_actor_msg_service_group m ocs all with
      | (Some id, all) => Ok (all, ids ++ [id])
      | (None, all) => Ok (all, ids)
      end
  | Destroy k =>
      match ids !! k with
      | Some id => all ← destroy_actor_msg_service_group id all; Ok (all, delete k ids)
      | None => Ok (all, ids)
      end
  end.
Fixpoint run (ops : list op) (all : list groups) (ids : list nat) : res (list groups * list nat) :=
  match ops with
  | [] => Ok (all, ids)
  | x :: ops => '(all, ids) ← step x all ids; run ops all ids
  end.

(** *** All shards agree *)

(** [live id]: the count of each semaphore of group [id], if there is such a group. *)
Definition shard_ok (n : nat) (live : nat -> option Z) (g : groups) : Prop :=
  forall id, match live id with
             | Some k => g !! id = Some (replicate n k)
             | None => g !! id = None \/ g !! id = Some []
             end.
Definition set_live (live : nat -> option Z) (id : nat) (k : option Z) : nat -> option Z :=
  fun i => if decide (i = id) then k else live i.

Lemma first_free_spec g : g !! first_free g = None \/ g !! first_free g = Some [].
Proof. induction g as [|[|x c] g IH]; cbn; auto. Qed.

Lemma first_free_live n live g : (0 < n)%nat -> shard_ok n live g -> live (first_free g) = None.
Proof.
  intros Hn H. specialize (H (first_free g)). destruct (live (first_free g)) as [k|]; [|done].
  destruct (first_free_spec g) as [E|E]; rewrite E in H; [done|]. injection H as H. destruct n; [lia|done].
Qed.

Definition per_client (n : nat) (m : Z) : Z := if (1 <? n)%nat then Z.max m (Z.of_nat n - 1) / (Z.of_nat n - 1) else 0.

Lemma resize_shard_ok n live id g : shard_ok n live g -> live id = None -> shard_ok n live (resize_up (S id) [] g).
Proof.
  intros H Hid i. specialize (H i). rewrite lookup_resize_up. destruct (live i) as [k|] eqn:E.
  - rewrite decide_True by (eapply lookup_lt_Some; eassumption). done.
  - case_decide; [done|]. case_decide; auto.
Qed.

Lemma insert_shard_ok n live id g c k :
  shard_ok n live g -> (id < length g)%nat -> c = match k with Some k => replicate n k | None => [] end ->
  shard_ok n (set_live live id k) (<[id := c]> g).
Proof.
  intros H Hid -> i. unfold set_live. case_decide as Hi; [subst i|rewrite list_lookup_insert_ne by done; apply H].
  rewrite list_lookup_insert_eq by done. destruct k; auto.
Qed.

(** Creating on one shard: the group, or the rollback after a failure elsewhere. *)
Lemma create_shard n live id m oc g :
  shard_ok n live g -> live id = None ->
  let '(ok, g') := create_on_shard n (Z.max m (Z.of_nat n - 1)) id oc g in
  ok = bool_decide (oc = Success) /\
  (ok = true -> shard_ok n (set_live live id (Some (per_client n m))) g') /\
  shard_ok n live (rollback_on_shard id g').
Proof.
  intros H Hid. pose proof (resize_shard_ok n live id g H Hid) as Hr.
  assert (Hsame : forall i, live i = set_live live id None i) by (intros i; unfold set_live; case_decide; congruence).
  assert (Hroll : forall g', (forall i, i <> id -> g' !! i = resize_up (S id) [] g !! i) -> length g' = length (resize_up (S id) [] g) ->
    shard_ok n live (rollback_on_shard id g')).
  { intros g' Hg Hl i. rewrite Hsame. unfold rollback_on_shard. rewrite Hl, length_resize_up.
    rewrite (proj2 (Nat.ltb_lt _ _)) by lia. unfold set_live. case_decide as Hi; [subst i|].
    - rewrite list_lookup_insert_eq by (rewrite Hl, length_resize_up; lia). auto.
    - rewrite list_lookup_insert_ne, Hg by done. apply Hr. }
  unfold create_on_shard. destruct oc.
  - split; [done|]. split; [|apply Hroll; [intros; now apply list_lookup_insert_ne|now rewrite length_insert]].
    intros _. apply insert_shard_ok; [done|rewrite length_resize_up; lia|].
    specialize (Hr id). rewrite Hid in Hr. destruct Hr as [E|E]; rewrite E; done.
  - split; [done|]. split; [done|]. unfold rollback_on_shard. destruct (Nat.ltb_spec id (length g)); [|done].
    intros i. rewrite Hsame. now apply (insert_shard_ok n live id g [] None).
  - split; [done|]. split; [done|]. now apply Hroll.
Qed.

Definition agree (n : nat) (live : nat -> option Z) (all : list groups) : Prop :=
  length all = n /\ Forall (shard_ok n live) all.

Lemma create_all n live id m ocs all :
  Forall (shard_ok n live) all -> length ocs = length all -> live id = None ->
  let rs := zip_with (create_on_shard n (Z.max m (Z.of_nat n - 1)) id) ocs all in
  forallb fst rs = bool_decide (Forall (fun oc => oc = Success) ocs) /\ length rs = length all /\
  (forallb fst rs = true -> Forall (shard_ok n (set_live live id (Some (per_client n m)))) rs.*2) /\
  Forall (shard_ok n live) (rollback_on_shard id <$> rs.*2).
Proof.
  intros H Hl Hid. revert ocs Hl. induction H as [|g all Hg _ IH]; intros [|oc ocs] Hl; try done.
  { cbn [length] in Hl. destruct (IH ocs ltac:(lia)) as (E1 & E2 & E3 & E4).
    pose proof (create_shard n live id m oc g Hg Hid) as Hc. cbn [zip_with forallb fmap list_fmap length].
    destruct (create_on_shard n (Z.max m (Z.of_nat n - 1)) id oc g) as [ok g']. destruct Hc as (-> & Hs & Hr).
    cbn [fst snd]. split; [|split; [|split]].
    + rewrite E1. destruct (bool_decide_reflect (oc = Success)), (bool_decide_reflect (Forall (fun oc => oc = Success) ocs)); cbn;
        symmetry; (apply bool_decide_true || apply bool_decide_false); rewrite Forall_cons; tauto.
    + cbn. now rewrite E2.
    + intros [H1 H2]%andb_prop. constructor; auto.
    + constructor; auto. }
Qed.

(** Creating a group: all shards get it under the same free id, with at least one unit
    for each client, or, when an allocation failed anywhere, no shard keeps anything. *)
Theorem create_group_spec n live m ocs all :
  agree n live all -> (0 < n)%nat -> length ocs = n ->
  match create_actor_msg_service_group m ocs all with
  | (Some id, all') => Forall (fun oc => oc = Success) ocs /\ live id = None /\
      agree n (set_live live id (Some (per_client n m))) all' /\ ((1 < n)%nat -> 1 <= per_client n m)
  | (None, all') => ~ Forall (fun oc => oc = Success) ocs /\ agree n live all'
  end.
Proof.
  intros [Hl Hf] Hn Ho. unfold create_actor_msg_service_group. rewrite Hl. set (id := first_free _).
  assert (Hid : live id = None).
  { unfold id. destruct all as [|g all]; [cbn in Hl; lia|]. apply Forall_cons in Hf as [Hg _]. now apply (first_free_live n live g). }
  destruct (create_all n live id m ocs all Hf ltac:(lia) Hid) as (E1 & E2 & E3 & E4). cbn zeta in *.
  destruct (forallb _ _) eqn:Ef; symmetry in E1.
  - apply bool_decide_eq_true in E1. split; [done|]. split; [done|]. split; [split; [now rewrite length_fmap, E2|now apply E3]|].
    intros H1. unfold per_client. rewrite (proj2 (Nat.ltb_lt _ _) H1). apply Z.div_le_lower_bound; lia.
  - apply bool_decide_eq_false in E1. split; [done|]. split; [now rewrite !length_fmap, E2|done].
Qed.

Lemma destroy_group_ok n live id k all :
  agree n live all -> live id = Some k ->
  exists all', destroy_actor_msg_service_group id all = Ok all' /\ agree n (set_live live id None) all'.
Proof.
  intros [Hl Hf] Hid. assert (H : exists all', destroy_actor_msg_service_group id all = Ok all' /\ length all' = length all /\
    Forall (shard_ok n (set_live live id None)) all').
  { clear Hl. induction Hf as [|g all Hg _ (all' & E & Hl & Hf)]; [now exists []|]. cbn [destroy_actor_msg_service_group].
    pose proof (Hg id) as Hgid. rewrite Hid in Hgid. unfold destroy_on_shard. rewrite Hgid. cbn [of_option mbind res_bind].
    rewrite E. cbn [mbind res_bind]. eexists. split; [reflexivity|]. split; [cbn; now rewrite Hl|]. constructor; [|done].
    apply insert_shard_ok; [done|eapply lookup_lt_Some; eassumption|done]. }
  destruct H as (all' & E & Hl' & Hf'). exists all'. split; [done|]. split; [congruence|done].
Qed.

(** The ids in use are the default group and those handed out. *)
Definition ids_ok (live : nat -> option Z) (ids : list nat) : Prop :=
  NoDup (0%nat :: ids) /\ forall id, is_Some (live id) <-> id ∈ 0%nat :: ids.

Definition shaped (n : nat) (x : op) : Prop := match x with Create _ ocs => length ocs = n | Destroy _ => True end.

Lemma group_step n live x all ids :
  agree n live all -> (0 < n)%nat -> ids_ok live ids -> shaped n x ->
  exists live' all' ids', step x all ids = Ok (all', ids') /\ agree n live' all' /\ ids_ok live' ids'.
Proof.
  intros Ha Hn [Hd Hi] Hx. destruct x as [m ocs|k]; cbn [step].
  - pose proof (create_group_spec n live m ocs all Ha Hn Hx) as H.
    destruct (create_actor_msg_service_group m ocs all) as [[id|] all']; [|exists live, all', ids; now destruct H].
    destruct H as (_ & Hfree & Ha' & _). do 3 eexists. split; [reflexivity|]. split; [exact Ha'|].
    assert (Hni : id ∉ 0%nat :: ids). { rewrite <-Hi, Hfree. now intros [? ?]. }
    split.
    + change (0%nat :: ids ++ [id]) with ((0%nat :: ids) ++ [id]). apply NoDup_app. split; [done|]. split; [|apply NoDup_singleton].
      now intros y Hy ->%list_elem_of_singleton.
    + intros i. change (0%nat :: ids ++ [id]) with ((0%nat :: ids) ++ [id]). rewrite elem_of_app, list_elem_of_singleton, <-Hi.
      unfold set_live. case_decide; [subst|]; naive_solver.
  - destruct (ids !! k) as [id|] eqn:Ek; [|now exists live, all, ids].
    assert (Hin : id ∈ 0%nat :: ids) by (right; now apply list_elem_of_lookup_2 in Ek).
    destruct (proj2 (Hi id) Hin) as [c Hc]. destruct (destroy_group_ok n live id c all Ha Hc) as (all' & -> & Ha').
    cbn [mbind res_bind]. do 3 eexists. split; [reflexivity|]. split; [exact Ha'|].
    pose proof (delete_Permutation _ _ _ Ek) as Hp. rewrite Hp in Hd.
    assert (Hd' : NoDup (id :: 0%nat :: delete k ids)) by (rewrite (perm_swap 0%nat id); exact Hd).
    apply NoDup_cons in Hd' as [Hni Hd']. split; [done|]. intros i. unfold set_live. case_decide as Hii; [subst i|].
    + split; [now intros [? ?]|done].
    + assert (Hin' : i ∈ ids <-> i = id \/ i ∈ delete k ids) by (rewrite Hp at 1; apply elem_of_cons).
      rewrite Hi, !elem_of_cons. naive_solver.
Qed.

(** C40: However clients create and destroy groups, and whichever allocations fail on the way,
    all shards agree at any time on which groups there are, each with a semaphore for
    every client shard; no id is handed out twice, the default group's never, and no
    operation touches a group that is not there. *)
Theorem service_groups_agree n ops all0 :
  (0 < n)%nat -> all0 = replicate n (init_default n []) -> Forall (shaped n) ops ->
  exists live all ids, run ops all0 [] = Ok (all, ids) /\ agree n live all /\ NoDup (0%nat :: ids) /\
    forall id, is_Some (live id) <-> id ∈ 0%nat :: ids.
Proof.
  intros Hn -> Hops. assert (H : forall live all ids, agree n live all -> ids_ok live ids ->
    exists live' all' ids', run ops all ids = Ok (all', ids') /\ agree n live' all' /\ ids_ok live' ids').
  { induction Hops as [|x ops Hx _ IH]; intros live all ids Ha Hi; cbn [run]; [eauto 6|].
    destruct (group_step n live x all ids Ha Hn Hi Hx) as (l1 & a1 & i1 & -> & H1 & H2). cbn [mbind res_bind]. eauto. }
  apply (H (set_live (fun _ => None) 0 (Some max_counter))).
  - split; [apply length_replicate|]. apply Forall_replicate. intros [|id]; unfold set_live; [now rewrite decide_True|].
    rewrite decide_False by done. now left.
  - split; [apply NoDup_singleton|]. intros id. rewrite list_elem_of_singleton. unfold set_live. case_decide; naive_solver.
Qed.
End ServiceGroups.
End ServiceGroups.

Module RegistryExamples.
(** The groups of the framework and an application's actor. *)
Definition sample_registrations : list (Z * (nat -> nat -> string)) :=
  Factory.group_registrations (fun _ _ => "group"%string) (fun _ _ => "schedulable"%string) ++ [(7, fun _ _ => "account"%string)].

Lemma factory_refines_map_witness :
  Factory.create 7 1%nat 2%nat (Factory.register_all sample_registrations []) = Ok "account"%string /\
  Factory.create 8 1%nat 2%nat (Factory.register_all sample_registrations []) = Fault NullDeref /\
  Factory.create 65535 1%nat 2%nat (Factory.register_all sample_registrations []) = Fault OutOfBounds.
Proof.
  assert (H : Forall (fun p => 0 <= p.1) sample_registrations).
  { repeat (apply Forall_cons; split; [cbn; unfold Factory.actor_group_type_id, Factory.schedulable_actor_group_type_id; lia|]). constructor. }
  split; [|split].
  - exact (Factory.factory_refines_map sample_registrations 7 1%nat 2%nat H ltac:(lia)).
  - exact (Factory.factory_refines_map sample_registrations 8 1%nat 2%nat H ltac:(lia)).
  - exact (Factory.factory_refines_map sample_registrations 65535 1%nat 2%nat H ltac:(lia)).
Defined.

Import ServiceGroups.
Lemma service_groups_agree_witness :
  exists live all ids,
    run [Create 10 [Success; Success]; Create 10 [Success; ReserveThrows]; Create 3 [Success; Success]; Destroy 0; Create 0 [Success; Success]]
      (replicate 2 (init_default 100 2 [])) [] = Ok (all, ids) /\ agree 2 live all /\ NoDup (0%nat :: ids) /\
    forall id, is_Some (live id) <-> id ∈ 0%nat :: ids.
Proof. refine (service_groups_agree 100 2 _ _ ltac:(lia) eq_refl _). repeat constructor. Defined.

(** The freed id is used again. *)
Example groups_after :
  run [Create 10 [Success; Success]; Create 10 [Success; ReserveThrows]; Create 3 [Success; Success]; Destroy 0; Create 0 [Success; Success]]
    (replicate 2 (init_default 100 2 [])) [] = Ok ([[[100; 100]; [1; 1]; [3; 3]]; [[100; 100]; [1; 1]; [3; 3]]], [2; 1]%nat).
Proof. reflexivity. Qed.
End RegistryExamples.
