(* ===== verification/GpuPool.v ===== *)
(** * The pool of GPU streams

    [gpu_resource_pool] (src/include/hiactor/core/gpu_resource_pool.hh,
    src/src/core/gpu_resource_pool.cc): all shards launch their GPU work on a few CUDA
    streams per device; a stream takes a limited number of tasks at a time, and the
    streams with room for more are in a queue of candidates.  A task is over when the
    event recorded behind it has happened, which its shard polls for.

    CUDA is outside: stream and event handles are opaque, and which events have happened
    is an argument of every poll.  The devices share nothing, so one device is modelled,
    and [poll_queues] goes over a list of them.  Shards run in parallel: a task goes
    through [advance] in steps between which others can run.  The queue of candidates and
    the counters are atomic.  The promise table of a device is an ordinary object that
    all shards call without synchronization: calls that overlap are a data race. *)
From S2P Require Import Prelude PromiseManager ThreadPools.

Section GpuPool.
Context {Stream Event : Type} {RT : Type} {MT : MpQueue RT nat}.

(** The promises, [seastar::promise<>]: whether the value was set. *)
Abbreviation prs := (pr_manager (P := bool)).
Definition gpu_pr_manager_new : prs := pr_manager_new false (fun _ _ => true) tt.
Definition gpu_acquire_pr (m : prs) : res (Z * prs) := acquire_pr false m.
Definition gpu_set_value (m : prs) (pr_id : Z) : res prs := set_value (fun _ _ => true) m pr_id tt.

Record stream_unit := mk_stream { stream : Stream; count : Z }.
Record event_pr := mk_event { event : Event; pr_id : Z }.

(** Where [submit_work] is: the pop was deferred, or found no stream and is tried again
    after a sleep; a stream was popped, but the continuation that reads its id was
    deferred; it has a stream; the function threw; the function was launched and counted;
    its stream was put back; the future waits for the promise; the continuation released
    the promise; the task was uncounted. *)
Inductive phase :=
  | Searching
  | Reading (k : nat)
  | Popped (k : nat)
  | Threw (k : nat)
  | Counted (k : nat) (c : Z) (e : Event)
  | Launched (k : nat) (e : Event)
  | Waiting (k : nat) (id : Z)
  | Resumed (k : nat)
  | Uncounted (k : nat) (c : Z)
  | Finished.
Record task := mk_task { t_shard : nat; t_phase : phase }.

Record device := mk_device {
  _event_num_per_stream : Z;
  _streams : list stream_unit;
  _candidates : RT;
  _pr_manager : prs;
  _event_pr_pool : nat -> list event_pr;     (* of each shard *)
  tasks : list task
}.

Definition set_streams v d := mk_device (_event_num_per_stream d) v (_candidates d) (_pr_manager d) (_event_pr_pool d) (tasks d).
Definition set_candidates v d := mk_device (_event_num_per_stream d) (_streams d) v (_pr_manager d) (_event_pr_pool d) (tasks d).
Definition set_prs v d := mk_device (_event_num_per_stream d) (_streams d) (_candidates d) v (_event_pr_pool d) (tasks d).
Definition set_events v d := mk_device (_event_num_per_stream d) (_streams d) (_candidates d) (_pr_manager d) v (tasks d).
Definition set_tasks v d := mk_device (_event_num_per_stream d) (_streams d) (_candidates d) (_pr_manager d) (_event_pr_pool d) v.

(** [configure], the part for one device, and for all: [inr] when there is none.  The
    promise table reserves space for all promises it may hold at a time. *)
Definition configure_device (streams : list Stream) (event_num_per_stream : Z) : device :=
  mk_device event_num_per_stream ((fun s => mk_stream s 0) <$> streams) (foldl mp_push mp_new (seq 0 (length streams)))
    gpu_pr_manager_new (fun _ => []) [].
Record gpu_options := mk_gpu_options { stream_num_per_gpu : option Z; max_task_num_per_stream : option Z }.
Definition configure (create_cuda_stream : nat -> nat -> Stream) (configs : gpu_options) (device_num : nat) : list device + unit :=
  let _stream_num_per_device := default 4 (stream_num_per_gpu configs) in
  let _event_num_per_stream := default 2 (max_task_num_per_stream configs) in
  if (device_num =? 0)%nat then inr tt
  else inl ((fun dev_id => configure_device (create_cuda_stream dev_id <$> seq 0 (Z.to_nat _stream_num_per_device)) _event_num_per_stream)
              <$> seq 0 device_num).

(** A pop of [get_stream], into the variable of its frame: once the function has returned
    a stream that is found is stored in a frame that is gone. *)
Definition pop_stream (in_frame : bool) (d : device) : res (option nat * device) :=
  match mp_pop (_candidates d) with
  | Some (k, r) => if in_frame then Ok (Some k, set_candidates r d) else Fault UseAfterFree
  | None => Ok (None, d)
  end.

(** [get_stream]: the first pop, and the continuation that reads the id it found, run
    within the call unless the scheduler wants the thread ([need_preempt]): [late_pop],
    [late_read]. *)
Definition get_stream (late_pop late_read : bool) (d : device) : res (phase * device) :=
  if late_pop then Ok (Searching, d)
  else
    '(r, d) ← pop_stream true d;
    Ok (match r with Some k => if late_read then Reading k else Popped k | None => Searching end, d).

(** [submit_work]: a task on the device, or the exception for a wrong device id. *)
Definition submit (sid : nat) (late_pop late_read : bool) (d : device) : res device :=
  '(p, d) ← get_stream late_pop late_read d; Ok (set_tasks (tasks d ++ [mk_task sid p]) d).
Definition submit_work (sid device_id : nat) (late_pop late_read : bool) (ds : list device) : res (list device + unit) :=
  match ds !! device_id with
  | Some d => d ← submit sid late_pop late_read d; Ok (inl (<[device_id := d]> ds))
  | None => Ok (inr tt)
  end.

Definition add_count (k : nat) (n : Z) (d : device) : res (Z * device) :=
  su ← of_option OutOfBounds (_streams d !! k);
  let c := u32 (count su + n) in
  Ok (c, set_streams (<[k := mk_stream (stream su) c]> (_streams d)) d).

Definition upd {A} (f : nat -> A) (i : nat) (a : A) : nat -> A := fun j => if decide (j = i) then a else f j.

(** [unordered_set::emplace]; elements with the same [pr_id] are equal. *)
Definition emplace (x : event_pr) (l : list event_pr) : list event_pr :=
  if bool_decide (pr_id x ∈ pr_id <$> l) then l else l ++ [x].

(** The next step of a task; [e]: the event created in it, [None] when the function it
    calls throws: the future fails, and nothing puts the stream back. *)
Definition advance (e : option Event) (t : task) (d : device) : res (phase * device) :=
  match t_phase t with
  | Searching =>
      '(r, d) ← pop_stream false d;
      Ok (match r with Some k => Popped k | None => Searching end, d)
  | Reading k => Fault UseAfterFree
  | Popped k =>
      match e with
      | Some e => '(c, d) ← add_count k 1 d; Ok (Counted k c e, d)
      | None => Ok (Threw k, d)
      end
  | Threw k => Ok (Threw k, d)
  | Counted k c e =>
      Ok (Launched k e, if c <? _event_num_per_stream d then set_candidates (mp_push (_candidates d) k) d else d)
  | Launched k e =>
      '(id, m) ← gpu_acquire_pr (_pr_manager d);
      let f := _event_pr_pool d in
      Ok (Waiting k id, set_events (upd f (t_shard t) (emplace (mk_event e id) (f (t_shard t)))) (set_prs m d))
  | Waiting k id =>
      is_set ← get_future (_pr_manager d) id;
      if (is_set : bool) then m ← remove_pr (_pr_manager d) id; Ok (Resumed k, set_prs m d)
      else Ok (t_phase t, d)
  | Resumed k =>
      su ← of_option OutOfBounds (_streams d !! k);
      '(_, d) ← add_count k (-1) d; Ok (Uncounted k (count su), d)
  | Uncounted k c =>
      Ok (Finished, if c =? _event_num_per_stream d then set_candidates (mp_push (_candidates d) k) d else d)
  | Finished => Ok (Finished, d)
  end.

(** [poll_queues] on one device: the loop over the events of the shard; what is left. *)
Fixpoint poll_events (cuda_check : Event -> bool) (l : list event_pr) (m : prs) : res (Z * list event_pr * prs) :=
  match l with
  | [] => Ok (0, [], m)
  | x :: l =>
      if cuda_check (event x) then
        m ← gpu_set_value m (pr_id x);
        '(got, l, m) ← poll_events cuda_check l m; Ok (got + 1, l, m)
      else '(got, l, m) ← poll_events cuda_check l m; Ok (got, x :: l, m)
  end.
Definition poll_device (cuda_check : Event -> bool) (sid : nat) (d : device) : res (Z * device) :=
  '(got, l, m) ← poll_events cuda_check (_event_pr_pool d sid) (_pr_manager d);
  Ok (got, set_events (upd (_event_pr_pool d) sid l) (set_prs m d)).
Fixpoint poll_devices (cuda_check : nat -> Event -> bool) (sid dev_id : nat) (ds : list device) : res (Z * list device) :=
  match ds with
  | [] => Ok (0, [])
  | d :: ds =>
      '(got1, d) ← poll_device (cuda_check dev_id) sid d;
      '(got2, ds) ← poll_devices cuda_check sid (S dev_id) ds; Ok (got1 + got2, d :: ds)
  end.
Definition poll_queues (cuda_check : nat -> Event -> bool) (sid : nat) (ds : list device) : res (bool * list device) :=
  '(got, ds) ← poll_devices cuda_check sid 0 ds; Ok (negb (got =? 0), ds).

Definition has_events (sid : nat) (d : device) : bool := match _event_pr_pool d sid with [] => false | _ => true end.
Definition pure_poll_queues (sid : nat) (ds : list device) : bool := existsb (has_events sid) ds.

(** [stop] *)
Definition stop (shard_count : nat) (ds : list device) : res unit :=
  assert (forallb (fun sid => negb (pure_poll_queues sid ds)) (seq 0 shard_count)).

(** ** All shards on one device *)
Inductive gpu_event :=
  | Submit (sid : nat) (late_pop late_read : bool)
  | Advance (i : nat) (e : option Event)
  | Poll (sid : nat) (cuda_check : Event -> bool).

(** The shard that calls the promise table in a step: to acquire, to wait for and release,
    and to set a promise. *)
Definition table_user (d : device) (ev : gpu_event) : option nat :=
  match ev with
  | Submit _ _ _ => None
  | Advance i _ =>
      t ← tasks d !! i;
      match t_phase t with Launched _ _ | Waiting _ _ => Some (t_shard t) | _ => None end
  | Poll sid check => if existsb (fun x => check (event x)) (_event_pr_pool d sid) then Some sid else None
  end.

(** A step on its own, and two steps at a time: in whatever order their effects come, or,
    when two shards call the promise table, a data race. *)
Definition step1 (d : device) (ev : gpu_event) : res device :=
  match ev with
  | Submit sid late_pop late_read => submit sid late_pop late_read d
  | Advance i e =>
      match tasks d !! i with
      | Some t => '(p, d) ← advance e t d; Ok (set_tasks (<[i := mk_task (t_shard t) p]> (tasks d)) d)
      | None => Ok d
      end
  | Poll sid check => '(_, d) ← poll_device check sid d; Ok d
  end.
Inductive gpu_steps := One (ev : gpu_event) | Overlap (ev1 ev2 : gpu_event).

Definition races (d : device) (ev1 ev2 : gpu_event) : bool :=
  match table_user d ev1, table_user d ev2 with
  | Some s1, Some s2 => negb (s1 =? s2)%nat
  | _, _ => false
  end.
Definition step (d : device) (evs : gpu_steps) : res device :=
  match evs with
  | One ev => step1 d ev
  | Overlap ev1 ev2 => if races d ev1 ev2 then Fault DataRace else d ← step1 d ev1; step1 d ev2
  end.
Fixpoint run (d : device) (evs : list gpu_steps) : res device :=
  match evs with
  | [] => Ok d
  | ev :: evs => d ← step d ev; run d evs
  end.

(** ** The streams

    A stream with room has one token: it is a candidate, or one task is about to use it
    or to put it back. *)
Definition nr (f : task -> bool) (l : list task) : nat := length (filter (fun t => f t = true) l).
Definition b2n (b : bool) : nat := if b then 1 else 0.

Lemma nr_app f l1 l2 : nr f (l1 ++ l2) = (nr f l1 + nr f l2)%nat.
Proof. unfold nr. now rewrite filter_app, length_app. Qed.

Lemma nr_one f t : nr f [t] = b2n (f t).
Proof. unfold nr. rewrite filter_cons, filter_nil. destruct (f t); [now rewrite decide_True|now rewrite decide_False]. Qed.

Lemma nr_insert f l i t t' : l !! i = Some t -> (nr f (<[i := t']> l) + b2n (f t) = nr f l + b2n (f t'))%nat.
Proof.
  intros H. rewrite insert_take_drop by (eapply lookup_lt_Some; eassumption). rewrite <-(take_drop_middle l i t H) at 3.
  change (t' :: drop (S i) l) with ([t'] ++ drop (S i) l). change (t :: drop (S i) l) with ([t] ++ drop (S i) l).
  rewrite !nr_app, !nr_one. lia.
Qed.

(** A task counted for stream [k]; a task that has its token. *)
Definition running (k : nat) (t : task) : bool :=
  match t_phase t with
  | Counted j _ _ | Launched j _ | Waiting j _ | Resumed j => (j =? k)%nat
  | _ => false
  end.
Definition has_token (n : Z) (k : nat) (t : task) : bool :=
  match t_phase t with
  | Reading j | Popped j | Threw j => (j =? k)%nat
  | Counted j c _ => (j =? k)%nat && (c <? n)
  | Uncounted j c => (j =? k)%nat && (c =? n)
  | _ => false
  end.
Definition occurrences (k : nat) (l : list nat) : nat := length (filter (fun j => j = k) l).

Lemma occurrences_app k l1 l2 : occurrences k (l1 ++ l2) = (occurrences k l1 + occurrences k l2)%nat.
Proof. unfold occurrences. now rewrite filter_app, length_app. Qed.

Lemma occurrences_one k j : occurrences k [j] = b2n (j =? k)%nat.
Proof.
  unfold occurrences. rewrite filter_cons, filter_nil. destruct (Nat.eqb_spec j k); [now rewrite decide_True|now rewrite decide_False].
Qed.

Definition stream_ok (n : Z) (items : list nat) (ts : list task) (k : nat) (su : stream_unit) : Prop :=
  count su = Z.of_nat (nr (running k) ts) /\ count su <= n /\
  (occurrences k items + nr (has_token n k) ts = if (count su =? n)%Z then 0 else 1)%nat.

Definition stream_of (t : task) : option nat :=
  match t_phase t with
  | Reading k | Popped k | Threw k | Counted k _ _ | Launched k _ | Waiting k _ | Resumed k | Uncounted k _ => Some k
  | _ => None
  end.

Record streams_ok (ns : nat) (n : Z) (d : device) : Prop := {
  s_num : _event_num_per_stream d = n;
  s_len : length (_streams d) = ns;
  s_cand : Forall (fun k => (k < ns)%nat) (mp_items (_candidates d));
  s_task : Forall (fun t => forall k, stream_of t = Some k -> (k < ns)%nat) (tasks d);
  s_each : forall k su, _streams d !! k = Some su -> stream_ok n (mp_items (_candidates d)) (tasks d) k su
}.

(** Task [i] takes a step that concerns stream [k]; what has to be shown for it. *)
Lemma streams_change ns n d d' i t t' k su' :
  streams_ok ns n d -> tasks d !! i = Some t -> (k < ns)%nat ->
  _event_num_per_stream d' = n -> _streams d' = <[k := su']> (_streams d) -> tasks d' = <[i := t']> (tasks d) ->
  (forall j, stream_of t = Some j \/ stream_of t' = Some j -> j = k) ->
  (forall j, j <> k -> occurrences j (mp_items (_candidates d')) = occurrences j (mp_items (_candidates d))) ->
  Forall (fun k => (k < ns)%nat) (mp_items (_candidates d')) ->
  stream_ok n (mp_items (_candidates d')) (<[i := t']> (tasks d)) k su' ->
  streams_ok ns n d'.
Proof.
  intros [Hn Hl Hc Ht He] Hi Hk Hn' Hs' Ht' Hof Hocc Hc' Hok. constructor; try done.
  - now rewrite Hs', length_insert.
  - rewrite Ht'. apply Forall_insert; [done|]. intros j Hj. rewrite (Hof j); auto.
  - intros j su Hj. rewrite Hs' in Hj. rewrite Ht'. destruct (decide (j = k)) as [->|Hne].
    + rewrite list_lookup_insert_eq in Hj by lia. injection Hj as <-. done.
    + rewrite list_lookup_insert_ne in Hj by done. destruct (He j su Hj) as (H1 & H2 & H3).
      assert (Hr : forall x, (forall j, stream_of x = Some j -> j = k) -> running j x = false /\ has_token n j x = false).
      { intros x Hx. unfold running, has_token, stream_of in *.
        destruct (t_phase x) as [|a|a|a|a c e|a e|a id|a|a c|]; try done; rewrite (Hx a eq_refl);
          rewrite (proj2 (Nat.eqb_neq k j)) by lia; done. }
      destruct (Hr t) as [R1 R2]; [auto|]. destruct (Hr t') as [R1' R2']; [auto|].
      pose proof (nr_insert (running j) (tasks d) i t t' Hi) as N1. pose proof (nr_insert (has_token n j) (tasks d) i t t' Hi) as N2.
      rewrite R1, R1' in N1. rewrite R2, R2' in N2. cbn in N1, N2. unfold stream_ok. rewrite Hocc by done.
      split; [lia|]. split; [done|]. rewrite <-H3. lia.
Qed.

(** A step that moves neither the token nor the count. *)
Lemma streams_quiet ns n d d' i t t' :
  streams_ok ns n d -> tasks d !! i = Some t ->
  _event_num_per_stream d' = _event_num_per_stream d -> _streams d' = _streams d -> _candidates d' = _candidates d ->
  tasks d' = <[i := t']> (tasks d) -> stream_of t' = None \/ stream_of t' = stream_of t ->
  (forall j, running j t' = running j t /\ has_token n j t' = has_token n j t) ->
  streams_ok ns n d'.
Proof.
  intros [Hn Hl Hc Ht He] Hi Hn' Hs' Hc' Ht' Hof Hsame. constructor; rewrite ?Hn', ?Hs', ?Hc', ?Ht'; try done.
  - apply Forall_insert; [done|]. intros j Hj. destruct Hof as [Hof|Hof]; rewrite Hof in Hj; [done|].
    exact (proj1 (Forall_lookup _ _) Ht i t Hi j Hj).
  - intros j su Hj. destruct (He j su Hj) as (H1 & H2 & H3). destruct (Hsame j) as [R1 R2].
    pose proof (nr_insert (running j) (tasks d) i t t' Hi) as N1. pose proof (nr_insert (has_token n j) (tasks d) i t t' Hi) as N2.
    rewrite R1 in N1. rewrite R2 in N2. unfold stream_ok. split; [lia|]. split; [done|]. rewrite <-H3. lia.
Qed.

Lemma nr_positive f l i t : l !! i = Some t -> f t = true -> (1 <= nr f l)%nat.
Proof.
  intros Hi Hf. unfold nr. assert (Ht : t ∈ filter (fun t => f t = true) l).
  { apply list_elem_of_filter. split; [done|]. now apply list_elem_of_lookup_2 in Hi. }
  destruct (filter _ l); [now apply not_elem_of_nil in Ht|cbn; lia].
Qed.

(** What the step of a task on stream [k] leaves to check. *)
Ltac on_stream d i t :=
  match goal with
  | H : streams_ok ?ns ?n d, Hi : tasks d !! i = Some t, Hsu : _streams d !! ?k = Some ?su |- streams_ok _ _ _ =>
      destruct (s_each _ _ _ H k su Hsu) as (Hcnt & Hmax & Htok);
      eapply (streams_change ns n d _ i t _ k); try reflexivity; try eassumption
  end.

Lemma step_counts n l i t t' k b b' c c' :
  l !! i = Some t -> running k t = b -> running k t' = b' -> has_token n k t = c -> has_token n k t' = c' ->
  (nr (running k) (<[i := t']> l) + b2n b = nr (running k) l + b2n b')%nat /\
  (nr (has_token n k) (<[i := t']> l) + b2n c = nr (has_token n k) l + b2n c')%nat.
Proof. intros H <- <- <- <-. split; now apply nr_insert. Qed.

(** [step_counts] for task [t] in phase [Ep]. *)
Ltac phase_facts Ep := unfold running, has_token; cbn; rewrite ?Ep; cbn; rewrite ?Nat.eqb_refl; cbn; try done.
Ltac tick d i t t' k b b' c c' Hi Ep :=
  let N1 := fresh "N1" in let N2 := fresh "N2" in
  match goal with
  | H : streams_ok _ ?n d |- _ =>
      destruct (step_counts n (tasks d) i t t' k b b' c c' Hi) as [N1 N2]; [phase_facts Ep..|]; unfold b2n in N1, N2
  end.
(** The stream of both tasks is [k]. *)
Ltac same_stream Ep := let j := fresh in let Hj := fresh in
  intros j [Hj|Hj]; unfold stream_of in Hj; cbn in Hj; rewrite ?Ep in Hj; congruence.

Section Advance.
Context (ns : nat) (n : Z) (Hn : 1 <= n < 4294967296).

Lemma stream_lookup d k : streams_ok ns n d -> (k < ns)%nat -> exists su, _streams d !! k = Some su.
Proof. intros H Hk. apply lookup_lt_is_Some_2. now rewrite (s_len _ _ _ H). Qed.

Lemma task_stream d i t k : streams_ok ns n d -> tasks d !! i = Some t -> stream_of t = Some k -> (k < ns)%nat.
Proof. intros H Hi Hk. exact (proj1 (Forall_lookup _ _) (s_task _ _ _ H) i t Hi k Hk). Qed.

Lemma candidate_pop_ok d i t k r :
  streams_ok ns n d -> tasks d !! i = Some t -> t_phase t = Searching -> mp_pop (_candidates d) = Some (k, r) ->
  forall p, p = Popped k \/ p = Reading k ->
  streams_ok ns n (set_tasks (<[i := mk_task (t_shard t) p]> (tasks d)) (set_candidates r d)).
Proof using Hn.
  intros H Hi Ep Er p Hpk. pose proof (mp_pop_spec (_candidates d)) as Hp. rewrite Er in Hp.
  pose proof (s_cand _ _ _ H) as Hc. rewrite Hp in Hc. apply Forall_cons in Hc as [Hk Hc].
  destruct (stream_lookup d k H Hk) as [su Hsu]. on_stream d i t.
  - apply (s_num _ _ _ H).
  - cbn. symmetry. apply list_insert_id. exact Hsu.
  - intros j [Hj|Hj]; unfold stream_of in Hj; cbn in Hj; [now rewrite Ep in Hj|]. destruct Hpk as [-> | ->]; congruence.
  - intros j Hne. cbn. rewrite Hp. change (k :: mp_items r) with ([k] ++ mp_items r).
    rewrite occurrences_app, occurrences_one, (proj2 (Nat.eqb_neq k j)) by lia. done.
  - rewrite Hp in Htok. change (k :: mp_items r) with ([k] ++ mp_items r) in Htok.
    rewrite occurrences_app, occurrences_one, Nat.eqb_refl in Htok. unfold b2n in Htok. cbn [_candidates set_tasks set_candidates].
    unfold stream_ok. destruct Hpk as [-> | ->];
      [tick d i t (mk_task (t_shard t) (Popped k)) k false false false true Hi Ep
      |tick d i t (mk_task (t_shard t) (Reading k)) k false false false true Hi Ep];
      (split; [lia|]; split; [done|]; lia).
Qed.

(** Putting a stream back that its task holds the token of. *)
Lemma candidate_push_ok d i t p k su :
  streams_ok ns n d -> tasks d !! i = Some t -> _streams d !! k = Some su -> has_token n k t = true ->
  stream_of t = Some k -> stream_of (mk_task (t_shard t) p) = Some k \/ stream_of (mk_task (t_shard t) p) = None ->
  running k (mk_task (t_shard t) p) = running k t -> has_token n k (mk_task (t_shard t) p) = false ->
  streams_ok ns n (set_tasks (<[i := mk_task (t_shard t) p]> (tasks d)) (set_candidates (mp_push (_candidates d) k) d)).
Proof using Hn.
  intros H Hi Hsu Htk Hof Hof' Hr Ht'. pose proof (task_stream d i t k H Hi Hof) as Hk. on_stream d i t.
  - apply (s_num _ _ _ H).
  - cbn. symmetry. apply list_insert_id. exact Hsu.
  - intros j [Hj|Hj]; [congruence|]. destruct Hof'; congruence.
  - intros j Hne. cbn. rewrite mp_push_spec, occurrences_app, occurrences_one, (proj2 (Nat.eqb_neq k j)) by lia. cbn. lia.
  - cbn. rewrite mp_push_spec. apply Forall_app. split; [apply (s_cand _ _ _ H)|]. now apply Forall_singleton.
  - destruct (step_counts n (tasks d) i t (mk_task (t_shard t) p) k _ _ true false Hi eq_refl Hr Htk Ht') as [N1 N2].
    cbn [_candidates set_tasks set_candidates]. rewrite mp_push_spec. unfold stream_ok.
    rewrite occurrences_app, occurrences_one, Nat.eqb_refl. unfold b2n in *. split; [lia|]. split; [done|]. lia.
Qed.

(** The two changes of a count. *)
Lemma count_up_ok d i t k e c d1 :
  streams_ok ns n d -> tasks d !! i = Some t -> t_phase t = Popped k -> add_count k 1 d = Ok (c, d1) ->
  streams_ok ns n (set_tasks (<[i := mk_task (t_shard t) (Counted k c e)]> (tasks d1)) d1).
Proof using Hn.
  intros H Hi Ep E. assert (Hk : (k < ns)%nat) by (apply (task_stream d i t k H Hi); unfold stream_of; now rewrite Ep).
  destruct (stream_lookup d k H Hk) as [su Hsu]. unfold add_count in E. rewrite Hsu in E. cbn [of_option mbind res_bind] in E.
  injection E as <- <-. on_stream d i t.
  - apply (s_num _ _ _ H).
  - same_stream Ep.
  - apply (s_cand _ _ _ H).
  - tick d i t (mk_task (t_shard t) (Counted k (u32 (count su + 1)) e)) k false true true (u32 (count su + 1) <? n) Hi Ep.
    pose proof (nr_positive (has_token n k) (tasks d) i t Hi ltac:(phase_facts Ep)) as Hpos.
    cbn [_candidates set_tasks set_streams]. unfold stream_ok. cbn [count].
    destruct (Z.eqb_spec (count su) n) as [|Hne]; [lia|]. rewrite u32_small in * by lia. split; [lia|]. split; [lia|].
    destruct (Z.ltb_spec (count su + 1) n), (Z.eqb_spec (count su + 1) n); lia.
Qed.

Lemma count_down_ok d i t k su :
  streams_ok ns n d -> tasks d !! i = Some t -> t_phase t = Resumed k -> _streams d !! k = Some su ->
  let d1 := set_streams (<[k := mk_stream (stream su) (u32 (count su + -1))]> (_streams d)) d in
  streams_ok ns n (set_tasks (<[i := mk_task (t_shard t) (Uncounted k (count su))]> (tasks d1)) d1).
Proof using Hn.
  intros H Hi Ep Hsu d1. assert (Hk : (k < ns)%nat) by (apply (task_stream d i t k H Hi); unfold stream_of; now rewrite Ep).
  on_stream d i t.
  - apply (s_num _ _ _ H).
  - same_stream Ep.
  - apply (s_cand _ _ _ H).
  - tick d i t (mk_task (t_shard t) (Uncounted k (count su))) k true false false (count su =? n) Hi Ep.
    pose proof (nr_positive (running k) (tasks d) i t Hi ltac:(phase_facts Ep)) as Hpos.
    cbn [_candidates set_tasks set_streams d1]. unfold stream_ok. cbn [count]. rewrite u32_small by lia.
    split; [lia|]. split; [lia|]. destruct (Z.eqb_spec (count su) n), (Z.eqb_spec (count su + -1) n); lia.
Qed.

Ltac quietly Hquiet Ep := apply Hquiet; try done; unfold stream_of, running, has_token; cbn; rewrite ?Ep; auto.

(** A step of a task as far as the streams go. *)
Lemma advance_streams d i t e p d1 :
  streams_ok ns n d -> tasks d !! i = Some t -> advance e t d = Ok (p, d1) ->
  streams_ok ns n (set_tasks (<[i := mk_task (t_shard t) p]> (tasks d1)) d1).
Proof using Hn.
  intros H Hi E. assert (Hquiet : forall d', _event_num_per_stream d' = _event_num_per_stream d -> _streams d' = _streams d ->
    _candidates d' = _candidates d -> tasks d' = tasks d ->
    stream_of (mk_task (t_shard t) p) = None \/ stream_of (mk_task (t_shard t) p) = stream_of t ->
    (forall j, running j (mk_task (t_shard t) p) = running j t /\ has_token n j (mk_task (t_shard t) p) = has_token n j t) ->
    streams_ok ns n (set_tasks (<[i := mk_task (t_shard t) p]> (tasks d')) d')).
  { intros d' E1 E2 E3 E4 E5 E6. eapply (streams_quiet ns n d _ i t); try eassumption. cbn. now rewrite E4. }
  unfold advance in E. rewrite ?(s_num _ _ _ H) in E.
  destruct (t_phase t) as [|k|k|k|k c e0|k e0|k id|k|k c|] eqn:Ep; cbn [mbind res_bind] in E.
  - unfold pop_stream in E. destruct (mp_pop (_candidates d)) as [[k r]|] eqn:Er; [done|]. injection E as <- <-. quietly Hquiet Ep.
  - done.
  - destruct e as [e|]; [|injection E as <- <-; quietly Hquiet Ep]. destruct (add_count k 1 d) as [[c d2]|] eqn:Ec; [|done]. injection E as <- <-.
    exact (count_up_ok d i t k e c d2 H Hi Ep Ec).
  - injection E as <- <-. quietly Hquiet Ep.
  - injection E as <- <-. destruct (Z.ltb_spec c n) as [Hlt|Hge].
    + assert (Hk : (k < ns)%nat) by (apply (task_stream d i t k H Hi); unfold stream_of; now rewrite Ep).
      destruct (stream_lookup d k H Hk) as [su Hsu].
      refine (candidate_push_ok d i t (Launched k e0) k su H Hi Hsu _ _ _ _ _); try done; unfold stream_of; rewrite ?Ep; phase_facts Ep; auto.
      now apply Z.ltb_lt.
    + quietly Hquiet Ep.
      intros j. split; [done|]. rewrite (proj2 (Z.ltb_ge _ _)) by done. now rewrite andb_false_r.
  - destruct (gpu_acquire_pr (_pr_manager d)) as [[id m]|]; [|done]. injection E as <- <-.
    quietly Hquiet Ep.
  - destruct (get_future (_pr_manager d) id) as [[|]|]; cbn [mbind res_bind] in E; [|injection E as <- <-|done].
    + destruct (remove_pr (_pr_manager d) id) as [m|]; [|done]. injection E as <- <-.
      quietly Hquiet Ep.
    + quietly Hquiet Ep.
  - destruct (_streams d !! k) as [su|] eqn:Hsu; [|done]. cbn [of_option mbind res_bind] in E. unfold add_count in E. rewrite Hsu in E.
    cbn [of_option mbind res_bind] in E. injection E as <- <-. exact (count_down_ok d i t k su H Hi Ep Hsu).
  - injection E as <- <-. destruct (Z.eqb_spec c n) as [He|Hne].
    + assert (Hk : (k < ns)%nat) by (apply (task_stream d i t k H Hi); unfold stream_of; now rewrite Ep).
      destruct (stream_lookup d k H Hk) as [su Hsu].
      refine (candidate_push_ok d i t Finished k su H Hi Hsu _ _ _ _ _); try done; unfold stream_of; rewrite ?Ep; phase_facts Ep; auto.
      now apply Z.eqb_eq.
    + quietly Hquiet Ep.
      intros j. split; [done|]. rewrite (proj2 (Z.eqb_neq _ _)) by done. now rewrite andb_false_r.
  - injection E as <- <-. quietly Hquiet Ep.
Qed.
End Advance.

(** ** The promises *)
Definition is_set (m : prs) (j : nat) : bool := match pr_array m !! j with Some x => PromiseManager.pr x | None => false end.

Lemma client_perm (m : prs) out out' peak fl : out ≡ₚ out' -> client_inv m out peak fl -> client_inv m out' peak fl.
Proof.
  intros Hp [H1 H2 H3 H4 H5]. constructor; try done.
  - now rewrite <-Hp.
  - intros j. rewrite <-Hp. apply H3.
  - now rewrite <-(Permutation_length Hp).
Qed.

Lemma acquire_is_set (m : prs) id m' :
  gpu_acquire_pr m = Ok (id, m') -> Z.of_nat (length (pr_array m)) < 2 ^ 32 -> 
  forall j, is_set m' j = if decide (j = Z.to_nat id) then false else is_set m j.
Proof.
  intros E Hl j. unfold gpu_acquire_pr, acquire_pr in E. unfold is_set. destruct (available m =? 0).
  - injection E as <- <-. cbn [pr_array]. rewrite length_app. cbn [length]. rewrite u32_small by lia.
    replace (Z.to_nat (Z.of_nat (length (pr_array m) + 1) - 1)) with (length (pr_array m)) by lia.
    case_decide as Hj; [subst j; now rewrite lookup_app_r, Nat.sub_diag|].
    destruct (decide (j < length (pr_array m))%nat) as [Hlt|Hge]; [now rewrite lookup_app_l|].
    rewrite lookup_app_r, (lookup_ge_None_2 (pr_array m)) by lia. now rewrite lookup_ge_None_2 by (cbn; lia).
  - unfold at_id in E. destruct (pr_array m !! Z.to_nat (available m)) as [x|] eqn:Ex; [|done]. injection E as <- <-.
    cbn [pr_array]. case_decide as Hj; [subst j; rewrite list_lookup_insert_eq by (eapply lookup_lt_Some; eassumption); done|].
    now rewrite list_lookup_insert_ne.
Qed.

Lemma remove_is_set (m : prs) id m' j : remove_pr m id = Ok m' -> is_set m' j = is_set m j.
Proof.
  unfold remove_pr, at_id, is_set. destruct (pr_array m !! Z.to_nat id) as [x|] eqn:Ex; [|done]. intros [= <-]. cbn [pr_array].
  destruct (decide (j = Z.to_nat id)) as [->|Hj]; [|now rewrite list_lookup_insert_ne].
  rewrite list_lookup_insert_eq by (eapply lookup_lt_Some; eassumption). now rewrite Ex.
Qed.

(** Setting the value of a promise in use. *)
Lemma client_set_value (m : prs) out peak fl i :
  client_inv m out peak fl -> i ∈ out ->
  exists m', gpu_set_value m (Z.of_nat i) = Ok m' /\ client_inv m' out peak fl /\
    forall j, is_set m' j = if decide (j = i) then true else is_set m j.
Proof.
  intros [[Hc Hd Hf Hz Hs] Hnd Hlive Hcount Hsize] Hi. pose proof (proj1 (Hlive i) Hi) as Hl. unfold live in Hl.
  destruct (pr_array m !! i) as [x|] eqn:Ex; [|done]. pose proof (lookup_lt_Some _ _ _ Ex) as Hlt.
  assert (Hni : i ∉ fl). { intros Hin. destruct (chain_lookup _ _ _ _ Hc Hin) as (_ & y & Hy & Ha). congruence. }
  unfold gpu_set_value, set_value. rewrite (at_id_ok _ _ _ Ex). cbn [mbind res_bind]. rewrite Nat2Z.id.
  eexists. split; [reflexivity|]. split.
  - constructor; cbn [pr_array]; try done.
    + constructor; cbn [pr_array available]; try done.
      * now apply chain_insert.
      * intros j y Hj Ha. destruct (decide (j = i)) as [->|Hne]; [|rewrite list_lookup_insert_ne in Hj by done; eauto].
        rewrite list_lookup_insert_eq in Hj by done. injection Hj as <-. cbn in Ha. congruence.
      * destruct Hz as (z & Hz & Hza). exists z. rewrite list_lookup_insert_ne; [done|]. intros ->. congruence.
      * unfold pr_size in *. cbn. now rewrite length_insert.
    + intros j. rewrite live_insert by done. cbn. case_decide as Hj; [subst j|apply Hlive]. now rewrite Hl.
    + now rewrite length_insert.
  - intros j. unfold is_set. cbn [pr_array]. case_decide as Hj; [subst j; now rewrite list_lookup_insert_eq|].
    now rewrite list_lookup_insert_ne.
Qed.

(** A poll sets the promises of the events that have happened, and keeps the others. *)
Lemma poll_events_ok check out peak fl l : forall (m : prs),
  client_inv m out peak fl -> Forall (fun x => 0 <= pr_id x /\ Z.to_nat (pr_id x) ∈ out) l ->
  exists got m', poll_events check l m = Ok (got, filter (fun x => check (event x) = false) l, m') /\
    client_inv m' out peak fl /\
    forall j, is_set m' j = true <-> is_set m j = true \/ exists x, x ∈ l /\ check (event x) = true /\ Z.to_nat (pr_id x) = j.
Proof.
  induction l as [|x l IH]; intros m Hm Hl; cbn [poll_events].
  - exists 0, m. split; [done|]. split; [done|]. intros j. split; [auto|]. intros [?|(x & Hx & _)]; [done|]. now apply not_elem_of_nil in Hx.
  - apply Forall_cons in Hl as [[Hx0 Hx] Hl]. rewrite filter_cons. destruct (check (event x)) eqn:Ec.
    + destruct (client_set_value m out peak fl (Z.to_nat (pr_id x)) Hm Hx) as (m1 & E1 & H1 & S1).
      rewrite Z2Nat.id in E1 by done. rewrite E1. cbn [mbind res_bind].
      destruct (IH m1 H1 Hl) as (got & m2 & E2 & H2 & S2). rewrite E2. cbn [mbind res_bind].
      exists (got + 1), m2. rewrite decide_False by done. split; [done|]. split; [done|]. intros j. rewrite S2, S1. split.
      * case_decide as Hj; [intros _; right; exists x; subst j; repeat split; [left|done]|].
        intros [?|(y & Hy & Hc & Hyj)]; [now left|]. right. exists y. split; [now right|done].
      * intros [?|(y & Hy & Hc & Hyj)]; [left; now case_decide|]. apply elem_of_cons in Hy as [->|Hy].
        -- left. rewrite decide_True by done. done.
        -- right. eauto.
    + destruct (IH m Hm Hl) as (got & m2 & E2 & H2 & S2). rewrite E2. cbn [mbind res_bind].
      exists got, m2. rewrite decide_True by done. split; [done|]. split; [done|]. intros j. rewrite S2. split.
      * intros [?|(y & Hy & Hc & Hyj)]; [now left|]. right. exists y. split; [now right|done].
      * intros [?|(y & Hy & Hc & Hyj)]; [now left|]. apply elem_of_cons in Hy as [->|Hy]; [congruence|]. right. eauto.
Qed.

Lemma and_iff_under (P A B : Prop) : (P -> A <-> B) -> P /\ A <-> P /\ B.
Proof. tauto. Qed.

Lemma and_iff_compat_r2 (P A B : Prop) : (P -> A <-> B) -> A /\ P <-> B /\ P.
Proof. tauto. Qed.

Lemma NoDup_fmap_inj {A B} (f : A -> B) l x y : NoDup (f <$> l) -> x ∈ l -> y ∈ l -> f x = f y -> x = y.
Proof.
  induction l as [|a l IH]; cbn; intros Hd Hx Hy E; [now apply not_elem_of_nil in Hx|].
  apply NoDup_cons in Hd as [Hni Hd]. apply elem_of_cons in Hx as [->|Hx]; apply elem_of_cons in Hy as [->|Hy]; auto.
  - exfalso. apply Hni. apply list_elem_of_fmap. eauto.
  - exfalso. apply Hni. apply list_elem_of_fmap. eauto.
Qed.

(** The id a task waits for. *)
Definition waiting_id (t : task) : option Z := match t_phase t with Waiting _ id => Some id | _ => None end.
Definition ids (l : list task) : list Z := omap waiting_id l.

Lemma ids_insert l i t t' : l !! i = Some t ->
  ids (<[i := t']> l) ++ option_list (waiting_id t) ≡ₚ ids l ++ option_list (waiting_id t').
Proof.
  intros H. unfold ids. rewrite insert_take_drop by (eapply lookup_lt_Some; eassumption). rewrite <-(take_drop_middle l i t H) at 3.
  rewrite !omap_app. cbn. destruct (waiting_id t), (waiting_id t'); cbn; solve_Permutation.
Qed.

Lemma exists_insert (P : task -> Prop) (l : list task) (i : nat) t t' : l !! i = Some t -> ~ P t ->
  (exists x, x ∈ <[i := t']> l /\ P x) <-> P t' \/ exists x, x ∈ l /\ P x.
Proof.
  intros Hi HP. pose proof (lookup_lt_Some _ _ _ Hi) as Hlt. split.
  - intros (x & [j Hj]%list_elem_of_lookup_1 & Hx). destruct (decide (j = i)) as [->|Hne].
    + rewrite list_lookup_insert_eq in Hj by done. injection Hj as <-. now left.
    + rewrite list_lookup_insert_ne in Hj by done. right. exists x. split; [now apply list_elem_of_lookup_2 in Hj|done].
  - intros [Ht|(x & [j Hj]%list_elem_of_lookup_1 & Hx)].
    + exists t'. split; [|done]. apply list_elem_of_lookup_2 with i. now rewrite list_lookup_insert_eq.
    + exists x. split; [|done]. apply list_elem_of_lookup_2 with j. rewrite list_lookup_insert_ne; [done|]. intros <-. congruence.
Qed.

Lemma ids_unique l t1 t2 id :
  NoDup (ids l) -> t1 ∈ l -> t2 ∈ l -> waiting_id t1 = Some id -> waiting_id t2 = Some id -> t1 = t2.
Proof.
  induction l as [|t l IH]; intros Hd H1 H2 E1 E2; [now apply not_elem_of_nil in H1|].
  unfold ids in Hd. cbn in Hd. assert (Hl : forall x, x ∈ l -> waiting_id x = Some id -> id ∈ ids l).
  { intros x Hx Ex. apply list_elem_of_omap. eauto. }
  apply elem_of_cons in H1 as [->|H1]; apply elem_of_cons in H2 as [->|H2]; try done.
  - rewrite E1 in Hd. apply NoDup_cons in Hd as [Hni _]. exfalso. apply Hni. now apply (Hl t2).
  - rewrite E2 in Hd. apply NoDup_cons in Hd as [Hni _]. exfalso. apply Hni. now apply (Hl t1).
  - apply IH; try done. destruct (waiting_id t); [now apply NoDup_cons in Hd|done].
Qed.

(** No more tasks run than the streams have room for. *)
Definition below (m : nat) (t : task) : bool :=
  match t_phase t with
  | Counted j _ _ | Launched j _ | Waiting j _ | Resumed j => (j <? m)%nat
  | _ => false
  end.

Lemma nr_le f g h l : Forall (fun t => (b2n (f t) + b2n (g t) <= b2n (h t))%nat) l -> (nr f l + nr g l <= nr h l)%nat.
Proof.
  induction 1 as [|t l Ht _ IH]; [done|]. change (t :: l) with ([t] ++ l). rewrite !nr_app, !nr_one. lia.
Qed.

Lemma nr_below m (c : nat) l : (forall k, (k < m)%nat -> (nr (running k) l <= c)%nat) -> (nr (below m) l <= m * c)%nat.
Proof.
  induction m as [|m IH]; intros H.
  - enough (nr (below 0) l = 0)%nat by lia. unfold nr. destruct (filter _ l) as [|t r] eqn:E; [done|].
    assert (Ht : t ∈ t :: r) by left. rewrite <-E in Ht. apply list_elem_of_filter in Ht as [Ht _].
    unfold below in Ht. destruct (t_phase t); try done.
  - enough (nr (below (S m)) l <= nr (below m) l + nr (running m) l)%nat.
    { pose proof (H m ltac:(lia)). assert (nr (below m) l <= m * c)%nat by (apply IH; intros; apply H; lia). lia. }
    clear. induction l as [|t l IH]; [done|]. change (t :: l) with ([t] ++ l). rewrite !nr_app, !nr_one.
    enough (b2n (below (S m) t) <= b2n (below m t) + b2n (running m t))%nat by lia.
    unfold below, running. unfold b2n. destruct (t_phase t) as [|j|j|j|j c e|j e|j id|j|j c|]; try lia;
      destruct (Nat.ltb_spec j (S m)), (Nat.ltb_spec j m), (Nat.eqb_spec j m); lia.
Qed.

Lemma ids_length l : length (ids l) = nr (fun t => bool_decide (is_Some (waiting_id t))) l.
Proof.
  induction l as [|t l IH]; [done|]. change (t :: l) with ([t] ++ l) at 2. rewrite nr_app, nr_one, <-IH. unfold ids. cbn.
  now destruct (waiting_id t).
Qed.

Lemma waiting_bound ns n d i t k e :
  streams_ok ns n d -> tasks d !! i = Some t -> t_phase t = Launched k e -> 0 <= n ->
  (S (length (ids (tasks d))) <= ns * Z.to_nat n)%nat.
Proof.
  intros H Hi Ep Hn. set (launched := fun t => match t_phase t with Launched _ _ => true | _ => false end).
  pose proof (nr_le (fun t => bool_decide (is_Some (waiting_id t))) launched (below ns) (tasks d)) as Hle.
  pose proof (nr_positive launched (tasks d) i t Hi ltac:(unfold launched; now rewrite Ep)) as Hpos.
  assert (Hb : (nr (below ns) (tasks d) <= ns * Z.to_nat n)%nat).
  { apply nr_below. intros j Hj. destruct (stream_lookup ns n d j H Hj) as [su Hsu].
    destruct (s_each _ _ _ H j su Hsu) as (H1 & H2 & _). lia. }
  rewrite ids_length. enough (Forall (fun t => (b2n (bool_decide (is_Some (waiting_id t))) + b2n (launched t) <= b2n (below ns t))%nat) (tasks d)) by (specialize (Hle ltac:(done)); lia).
  apply Forall_lookup. intros j x Hx. pose proof (proj1 (Forall_lookup _ _) (s_task _ _ _ H) j x Hx) as Hs.
  unfold waiting_id, launched, below, stream_of in *. destruct (t_phase x) as [|a|a|a|a c e'|a e'|a id|a|a c|];
    try rewrite (proj2 (Nat.ltb_lt a ns)) by (now apply Hs); cbn; lia.
Qed.

Record prs_ok (ns : nat) (n : Z) (d : device) : Prop := {
  p_client : exists out peak fl, client_inv (_pr_manager d) out peak fl /\ (Z.of_nat <$> out) ≡ₚ ids (tasks d) /\
    (peak <= ns * Z.to_nat n)%nat;
  p_nodup : forall s, NoDup (pr_id <$> _event_pr_pool d s);
  p_events : forall s id, id ∈ pr_id <$> _event_pr_pool d s <->
    is_set (_pr_manager d) (Z.to_nat id) = false /\ exists t, t ∈ tasks d /\ t_shard t = s /\ waiting_id t = Some id
}.

Section Promises.
Context (ns : nat) (n : Z) (Hn : 1 <= n < 4294967296) (Hids : Z.of_nat ns * n + 1 < 4294967296).

(** A step of a task that is not waiting before or after it. *)
Lemma prs_quiet d d' i t t' :
  prs_ok ns n d -> tasks d !! i = Some t -> _pr_manager d' = _pr_manager d -> _event_pr_pool d' = _event_pr_pool d ->
  tasks d' = <[i := t']> (tasks d) -> t_shard t' = t_shard t -> waiting_id t' = waiting_id t -> prs_ok ns n d'.
Proof.
  intros [(out & peak & fl & Hc & Hout & Hpk) Hnd Hev] Hi E1 E2 E3 Es Ew. constructor; rewrite ?E1, ?E2, ?E3; try done.
  - exists out, peak, fl. split; [done|]. split; [|done]. pose proof (ids_insert _ _ _ t' Hi) as Hp. rewrite Ew in Hp.
    apply Permutation_app_inv_r in Hp. now rewrite Hp.
  - intros s id. rewrite Hev. apply and_iff_compat_l.
    destruct (decide (t_shard t = s /\ waiting_id t = Some id)) as [HP|HP].
    + split; intros _; [|exists t; split; [now apply list_elem_of_lookup_2 in Hi|done]].
      exists t'. split; [|now rewrite Es, Ew]. apply list_elem_of_lookup_2 with i.
      apply list_lookup_insert_eq. eapply lookup_lt_Some; eassumption.
    + rewrite (exists_insert (fun t => t_shard t = s /\ waiting_id t = Some id) _ i t t' Hi HP).
      split; [auto|]. intros [HP'|?]; [|done]. rewrite Es, Ew in HP'. done.
Qed.

Lemma launch_prs d i t k e e0 :
  streams_ok ns n d -> prs_ok ns n d -> tasks d !! i = Some t -> t_phase t = Launched k e ->
  exists p d1, advance e0 t d = Ok (p, d1) /\ prs_ok ns n (set_tasks (<[i := mk_task (t_shard t) p]> (tasks d1)) d1).
Proof using Hn Hids.
  intros Hs [(out & peak & fl & Hc & Hout & Hpk) Hnd Hev] Hi Ep.
  pose proof (waiting_bound ns n d i t k e Hs Hi Ep ltac:(lia)) as Hb. rewrite <-(Permutation_length Hout), length_fmap in Hb.
  pose proof (ci_size _ _ _ _ Hc) as Hsz.
  assert (Hroom : Z.of_nat (length (pr_array (_pr_manager d))) < 2 ^ 32) by (change (2 ^ 32) with 4294967296; nia).
  destruct (client_acquire false (_pr_manager d) out peak fl Hc Hroom) as (id & m & fl' & Ea & Hni & H0 & Hc').
  unfold advance. rewrite Ep. unfold gpu_acquire_pr. rewrite Ea. cbn [mbind res_bind].
  pose proof (acquire_is_set _ _ _ Ea Hroom) as His. rewrite Nat2Z.id in His.
  assert (Hfresh : Z.of_nat id ∉ ids (tasks d)).
  { rewrite <-Hout. intros (j & Hj & Hin)%list_elem_of_fmap. apply Nat2Z.inj in Hj. now subst. }
  assert (Hnev : forall s, Z.of_nat id ∉ pr_id <$> _event_pr_pool d s).
  { intros s. rewrite Hev. intros (_ & t0 & Ht0 & _ & Hw). apply Hfresh. apply list_elem_of_omap. eauto. }
  do 2 eexists. split; [reflexivity|]. set (t' := mk_task (t_shard t) (Waiting k (Z.of_nat id))).
  assert (Hw0 : waiting_id t = None) by (unfold waiting_id; now rewrite Ep).
  assert (Hpool : forall s, pr_id <$> upd (_event_pr_pool d) (t_shard t) (emplace (mk_event e (Z.of_nat id)) (_event_pr_pool d (t_shard t))) s =
    (pr_id <$> _event_pr_pool d s) ++ (if decide (s = t_shard t) then [Z.of_nat id] else [])).
  { intros s. unfold upd, emplace. cbn [pr_id]. rewrite bool_decide_false by apply Hnev.
    case_decide as Hd; [subst s; now rewrite fmap_app|now rewrite app_nil_r]. }
  constructor; cbn [_pr_manager _event_pr_pool tasks set_tasks set_events set_prs].
  - exists (id :: out), (Nat.max peak (S (length out))), fl'. split; [done|]. split; [|lia].
    pose proof (ids_insert _ _ _ t' Hi) as Hp. rewrite Hw0 in Hp. cbn [option_list] in Hp. rewrite app_nil_r in Hp.
    rewrite Hp. cbn [fmap list_fmap t' waiting_id t_phase option_list]. unfold fmap in Hout. rewrite Hout. solve_Permutation.
  - intros s. rewrite Hpool. case_decide; [|now rewrite app_nil_r]. apply NoDup_app. split; [done|]. split; [|apply NoDup_singleton].
    intros x Hx ->%list_elem_of_singleton. now apply (Hnev s).
  - intros s id'. rewrite Hpool, elem_of_app, Hev.
    rewrite (exists_insert (fun t => t_shard t = s /\ waiting_id t = Some id') _ i t t' Hi) by (rewrite Hw0; now intros [_ ?]).
    rewrite His. cbn [t' t_shard waiting_id t_phase]. split.
    + intros [(Hset & t0 & Ht0 & Hsh & Hw)|Hin].
      * case_decide as Hd; [split; [done|]|split; [done|]]; right; eauto.
      * case_decide as Hd; [|now apply not_elem_of_nil in Hin]. apply list_elem_of_singleton in Hin as ->.
        rewrite Nat2Z.id, decide_True by done. split; [done|]. left. now subst.
    + intros (Hset & [[Hsh Hw]|(t0 & Ht0 & Hsh & Hw)]).
      * injection Hw as <-. right. rewrite decide_True by done. left.
      * left. split; [|eauto]. case_decide as Hd; [|done]. exfalso.
        assert (Hin' : id' ∈ ids (tasks d)) by (apply list_elem_of_omap; eauto).
        rewrite <-Hout in Hin'. apply list_elem_of_fmap in Hin' as (j & -> & Hin'). rewrite Nat2Z.id in Hd. now subst.
Qed.

Lemma waiting_live d i t k id :
  prs_ok ns n d -> tasks d !! i = Some t -> t_phase t = Waiting k id ->
  exists out peak fl j, client_inv (_pr_manager d) out peak fl /\ (Z.of_nat <$> out) ≡ₚ ids (tasks d) /\
    (peak <= ns * Z.to_nat n)%nat /\ id = Z.of_nat j /\ j ∈ out.
Proof.
  intros [(out & peak & fl & Hc & Hout & Hpk) _ _] Hi Ep.
  assert (Hin : id ∈ ids (tasks d)).
  { apply list_elem_of_omap. exists t. split; [now apply list_elem_of_lookup_2 in Hi|]. unfold waiting_id. now rewrite Ep. }
  rewrite <-Hout in Hin. apply list_elem_of_fmap in Hin as (j & -> & Hj). exists out, peak, fl, j. done.
Qed.

Lemma live_future (m : prs) out peak fl j :
  client_inv m out peak fl -> j ∈ out -> get_future m (Z.of_nat j) = Ok (is_set m j).
Proof.
  intros Hc Hj. apply (ci_live _ _ _ _ Hc) in Hj. unfold live in Hj. unfold get_future, at_id, is_set. rewrite Nat2Z.id.
  now destruct (pr_array m !! j).
Qed.

Lemma resume_prs d i t k id e0 :
  prs_ok ns n d -> tasks d !! i = Some t -> t_phase t = Waiting k id ->
  exists p d1, advance e0 t d = Ok (p, d1) /\ prs_ok ns n (set_tasks (<[i := mk_task (t_shard t) p]> (tasks d1)) d1).
Proof.
  intros Hp Hi Ep. destruct (waiting_live d i t k id Hp Hi Ep) as (out & peak & fl & j & Hc & Hout & Hpk & -> & Hj).
  pose proof Hp as [_ Hnd Hev]. unfold advance. rewrite Ep, (live_future _ _ _ _ _ Hc Hj). cbn [mbind res_bind].
  destruct (is_set (_pr_manager d) j) eqn:Eset.
  2: { do 2 eexists. split; [reflexivity|]. apply (prs_quiet d _ i t (mk_task (t_shard t) (Waiting k (Z.of_nat j)))); try done.
       unfold waiting_id. now rewrite Ep. }
  apply list_elem_of_lookup_1 in Hj as [q Hq]. destruct (client_remove _ _ _ _ q j Hc Hq) as (m & Er & Hc').
  rewrite Er. cbn [mbind res_bind]. do 2 eexists. split; [reflexivity|]. set (t' := mk_task (t_shard t) (Resumed k)).
  assert (Hw : waiting_id t = Some (Z.of_nat j)) by (unfold waiting_id; now rewrite Ep).
  pose proof (ids_insert _ _ _ t' Hi) as Hperm. rewrite Hw in Hperm. cbn [option_list t' waiting_id t_phase] in Hperm.
  rewrite app_nil_r, <-Hout in Hperm.
  constructor; cbn [_pr_manager _event_pr_pool tasks set_tasks set_events set_prs]; [|done|].
  - exists (delete q out), peak, (j :: fl). split; [done|]. split; [|done].
    assert (Hd : Z.of_nat <$> out ≡ₚ Z.of_nat j :: (Z.of_nat <$> delete q out)).
    { change (Z.of_nat j :: (Z.of_nat <$> delete q out)) with (Z.of_nat <$> (j :: delete q out)).
      now apply fmap_Permutation, delete_Permutation. }
    apply (Permutation_app_inv_r [Z.of_nat j]). rewrite Hperm, Hd. solve_Permutation.
  - intros s id'. rewrite Hev, (remove_is_set _ _ _ _ Er). apply and_iff_under. intros Hset.
    assert (Hne : id' <> Z.of_nat j) by (intros ->; rewrite Nat2Z.id in Hset; congruence).
    rewrite (exists_insert (fun t => t_shard t = s /\ waiting_id t = Some id') _ i t t' Hi) by (rewrite Hw; intros [_ ?]; congruence).
    split; [auto|]. intros [[_ ?]|?]; [done|done].
Qed.

Lemma other_prs d i t e0 :
  streams_ok ns n d -> prs_ok ns n d -> tasks d !! i = Some t ->
  (exists p d1, advance e0 t d = Ok (p, d1) /\ prs_ok ns n (set_tasks (<[i := mk_task (t_shard t) p]> (tasks d1)) d1)) \/
  (advance e0 t d = Fault UseAfterFree /\
   ((t_phase t = Searching /\ mp_items (_candidates d) <> []) \/ exists k, t_phase t = Reading k)).
Proof using Hn Hids.
  intros Hs Hp Hi. assert (Hq : forall d' p, _pr_manager d' = _pr_manager d -> _event_pr_pool d' = _event_pr_pool d ->
    tasks d' = tasks d -> waiting_id (mk_task (t_shard t) p) = waiting_id t ->
    prs_ok ns n (set_tasks (<[i := mk_task (t_shard t) p]> (tasks d')) d')).
  { intros d' p E1 E2 E3 E4. apply (prs_quiet d _ i t (mk_task (t_shard t) p)); try done. cbn. now rewrite E3. }
  assert (Hsu : forall k, stream_of t = Some k -> exists su, _streams d !! k = Some su).
  { intros k Hk. exact (stream_lookup ns n d k Hs (task_stream ns n d i t k Hs Hi Hk)). }
  unfold waiting_id in Hq. unfold stream_of in Hsu.
  destruct (t_phase t) as [|k|k|k|k c e|k e|k id|k|k c|] eqn:Ep.
  6: { left. now apply (launch_prs d i t k e e0). }
  6: { left. now apply (resume_prs d i t k id e0). }
  all: unfold advance; rewrite Ep; cbn [mbind res_bind].
  - unfold pop_stream. pose proof (mp_pop_spec (_candidates d)) as Hpop. destruct (mp_pop (_candidates d)) as [[k r]|]; cbn [mbind res_bind].
    + right. split; [done|]. left. split; [done|]. now rewrite Hpop.
    + left. do 2 eexists. split; [reflexivity|]. now apply Hq.
  - right. split; [done|]. right. eauto.
  - left. destruct e0 as [e|]; [|do 2 eexists; split; [reflexivity|]; now apply Hq]. destruct (Hsu k eq_refl) as [su Esu]. unfold add_count. rewrite Esu. cbn [of_option mbind res_bind].
    do 2 eexists. split; [reflexivity|]. now apply Hq.
  - left. do 2 eexists. split; [reflexivity|]. now apply Hq.
  - left. do 2 eexists. split; [reflexivity|]. destruct (c <? _event_num_per_stream d); now apply Hq.
  - left. destruct (Hsu k eq_refl) as [su Esu]. unfold add_count. rewrite Esu. cbn [of_option mbind res_bind].
    do 2 eexists. split; [reflexivity|]. now apply Hq.
  - left. do 2 eexists. split; [reflexivity|]. destruct (c =? _event_num_per_stream d); now apply Hq.
  - left. do 2 eexists. split; [reflexivity|]. now apply Hq.
Qed.

Lemma set_false (check : Event -> bool) (l : list event_pr) (m m' : prs) j :
  (is_set m' j = true <-> is_set m j = true \/ exists x, x ∈ l /\ check (event x) = true /\ Z.to_nat (pr_id x) = j) ->
  is_set m' j = false <-> is_set m j = false /\ forall x, x ∈ l -> check (event x) = true -> Z.to_nat (pr_id x) <> j.
Proof.
  intros Hset. destruct (is_set m' j), (is_set m j); split; intros H; try done; try (destruct H; done).
  - destruct H as [_ H]. destruct (proj1 Hset eq_refl) as [?|(x & Hx & Hck & Hid)]; [done|]. now apply (H x) in Hid.
  - exfalso. enough (false = true) by done. apply Hset. now left.
  - split; [done|]. intros x Hx Hck Hid. enough (false = true) by done. apply Hset. right. eauto.
Qed.

(** A poll of shard [sid]. *)
Lemma poll_prs d check sid :
  prs_ok ns n d -> exists got d1, poll_device check sid d = Ok (got, d1) /\ prs_ok ns n d1 /\
    (_event_num_per_stream d1 = _event_num_per_stream d /\ _streams d1 = _streams d /\ _candidates d1 = _candidates d /\ tasks d1 = tasks d).
Proof.
  intros Hp. pose proof Hp as [(out & peak & fl & Hc & Hout & Hpk) Hnd Hev].
  assert (Hl : Forall (fun x => 0 <= pr_id x /\ Z.to_nat (pr_id x) ∈ out) (_event_pr_pool d sid)).
  { apply Forall_forall. intros x Hx. assert (Hin : pr_id x ∈ pr_id <$> _event_pr_pool d sid) by (apply list_elem_of_fmap; eauto).
    apply Hev in Hin as (_ & t & Ht & _ & Hw). assert (Hid : pr_id x ∈ ids (tasks d)) by (apply list_elem_of_omap; eauto).
    rewrite <-Hout in Hid. apply list_elem_of_fmap in Hid as (j & -> & Hj). rewrite Nat2Z.id. split; [lia|done]. }
  destruct (poll_events_ok check out peak fl _ _ Hc Hl) as (got & m & E & Hc' & Hset).
  unfold poll_device. rewrite E. cbn [mbind res_bind]. do 2 eexists. split; [reflexivity|]. split; [|done].
  constructor; cbn [_pr_manager _event_pr_pool tasks set_events set_prs].
  - exists out, peak, fl. done.
  - intros s. unfold upd. case_decide; [|done]. eapply sublist_NoDup; [apply (Hnd sid)|]. apply fmap_sublist, sublist_filter.
  - pose proof (fun id => set_false check (_event_pr_pool d sid) (_pr_manager d) m (Z.to_nat id) (Hset (Z.to_nat id))) as Hsf.
    assert (Hpool : forall x, x ∈ _event_pr_pool d sid -> 0 <= pr_id x /\ exists t, t ∈ tasks d /\ t_shard t = sid /\ waiting_id t = Some (pr_id x)).
    { intros x Hx. split; [apply (proj1 (Forall_forall _ _) Hl x Hx)|]. apply Hev. apply list_elem_of_fmap. eauto. }
    assert (Hids' : NoDup (ids (tasks d))).
    { rewrite <-Hout. apply NoDup_fmap_2; [intros ? ? ?; lia|apply (ci_nodup _ _ _ _ Hc)]. }
    assert (Hnat : forall id, id ∈ ids (tasks d) -> 0 <= id).
    { intros id. rewrite <-Hout. intros (j & -> & _)%list_elem_of_fmap. lia. }
    intros s id. unfold upd. rewrite Hsf. case_decide as Hs; [subst s|].
    + split.
      * intros (x & -> & [Hck Hx]%list_elem_of_filter)%list_elem_of_fmap.
        assert (Hin : pr_id x ∈ pr_id <$> _event_pr_pool d sid) by (apply list_elem_of_fmap; eauto).
        destruct (proj1 (Hev sid _) Hin) as [Hf Ht]. split; [|done]. split; [done|]. intros y Hy Hcy Hid.
        destruct (Hpool x Hx) as [Hx0 _], (Hpool y Hy) as [Hy0 _].
        assert (y = x) as -> by (apply (NoDup_fmap_inj pr_id (_event_pr_pool d sid)); [apply Hnd|done|done|lia]). congruence.
      * intros ((Hf & Hno) & Ht). assert (Hin : id ∈ pr_id <$> _event_pr_pool d sid) by (apply Hev; done).
        apply list_elem_of_fmap in Hin as (x & -> & Hx). apply list_elem_of_fmap. exists x. split; [done|].
        apply list_elem_of_filter. split; [|done]. destruct (check (event x)) eqn:Eck; [|done]. now destruct (Hno x Hx Eck).
    + rewrite Hev. apply and_iff_compat_r2. intros (t & Ht & Hsh & Hw). split; [|tauto]. intros Hf. split; [done|].
      intros x Hx Hck Hid. destruct (Hpool x Hx) as [Hx0 (t2 & Ht2 & Hsh2 & Hw2)].
      assert (Hid0 : 0 <= id) by (apply Hnat, list_elem_of_omap; eauto). assert (pr_id x = id) as E2 by lia. rewrite E2 in Hw2.
      pose proof (ids_unique _ _ _ _ Hids' Ht Ht2 Hw Hw2). congruence.
Qed.

(** ** All steps *)
Lemma streams_same d d' :
  streams_ok ns n d -> _event_num_per_stream d' = _event_num_per_stream d -> _streams d' = _streams d ->
  _candidates d' = _candidates d -> tasks d' = tasks d -> streams_ok ns n d'.
Proof. intros [H1 H2 H3 H4 H5] E1 E2 E3 E4. constructor; rewrite ?E1, ?E2, ?E3, ?E4; done. Qed.

Lemma append_ok d sid :
  streams_ok ns n d -> prs_ok ns n d ->
  let d' := set_tasks (tasks d ++ [mk_task sid Searching]) d in streams_ok ns n d' /\ prs_ok ns n d'.
Proof.
  intros [H1 H2 H3 H4 H5] [(out & peak & fl & Hc & Hout & Hpk) Hnd Hev] d'. split; constructor; cbn; try done.
  - apply Forall_app. split; [done|]. now apply Forall_singleton.
  - intros k su Hk. destruct (H5 k su Hk) as (E1 & E2 & E3). unfold stream_ok. rewrite !nr_app, !nr_one. cbn. rewrite !Nat.add_0_r. done.
  - exists out, peak, fl. split; [done|]. split; [|done]. unfold ids. rewrite omap_app. cbn. now rewrite app_nil_r.
  - intros s id. rewrite Hev. apply and_iff_compat_l. split.
    + intros (t & Ht & H). exists t. split; [|done]. apply elem_of_app. now left.
    + intros (t & Ht & Hs & Hw). apply elem_of_app in Ht as [Ht|Ht]; [eauto|]. apply list_elem_of_singleton in Ht as ->. done.
Qed.

Lemma submit_ok d sid late_pop late_read :
  streams_ok ns n d -> prs_ok ns n d ->
  exists d', submit sid late_pop late_read d = Ok d' /\ streams_ok ns n d' /\ prs_ok ns n d'.
Proof using Hn.
  intros Hs Hp. destruct (append_ok d sid Hs Hp) as [Hs1 Hp1]. unfold submit, get_stream, pop_stream.
  destruct late_pop; [cbn [mbind res_bind]; eauto|].
  destruct (mp_pop (_candidates d)) as [[k r]|] eqn:Er; cbn [mbind res_bind]; [|eauto].
  eexists. split; [reflexivity|]. set (p := if late_read then Reading k else Popped k).
  set (d1 := set_tasks (tasks d ++ [mk_task sid Searching]) d) in *.
  assert (Hi : tasks d1 !! length (tasks d) = Some (mk_task sid Searching)) by (cbn; now rewrite lookup_app_r, Nat.sub_diag by lia).
  assert (E : tasks d ++ [mk_task sid p] = <[length (tasks d) := mk_task sid p]> (tasks d1)).
  { cbn. rewrite insert_app_r_alt, Nat.sub_diag by lia. done. }
  cbn [tasks set_candidates]. rewrite E. split.
  - assert (Hpk : p = Popped k \/ p = Reading k) by (unfold p; destruct late_read; auto).
    exact (candidate_pop_ok ns n Hn d1 _ _ k r Hs1 Hi eq_refl Er p Hpk).
  - apply (prs_quiet d1 _ _ _ (mk_task sid p) Hp1 Hi); try done. unfold p. now destruct late_read.
Qed.

(** A stream id stored or read in the frame of [get_stream] after it returned: by a pop that
    was deferred or repeated and finds a stream, or by a deferred continuation. *)
Definition dangling (d : device) (ev : gpu_event) : Prop :=
  exists i e t, ev = Advance i e /\ tasks d !! i = Some t /\
    ((t_phase t = Searching /\ mp_items (_candidates d) <> []) \/ exists k, t_phase t = Reading k).

Lemma gpu_step1 d ev :
  streams_ok ns n d -> prs_ok ns n d ->
  (exists d', step1 d ev = Ok d' /\ streams_ok ns n d' /\ prs_ok ns n d') \/ (step1 d ev = Fault UseAfterFree /\ dangling d ev).
Proof using Hn Hids.
  intros Hs Hp. destruct ev as [sid l1 l2|i e|sid check]; cbn [step1].
  - left. now apply submit_ok.
  - destruct (tasks d !! i) as [t|] eqn:Hi; [|left; eauto].
    destruct (other_prs d i t e Hs Hp Hi) as [(p & d1 & E & Hp')|(E & Ep)]; rewrite E; cbn [mbind res_bind].
    + left. eexists. split; [reflexivity|]. split; [|done]. now apply (advance_streams ns n Hn d i t e p d1).
    + right. split; [done|]. exists i, e, t. done.
  - left. destruct (poll_prs d check sid Hp) as (got & d1 & -> & Hp' & E1 & E2 & E3 & E4). cbn [mbind res_bind].
    eexists. split; [reflexivity|]. split; [|done]. now apply (streams_same d).
Qed.

(** What went wrong in the last steps. *)
Definition gone_wrong (d : device) (evs : gpu_steps) (f : fault) : Prop :=
  match f with
  | UseAfterFree =>
      match evs with
      | One ev => dangling d ev
      | Overlap ev1 ev2 => dangling d ev1 \/ exists d1, step1 d ev1 = Ok d1 /\ dangling d1 ev2
      end
  | DataRace => exists ev1 ev2, evs = Overlap ev1 ev2 /\ races d ev1 ev2 = true
  | _ => False
  end.

Lemma gpu_step d evs :
  streams_ok ns n d -> prs_ok ns n d ->
  (exists d', step d evs = Ok d' /\ streams_ok ns n d' /\ prs_ok ns n d') \/ (exists f, step d evs = Fault f /\ gone_wrong d evs f).
Proof using Hn Hids.
  intros Hs Hp. destruct evs as [ev|ev1 ev2]; cbn [step].
  - destruct (gpu_step1 d ev Hs Hp) as [H|[E H]]; [now left|right; eauto].
  - destruct (races d ev1 ev2) eqn:Er; [right; exists DataRace; cbn; eauto|].
    destruct (gpu_step1 d ev1 Hs Hp) as [(d1 & E & Hs1 & Hp1)|[E H]]; rewrite E; cbn [mbind res_bind];
      [|right; eexists; split; [reflexivity|]; now left].
    destruct (gpu_step1 d1 ev2 Hs1 Hp1) as [H|[E2 H]]; [now left|]. right. exists UseAfterFree. split; [done|]. right. eauto.
Qed.

Lemma gpu_run evs : forall d, streams_ok ns n d -> prs_ok ns n d ->
  (exists d', run d evs = Ok d' /\ streams_ok ns n d' /\ prs_ok ns n d') \/
  (exists f pre ev post d1, run d evs = Fault f /\ evs = pre ++ ev :: post /\ run d pre = Ok d1 /\ gone_wrong d1 ev f).
Proof using Hn Hids.
  induction evs as [|ev evs IH]; intros d Hs Hp; cbn [run]; [left; eauto|].
  destruct (gpu_step d ev Hs Hp) as [(d1 & E1 & Hs1 & Hp1)|(f & E1 & Hd)]; rewrite E1; cbn [mbind res_bind].
  - destruct (IH d1 Hs1 Hp1) as [H|(f & pre & ev' & post & d2 & E & -> & Hr & Hd)]; [now left|]. right.
    exists f, (ev :: pre), ev', post, d2. cbn [run]. rewrite E1. done.
  - right. exists f, [], ev, evs, d. done.
Qed.
End Promises.

Lemma foldl_push_items (l : list nat) : forall r : RT, mp_items (foldl mp_push r l) = mp_items r ++ l.
Proof. induction l as [|k l IH]; intros r; cbn; [now rewrite app_nil_r|]. rewrite IH, mp_push_spec, <-app_assoc. done. Qed.

Lemma occurrences_seq k a n : occurrences k (seq a n) = if decide (a <= k < a + n)%nat then 1%nat else 0%nat.
Proof.
  revert a. induction n as [|n IH]; intros a; cbn [seq]; [rewrite decide_False by lia; done|].
  change (a :: seq (S a) n) with ([a] ++ seq (S a) n). rewrite occurrences_app, occurrences_one, IH.
  destruct (Nat.eqb_spec a k); unfold b2n; repeat case_decide; lia.
Qed.

Lemma configure_ok (streams : list Stream) n :
  1 <= n -> streams_ok (length streams) n (configure_device streams n) /\ prs_ok (length streams) n (configure_device streams n).
Proof.
  intros Hn. split; constructor; cbn; rewrite ?foldl_push_items, ?mp_new_items; try done.
  - now rewrite length_fmap.
  - apply Forall_forall. intros k Hk. apply elem_of_seq in Hk. lia.
  - intros k su Hk. rewrite list_lookup_fmap in Hk. destruct (streams !! k) as [s|] eqn:Es; [|done]. injection Hk as <-.
    apply lookup_lt_Some in Es. unfold stream_ok. cbn [count app nr]. rewrite occurrences_seq, decide_True by lia.
    split; [done|]. split; [lia|]. now rewrite (proj2 (Z.eqb_neq 0 n)) by lia.
  - exists [], 0%nat, []. split; [apply client_inv_new|]. split; [done|lia].
  - intros s. constructor.
  - intros s id. split; [intros H; now apply not_elem_of_nil in H|]. intros (_ & t & Ht & _). now apply not_elem_of_nil in Ht.
Qed.

(** A stream of a device: how many tasks it runs, how often it is a candidate. *)
Definition candidate_times (d : device) (k : nat) : nat := occurrences k (mp_items (_candidates d)).


(** When all streams are full, the next task sleeps and its retry, once a stream is back,
    stores through a reference into a frame that is gone.  So does the first pop when it
    is deferred. *)
Theorem busy_device_dangles d i t k r e :
  tasks d !! i = Some t -> t_phase t = Searching -> mp_pop (_candidates d) = Some (k, r) ->
  step d (One (Advance i e)) = Fault UseAfterFree.
Proof. intros Hi Ep Er. cbn [step step1]. rewrite Hi. unfold advance, pop_stream. now rewrite Ep, Er. Qed.

(** Two shards that launch at a time. *)
Theorem concurrent_launches_race d i j t u k l e1 e2 e e' :
  tasks d !! i = Some t -> tasks d !! j = Some u -> t_phase t = Launched k e -> t_phase u = Launched l e' ->
  t_shard t <> t_shard u -> step d (Overlap (Advance i e1) (Advance j e2)) = Fault DataRace.
Proof.
  intros Hi Hj Et Eu Hne. cbn [step]. unfold races, table_user. rewrite Hi, Hj. cbn [mbind option_bind]. rewrite Et, Eu.
  now rewrite (proj2 (Nat.eqb_neq _ _)).
Qed.

End GpuPool.

(** ** A device with two streams of two tasks each *)
Module GpuExamples.
Abbreviation sample_device n := (configure_device (RT := list nat) (Event := nat) [100; 101]%nat n).

(** Task 0 runs to its end; task 1 waits for its event. *)
Definition sample_run : list (gpu_steps (Event := nat)) :=
  [Overlap (Submit 0 false false) (Submit 1 false false)] ++ replicate 3 (One (Advance 0 (Some 7%nat))) ++
  [Overlap (Advance 0 None) (Advance 1 (Some 8%nat))] ++ replicate 2 (One (Advance 1 None)) ++
  (One <$> ([Poll 0 (fun e => (e =? 7)%nat); Poll 1 (fun e => (e =? 7)%nat)] ++ replicate 3 (Advance 0 None))).


(** With a limit of no tasks per stream, a stream is used once and never comes back. *)
Example no_tasks_per_stream :
  (fun d => (t_phase <$> tasks d, mp_items (_candidates d))) <$>
    run (sample_device 0) (One <$> ([Submit 0 false false] ++ replicate 3 (Advance 0 (Some 7%nat)) ++ [Poll 0 (fun _ => true)] ++ replicate 3 (Advance 0 None)))
  = Ok ([Finished], [1%nat]).
Proof. reflexivity. Qed.
End GpuExamples.
