(* ===== verification/Machine.v ===== *)
(** * The shards of a machine, composed

    A machine runs one actor engine per shard ([Engine]); what an engine sends to
    another shard goes through the queues of the local channel ([MessageQueue],
    [Channels]), which the poller of the receiving shard drains into its engine
    ([local_channel::poll_queues] and [actor_message_queue::process_incoming],
    src/src/core/local_channel.cc; [root_actor_group::send], src/src/core/root_actor_group.cc).

    Shards run in parallel: an event is a call of one engine or a poll of one shard, in
    any order.  A call sends its messages in the order in which the engine emitted them; nothing
    else touches the sending side of a shard's queues meanwhile. *)
From S2P Require Import Prelude NetworkConfig.
From S2P Require Import Bytes Address Message PromiseManager Actor Group.
From S2P Require Import MessageQueue Channels Engine.

(** ** What an engine may emit *)
Section Outputs.
Context {D Q P Sem : Type} {SM : Semaphore Sem}.
Abbreviation emsg := (emsg (D := D) (Q := Q)).
Abbreviation eout := (eout (D := D) (Q := Q)).
Abbreviation engine := (engine (D := D) (Q := Q) (P := P) (Sem := Sem)).
Variable new_promise : P.
Variable promise_set_value : P -> emsg -> P.
Variable promise_set_exception : P -> ex -> P.
Variable this_gsid num_shards : Z.
Variable is_local : Z -> bool.
Variable disabled_below : Z -> emsg -> bool.
Variable canceled_text : bytes.

(** A message to another shard, sent the right way. *)
Definition well_routed (o : eout) : Prop :=
  match o with
  | ESendLocal m => exists g, get_shard_id (addr (e_hdr m)) = Ok g /\ g <> this_gsid /\ is_local g = true
  | ESendNet m => exists g, get_shard_id (addr (e_hdr m)) = Ok g /\ g <> this_gsid /\ is_local g = false
  | _ => True
  end.

(** Outputs are appended to the trace, each well routed. *)
Definition extends (e e' : engine) : Prop := exists os, trace e' = trace e ++ os /\ Forall well_routed os.

Lemma extends_same e e' : trace e' = trace e -> extends e e'.
Proof. intros E. exists []. now rewrite app_nil_r. Qed.
Lemma extends_trans e1 e2 e3 : extends e1 e2 -> extends e2 e3 -> extends e1 e3.
Proof. intros (a & E1 & H1) (b & E2 & H2). exists (a ++ b). rewrite E2, E1, <-app_assoc. split; [done|]. now apply Forall_app. Qed.
Lemma extends_emit os e e' : trace e' = trace e -> Forall well_routed os -> extends e (emit os e').
Proof. intros E H. exists os. cbn. now rewrite E. Qed.
Lemma extends_emit1 o e e' : extends e e' -> well_routed o -> extends e (emit [o] e').
Proof. intros H Ho. eapply extends_trans; [exact H|]. apply extends_emit; [done|]. now apply Forall_singleton. Qed.
Lemma scheduled_routed (l : list Z) : Forall well_routed (EScheduled <$> l).
Proof. now apply Forall_fmap, Forall_true. Qed.
Lemma stopped_routed force (l : list Z) : Forall well_routed ((fun id => EStopped id force) <$> l).
Proof. now apply Forall_fmap, Forall_true. Qed.

Lemma stop_actor_system_extends force e e' :
  stop_actor_system promise_set_exception force e = Ok e' -> extends e e'.
Proof.
  unfold stop_actor_system. destruct (negb _); intros H; [simplify_eq; now apply extends_same|]. res_inv.
  assert (H1 : extends e (stop_children force (with_pm x (with_status (if force then FORCE_STOPPING else PEACE_STOPPING) e)))).
  { eapply extends_trans; [apply extends_emit; [reflexivity|apply stopped_routed]|now apply extends_same]. }
  destruct (_ =? 0); [|done]. now apply extends_emit1.
Qed.

Lemma receive_root_extends m e e' :
  receive_root promise_set_value promise_set_exception m e = Ok e' -> extends e e'.
Proof.
  unfold receive_root. intros H.
  destruct (_ =? RESPONSE); [|destruct (_ =? EXCEPTION_RESPONSE); [|destruct (_ =? PEACE_STOP); [|destruct (_ =? FORCE_STOP); [|done]]]].
  - res_inv. destruct x; res_inv; [now apply extends_same|apply extends_emit1; [now apply extends_same|done]].
  - res_inv. destruct x; [destruct (e_data m); try done|]; res_inv; (apply extends_emit1; [now apply extends_same|done]).
  - res_inv. apply extends_emit1; [|done]. eapply stop_actor_system_extends. eassumption.
  - res_inv. apply extends_emit1; [|done]. eapply stop_actor_system_extends. eassumption.
Qed.

Lemma send_with_extends (r : emsg -> engine -> res engine) m e e' :
  (forall m e e', r m e = Ok e' -> extends e e') -> send_with this_gsid is_local r m e = Ok e' -> extends e e'.
Proof.
  intros Hr. unfold send_with. intros H. apply bind_ok in H as (g & Hg & H).
  destruct (Z.eqb_spec g this_gsid) as [E|E]; cbn [negb] in H; [eauto|]. simplify_eq.
  apply extends_emit1; [now apply extends_same|]. destruct (is_local g) eqn:El; cbn; eauto.
Qed.

Lemma stopped_actor_enqueue_extends (r : emsg -> engine -> res engine) m e e' :
  (forall m e e', r m e = Ok e' -> extends e e') ->
  stopped_actor_enqueue this_gsid is_local canceled_text r m e = Ok e' -> extends e e'.
Proof.
  intros Hr. unfold stopped_actor_enqueue. intros H. apply bind_ok in H as (e1 & H1 & H). simplify_eq.
  apply extends_emit1; [|done]. destruct (_ =? 0); [simplify_eq; now apply extends_same|].
  apply bind_ok in H1 as (h & _ & H1). eapply send_with_extends; eassumption.
Qed.

Lemma create_child_extends id m e e' : create_child id m e = Ok e' -> extends e e'.
Proof.
  unfold create_child. intros H. apply bind_ok in H as (ty & _ & H). cbv zeta in H.
  destruct (sem_wait _ id) as [s av]. set (e1 := with_sem s _) in H.
  assert (H1 : extends e e1) by (apply (extends_trans _ (emit [ECreated id ty] (with_alive ({[id]} ∪ alive e) e)));
    [apply extends_emit; [done|now apply Forall_singleton]|now apply extends_same]).
  destruct av; simplify_eq; [|done]. now apply extends_emit1.
Qed.

Lemma receive_fuel_extends n : forall m e e',
  receive_fuel promise_set_value promise_set_exception this_gsid is_local disabled_below canceled_text n m e = Ok e' -> extends e e'.
Proof.
  induction n as [|n IH]; intros m e e' H; cbn [receive_fuel] in H; [done|]. unfold receive_step in H.
  destruct (_ =? _); [eapply receive_root_extends; eassumption|]. apply bind_ok in H as (id & _ & H).
  destruct (inst_map e !! id) as [[]|].
  - destruct (_ || _); [simplify_eq; apply extends_emit1; [now apply extends_same|done]|].
    eapply stopped_actor_enqueue_extends; eassumption.
  - eapply stopped_actor_enqueue_extends; eassumption.
  - destruct (negb _); [eapply stopped_actor_enqueue_extends; eassumption|]. apply bind_ok in H as (e1 & H1 & H). simplify_eq.
    apply extends_emit1; [|done]. eapply create_child_extends. eassumption.
Qed.

Abbreviation send := (send promise_set_value promise_set_exception this_gsid is_local disabled_below canceled_text).

Lemma receive_extends m e e' :
  receive promise_set_value promise_set_exception this_gsid is_local disabled_below canceled_text m e = Ok e' -> extends e e'.
Proof. apply receive_fuel_extends. Qed.
Lemma send_extends m e e' : send m e = Ok e' -> extends e e'.
Proof. apply send_with_extends. exact receive_extends. Qed.

Lemma broadcast_extends k : forall sid a t e e',
  broadcast promise_set_value promise_set_exception this_gsid is_local disabled_below canceled_text k sid a t e = Ok e' -> extends e e'.
Proof.
  induction k as [|k IH]; intros sid a t e e' H; cbn [broadcast] in H; [simplify_eq; now apply extends_same|].
  apply bind_ok in H as (dst & _ & H). apply bind_ok in H as (e1 & H1 & H).
  eapply extends_trans; [eapply send_extends, H1|eauto].
Qed.

Lemma cancel_requests_extends k : forall sid a t e ids e',
  cancel_requests new_promise promise_set_value promise_set_exception this_gsid is_local disabled_below canceled_text k sid a t e = Ok (ids, e') -> extends e e'.
Proof.
  induction k as [|k IH]; intros sid a t e ids e' H; cbn [cancel_requests] in H; [simplify_eq; now apply extends_same|].
  apply bind_ok in H as (dst & _ & H). apply bind_ok in H as ([id pm] & _ & H). apply bind_ok in H as (e1 & H1 & H).
  apply bind_ok in H as ([ids2 e2] & H2 & H). simplify_eq.
  eapply extends_trans; [|eapply IH, H2]. eapply (extends_trans _ (with_pm pm e)); [now apply extends_same|]. eapply send_extends, H1.
Qed.

(** ** Stop messages *)
Definition stop_msg (force : bool) (m : emsg) : Prop :=
  to_root m /\ Message.m_type (e_hdr m) = stop_type force /\ pr_id (e_hdr m) = 0.

Lemma stop_actor_system_total force (e : engine) :
  exists e', stop_actor_system promise_set_exception force e = Ok e' /\ running e' = false.
Proof.
  unfold stop_actor_system. destruct (running e) eqn:Er; cbn [negb]; [|eauto].
  destruct (cancel_loop_total promise_set_exception TaskCanceled (length (pr_array (response_pr_manager e))) 0 (response_pr_manager e)) as [pm E]; [done|].
  change (response_pr_manager (with_status _ e)) with (response_pr_manager e). unfold cancel_uncompleted. rewrite E. cbn [mbind res_bind].
  eexists. split; [reflexivity|]. destruct force, (_ =? 0); done.
Qed.

Lemma receive_stop_msg force m (e : engine) : stop_msg force m ->
  exists e', receive promise_set_value promise_set_exception this_gsid is_local disabled_below canceled_text m e = Ok e' /\
    running e' = false /\ sent (trace e') = sent (trace e).
Proof.
  intros (Hr & Ht & Hp). destruct (stop_actor_system_total force e) as (e1 & E & H1).
  assert (Hrec : receive promise_set_value promise_set_exception this_gsid is_local disabled_below canceled_text m e = Ok (emit [EDeleted m] e1)).
  { unfold Engine.receive. rewrite receive_fuel_root by done. unfold receive_root. rewrite Ht. destruct force; cbn; now rewrite E. }
  eexists. split; [exact Hrec|]. split; [done|]. eapply receive_sent; [exact Hp|exact Hrec].
Qed.

(** A broadcast of stop messages succeeds, and stops this shard when it is among those addressed. *)
Lemma broadcast_total force a k : forall s (e : engine),
  (exists sh, repr a sh []) -> 0 <= s -> s + Z.of_nat k <= 4294967296 ->
  exists e', broadcast promise_set_value promise_set_exception this_gsid is_local disabled_below canceled_text k s a (stop_type force) e = Ok e' /\
    (running e = false \/ s <= this_gsid < s + Z.of_nat k -> running e' = false).
Proof.
  induction k as [|k IH]; intros s e Ra H0 Hk; cbn [broadcast].
  - exists e. split; [done|]. intros [?|?]; [done|lia].
  - pose proof Ra as [sh Rsh]. destruct (repr_set_shard _ _ _ s Rsh) as (d & Ed & Rd). unfold on_shard. rewrite Ed. cbn [mbind res_bind].
    set (m := mk_emsg _ _).
    assert (Hsend : exists e1, send m e = Ok e1 /\
      (running e = false \/ s = this_gsid -> running e1 = false)).
    { unfold Engine.send, send_with. subst m. cbn [e_hdr addr]. rewrite (repr_get_shard _ _ _ Rd). cbn [mbind res_bind].
      rewrite (u32_small s) by lia. destruct (Z.eqb_spec s this_gsid) as [Hs|Hs]; cbn [negb].
      - destruct (receive_stop_msg force (mk_emsg (mk_header (mk_address (addr_length a) d) 0 0 0 (stop_type force) false) NoData) e)
          as (e1 & E & H1 & _); [|eauto]. split; [|done]. exact (repr_length _ _ _ Rsh).
      - eexists. split; [reflexivity|]. intros [?|?]; [done|congruence]. }
    destruct Hsend as (e1 & -> & Hr1). cbn [mbind res_bind]. destruct k as [|k].
    + cbn [broadcast]. exists e1. split; [done|]. intros [?|?]; [auto|]. apply Hr1. right. lia.
    + rewrite u32_small by lia. destruct (IH (s + 1) e1 Ra ltac:(lia) ltac:(lia)) as (e2 & E2 & Hr2). exists e2.
      split; [done|]. intros [?|?]; apply Hr2; [auto|]. destruct (Z.eq_dec s this_gsid); [auto|right; lia].
Qed.

Lemma root_address : exists sh, repr (mk_address total_addr_length (addr_data address_zero)) sh [].
Proof.
  destruct (repr_shard_only (addr_data address_zero) 0 eq_refl) as (d & Hd & R0). apply memcpy_ok in Hd as [_ Hd].
  exists 0. replace (addr_data address_zero) with d by exact Hd. exact R0.
Qed.
End Outputs.

(** ** The machine *)
Section Machine.
Context {D Q P Sem R : Type} {SM : Semaphore Sem} {SQ : Spsc R (emsg (D := D) (Q := Q))}.
Abbreviation emsg := (emsg (D := D) (Q := Q)).
Abbreviation eout := (eout (D := D) (Q := Q)).
Abbreviation engine := (engine (D := D) (Q := Q) (P := P) (Sem := Sem)).
Variable new_promise : P.
Variable promise_set_value : P -> emsg -> P.
Variable promise_set_exception : P -> ex -> P.
Variable disabled_below : nat -> Z -> emsg -> bool.
Variable canceled_text : bytes.

(** The machine in its cluster: [n] shards of [num_shards], the first one [anchor]. *)
Variable n : nat.
Variable anchor num_shards : Z.
Definition info : machine_info := machine_info_set num_shards anchor (Z.of_nat n).
Definition gsid (sid : nat) : Z := anchor + Z.of_nat sid.

(** ** Calls of a shard's engine

    By actor clients ([Send], [Request], [CancelScope], [CancelScopeRequest], [Exit]), the poller and
    the receivers of connections ([Receive], [Send]), children ([StopChild], [Gone]) and
    the continuations of requests ([Continue], with the cast of a local payload to the caller's return type and the return type's
    [load_from]; the continuation of [cancel_scope_request] reads no payload). *)
Inductive call :=
  | Send (m : emsg)
  | Receive (m : emsg)
  | Request (a : address) (behv_tid : Z) (d : edata (D := D) (Q := Q)) (t : Z)
  | CancelScope (scope : ScopeBuilder.t) (force : bool)
  | CancelScopeRequest (scope : ScopeBuilder.t) (force : bool)
  | Exit (force : bool)
  | StopChild (id : Z) (force : bool)
  | Gone (id : Z)
  | Continue (id : Z) (as_ret : edata (D := D) (Q := Q) -> option unit) (load : Q -> res unit) (send_failed : option ex) (result : ex + emsg).

Definition call_engine (sid : nat) (c : call) (e : engine) : res engine :=
  let local := is_local info in
  match c with
  | Send m => Engine.send promise_set_value promise_set_exception (gsid sid) local (disabled_below sid) canceled_text m e
  | Receive m => Engine.receive promise_set_value promise_set_exception (gsid sid) local (disabled_below sid) canceled_text m e
  | Request a b d t =>
      '(_, e) ← client_request new_promise promise_set_value promise_set_exception (gsid sid) local (disabled_below sid) canceled_text a b d t e;
      Ok e
  | CancelScope b force =>
      cancel_scope promise_set_value promise_set_exception (gsid sid) num_shards local (disabled_below sid) canceled_text b force e
  | CancelScopeRequest b force =>
      '(_, e) ← cancel_scope_request new_promise promise_set_value promise_set_exception (gsid sid) num_shards local (disabled_below sid) canceled_text b force e;
      Ok e
  | Exit force => Engine.exit promise_set_value promise_set_exception (gsid sid) num_shards local (disabled_below sid) canceled_text force e
  | StopChild id force =>
      Engine.step promise_set_value promise_set_exception (gsid sid) local (disabled_below sid) canceled_text (EvStopChild id force) e
  | Gone id => Engine.step promise_set_value promise_set_exception (gsid sid) local (disabled_below sid) canceled_text (EvGone id) e
  | Continue id as_ret load failed result => '(_, e) ← send_and_wait_done as_ret load id failed result e; Ok e
  end.

(** ** State and steps

    [network]: what went to the network channel, with the sending shard; [received]: what the
    pollers handed to the engines, with the receiver and the sender. *)
Record machine := mk_machine {
  engines : list engine;
  local : channel (R := R) (M := emsg);
  network : list (nat * emsg);
  received : list (nat * nat * emsg)
}.
Definition set_engines v M := mk_machine v (local M) (network M) (received M).
Definition set_local v M := mk_machine (engines M) v (network M) (received M).
Definition log (i j : nat) (m : emsg) M := mk_machine (engines M) (local M) (network M) (received M ++ [(i, j, m)]).

(** [local_channel::send] and [network_channel::send] of what a call emitted. *)
Fixpoint forward (sid : nat) (os : list eout) (M : machine) : res machine :=
  match os with
  | [] => Ok M
  | ESendLocal m :: os =>
      g ← get_shard_id (addr (e_hdr m));
      ch ← send_helper (local M) sid anchor g m;
      forward sid os (set_local ch M)
  | ESendNet m :: os => forward sid os (mk_machine (engines M) (local M) (network M ++ [(sid, m)]) (received M))
  | _ :: os => forward sid os M
  end.

Definition invoke (sid : nat) (c : call) (M : machine) : res machine :=
  e ← of_option OutOfBounds (engines M !! sid);
  e' ← call_engine sid c e;
  forward sid (drop (length (trace e)) (trace e')) (set_engines (<[sid := e']> (engines M)) M).

(** The messages [process_incoming] popped, one after the other. *)
Fixpoint receive_all (sid i : nat) (ms : list emsg) (M : machine) : res machine :=
  match ms with
  | [] => Ok M
  | m :: ms => M ← invoke sid (Receive m) (log sid i m M); receive_all sid i ms M
  end.

Fixpoint poll_shards (shards : list nat) (sid : nat) (got : Z) (M : machine) : res (Z * machine) :=
  match shards with
  | [] => Ok (got, M)
  | i :: shards =>
      if decide (sid <> i) then
        rxq ← at_ (local M) sid i;
        '(ms, nr, rxq) ← process_incoming rxq;
        M ← receive_all sid i ms (set_local (upd (local M) sid i rxq) M);
        txq ← at_ (local M) i sid;
        '(_, txq) ← flush_request_batch txq;
        poll_shards shards sid (u64 (got + nr)) (set_local (upd (local M) i sid txq) M)
      else poll_shards shards sid got M
  end.
Definition poll (sid : nat) (M : machine) : res (bool * machine) :=
  '(got, M) ← poll_shards (seq 0 (count (local M))) sid 0 M; Ok (negb (got =? 0), M).

Inductive event := Invoke (sid : nat) (c : call) | Poll (sid : nat).
Definition step (M : machine) (ev : event) : res machine :=
  match ev with
  | Invoke sid c => invoke sid c M
  | Poll sid => '(_, M) ← poll sid M; Ok M
  end.
Fixpoint run (M : machine) (evs : list event) : res machine :=
  match evs with
  | [] => Ok M
  | ev :: evs => M ← step M ev; run M evs
  end.

(** A machine after [actor_smp::configure]: its queues are created and started. *)
Definition configured (pms : list (pr_manager (P := P))) : res machine :=
  ch ← start_shards (seq 0 n) (create_qs n);
  Ok (mk_machine (engine_new <$> pms) ch [] []).

(** ** Messages are conserved *)
Definition addressed_to (g : Z) (m : emsg) : bool :=
  match get_shard_id (addr (e_hdr m)) with Ok g' => g' =? g | Fault _ => false end.
Definition sent_to (i : nat) (os : list eout) : list emsg :=
  omap (fun o => match o with ESendLocal m => if addressed_to (gsid i) m then Some m else None | _ => None end) os.
Definition sent_out (os : list eout) : list emsg :=
  omap (fun o => match o with ESendNet m => Some m | _ => None end) os.
Definition got (i j : nat) (M : machine) : list emsg :=
  omap (fun p => if decide (p.1 = (i, j)) then Some p.2 else None) (received M).
Definition went_out (j : nat) (M : machine) : list emsg :=
  omap (fun p => if decide (p.1 = j) then Some p.2 else None) (network M).

(** In between, [rx i j] was popped from the queue from [j] to [i] and not received yet, and
    [tx j] was emitted by shard [j] and not forwarded yet. *)
Record conserved (rx : nat -> nat -> list emsg) (tx : nat -> list eout) (M : machine) : Prop := {
  c_engines : length (engines M) = n;
  c_chan : chan_ok (local M);
  c_count : count (local M) = n;
  c_local : forall i j e, (i < n)%nat -> i <> j -> engines M !! j = Some e ->
    sent_to i (trace e) = got i j M ++ rx i j ++ contents (_qs (local M) i j) ++ sent_to i (tx j);
  c_out : forall j e, engines M !! j = Some e -> sent_out (trace e) = went_out j M ++ sent_out (tx j)
}.
Definition one2 (i j : nat) (l : list emsg) : nat -> nat -> list emsg := fun i' j' => if decide ((i', j') = (i, j)) then l else [].
Definition one (j : nat) (l : list eout) : nat -> list eout := fun j' => if decide (j' = j) then l else [].
Definition quiet : machine -> Prop := conserved (fun _ _ => []) (fun _ => []).

Lemma sent_to_app i a b : sent_to i (a ++ b) = sent_to i a ++ sent_to i b.
Proof. apply omap_app. Qed.
Lemma sent_out_app a b : sent_out (a ++ b) = sent_out a ++ sent_out b.
Proof. apply omap_app. Qed.
Lemma conserved_ext rx rx' tx tx' M :
  (forall i j, rx i j = rx' i j) -> (forall j, tx j = tx' j) -> conserved rx tx M -> conserved rx' tx' M.
Proof. intros H1 H2 [A B C E F]. split; try done; intros; rewrite <-?H1, <-?H2; auto. Qed.

Context (Hanchor : 0 <= anchor) (Hshards : anchor + Z.of_nat n <= 4294967296).

Lemma info_local sid g : (sid < n)%nat -> is_local info g = true <-> exists t, (t < n)%nat /\ g = gsid t.
Proof using Hanchor Hshards.
  intros Hs. unfold is_local, info, machine_info_set, gsid. cbn [_min_sid _max_sid]. rewrite u32_small by lia.
  rewrite andb_true_iff, !Z.leb_le. split; [|intros (t & Ht & ->); lia].
  intros Hg. exists (Z.to_nat (g - anchor)). lia.
Qed.

Lemma send_helper_ok ch sid t m :
  chan_ok ch -> count ch = n -> (sid < n)%nat -> (t < n)%nat -> t <> sid ->
  exists q, send_helper ch sid anchor (gsid t) m = Ok (upd ch t sid q) /\ chan_ok (upd ch t sid q) /\
    contents q = contents (_qs ch t sid) ++ [m].
Proof using Hanchor Hshards.
  intros Hok Hc Hs Ht Hne. unfold send_helper, gsid. replace (anchor + Z.of_nat t - anchor) with (Z.of_nat t) by lia.
  rewrite u32_small, Nat2Z.id by lia. rewrite at_ok by lia. cbn [mbind res_bind].
  destruct (queue_send_ok (_qs ch t sid) m) as (nr & q & E & Hq & Hcq); [split; apply Hok; lia|].
  rewrite E. cbn [mbind res_bind]. exists q. split; [done|]. split; [now apply chan_ok_upd|done].
Qed.

Lemma gsid_inj i j : gsid i = gsid j -> i = j.
Proof using Hanchor Hshards. unfold gsid. lia. Qed.

Lemma addressed_gsid m t i : get_shard_id (addr (e_hdr m)) = Ok (gsid t) -> addressed_to (gsid i) m = (t =? i)%nat.
Proof using Hanchor Hshards.
  intros E. unfold addressed_to. rewrite E. destruct (Nat.eqb_spec t i) as [->|H]; [apply Z.eqb_refl|].
  apply Z.eqb_neq. intros He. now apply gsid_inj in He.
Qed.

Lemma sent_to_local i m os :
  sent_to i (ESendLocal m :: os) = (if addressed_to (gsid i) m then [m] else []) ++ sent_to i os.
Proof using. unfold sent_to. cbn. now destruct (addressed_to _ _). Qed.

(** The first output pending is dealt with. *)
Lemma conserved_forward rx sid o os M M' :
  conserved rx (one sid (o :: os)) M -> engines M' = engines M -> received M' = received M ->
  chan_ok (local M') -> count (local M') = n ->
  (forall i j, i <> j -> contents (_qs (local M') i j) = contents (_qs (local M) i j) ++ (if decide (j = sid) then sent_to i [o] else [])) ->
  (forall j, went_out j M' = went_out j M ++ (if decide (j = sid) then sent_out [o] else [])) ->
  conserved rx (one sid os) M'.
Proof using.
  intros [He Hch Hcnt Hl Hout] E1 E2 H1 H2 H3 H4. split; rewrite ?E1; try done.
  - intros i j e Hi Hij Hj. rewrite (Hl i j e Hi Hij Hj). unfold got. rewrite E2, H3 by done. unfold one.
    case_decide; [|now rewrite (app_nil_r (contents _))]. change (o :: os) with ([o] ++ os). now rewrite sent_to_app, !app_assoc.
  - intros j e Hj. rewrite (Hout j e Hj), H4. unfold one.
    case_decide; [|now rewrite <-app_assoc]. change (o :: os) with ([o] ++ os). now rewrite sent_out_app, !app_assoc.
Qed.

(** The messages a call emitted are forwarded to queues that are there and started. *)
Lemma forward_ok rx sid os : forall M,
  (sid < n)%nat -> Forall (well_routed (gsid sid) (is_local info)) os -> conserved rx (one sid os) M ->
  exists M', forward sid os M = Ok M' /\ conserved rx (fun _ => []) M' /\ engines M' = engines M /\ received M' = received M /\
    forall j, _qs (local M') sid j = _qs (local M) sid j.
Proof using Hanchor Hshards.
  induction os as [|o os IH]; intros M Hs Hw Hc.
  - exists M. split; [done|]. split; [|done]. eapply conserved_ext; [..|exact Hc]; [done|]. intros j. unfold one. now case_decide.
  - apply Forall_cons in Hw as [Ho Hw]. pose proof Hc as [_ Hch Hcnt _ _].
    assert (Hnext : forall M', conserved rx (one sid os) M' -> engines M' = engines M -> received M' = received M ->
      (forall j, _qs (local M') sid j = _qs (local M) sid j) ->
      exists M2, forward sid os M' = Ok M2 /\ conserved rx (fun _ => []) M2 /\ engines M2 = engines M /\ received M2 = received M /\
        forall j, _qs (local M2) sid j = _qs (local M) sid j).
    { intros M' Hc' E1 E2 E3. destruct (IH M' Hs Hw Hc') as (M2 & E & H1 & H2 & H3 & H4). exists M2.
      rewrite H2, H3, E1, E2. repeat (split; [done|]). intros j. now rewrite H4. }
    destruct o as [| | | |m|m| |]; cbn [forward];
      try (apply Hnext; [|done..]; apply (conserved_forward rx sid _ os M M Hc); try done; intros; case_decide; now rewrite app_nil_r).
    + destruct Ho as (g & Eg & Hne & Hloc). apply (info_local sid g Hs) in Hloc as (t & Ht & ->). rewrite Eg. cbn [mbind res_bind].
      assert (Hts : t <> sid) by congruence.
      destruct (send_helper_ok (local M) sid t m Hch Hcnt Hs Ht Hts) as (q & -> & Hok & Hq). cbn [mbind res_bind].
      apply Hnext; [|done..|intros j; cbn [local set_local]; apply upd_ne; congruence].
      apply (conserved_forward rx sid _ os M _ Hc); try done.
      * intros i j Hij. cbn [local set_local]. rewrite sent_to_local, (addressed_gsid m t i Eg).
        destruct (decide (j = sid)) as [->|Hj]; [|rewrite app_nil_r, upd_ne by congruence; done].
        destruct (Nat.eqb_spec t i) as [->|Hti]; [now rewrite upd_eq, Hq|]. rewrite upd_ne by congruence. cbn. now rewrite app_nil_r.
      * intros j. case_decide; now rewrite app_nil_r.
    + apply Hnext; [|done..]. apply (conserved_forward rx sid _ os M _ Hc); try done.
      * intros i j _. case_decide; now rewrite app_nil_r.
      * intros j. unfold went_out. cbn [network]. rewrite omap_app. f_equal. cbn. destruct (decide (sid = j)), (decide (j = sid)); congruence || done.
Qed.

Lemma call_extends sid c e e' : call_engine sid c e = Ok e' -> extends (gsid sid) (is_local info) e e'.
Proof using.
  destruct c; cbn [call_engine]; intros H.
  - eapply send_extends. eassumption.
  - eapply receive_extends. eassumption.
  - apply bind_ok in H as ([id e1] & H & H1). simplify_eq. unfold client_request in H. apply bind_ok in H as ([id' pm] & _ & H).
    apply bind_ok in H as (e1 & H & E). simplify_eq. eapply extends_trans; [|eapply send_extends, H]. now apply extends_same.
  - eapply broadcast_extends. eassumption.
  - apply bind_ok in H as ([ids e1] & H & H1). simplify_eq. eapply cancel_requests_extends. eassumption.
  - eapply broadcast_extends. eassumption.
  - cbn [Engine.step] in H. case_bool_decide; [|simplify_eq; now apply extends_same]. unfold stop_child_actor in H.
    apply bind_ok in H as (b & _ & H). simplify_eq. destruct b; [|now apply extends_same]. 
    eapply extends_trans; [apply (extends_emit _ _ [EStopped id force] e); [done|now apply Forall_singleton]|now apply extends_same].
  - cbn [Engine.step] in H. destruct (_ && _); simplify_eq; [|now apply extends_same]. unfold notify_child_stopped. cbv zeta.
    destruct (sem_signal _) as [s woken] eqn:Es. clear Es. eapply extends_trans; [|apply extends_emit; [|apply scheduled_routed]]; [|reflexivity].
    destruct (_ && _); [apply extends_emit; [done|now apply Forall_singleton]|now apply extends_same].
  - apply bind_ok in H as ([r e1] & H & H1). simplify_eq. unfold send_and_wait_done in H. apply bind_ok in H as (pm & _ & H). cbv zeta in H.
    assert (Hpm : extends (gsid sid) (is_local info) e (with_pm pm e)) by now apply extends_same.
    destruct send_failed; [now simplify_eq|]. destruct result as [x|m]; [now simplify_eq|].
    destruct (negb _); [|destruct (e_data m); try done]; apply bind_ok in H as (v & _ & H); simplify_eq; now apply extends_emit1.
Qed.

Lemma drop_app_outputs {A} (l os : list A) : drop (length l) (l ++ os) = os.
Proof using. rewrite drop_app_length. done. Qed.

(** A call of an engine, once the engine has done its part. *)
Lemma invoke_ok rx sid c M e e' :
  (sid < n)%nat -> conserved rx (fun _ => []) M -> engines M !! sid = Some e -> call_engine sid c e = Ok e' ->
  exists M', invoke sid c M = Ok M' /\ conserved rx (fun _ => []) M' /\ engines M' = <[sid := e']> (engines M) /\
    received M' = received M /\ forall j, _qs (local M') sid j = _qs (local M) sid j.
Proof using Hanchor Hshards.
  intros Hs [He Hch Hcnt Hl Hout] Hsid Ec. destruct (call_extends sid c e e' Ec) as (os & Et & Hw).
  unfold invoke. rewrite Hsid. cbn [of_option mbind res_bind]. rewrite Ec. cbn [mbind res_bind]. rewrite Et, drop_app_outputs.
  apply (forward_ok rx sid os (set_engines (<[sid := e']> (engines M)) M)); [done..|].
  split; cbn [engines local set_engines]; try done; [now rewrite length_insert|..].
  - intros i j ej Hi Hij Hj. destruct (decide (j = sid)) as [->|Hne].
    + rewrite list_lookup_insert_eq in Hj by lia. injection Hj as <-. rewrite Et, sent_to_app, (Hl i sid e Hi Hij Hsid).
      unfold one, got. rewrite decide_True by done. cbn [sent_to omap list_omap received set_engines]. now rewrite app_nil_r, <-!app_assoc.
    + rewrite list_lookup_insert_ne in Hj by done. rewrite (Hl i j ej Hi Hij Hj). unfold one. now rewrite decide_False.
  - intros j ej Hj. destruct (decide (j = sid)) as [->|Hne].
    + rewrite list_lookup_insert_eq in Hj by lia. injection Hj as <-. rewrite Et, sent_out_app, (Hout sid e Hsid).
      unfold one, went_out. rewrite decide_True by done. cbn [sent_out omap list_omap network set_engines]. now rewrite app_nil_r.
    + rewrite list_lookup_insert_ne in Hj by done. rewrite (Hout j ej Hj). unfold one. now rewrite decide_False.
Qed.

Lemma engine_there rx tx sid M : (sid < n)%nat -> conserved rx tx M -> exists e, engines M !! sid = Some e.
Proof using. intros Hs Hc. apply lookup_lt_is_Some_2. rewrite (c_engines _ _ _ Hc). exact Hs. Qed.

Lemma conserved_log sid i m ms tx M :
  conserved (one2 sid i (m :: ms)) tx M -> conserved (one2 sid i ms) tx (log sid i m M).
Proof using.
  intros [He Hch Hcnt Hl Hout]. split; try done. intros k j e Hk Hkj Hj. rewrite (Hl k j e Hk Hkj Hj).
  unfold got, one2. cbn [received log local]. rewrite omap_app. cbn [omap list_omap fst snd].
  destruct (decide ((k, j) = (sid, i))) as [E|E].
  - rewrite (decide_True (P := (sid, i) = (k, j))) by congruence. now rewrite <-!app_assoc.
  - rewrite (decide_False (P := (sid, i) = (k, j))) by congruence. now rewrite app_nil_r.
Qed.

(** The messages popped from the queue from [i] go to the engine; it can fail, the channels cannot. *)
Lemma receive_all_ok sid i ms : forall M,
  (sid < n)%nat -> conserved (one2 sid i ms) (fun _ => []) M ->
  (exists M', receive_all sid i ms M = Ok M' /\ quiet M' /\ forall j, _qs (local M') sid j = _qs (local M) sid j) \/
  (exists f m e, receive_all sid i ms M = Fault f /\ m ∈ ms /\ call_engine sid (Receive m) e = Fault f).
Proof using Hanchor Hshards.
  induction ms as [|m ms IH]; intros M Hs Hc; cbn [receive_all].
  - left. exists M. split; [done|]. split; [|done]. eapply conserved_ext; [..|exact Hc]; [|done]. intros k j. unfold one2. now case_decide.
  - apply conserved_log in Hc. destruct (engine_there _ _ sid _ Hs Hc) as [e He].
    destruct (call_engine sid (Receive m) e) as [e'|f] eqn:Ec.
    + destruct (invoke_ok _ sid (Receive m) _ e e' Hs Hc He Ec) as (M1 & E1 & Hc1 & _ & _ & Hq1). rewrite E1. cbn [mbind res_bind].
      destruct (IH M1 Hs Hc1) as [(M2 & E2 & Hc2 & Hq2)|(f & m' & e2 & E2 & Hm & Hf)].
      * left. exists M2. split; [done|]. split; [done|]. intros j. now rewrite Hq2, Hq1.
      * right. exists f, m', e2. split; [done|]. split; [now right|done].
    + right. exists f, m, e. unfold invoke. rewrite He. cbn [of_option mbind res_bind]. rewrite Ec. split; [done|]. split; [left|done].
Qed.

Lemma conserved_pop sid i M rxq :
  (sid < n)%nat -> (i < n)%nat -> sid <> i -> quiet M -> queue_ok rxq ->
  contents rxq = default [] (pending_fifo (_qs (local M) sid i)) ->
  conserved (one2 sid i (ring (_pending (_qs (local M) sid i)))) (fun _ => []) (set_local (upd (local M) sid i rxq) M).
Proof using.
  intros Hs Hi Hne [He Hch Hcnt Hl Hout] Hq Hc. split; cbn [engines local set_local]; try done; [now apply chan_ok_upd|].
  intros k j e Hk Hkj Hj. rewrite (Hl k j e Hk Hkj Hj). unfold one2. destruct (decide ((k, j) = (sid, i))) as [E|E].
  - injection E as -> ->. rewrite upd_eq, Hc. unfold contents. cbn. now rewrite !app_nil_r.
  - now rewrite upd_ne.
Qed.

Lemma conserved_flush sid i M txq :
  (sid < n)%nat -> (i < n)%nat -> sid <> i -> quiet M -> queue_ok txq ->
  contents txq = contents (_qs (local M) i sid) -> quiet (set_local (upd (local M) i sid txq) M).
Proof using.
  intros Hs Hi Hne [He Hch Hcnt Hl Hout] Hq Hc. split; cbn [engines local set_local]; try done; [now apply chan_ok_upd|].
  intros k j e Hk Hkj Hj. rewrite (Hl k j e Hk Hkj Hj). destruct (decide ((k, j) = (i, sid))) as [E|E].
  - injection E as -> ->. now rewrite upd_eq, Hc.
  - now rewrite upd_ne.
Qed.

(** What fails in a poll is the engine, on a message that was in the ring buffer of a queue to it. *)
Definition poll_fails (sid : nat) (M : machine) (f : fault) : Prop :=
  exists j m e, m ∈ ring (_pending (_qs (local M) sid j)) /\ call_engine sid (Receive m) e = Fault f.

Lemma poll_shards_ok sid shards : forall g M,
  (sid < n)%nat -> Forall (fun i => (i < n)%nat) shards -> NoDup shards -> quiet M ->
  (exists g' M', poll_shards shards sid g M = Ok (g', M') /\ quiet M') \/
  (exists f j m e, poll_shards shards sid g M = Fault f /\ j ∈ shards /\ m ∈ ring (_pending (_qs (local M) sid j)) /\ call_engine sid (Receive m) e = Fault f).
Proof using Hanchor Hshards.
  induction shards as [|i shards IH]; intros g M Hs Hin Hnd Hq; cbn [poll_shards]; [left; eauto|].
  apply Forall_cons in Hin as [Hi Hin]. apply NoDup_cons in Hnd as [Hni Hnd].
  destruct (decide (sid <> i)) as [Hne|Heq].
  - pose proof Hq as [_ Hch Hcnt _ _]. rewrite at_ok by lia. cbn [mbind res_bind].
    destruct (process_incoming_ok (_qs (local M) sid i)) as (nr & rxq & E & Hqr & _ & Hcr); [split; apply Hch; lia|].
    rewrite E. cbn [mbind res_bind].
    destruct (receive_all_ok sid i (ring (_pending (_qs (local M) sid i))) (set_local (upd (local M) sid i rxq) M) Hs)
      as [(M1 & E1 & Hq1 & Hrow)|(f & m & e & E1 & Hm & Hf)]; [now apply conserved_pop|rewrite E1; cbn [mbind res_bind]..].
    + pose proof Hq1 as [_ Hch1 Hcnt1 _ _]. rewrite at_ok by lia. cbn [mbind res_bind].
      destruct (flush_ok (_qs (local M1) i sid)) as (nt & txq & E2 & Hqt & Hct & _); [split; apply Hch1; lia|].
      rewrite E2. cbn [mbind res_bind].
      destruct (IH (u64 (g + nr)) (set_local (upd (local M1) i sid txq) M1) Hs Hin Hnd) as [H|(f & j & m & e & E3 & Hj & Hm & Hf)];
        [now apply conserved_flush|now left|]. right. exists f, j, m, e. split; [done|]. split; [now right|]. split; [|done].
      revert Hm. cbn [local set_local]. rewrite upd_ne by congruence. rewrite Hrow. cbn [local set_local]. rewrite upd_ne; [done|].
      intros [= ->]. done.
    + right. exists f, i, m, e. split; [done|]. split; [left|done].
  - destruct (IH g M Hs Hin Hnd Hq) as [H|(f & j & m & e & E3 & Hj & H)]; [now left|]. right. exists f, j, m, e.
    split; [done|]. split; [now right|done].
Qed.

(** What a shard gives to the network channel is appended to the log, under its id. *)
Definition logs (sid : nat) (M M' : machine) : Prop := exists out, network M' = network M ++ out /\ Forall (fun p => fst p = sid) out.

Lemma logs_same sid M M' : network M' = network M -> logs sid M M'.
Proof using. intros E. exists []. now rewrite app_nil_r. Qed.
Lemma logs_trans sid M1 M2 M3 : logs sid M1 M2 -> logs sid M2 M3 -> logs sid M1 M3.
Proof using. intros (a & E1 & H1) (b & E2 & H2). exists (a ++ b). rewrite E2, E1, <-app_assoc. split; [done|]. now apply Forall_app. Qed.

Lemma forward_logs sid os : forall M M', forward sid os M = Ok M' -> logs sid M M'.
Proof using.
  induction os as [|o os IH]; intros M M' H; cbn [forward] in H; [simplify_eq; now apply logs_same|].
  destruct o; try (now apply IH).
  - res_inv. eapply logs_trans; [|eapply IH, H]. now apply logs_same.
  - eapply logs_trans; [|eapply IH, H]. exists [(sid, m)]. split; [done|]. now constructor.
Qed.
Lemma invoke_logs sid c M M' : invoke sid c M = Ok M' -> logs sid M M'.
Proof using. unfold invoke. intros H. res_inv. apply forward_logs in H. exact H. Qed.
Lemma receive_all_logs sid i ms : forall M M', receive_all sid i ms M = Ok M' -> logs sid M M'.
Proof using.
  induction ms as [|m ms IH]; intros M M' H; cbn [receive_all] in H; [simplify_eq; now apply logs_same|]. res_inv.
  eapply logs_trans; [|eapply IH, H]. now apply (invoke_logs sid (Receive m) (log sid i m M)).
Qed.
Lemma poll_shards_logs sid shards : forall g M g' M', poll_shards shards sid g M = Ok (g', M') -> logs sid M M'.
Proof using.
  induction shards as [|i shards IH]; intros g M g' M' H; cbn [poll_shards] in H; [simplify_eq; now apply logs_same|].
  case_decide; [|now apply IH in H]. apply bind_ok in H as (rxq & _ & H). apply bind_ok in H as ([[ms nr] rxq'] & _ & H).
  apply bind_ok in H as (M1 & H1 & H). apply bind_ok in H as (txq & _ & H). apply bind_ok in H as ([? txq'] & _ & H).
  apply receive_all_logs in H1. apply IH in H. eapply logs_trans; [exact H1|exact H].
Qed.

Definition event_shard (ev : event) : nat := match ev with Invoke sid _ | Poll sid => sid end.
Lemma step_logs M ev M' : step M ev = Ok M' -> logs (event_shard ev) M M'.
Proof using.
  destruct ev as [sid c|sid]; cbn [step event_shard]; intros H; [now apply invoke_logs in H|].
  apply bind_ok in H as ([b M1] & H & [= <-]). unfold poll in H. apply bind_ok in H as ([g M2] & H & [= _ <-]). eapply poll_shards_logs. exact H.
Qed.
Definition engine_fails (M : machine) (ev : event) (f : fault) : Prop :=
  match ev with
  | Invoke sid c => exists e, engines M !! sid = Some e /\ call_engine sid c e = Fault f
  | Poll sid => poll_fails sid M f
  end.

Lemma poll_ok sid M : (sid < n)%nat -> quiet M ->
  (exists b M', poll sid M = Ok (b, M') /\ quiet M') \/ (exists f, poll sid M = Fault f /\ poll_fails sid M f).
Proof using Hanchor Hshards.
  intros Hs Hq. unfold poll. rewrite (c_count _ _ _ Hq).
  assert (Hin : Forall (fun i => (i < n)%nat) (seq 0 n)) by (apply Forall_forall; intros x Hx%elem_of_seq; lia).
  destruct (poll_shards_ok sid (seq 0 n) 0 M Hs Hin (NoDup_seq 0 n) Hq) as [(g & M' & E & Hq')|(f & j & m & e & E & _ & Hm & Hf)];
    rewrite E; cbn [mbind res_bind]; [left; eauto|]. right. exists f. split; [done|]. now exists j, m, e.
Qed.

Lemma step_ok M ev : (event_shard ev < n)%nat -> quiet M ->
  (exists M', step M ev = Ok M' /\ quiet M') \/ (exists f, step M ev = Fault f /\ engine_fails M ev f).
Proof using Hanchor Hshards.
  intros Hs Hq. destruct ev as [sid c|sid]; cbn [step event_shard engine_fails] in *.
  - destruct (engine_there _ _ sid M Hs Hq) as [e He]. destruct (call_engine sid c e) as [e'|f] eqn:Ec.
    + left. destruct (invoke_ok _ sid c M e e' Hs Hq He Ec) as (M' & E & Hq' & _). eauto.
    + right. exists f. unfold invoke. rewrite He. cbn [of_option mbind res_bind]. rewrite Ec. eauto.
  - destruct (poll_ok sid M Hs Hq) as [(b & M' & -> & Hq')|(f & -> & Hf)]; cbn [mbind res_bind]; [left|right]; eauto.
Qed.

Lemma run_ok evs : forall M, Forall (fun ev => (event_shard ev < n)%nat) evs -> quiet M ->
  (exists M', run M evs = Ok M' /\ quiet M') \/
  (exists f pre ev post M1, run M evs = Fault f /\ evs = pre ++ ev :: post /\ run M pre = Ok M1 /\ engine_fails M1 ev f).
Proof using Hanchor Hshards.
  induction evs as [|ev evs IH]; intros M Hev Hq; cbn [run]; [left; eauto|]. apply Forall_cons in Hev as [He Hev].
  destruct (step_ok M ev He Hq) as [(M1 & E1 & Hq1)|(f & E1 & Hf)]; rewrite E1; cbn [mbind res_bind].
  - destruct (IH M1 Hev Hq1) as [H|(f & pre & ev' & post & M2 & E2 & -> & Hr & Hf)]; [now left|]. right.
    exists f, (ev :: pre), ev', post, M2. cbn [run]. rewrite E1. done.
  - right. exists f, [], ev, evs, M. done.
Qed.

Lemma configured_ok pms : length pms = n ->
  exists M, configured pms = Ok M /\ quiet M /\ engines M = engine_new <$> pms /\
    forall i j, (i < n)%nat -> contents (_qs (local M) i j) = [].
Proof using.
  intros Hl. unfold configured. destruct (channel_started n) as (ch & E & Hn & Hok).
  destruct (start_shards_spec (seq 0 n) (create_qs n)) as (ch' & E' & _ & Hq).
  { apply Forall_forall. intros x Hx%elem_of_seq. cbn. lia. }
  rewrite E in E'. injection E' as <-. rewrite E. cbn [mbind res_bind]. eexists. split; [reflexivity|].
  assert (Hcont : forall i j, (i < n)%nat -> contents (_qs ch i j) = []).
  { intros i j Hi. rewrite Hq by done. case_decide; unfold contents; cbn; now rewrite ring_new_empty. }
  split; [|done]. split; cbn [engines local]; try done; [now rewrite length_fmap|..].
  - intros i j e Hi Hij Hj. rewrite list_lookup_fmap in Hj. destruct (pms !! j); [|done]. injection Hj as <-. now rewrite Hcont.
  - intros j e Hj. rewrite list_lookup_fmap in Hj. destruct (pms !! j); [|done]. now injection Hj as <-.
Qed.

(** C16: Whatever the clients, children and pollers of a machine's shards do, and in whatever
    order: what a shard's engine sent to another shard of the machine is, in the order in
    which it was sent, what that shard's engine received from it followed by what
    waits in the queue between them; what it sent to other machines went to the network channel
    in that order.  Nothing fails but an engine itself, in a call or on a message that waited for it. *)
Theorem machine_messages_conserved pms evs :
  length pms = n -> Forall (fun ev => (event_shard ev < n)%nat) evs ->
  exists M0, configured pms = Ok M0 /\
    match run M0 evs with
    | Ok M =>
        (forall i j e, (i < n)%nat -> i <> j -> engines M !! j = Some e ->
           sent_to i (trace e) = got i j M ++ contents (_qs (local M) i j)) /\
        (forall j e, engines M !! j = Some e -> sent_out (trace e) = went_out j M)
    | Fault f => exists pre ev post M1, evs = pre ++ ev :: post /\ run M0 pre = Ok M1 /\ engine_fails M1 ev f
    end.
Proof using Hanchor Hshards.
  intros Hl Hev. destruct (configured_ok pms Hl) as (M0 & E0 & Hq0 & _). exists M0. split; [done|].
  destruct (run_ok evs M0 Hev Hq0) as [(M & -> & [_ _ _ H1 H2])|(f & pre & ev & post & M1 & -> & -> & Hr & Hf)]; [|eauto 8].
  split.
  - intros i j e Hi Hij Hj. rewrite (H1 i j e Hi Hij Hj). cbn. now rewrite app_nil_r.
  - intros j e Hj. rewrite (H2 j e Hj). cbn. now rewrite app_nil_r.
Qed.

(** ** Polls whose messages are answered by nobody *)
Inductive silent (sid : nat) : list emsg -> engine -> engine -> Prop :=
  | silent_nil e : silent sid [] e e
  | silent_cons m ms e e1 e2 :
      call_engine sid (Receive m) e = Ok e1 -> sent (trace e1) = sent (trace e) -> silent sid ms e1 e2 -> silent sid (m :: ms) e e2.

Lemma silent_app sid a b : forall e e2, silent sid (a ++ b) e e2 -> exists e1, silent sid a e e1 /\ silent sid b e1 e2.
Proof using.
  induction a as [|m a IH]; intros e e2 H; cbn in H; [exists e; split; [constructor|done]|].
  inversion H as [|? ? ? e1 ? E1 E2 H1]; subst. destruct (IH _ _ H1) as (e3 & Ha & Hb). exists e3. split; [|done]. econstructor; eassumption.
Qed.

Lemma forward_silent sid os : forall M, sent os = [] -> forward sid os M = Ok M.
Proof using. induction os as [|o os IH]; intros M H; [done|]. destruct o; cbn [forward]; try (now apply IH); done. Qed.

Lemma receive_all_silent sid i ms : forall M e e',
  (sid < length (engines M))%nat -> engines M !! sid = Some e -> silent sid ms e e' ->
  exists M', receive_all sid i ms M = Ok M' /\ engines M' = <[sid := e']> (engines M) /\ local M' = local M.
Proof using.
  induction ms as [|m ms IH]; intros M e e' Hs He H; cbn [receive_all].
  - inversion H; subst. exists M. split; [done|]. split; [|done]. symmetry. now apply list_insert_id.
  - inversion H as [|? ? ? e1 ? E1 E2 H1]; subst. unfold invoke. cbn [engines log]. rewrite He. cbn [of_option mbind res_bind].
    rewrite E1. cbn [mbind res_bind]. destruct (call_extends sid _ _ _ E1) as (os & Et & _). rewrite Et, drop_app_outputs.
    rewrite Et, sent_app in E2. rewrite forward_silent by (apply (app_inv_head (sent (trace e))); now rewrite app_nil_r). cbn [mbind res_bind].
    destruct (IH (set_engines (<[sid := e1]> (engines M)) (log sid i m M)) e1 e') as (M' & -> & Ee & El); [cbn; now rewrite length_insert|
      cbn; now rewrite list_lookup_insert_eq|done|]. exists M'. split; [done|]. split; [|done]. rewrite Ee. cbn. now rewrite list_insert_insert_eq.
Qed.

Lemma poll_shards_silent sid shards : forall g rcvd M e e' g' ms ch',
  (sid < length (engines M))%nat -> engines M !! sid = Some e ->
  poll_loop shards sid (local M) g rcvd = Ok (g', rcvd ++ ms, ch') -> silent sid ms e e' ->
  exists M', poll_shards shards sid g M = Ok (g', M') /\ engines M' = <[sid := e']> (engines M) /\ local M' = ch'.
Proof using.
  induction shards as [|i shards IH]; intros g rcvd M e e' g' ms ch' Hs He Hp Hm; cbn [poll_loop poll_shards] in *.
  - injection Hp as <- Hr <-. rewrite <-(app_nil_r rcvd) in Hr at 1. apply app_inv_head in Hr as <-. inversion Hm; subst.
    exists M. split; [done|]. split; [|done]. symmetry. now apply list_insert_id.
  - case_decide as Hne; [|eauto]. apply bind_ok in Hp as (rxq & -> & Hp). cbn [mbind res_bind].
    apply bind_ok in Hp as ([[l nr] rxq'] & -> & Hp). cbn [mbind res_bind]. apply bind_ok in Hp as (txq & Ha & Hp).
    apply bind_ok in Hp as ([nt txq'] & Hf & Hp). destruct (poll_loop_prefix _ _ _ _ _ _ _ _ Hp) as [ms' El].
    rewrite <-app_assoc in El. apply app_inv_head in El as ->. apply silent_app in Hm as (e1 & Hm1 & Hm2).
    destruct (receive_all_silent sid i l (set_local (upd (local M) sid i rxq') M) e e1 Hs He Hm1) as (M1 & -> & Ee & El). cbn [mbind res_bind].
    rewrite El. cbn [local set_local]. rewrite Ha. cbn [mbind res_bind]. rewrite Hf. cbn [mbind res_bind].
    rewrite app_assoc in Hp. cbn [engines set_local] in Ee.
    destruct (IH (u64 (g + nr)) (rcvd ++ l) (set_local (upd (upd (local M) sid i rxq') i sid txq') M1) e1 e' g' ms' ch') as (M' & E & E1 & E2).
    + cbn. rewrite Ee. now rewrite length_insert.
    + cbn. rewrite Ee. now rewrite list_lookup_insert_eq.
    + exact Hp.
    + done.
    + exists M'. split; [done|]. split; [|done]. rewrite E1. cbn. rewrite Ee. now rewrite list_insert_insert_eq.
Qed.

(** Such a poll is the poll of the channel. *)
Lemma poll_silent sid M e e' :
  (sid < n)%nat -> length (engines M) = n -> chan_ok (local M) -> count (local M) = n -> engines M !! sid = Some e ->
  silent sid (arriving (local M) sid (seq 0 n)) e e' ->
  exists b M', poll sid M = Ok (b, M') /\ engines M' = <[sid := e']> (engines M) /\ chan_ok (local M') /\ count (local M') = n /\
    forall i j, polled sid (seq 0 n) (local M) (local M') i j.
Proof using Hanchor Hshards.
  intros Hs Hl Hok Hc He Hm. unfold poll. rewrite Hc.
  destruct (poll_loop_spec sid (seq 0 n) (local M) 0 [] Hok) as (ch' & E & H1 & H2 & H3).
  { lia. } { apply Forall_forall. intros x Hx%elem_of_seq. lia. } { apply NoDup_seq. }
  change (u64 0) with 0 in E. rewrite <-Hl in Hs.
  destruct (poll_shards_silent sid (seq 0 n) 0 [] M e e' _ _ ch' Hs He E Hm) as (M' & -> & Ee & El). cbn [mbind res_bind].
  do 2 eexists. split; [reflexivity|]. rewrite El. split; [done|]. split; [done|]. split; [congruence|done].
Qed.

(** ** Stopping the machine *)
Lemma receive_stop sid force m (e : engine) : stop_msg force m ->
  exists e', call_engine sid (Receive m) e = Ok e' /\ running e' = false /\ sent (trace e') = sent (trace e).
Proof using. intros Hm. exact (receive_stop_msg promise_set_value promise_set_exception (gsid sid) (is_local info) (disabled_below sid) canceled_text force m e Hm). Qed.

(** Among the messages of a broadcast there is one for each shard. *)
Lemma broadcast_one (P' : emsg -> Prop) (L : list Z) (rs : list emsg) t :
  Forall2 (fun s r => repr (addr (e_hdr r)) s [] /\ P' r) L rs -> NoDup L -> Forall (fun s => 0 <= s < 4294967296) L -> gsid t ∈ L ->
  exists r, filter (fun m => addressed_to (gsid t) m = true) rs = [r] /\ to_root r /\ P' r.
Proof using All.
  intros HF. induction HF as [|s r L rs [Hr Hp] HF IH]; intros Hnd Hb Hin; [now apply not_elem_of_nil in Hin|].
  apply NoDup_cons in Hnd as [Hni Hnd]. apply Forall_cons in Hb as [Hs Hb]. rewrite filter_cons.
  assert (Ha : addressed_to (gsid t) r = (s =? gsid t)).
  { unfold addressed_to. rewrite (repr_get_shard _ _ _ Hr). now rewrite u32_small. }
  rewrite Ha. destruct (Z.eqb_spec s (gsid t)) as [->|Hne].
  - rewrite decide_True by done. exists r. split; [|split; [exact (repr_length _ _ _ Hr)|done]]. f_equal.
    clear IH Hin. induction HF as [|s' r' L rs [Hr' _] HF IH]; [done|]. apply Forall_cons in Hb as [Hs' Hb].
    rewrite filter_cons_False; [apply IH|]; [set_solver|now apply NoDup_cons in Hnd as [_ ?]|done|].
    unfold addressed_to. rewrite (repr_get_shard _ _ _ Hr'), u32_small by done. rewrite Z.eqb_eq. set_solver.
  - rewrite decide_False by congruence. apply IH; [done..|]. apply elem_of_cons in Hin as [?|?]; [congruence|done].
Qed.

(** What goes to shard [t] of the machine is in the outputs for the local channel. *)
Lemma sent_to_filter sid t os :
  (t < n)%nat -> Forall (well_routed (gsid sid) (is_local info)) os ->
  sent_to t os = filter (fun m => addressed_to (gsid t) m = true) (sent os).
Proof using Hanchor Hshards.
  intros Ht. induction 1 as [|o os Ho _ IH]; [done|]. destruct o as [| | | |m|m| |]; cbn [sent omap list_omap]; try exact IH.
  - rewrite sent_to_local, filter_cons, IH. destruct (addressed_to (gsid t) m); [now rewrite decide_True|now rewrite decide_False].
  - destruct Ho as (g & Eg & _ & Hl). rewrite filter_cons, decide_False; [exact IH|]. unfold addressed_to. rewrite Eg, Z.eqb_eq. intros ->.
    enough (is_local info (gsid t) = true) by congruence. apply (info_local t); eauto.
Qed.

(** The machine while shard [s] stops it: the shards in [stopped] have stopped, the others have a stop
    message from [s], which is in the ring buffer when [s] has polled ([flushed]). *)
Record stopping (s : nat) (force : bool) (stopped : list nat) (flushed : bool) (M : machine) : Prop := {
  st_engines : length (engines M) = n;
  st_chan : chan_ok (local M);
  st_count : count (local M) = n;
  st_stopped : forall t e, t ∈ stopped -> engines M !! t = Some e -> running e = false;
  st_wait : forall t e, t ∉ stopped -> engines M !! t = Some e ->
    t <> s /\ exists r, stop_msg force r /\ contents (_qs (local M) t s) = [r] /\
      (flushed = true -> ring (_pending (_qs (local M) t s)) = [r]);
  st_rest : forall i j, (i < n)%nat -> (j < n)%nat -> i <> j -> j <> s \/ i ∈ stopped -> contents (_qs (local M) i j) = []
}.

Lemma arriving_none ch p l : (forall j, j ∈ l -> j <> p -> ring (_pending (_qs ch p j)) = []) -> arriving ch p l = [].
Proof using.
  intros H. unfold arriving, others. induction l as [|j l IH]; [done|]. rewrite filter_cons. case_decide as Hj.
  - cbn [fmap list_fmap mjoin list_join]. rewrite H by (left || congruence). apply IH. intros k Hk. apply H. now right.
  - apply IH. intros k Hk. apply H. now right.
Qed.

Lemma arriving_one ch p s r l :
  NoDup l -> s ∈ l -> s <> p -> ring (_pending (_qs ch p s)) = [r] ->
  (forall j, j ∈ l -> j <> p -> j <> s -> ring (_pending (_qs ch p j)) = []) -> arriving ch p l = [r].
Proof using.
  intros Hnd Hs Hne Hr H. apply list_elem_of_split in Hs as (l1 & l2 & ->).
  apply NoDup_app in Hnd as (Hnd & Hd & [Hn2 Hnd2]%NoDup_cons).
  assert (E : forall a b, arriving ch p (a ++ b) = arriving ch p a ++ arriving ch p b)
    by (intros a b; unfold arriving, others; now rewrite filter_app, fmap_app, join_app).
  change (l1 ++ s :: l2) with (l1 ++ [s] ++ l2). rewrite !E, (arriving_none ch p l1), (arriving_none ch p l2).
  - unfold arriving, others. rewrite filter_cons, decide_True by congruence. cbn. rewrite Hr. reflexivity.
  - intros j Hj Hjp. apply H; [apply elem_of_app; right; now right|done|]. intros ->. done.
  - intros j Hj Hjp. apply H; [apply elem_of_app; now left|done|]. intros ->. apply (Hd s Hj). left.
Qed.

Lemma contents_nil_ring (q : message_queue (R := R) (M := emsg)) : contents q = [] -> ring (_pending q) = [].
Proof using. unfold contents. now intros [? _]%app_nil. Qed.
Lemma contents_fifo (q : message_queue (R := R) (M := emsg)) l : contents q = l -> ring (_pending q) = l -> default [] (pending_fifo q) = [].
Proof using. unfold contents. intros H1 H2. rewrite H2 in H1. rewrite <-(app_nil_r l) in H1 at 2. now apply app_inv_head in H1. Qed.

Lemma other_shards_spec p j : j ∈ others p (seq 0 n) <-> (j < n)%nat /\ j <> p.
Proof using All. unfold others. rewrite list_elem_of_filter, elem_of_seq. intuition (lia || congruence). Qed.

(** Shard [p] polls: it stops, if it had not stopped before. *)
Lemma poll_stopping s force stopped fl M p :
  (p < n)%nat -> (s < n)%nat -> stopping s force stopped fl M -> fl = true \/ p ∈ stopped ->
  exists b M', poll p M = Ok (b, M') /\ stopping s force (p :: stopped) (fl || (p =? s)%nat) M'.
Proof using All.
  intros Hp Hs [Hl Hok Hc Hst Hw Hre] Hfl. destruct (lookup_lt_is_Some_2 (engines M) p) as [e He]; [lia|].
  assert (Hpoll : exists e', silent p (arriving (local M) p (seq 0 n)) e e' /\ running e' = false /\
    (forall j, (j < n)%nat -> j <> p -> default [] (pending_fifo (_qs (local M) p j)) = [])).
  { assert (Hother : forall j, (j < n)%nat -> j <> p -> j <> s \/ p ∈ stopped -> ring (_pending (_qs (local M) p j)) = [] /\
      default [] (pending_fifo (_qs (local M) p j)) = []).
    { intros j Hj Hjp Hd. pose proof (Hre p j Hp Hj ltac:(congruence) Hd) as E. pose proof (contents_nil_ring _ E). split; [done|].
      now apply (contents_fifo _ [] E). }
    destruct (decide (p ∈ stopped)) as [Hin|Hni].
    - exists e. rewrite arriving_none; [split; [constructor|]; split; [eauto|]|]; intros j; [|intros Hj%elem_of_seq]; intros; apply Hother; auto; lia.
    - destruct Hfl as [->|]; [|done]. destruct (Hw p e Hni He) as (Hps & r & Hr & Hcr & Hring). specialize (Hring eq_refl).
      destruct (receive_stop p force r e Hr) as (e' & E & Hrun & Hsent). exists e'.
      rewrite (arriving_one _ p s r); [|apply NoDup_seq|apply elem_of_seq; lia|congruence|done|].
      + split; [econstructor; [exact E|exact Hsent|constructor]|]. split; [done|]. intros j Hj Hjp.
        destruct (decide (j = s)) as [->|Hjs]; [now apply (contents_fifo _ [r])|now apply Hother; auto].
      + intros j Hj%elem_of_seq Hjp Hjs. apply Hother; auto. lia. }
  destruct Hpoll as (e' & Hsil & Hrun & Hfifo).
  destruct (poll_silent p M e e' Hp Hl Hok Hc He Hsil) as (b & M' & E & Ee & Hok' & Hc' & Hpd). exists b, M'. split; [done|].
  split; rewrite ?Ee; try done; [now rewrite length_insert|..].
  - intros t et Ht Het. destruct (decide (t = p)) as [->|Htp].
    + rewrite list_lookup_insert_eq in Het by lia. now injection Het as <-.
    + rewrite list_lookup_insert_ne in Het by done. apply (Hst t); [|done]. now apply elem_of_cons in Ht as [?|?].
  - intros t et Ht Het. apply not_elem_of_cons in Ht as [Htp Ht]. rewrite list_lookup_insert_ne in Het by done.
    assert (Htn : (t < n)%nat) by (apply lookup_lt_Some in Het; lia).
    destruct (Hw t et Ht Het) as (Hts & r & Hr & Hcr & Hring). split; [done|]. exists r. split; [done|].
    specialize (Hpd t s). unfold polled in Hpd. rewrite decide_False in Hpd by (intros [? _]; done).
    destruct (Nat.eqb_spec p s) as [->|Hps].
    + rewrite decide_True in Hpd by (split; [done|]; now apply other_shards_spec). destruct Hpd as [E1 E2]. rewrite E1, Hcr in *.
      split; [done|]. intros _. apply E2. cbn. unfold queue_length. lia.
    + rewrite decide_False in Hpd by (intros [? _]; congruence). rewrite Hpd. now rewrite orb_false_r.
  - intros i j Hi Hj Hij Hd. specialize (Hpd i j). unfold polled in Hpd. destruct (decide (i = p)) as [->|Hip].
    + rewrite decide_True in Hpd by (split; [done|]; apply other_shards_spec; auto). rewrite Hpd. now apply Hfifo.
    + assert (Hd' : j <> s \/ i ∈ stopped) by (destruct Hd as [?|[?|?]%elem_of_cons]; [now left|done|now right]).
      rewrite decide_False in Hpd by (intros [? _]; done). case_decide; [destruct Hpd as [-> _]|rewrite Hpd]; now apply Hre.
Qed.

Lemma polls_stopping s force ps : forall stopped M,
  (s < n)%nat -> Forall (fun p => (p < n)%nat) ps -> stopping s force stopped true M ->
  exists M', run M (Poll <$> ps) = Ok M' /\ stopping s force (rev ps ++ stopped) true M'.
Proof using All.
  induction ps as [|p ps IH]; intros stopped M Hs Hps H; [exists M; done|]. apply Forall_cons in Hps as [Hp Hps].
  destruct (poll_stopping s force stopped true M p Hp Hs H) as (b & M1 & E & H1); [now left|].
  cbn [fmap list_fmap run step]. rewrite E. cbn [mbind res_bind]. destruct (IH (p :: stopped) M1 Hs Hps H1) as (M2 & E2 & H2).
  exists M2. split; [done|]. cbn [rev]. now rewrite <-app_assoc.
Qed.

(** [exit] on shard [s] stops its own engine and puts one stop message into the queue to every other shard. *)
Lemma exit_stopping s force M :
  (s < n)%nat -> anchor + Z.of_nat n <= num_shards <= 4294967296 -> quiet M ->
  (forall i j, (i < n)%nat -> (j < n)%nat -> i <> j -> contents (_qs (local M) i j) = []) ->
  exists M', invoke s (Exit force) M = Ok M' /\ stopping s force [s] false M'.
Proof using All.
  intros Hs Hns Hq Hempty. destruct (engine_there _ _ s M Hs Hq) as [e He]. pose proof root_address as Ra.
  destruct (broadcast_total promise_set_value promise_set_exception (gsid s) (is_local info) (disabled_below s) canceled_text force _ (Z.to_nat num_shards) 0 e Ra ltac:(lia) ltac:(lia)) as (e' & Ex & Hrun).
  specialize (Hrun ltac:(right; unfold gsid; lia)).
  destruct (broadcast_sent promise_set_value promise_set_exception (gsid s) (is_local info) (disabled_below s) canceled_text
    [] _ (stop_type force) (Z.to_nat num_shards) 0 e e' Ra ltac:(lia) ltac:(lia) Ex) as (rs & Hsent & HF). rewrite Z2Nat.id in HF by lia.
  assert (Ec : call_engine s (Exit force) e = Ok e') by exact Ex. destruct (call_extends s _ e e' Ec) as (os & Et & Hw).
  assert (Hos : sent os = rs) by (rewrite Et, sent_app in Hsent; now apply app_inv_head in Hsent).
  destruct (invoke_ok _ s (Exit force) M e e' Hs Hq He Ec) as (M1 & E1 & Hq1 & Ee & Er & _). exists M1. split; [done|].
  destruct Hq as [Hl Hok Hc Hloc Hout], Hq1 as [Hl1 Hok1 Hc1 Hloc1 Hout1].
  assert (Hgot : forall i j, got i j M1 = got i j M) by (intros; unfold got; now rewrite Er).
  assert (Hlook : forall t, t <> s -> engines M1 !! t = engines M !! t) by (intros t Ht; rewrite Ee; now apply list_lookup_insert_ne).
  split; try done.
  - intros t et ->%list_elem_of_singleton Het. rewrite Ee, list_lookup_insert_eq in Het by lia. now injection Het as <-.
  - intros t et Ht Het. assert (Hts : t <> s) by (intros ->; apply Ht; now left). rewrite Hlook in Het by done.
    pose proof (lookup_lt_Some _ _ _ Het) as Htn. split; [done|].
    destruct (broadcast_one (fun r => Message.m_type (e_hdr r) = stop_type force /\ pr_id (e_hdr r) = 0) _ rs t HF) as (r & Hr & Hroot & Hp).
    { apply NoDup_filter, NoDup_seqZ. }
    { apply Forall_forall. intros x [_ Hx%elem_of_seqZ]%list_elem_of_filter. lia. }
    { apply list_elem_of_filter. split; [unfold gsid; lia|]. apply elem_of_seqZ. unfold gsid. lia. }
    exists r. split; [split; [done|exact Hp]|]. split; [|done].
    assert (Hts1 : engines M1 !! s = Some e') by (rewrite Ee; apply list_lookup_insert_eq; lia).
    pose proof (Hloc1 t s e' ltac:(lia) Hts Hts1) as H1. pose proof (Hloc t s e ltac:(lia) Hts He) as H0.
    rewrite (Hempty t s) in H0 by (done || lia). rewrite Et, sent_to_app, H0, Hgot in H1. cbn in H1. rewrite !app_nil_r in H1.
    apply app_inv_head in H1. rewrite <-H1, (sent_to_filter s t os) by (done || lia). now rewrite Hos.
  - intros i j Hi Hj Hij Hd. destruct (decide (j = s)) as [->|Hjs]; [destruct Hd as [?|?%list_elem_of_singleton]; congruence|].
    destruct (lookup_lt_is_Some_2 (engines M) j) as [ej Hej]; [lia|].
    pose proof (Hloc i j ej Hi Hij Hej) as H0. rewrite <-(Hlook j Hjs) in Hej. pose proof (Hloc1 i j ej Hi Hij Hej) as H1.
    rewrite (Hempty i j Hi Hj Hij) in H0. rewrite H0, Hgot in H1. cbn in H1. rewrite !app_nil_r in H1.
    rewrite <-(app_nil_r (got i j M)) in H1 at 1. now apply app_inv_head in H1.
Qed.

(** C17: [exit] on any shard stops the whole machine: at a moment of any run at which the queues between the shards are empty, each
    engine has stopped once the calling shard and then every shard polled, in
    whatever state the run so far left it, promises of requests that were released twice included; the promise tables have fewer than 2^32
    entries (else the 32-bit counter of the loop that fails them would not end). *)
Theorem exit_stops_machine s force pms M0 evs M :
  (s < n)%nat -> anchor + Z.of_nat n <= num_shards <= 4294967296 -> length pms = n ->
  Forall (fun ev => (event_shard ev < n)%nat) evs -> configured pms = Ok M0 -> run M0 evs = Ok M ->
  (forall t e, engines M !! t = Some e -> pr_size (response_pr_manager e) < 4294967296) ->
  (forall i j, (i < n)%nat -> (j < n)%nat -> i <> j -> contents (_qs (local M) i j) = []) ->
  exists M', run M (Invoke s (Exit force) :: Poll s :: (Poll <$> seq 0 n)) = Ok M' /\ length (engines M') = n /\
    Forall (fun e => running e = false) (engines M').
Proof using All.
  intros Hs Hns Hl Hev E0 Er _ Hempty. destruct (configured_ok pms Hl) as (M0' & E0' & Hq0 & _).
  rewrite E0 in E0'. injection E0' as <-.
  destruct (run_ok evs M0 Hev Hq0) as [(M' & E & Hq)|(f & ? & ? & ? & ? & E & _)]; [|congruence]. rewrite Er in E. injection E as <-.
  destruct (exit_stopping s force M Hs Hns Hq Hempty) as (M1 & E1 & H1). cbn [run step]. rewrite E1. cbn [mbind res_bind].
  destruct (poll_stopping s force [s] false M1 s Hs Hs H1 ltac:(right; now left)) as (b & M2 & E2 & H2). rewrite E2. cbn [mbind res_bind].
  rewrite Nat.eqb_refl in H2. cbn [orb] in H2.
  destruct (polls_stopping s force (seq 0 n) [s; s] M2 Hs) as (M3 & E3 & [Hl3 _ _ Hst _ _]); [|done|].
  { apply Forall_forall. intros x Hx%elem_of_seq. lia. }
  exists M3. split; [done|]. split; [done|]. apply Forall_lookup. intros t e He. apply (Hst t e); [|done].
  apply elem_of_app. left. apply list_elem_of_In, in_rev. rewrite rev_involutive. apply list_elem_of_In, elem_of_seq. pose proof (lookup_lt_Some _ _ _ He). lia.
Qed.
End Machine.

(** ** A machine of two shards *)
Module MachineExamples.
Definition no_disabled (_ : nat) (_ : Z) (_ : toy_msg) : bool := false.
Abbreviation sample_configured := (configured (Sem := Z * list Z) (R := list toy_msg) 2 [toy_pm0; toy_pm0]).
Abbreviation sample_run := (run (R := list toy_msg) None toy_value toy_exception no_disabled [] 2 0 2).

(** Shard 0 sends a message to an actor on shard 1 and both poll. *)
Definition sample_msg : toy_msg := mk_emsg (toy_header (ex_addr 1 [toy_cell]) 0 0 USER) (Data 7).
Definition sample_events : list event := [Invoke 0 (Send sample_msg); Poll 0; Poll 1].

Lemma machine_messages_conserved_witness :
  exists M0, sample_configured = Ok M0 /\
    match sample_run M0 sample_events with
    | Ok M =>
        (forall i j e, (i < 2)%nat -> i <> j -> engines M !! j = Some e ->
           sent_to 0 i (trace e) = got i j M ++ contents (_qs (local M) i j)) /\
        (forall j e, engines M !! j = Some e -> sent_out (trace e) = went_out j M)
    | Fault f => exists pre ev post M1, sample_events = pre ++ ev :: post /\ sample_run M0 pre = Ok M1 /\
        engine_fails None toy_value toy_exception no_disabled [] 2 0 2 M1 ev f
    end.
Proof.
  refine (machine_messages_conserved None toy_value toy_exception no_disabled [] 2 0 2 ltac:(lia) ltac:(cbn; lia)
    [toy_pm0; toy_pm0] sample_events eq_refl _).
  repeat constructor.
Defined.

Example sample_received :
  (fun M => (received M, (fun e => trace e) <$> engines M)) <$> (M0 ← sample_configured; sample_run M0 sample_events) =
    Ok ([(1, 0, sample_msg)]%nat,
        [[ESendLocal sample_msg];
         [ECreated (cell_key toy_cell) 5; EScheduled (cell_key toy_cell); EDeliver (cell_key toy_cell) false sample_msg]]).
Proof. vm_compute. reflexivity. Qed.

Lemma exit_stops_machine_witness :
  exists M0 M', sample_configured = Ok M0 /\
    sample_run M0 [Invoke 1 (Exit true); Poll 1; Poll 0; Poll 1] = Ok M' /\ length (engines M') = 2%nat /\
    Forall (fun e => running e = false) (engines M').
Proof.
  destruct (configured_ok (Sem := Z * list Z) (R := list toy_msg) 2 0 [toy_pm0; toy_pm0] eq_refl) as (M0 & E0 & _ & Ee & Hempty).
  destruct (exit_stops_machine None toy_value toy_exception no_disabled [] 2 0 2 ltac:(lia) ltac:(cbn; lia)
    1 true [toy_pm0; toy_pm0] M0 [] M0 ltac:(lia) ltac:(lia) eq_refl ltac:(constructor) E0 eq_refl) as (M' & Er & H1 & H2).
  - intros t e H. change (engines M0 !! t = Some e) in H. rewrite Ee in H. destruct t as [|[|t]]; [injection H as <-; unfold pr_size; cbn; lia..|]. exfalso. now destruct t.
  - intros i j Hi _ _. now apply Hempty.
  - exists M0, M'. auto.
Defined.
End MachineExamples.
