(* ===== verification/Cluster.v ===== *)
(** * A cluster of machines, composed

    Every machine of the cluster has its shards ([Machine]) and its network channel
    ([NetworkChannel]): what an engine sends to a shard of another machine goes
    ([network_channel::send], src/include/hiactor/net/network_channel.hh) to the shard that
    the routing table names as proxy, into its buffer for that machine, from there over a
    connection ([Link], src/src/net/connection.cc) to a shard of the other machine, whose
    receiver gives it to its engine with [actor_engine().send].

    An event is one step of one shard: a call or a poll of its engine with the network sends
    it makes, a poll of its network queues, a step of a sender, the arrival of some bytes, a
    step of a receiver; and when a machine stops its network ([connection_manager::stop]), the
    abort of a buffer, the end of a receiver and the close of a stream. *)
From S2P Require Import Prelude NetworkConfig RoutingTable.
From S2P Require Import Bytes Address BufferQueue DataType Message PromiseManager Actor Group.
From S2P Require Import MessageQueue Channels DynamicQueue NetworkChannel Connection Receiver Link.
From S2P Require Import Engine Machine.

Section Cluster.
Context {D Q P Sem R RN Text Ex : Type} {SM : Semaphore Sem}.
Context {SQ : Spsc R (emsg (D := D) (Q := Q))} {SN : Spsc RN (message_item (emsg (D := D) (Q := Q)))}.
Context {BQ : BufferQueue Q} {BQL : BufferQueueLaws Q} {SD : Serializable D} {ST : Serializable Text}.
Abbreviation emsg := (emsg (D := D) (Q := Q)).
Variable new_promise : P.
Variable promise_set_value : P -> emsg -> P.
Variable promise_set_exception : P -> ex -> P.
Variable canceled_text : bytes.
Variable disabled_below : nat -> nat -> Z -> emsg -> bool.
(** The [simple_string] that holds a text; the padding bytes of a message's header object. *)
Variable string_of : bytes -> Text.
Variable pad : emsg -> padding.

(** The cluster: its nodes, the machines that each shard of each node holds a connection to, and which shard
    of the other machine is at its end. *)
Variable ws : list worker_node_info.
Variable sharded : nat -> list (list Z).
Variable peer : nat -> nat -> Z -> nat.

Definition shards (A : nat) : nat := length (sharded A).
Definition anchor (A : nat) : Z := cores_before ws A.
Definition num_shards : Z := total_cores ws.

Abbreviation machine := (machine (D := D) (Q := Q) (P := P) (Sem := Sem) (R := R)).
Abbreviation network := (NetworkChannel.network (Msg := emsg) (Ex := Ex) (R := RN)).
Abbreviation link := (link (Q := Q) (Msg := emsg)).
Abbreviation net_buffer := (dynamic_queue (T := emsg) (E := Ex)).
Abbreviation machine_step A :=
  (Machine.step (R := R) new_promise promise_set_value promise_set_exception (disabled_below A) canceled_text (shards A) (anchor A) num_shards).

(** The object behind a message, and the message for an object that [deserialize] made. *)
Definition object_of (m : emsg) : actor_message Q :=
  Message.mk_msg (e_hdr m) (match e_data m with
                    | NoData => NoPayload
                    | Str content => Payload Text ST (string_of content)
                    | Data d => Payload D SD d
                    | Net q => NetPayload q
                    end).
Definition message_of (o : actor_message Q) : res emsg :=
  match data o with NetPayload q => Ok (mk_emsg (hdr o) (Net q)) | _ => Fault BadCast end.

(** [msg->hdr.addr.get_shard_id()]; an engine only sends messages that have one. *)
Definition dest_shard (m : emsg) : Z := match get_shard_id (Message.addr (e_hdr m)) with Ok g => g | Fault _ => 0 end.

(** ** State *)
Record node := mk_node { mach : machine; net : network }.
Record cluster := mk_cluster {
  nodes : list node;
  links : nat -> nat -> Z -> link;                     (* of shard [p] of node [A] to machine [k] *)
  pushed : nat -> nat -> Z -> list (nat * emsg)        (* given to its buffer, with the sending shard *)
}.
Definition at_link {X} (A p : nat) (k : Z) (x : X) (f : nat -> nat -> Z -> X) : nat -> nat -> Z -> X :=
  fun A' p' k' => if decide ((A', p', k') = (A, p, k)) then x else f A' p' k'.
Definition set_node (A : nat) (nd : node) (c : cluster) : cluster := mk_cluster (<[A := nd]> (nodes c)) (links c) (pushed c).
Definition log_push (A p : nat) (k : Z) (l : list (nat * emsg)) (c : cluster) : cluster :=
  mk_cluster (nodes c) (links c) (at_link A p k (pushed c A p k ++ l) (pushed c)).
Definition set_link (A p : nat) (k : Z) (l : link) (c : cluster) : cluster := mk_cluster (nodes c) (at_link A p k l (links c)) (pushed c).

(** ** Steps *)

(** [network_channel::send] on shard [sid]. *)
Definition net_send (A sid : nat) (m : emsg) (c : cluster) : res cluster :=
  nd ← of_option OutOfBounds (nodes c !! A);
  dst ← get_destination (_routing_tbl (net nd)) (dest_shard m);
  n ← NetworkChannel.send dest_shard false sid m (net nd);
  let c := set_node A (mk_node (mach nd) n) c in
  Ok (if decide (d_target_sid dst = Z.of_nat sid) then log_push A sid (d_machine_id dst) [(sid, m)] c else c).
Fixpoint net_send_all (A : nat) (out : list (nat * emsg)) (c : cluster) : res cluster :=
  match out with
  | [] => Ok c
  | (sid, m) :: out => c ← net_send A sid m c; net_send_all A out c
  end.

(** An event of the machine; what it gave to the network channel is sent. *)
Definition machine_event (A : nat) (ev : Machine.event (D := D) (Q := Q)) (c : cluster) : res cluster :=
  nd ← of_option OutOfBounds (nodes c !! A);
  M ← machine_step A (mach nd) ev;
  net_send_all A (drop (length (Machine.network (mach nd))) (Machine.network M)) (set_node A (mk_node M (net nd)) c).

(** What a poll of shard [sid] takes out of its queues, with the sending shards. *)
Definition polled_items (n : network) (sid : nat) : list (nat * message_item emsg) :=
  mjoin ((fun i => (fun mi => (i, mi)) <$> ring (_pending (_qs (net_qs n) sid i))) <$> others sid (seq 0 (count (net_qs n)))).
Definition items_for (k : Z) (l : list (nat * message_item emsg)) : list (nat * emsg) :=
  omap (fun p => if decide (mach_id (snd p) = k) then Some (fst p, msg (snd p)) else None) l.
Definition net_poll (A sid : nat) (c : cluster) : res cluster :=
  nd ← of_option OutOfBounds (nodes c !! A);
  '(_, n) ← net_poll_queues sid (net nd);
  Ok (mk_cluster (<[A := mk_node (mach nd) n]> (nodes c)) (links c)
        (fun A' p k => pushed c A' p k ++ (if decide ((A', p) = (A, sid)) then items_for k (polled_items (net nd) sid) else []))).

(** There is a connection from shard [p] to machine [k]. *)
Definition connected (A p : nat) (k : Z) : Prop := exists mids, sharded A !! p = Some mids /\ k ∈ mids.
#[export] Instance connected_dec A p k : Decision (connected A p k).
Proof.
  unfold connected. destruct (sharded A !! p) as [mids|]; [|right; intros (? & [=] & _)].
  destruct (decide (k ∈ mids)); [left; eauto|right; intros (? & [= <-] & ?); done].
Defined.

Definition set_buffer (p : nat) (k : Z) (b : net_buffer) (n : network) : network :=
  NetworkChannel.mk_network (_routing_tbl n) (net_qs n) (alter (<[Z.to_nat k := b]>) p (_cms n)).

(** A step of the sender or of the stream. *)
Definition link_event (A p : nat) (k : Z) (ev : Link.link_event (Msg := emsg) (Ex := Ex)) (c : cluster) : res cluster :=
  nd ← of_option OutOfBounds (nodes c !! A);
  b ← of_option OutOfBounds (buffer_of (_cms (net nd)) p k);
  '(b, l) ← link_step object_of pad b (links c A p k) ev;
  Ok (set_link A p k l (set_node A (mk_node (mach nd) (set_buffer p k b (net nd))) c)).

(** A step of the receiver; the message it hands over is sent. *)
Fixpoint hand_over (B sid : nat) (ms : list (actor_message Q)) (c : cluster) : res cluster :=
  match ms with
  | [] => Ok c
  | o :: ms => m ← message_of o; c ← machine_event B (Machine.Invoke sid (Machine.Send m)) c; hand_over B sid ms c
  end.
Definition receive (A p : nat) (k : Z) (c : cluster) : res cluster :=
  r ← receiver_step (rx (links c A p k));
  hand_over (Z.to_nat k) (peer A p k) (drop (length (handed (rx (links c A p k)))) (handed r))
    (set_link A p k (with_rx r (links c A p k)) c).

Inductive event :=
  | Local (A : nat) (ev : Machine.event (D := D) (Q := Q))
  | NetPoll (A sid : nat)
  | Sender (A p : nat) (k : Z)
  | Transfer (A p : nat) (k : Z) (n : nat)
  | Receive (A p : nat) (k : Z)
  | Abort (A p : nat) (k : Z) (e : Ex)       (* [buffers_helper::abort] on shard [p] *)
  | StopReceiver (A p : nat) (k : Z)         (* [_abort_connection] on the receiving shard *)
  | Close (A p : nat) (k : Z).               (* [close_out_streams], once the sender has ended *)
Definition step (c : cluster) (ev : event) : res cluster :=
  match ev with
  | Local A ev => machine_event A ev c
  | NetPoll A sid => net_poll A sid c
  | Sender A p k => if decide (connected A p k) then link_event A p k SenderRuns c else Ok c
  | Transfer A p k n => if decide (connected A p k) then link_event A p k (Link.Transfer n) c else Ok c
  | Receive A p k => if decide (connected A p k) then receive A p k c else Ok c
  | Abort A p k e => if decide (connected A p k) then link_event A p k (StopSender e) c else Ok c
  | StopReceiver A p k => if decide (connected A p k) then link_event A p k Link.StopReceiver c else Ok c
  | Close A p k => if decide (connected A p k) then link_event A p k CloseStream c else Ok c
  end.
Fixpoint run (c : cluster) (evs : list event) : res cluster :=
  match evs with
  | [] => Ok c
  | ev :: evs => c ← step c ev; run c evs
  end.

(** The cluster after start-up: the machines configured, the tables built, a buffer per shard and machine. *)
Definition configured_node (pms : nat -> list (pr_manager (P := P))) (A : nat) : res node :=
  M ← Machine.configured (R := R) (Sem := Sem) (shards A) (pms A);
  t ← RoutingTable.build ws (length ws) (total_cores ws) (Z.of_nat (shards A)) (sharded A);
  ch ← start_shards (seq 0 (shards A)) (net_create_qs (shards A));
  Ok (mk_node M (NetworkChannel.mk_network t ch (replicate (shards A) (Connection.build (length ws) 16)))).
Fixpoint configured_nodes (pms : nat -> list (pr_manager (P := P))) (As : list nat) : res (list node) :=
  match As with
  | [] => Ok []
  | A :: As => nd ← configured_node pms A; nds ← configured_nodes pms As; Ok (nd :: nds)
  end.
Definition configured (pms : nat -> list (pr_manager (P := P))) : res cluster :=
  nds ← configured_nodes pms (seq 0 (length ws)); Ok (mk_cluster nds (fun _ _ _ => link_new) (fun _ _ _ => [])).

(** ** What was sent, and where it is *)
Definition by_sender (s : nat) (l : list (nat * emsg)) : list emsg := omap (fun p => if decide (fst p = s) then Some (snd p) else None) l.
Definition routes_via (t : routing_table) (p : nat) (k : Z) (m : emsg) : bool :=
  match get_destination t (dest_shard m) with
  | Ok d => (d_machine_id d =? k) && (d_target_sid d =? Z.of_nat p)
  | Fault _ => false
  end.
(** The messages whose way leads over shard [p] to machine [k]. *)
Definition routed (t : routing_table) (p : nat) (k : Z) (ms : list emsg) : list emsg := filter (fun m => routes_via t p k m = true) ms.
Definition queued (n : network) (p s : nat) (k : Z) : list emsg :=
  if decide (s = p) then [] else for_machine k (contents (_qs (net_qs n) p s)).

(** A message for a shard of the cluster whose machine this one is connected to. *)
Definition routable (A : nat) (m : emsg) : Prop :=
  exists k c, ws !! k = Some c /\ anchor k <= dest_shard m < anchor k + nr_cores c /\ shards_for k (sharded A) 0 <> [].

(** What a machine gave to the network channel can be written and has a route. *)
Definition sent_well (A : nat) (M : machine) : Prop :=
  Forall (fun p => routable A (snd p) /\ sendable object_of (snd p)) (Machine.network M).

(** What was given to a buffer: it took what came before it was aborted. *)
Definition buffer_ok (given : list emsg) (b : net_buffer) (l : link) : Prop :=
  exists taken dropped, given = taken ++ dropped /\ link_ok object_of pad taken b l /\ (_ex b = None -> dropped = []).

(** [pend] was given to the network channel and is not sent yet. *)
Record node_ok (A : nat) (pend : list (nat * emsg)) (nd : node) (pu : nat -> Z -> list (nat * emsg)) (ls : nat -> Z -> link) : Prop := {
  n_quiet : Machine.quiet (shards A) (anchor A) (mach nd);
  n_net : net_ok (shards A) (length ws) (net nd);
  n_table : RoutingTable.build ws (length ws) (total_cores ws) (Z.of_nat (shards A)) (sharded A) = Ok (_routing_tbl (net nd));
  n_sent : forall s p k, (s < shards A)%nat -> (p < shards A)%nat -> 0 <= k ->
    routed (_routing_tbl (net nd)) p k (by_sender s (Machine.network (mach nd))) =
      by_sender s (pu p k) ++ queued (net nd) p s k ++ routed (_routing_tbl (net nd)) p k (by_sender s pend);
  n_links : forall p k b, 0 <= k -> buffer_of (_cms (net nd)) p k = Some b -> buffer_ok (snd <$> pu p k) b (ls p k);
  n_senders : forall p k, Forall (fun x => (fst x < shards A)%nat) (pu p k);
  n_sendable : sent_well A (mach nd)
}.
Definition only (A : nat) (l : list (nat * emsg)) : nat -> list (nat * emsg) := fun A' => if decide (A' = A) then l else [].
Record cluster_ok (pend : nat -> list (nat * emsg)) (c : cluster) : Prop := {
  c_nodes : length (nodes c) = length ws;
  c_node : forall A nd, nodes c !! A = Some nd -> node_ok A (pend A) nd (pushed c A) (links c A)
}.

Lemma by_sender_app s a b : by_sender s (a ++ b) = by_sender s a ++ by_sender s b.
Proof using. apply omap_app. Qed.
Lemma routed_app t p k a b : routed t p k (a ++ b) = routed t p k a ++ routed t p k b.
Proof using. apply filter_app. Qed.

Lemma node_ok_ext A pend nd pu pu' ls ls' :
  (forall p k, pu p k = pu' p k) -> (forall p k, ls p k = ls' p k) -> node_ok A pend nd pu ls -> node_ok A pend nd pu' ls'.
Proof using. intros H1 H2 []. split; try done; intros; rewrite <-?H1, <-?H2; auto. Qed.

(** One node changes. *)
Lemma cluster_ok_node A pend out c c' nd' :
  cluster_ok pend c -> nodes c' = <[A := nd']> (nodes c) ->
  (forall A' p k, A' <> A -> pushed c' A' p k = pushed c A' p k /\ links c' A' p k = links c A' p k) ->
  (forall A', A' <> A -> pend A' = []) -> node_ok A out nd' (pushed c' A) (links c' A) -> cluster_ok (only A out) c'.
Proof using.
  intros [Hl Hn] En Hoth Hp Hnd. split; [now rewrite En, length_insert|]. intros A' nd HA. rewrite En in HA. unfold only.
  apply list_lookup_insert_Some in HA as [(-> & <- & _)|(Hne & HA)]; [now rewrite decide_True|].
  rewrite decide_False by congruence. specialize (Hn A' nd HA). rewrite (Hp A') in Hn by congruence.
  eapply node_ok_ext; [..|exact Hn]; intros p k; symmetry; now apply Hoth.
Qed.

Lemma only_nil A c : cluster_ok (only A []) c <-> cluster_ok (fun _ => []) c.
Proof using.
  assert (E : forall A', only A [] A' = []) by (intros A'; unfold only; now case_decide).
  split; intros [H1 H2]; (split; [done|]); intros A' nd HA; specialize (H2 A' nd HA); now rewrite E in *.
Qed.

(** ** No step fails but an engine's, and everything is accounted for *)

(** All machines read the same list of nodes, each has the shards it says, and a connection ends at a shard. *)
Context (Hws : forall A c, ws !! A = Some c -> nr_cores c = Z.of_nat (shards A) /\ nodes_ok ws (sharded A)).
Context (Hpeer : forall A p k, connected A p k -> (peer A p k < shards (Z.to_nat k))%nat).

Lemma route_there A m nd pend pu ls :
  (A < length ws)%nat -> node_ok A pend nd pu ls -> routable A m ->
  exists k p, get_destination (_routing_tbl (net nd)) (dest_shard m) = Ok (mk_dest k (Z.of_nat p)) /\
    (p < shards A)%nat /\ 0 <= k < Z.of_nat (length ws).
Proof using Hws.
  intros HA Hn (k & c & Hk & Hg & Hne). destruct (lookup_lt_is_Some_2 ws A HA) as [cA HcA]. destruct (Hws A cA HcA) as [_ Hok].
  destruct (route_ok ws (sharded A) (dest_shard m) k c Hok Hk Hg Hne) as (t & s & Eb & Ed & El).
  pose proof (n_table _ _ _ _ _ Hn) as Et. unfold shards in Et. assert (t = _routing_tbl (net nd)) as -> by congruence.
  apply list_elem_of_lookup_2, shards_for_range in El. exists (Z.of_nat k), (Z.to_nat s). rewrite Z2Nat.id by lia.
  split; [done|]. unfold shards. apply lookup_lt_Some in Hk. lia.
Qed.

Lemma shards_small A : (A < length ws)%nat -> Z.of_nat (shards A) < 4294967294 /\ 0 <= anchor A /\ anchor A + Z.of_nat (shards A) <= 4294967296.
Proof using Hws.
  intros HA. destruct (lookup_lt_is_Some_2 ws A HA) as [cA HcA]. destruct (Hws A cA HcA) as [Hc (Hf & _ & Ht & Hs)]. unfold shards, anchor in *.
  split; [lia|]. pose proof (cores_before_S ws A cA HcA) as H1. pose proof (cores_before_le ws 0 A Hf ltac:(lia)) as H0.
  pose proof (cores_before_le ws (S A) (length ws) Hf ltac:(lia)) as H2. rewrite cores_before_total in H2.
  assert (0 <= (2 + Z.of_nat (length (sharded A))) * Z.of_nat (length ws)) by (apply Z.mul_nonneg_nonneg; lia). lia.
Qed.

Lemma routed_one t p k m : routed t p k [m] = if routes_via t p k m then [m] else [].
Proof using. unfold routed. rewrite filter_cons, filter_nil. now destruct (routes_via t p k m). Qed.
Lemma by_sender_one s sid m : by_sender s [(sid, m)] = if decide (sid = s) then [m] else [].
Proof using. unfold by_sender. cbn. now case_decide. Qed.

Lemma routes_via_eq t p k m k' p' :
  get_destination t (dest_shard m) = Ok (mk_dest k' (Z.of_nat p')) -> routes_via t p k m = bool_decide (k' = k /\ p' = p).
Proof using.
  intros E. unfold routes_via. rewrite E. cbn. case_bool_decide as H.
  - destruct H as [-> ->]. now rewrite !Z.eqb_refl.
  - destruct (Z.eqb_spec k' k), (Z.eqb_spec (Z.of_nat p') (Z.of_nat p)); try done. exfalso. apply H. split; [done|lia].
Qed.

Lemma buffer_pushed given b l m : buffer_ok given b l -> buffer_ok (given ++ [m]) (snd (push_eventually b m)) l.
Proof using.
  intros (taken & dropped & -> & Hl & Hd). destruct (_ex b) as [e|] eqn:Ex0.
  - exists taken, (dropped ++ [m]). rewrite app_assoc. split; [done|]. unfold push_eventually. rewrite Ex0. cbn [snd]. split; [done|]. congruence.
  - rewrite (Hd eq_refl), app_nil_r. exists (taken ++ [m]), []. rewrite app_nil_r. split; [done|]. split; [now apply link_pushed|done].
Qed.

(** A message the engine of shard [sid] sent is in its own buffer, or queued for the proxy. *)
Lemma net_send_step A sid m out c :
  (A < length ws)%nat -> (sid < shards A)%nat -> routable A m -> cluster_ok (only A ((sid, m) :: out)) c ->
  exists c', net_send A sid m c = Ok c' /\ cluster_ok (only A out) c'.
Proof using All.
  intros HA Hs Hr Hc. pose proof Hc as [Hl Hn]. destruct (lookup_lt_is_Some_2 (nodes c) A) as [nd Hnd]; [lia|].
  specialize (Hn A nd Hnd). unfold only in Hn at 1. rewrite decide_True in Hn by done.
  destruct (route_there A m nd _ _ _ HA Hn Hr) as (k & p & Ed & Hp & Hk). destruct Hn as [Hq Hno Ht Hsent Hlk Hsd Hgood].
  destruct (net_send_ok dest_shard _ _ (net nd) sid m k p Hno Hs Hp Hk Ed) as (n & En & Hno' & Et & Hcase).
  unfold net_send. rewrite Hnd. cbn [of_option mbind res_bind]. rewrite Ed. cbn [mbind res_bind]. rewrite En. cbn [mbind res_bind].
  cbn [d_target_sid d_machine_id]. eexists. split; [reflexivity|].
  assert (Hout : forall A', A' <> A -> only A ((sid, m) :: out) A' = []) by (intros A' Hne; unfold only; now rewrite decide_False).
  assert (Hroute : forall s' p' k', routed (_routing_tbl (net nd)) p' k' (by_sender s' ((sid, m) :: out)) =
    (if decide (sid = s' /\ k = k' /\ p = p') then [m] else []) ++ routed (_routing_tbl (net nd)) p' k' (by_sender s' out)).
  { intros s' p' k'. change ((sid, m) :: out) with ([(sid, m)] ++ out). rewrite by_sender_app, routed_app. f_equal. rewrite by_sender_one.
    destruct (decide (sid = s')) as [->|Hne]; [|now rewrite decide_False by tauto]. rewrite routed_one, (routes_via_eq _ _ _ _ _ _ Ed).
    case_bool_decide; [rewrite decide_True|rewrite decide_False]; tauto || done. }
  destruct (decide (p = sid)) as [->|Hne].
  - rewrite decide_True by done. destruct Hcase as [Eqs Epush]. eapply (cluster_ok_node A _ out c); [exact Hc|reflexivity| |exact Hout|].
    { intros A' p' k' Hne. cbn. unfold at_link. rewrite decide_False by congruence. done. }
    split; cbn [mach net pushed links log_push set_node]; rewrite ?Et; try done.
    + intros s' p' k' Hs' Hp' Hk'. rewrite (Hsent s' p' k' Hs' Hp' Hk'), Hroute. unfold at_link, queued. rewrite Eqs.
      destruct (decide ((A, p', k') = (A, sid, k))) as [E|Hne].
      * injection E as -> ->. rewrite by_sender_app, by_sender_one. destruct (decide (sid = s')) as [->|Hne'].
        -- rewrite !decide_True by done. now rewrite <-app_assoc.
        -- rewrite (decide_False (P := sid = s' /\ _)) by tauto. now rewrite app_nil_r.
      * rewrite (decide_False (P := sid = s' /\ _)); [done|]. intros (_ & -> & ->). done.
    + intros p' k' b Hk' Hb. rewrite (push_to_buffer_buffer _ _ _ _ _ p' k' Epush) in Hb by lia. unfold at_link.
      destruct (decide (p' = sid /\ k = k')) as [[-> ->]|Hne].
      * rewrite decide_True by done. destruct (buffer_of (_cms (net nd)) sid k') as [b0|] eqn:Eb; [|done]. cbn in Hb. injection Hb as <-.
        rewrite fmap_app. apply buffer_pushed. now apply Hlk.
      * rewrite decide_False by (intros [= -> ->]; tauto). now apply Hlk.
    + intros p' k'. unfold at_link. case_decide; [|apply Hsd]. apply Forall_app. split; [apply Hsd|now constructor].
  - rewrite decide_False by lia. destruct Hcase as (Ecms & Eq & Eoth). eapply (cluster_ok_node A _ out c); [exact Hc|reflexivity|done|exact Hout|].
    split; cbn [mach net pushed links set_node]; rewrite ?Et, ?Ecms; try done.
    intros s' p' k' Hs' Hp' Hk'. rewrite (Hsent s' p' k' Hs' Hp' Hk'), Hroute. unfold queued. destruct (decide (s' = p')) as [->|Hsp].
    { rewrite (decide_False (P := sid = p' /\ _)); [done|]. intros (-> & _ & ->). done. }
    destruct (decide ((p', s') = (p, sid))) as [E|Hne'].
    + injection E as -> ->. rewrite Eq, for_machine_app, for_machine_one. destruct (decide (k = k')) as [->|Hkk].
      * rewrite decide_True by done. now rewrite <-!app_assoc.
      * rewrite (decide_False (P := sid = sid /\ _)) by tauto. now rewrite app_nil_r.
    + rewrite Eoth by done. rewrite (decide_False (P := sid = s' /\ _)); [done|]. intros (-> & _ & ->). done.
Qed.

Lemma net_send_all_ok A out : forall c,
  (A < length ws)%nat -> Forall (fun p => (fst p < shards A)%nat /\ routable A (snd p)) out -> cluster_ok (only A out) c ->
  exists c', net_send_all A out c = Ok c' /\ cluster_ok (fun _ => []) c'.
Proof using All.
  induction out as [|[sid m] out IH]; intros c HA Hf Hc; cbn [net_send_all].
  - exists c. split; [done|]. now apply (only_nil A).
  - apply Forall_cons in Hf as [[Hs Hr] Hf]. destruct (net_send_step A sid m out c HA Hs Hr Hc) as (c1 & E & H1). rewrite E. cbn [mbind res_bind]. auto.
Qed.

Abbreviation machine_fails A :=
  (Machine.engine_fails (R := R) new_promise promise_set_value promise_set_exception (disabled_below A) canceled_text (shards A) (anchor A) num_shards).

(** An event of one machine, when its engine does its part. *)
Lemma machine_event_ok A ev c nd :
  nodes c !! A = Some nd -> (event_shard ev < shards A)%nat -> cluster_ok (fun _ => []) c ->
  (forall M, machine_step A (mach nd) ev = Ok M -> sent_well A M) ->
  (exists c', machine_event A ev c = Ok c' /\ cluster_ok (fun _ => []) c') \/
  (exists f, machine_event A ev c = Fault f /\ machine_fails A (mach nd) ev f).
Proof using All.
  intros Hnd Hs Hc Hw. pose proof Hc as [Hl Hn]. pose proof (Hn A nd Hnd) as HnA. pose proof (lookup_lt_Some _ _ _ Hnd) as HA. rewrite Hl in HA.
  destruct (shards_small A HA) as (_ & Ha0 & Ha1). unfold machine_event. rewrite Hnd. cbn [of_option mbind res_bind].
  destruct (Machine.step_ok new_promise promise_set_value promise_set_exception (disabled_below A) canceled_text (shards A) (anchor A) num_shards
    Ha0 Ha1 (mach nd) ev Hs (n_quiet _ _ _ _ _ HnA)) as [(M & E & Hq)|(f & E & Hf)]; rewrite E; cbn [mbind res_bind]; [left|right; eauto].
  specialize (Hw M E). destruct (step_logs _ _ _ _ _ _ _ _ _ _ _ E) as (out & Eo & Ho). rewrite Eo, drop_app_length.
  apply net_send_all_ok; [done| |].
  - unfold sent_well in Hw. rewrite Eo in Hw. apply Forall_app in Hw as [_ Hw]. rewrite Forall_forall in *. intros x Hx.
    rewrite (Ho x Hx). split; [done|]. now apply Hw.
  - eapply (cluster_ok_node A (fun _ => []) out c); [exact Hc|reflexivity|done|done|]. destruct HnA as [Hq0 Hno Ht Hsent Hlk Hsd Hgood].
    split; cbn [mach net pushed links set_node]; try done.
    intros s p k Hs' Hp Hk. rewrite Eo, by_sender_app, routed_app, (Hsent s p k Hs' Hp Hk). cbn. now rewrite app_nil_r, <-!app_assoc.
Qed.

(** ** Polls of the network queues *)
Lemma items_for_app k a b : items_for k (a ++ b) = items_for k a ++ items_for k b.
Proof using All. apply omap_app. Qed.

Lemma items_for_tagged i k (l : list (message_item emsg)) : items_for k ((fun mi => (i, mi)) <$> l) = (fun m => (i, m)) <$> for_machine k l.
Proof using All.
  induction l as [|mi l IH]; [done|]. unfold for_machine in *. rewrite filter_cons. cbn [fmap list_fmap items_for omap list_omap fst snd].
  fold (items_for k ((fun mi => (i, mi)) <$> l)). rewrite IH. now case_decide.
Qed.

Lemma by_sender_tagged s i (ms : list emsg) : by_sender s ((fun m => (i, m)) <$> ms) = if decide (i = s) then ms else [].
Proof using All.
  induction ms as [|m ms IH]; [now case_decide|]. cbn [fmap list_fmap by_sender omap list_omap fst snd].
  fold (by_sender s ((fun m => (i, m)) <$> ms)). rewrite IH. now case_decide.
Qed.

Lemma snd_tagged (i : nat) (ms : list emsg) : snd <$> ((fun m => (i, m)) <$> ms) = ms.
Proof using All. induction ms as [|m ms IH]; [done|]. cbn. f_equal. exact IH. Qed.

Section Polled.
Variable n : network.
Variable sid : nat.
Definition tagged (l : list nat) : list (nat * message_item emsg) :=
  mjoin ((fun i => (fun mi => (i, mi)) <$> ring (_pending (_qs (net_qs n) sid i))) <$> l).

Lemma tagged_cons i l : tagged (i :: l) = ((fun mi => (i, mi)) <$> ring (_pending (_qs (net_qs n) sid i))) ++ tagged l.
Proof using All. done. Qed.

Lemma tagged_messages k l : snd <$> items_for k (tagged l) = for_machine k (mjoin ((fun i => ring (_pending (_qs (net_qs n) sid i))) <$> l)).
Proof using All.
  induction l as [|i l IH]; [done|]. rewrite tagged_cons, items_for_app, fmap_app, IH, items_for_tagged, snd_tagged.
  cbn [fmap list_fmap mjoin list_join]. now rewrite for_machine_app.
Qed.

Lemma tagged_senders (bound : nat) k l : Forall (fun i => (i < bound)%nat) l -> Forall (fun x => (fst x < bound)%nat) (items_for k (tagged l)).
Proof using All.
  induction 1 as [|i l Hi _ IH]; [constructor|]. rewrite tagged_cons, items_for_app, items_for_tagged. apply Forall_app. split; [|done].
  rewrite Forall_fmap. apply Forall_true. intros; exact Hi.
Qed.

Lemma tagged_by s k l : NoDup l ->
  by_sender s (items_for k (tagged l)) = if decide (s ∈ l) then for_machine k (ring (_pending (_qs (net_qs n) sid s))) else [].
Proof using All.
  induction 1 as [|i l Hi Hnd IH]; [rewrite decide_False; [done|apply not_elem_of_nil]|].
  rewrite tagged_cons, items_for_app, by_sender_app, IH, items_for_tagged, by_sender_tagged.
  destruct (decide (i = s)) as [->|Hne].
  - rewrite (decide_True (P := s ∈ s :: l)) by left. rewrite (decide_False (P := s ∈ l)) by done. now rewrite app_nil_r.
  - destruct (decide (s ∈ l)) as [Hs|Hs]; [rewrite decide_True by now right|rewrite decide_False]; [done..|].
    intros [?|?]%elem_of_cons; congruence || done.
Qed.
End Polled.

Lemma buffer_pushes ms : forall given (b : net_buffer) (l : link), buffer_ok given b l -> buffer_ok (given ++ ms) (push_msgs ms b) l.
Proof using All.
  induction ms as [|m ms IH]; intros given b l H; [now rewrite app_nil_r|].
  change (m :: ms) with ([m] ++ ms). rewrite app_assoc. cbn [push_msgs foldl app]. apply (IH _ (snd (push_eventually b m))). now apply buffer_pushed.
Qed.

Lemma other_shards A sid i : i ∈ others sid (seq 0 (shards A)) <-> (i < shards A)%nat /\ i <> sid.
Proof using All. unfold others. rewrite list_elem_of_filter, elem_of_seq. intuition (lia || congruence). Qed.

Lemma arriving_nonneg A sid (n : network) :
  net_ok (shards A) (length ws) n -> (sid < shards A)%nat ->
  Forall (fun mi => 0 <= mach_id mi) (arriving (net_qs n) sid (seq 0 (shards A))).
Proof using All.
  intros Hn Hs. pose proof (n_count _ _ _ Hn) as Hc. rewrite <-Hc in *.
  eapply Forall_impl; [exact (arriving_items _ _ sid (n_items _ _ _ Hn) Hs)|]. intros mi Hmi. unfold mach_ok in Hmi. lia.
Qed.

Lemma net_poll_step A sid c :
  (A < length ws)%nat -> (sid < shards A)%nat -> cluster_ok (fun _ => []) c ->
  exists c', net_poll A sid c = Ok c' /\ cluster_ok (fun _ => []) c'.
Proof using All.
  intros HA Hs Hc. pose proof Hc as [Hl Hn]. destruct (lookup_lt_is_Some_2 (nodes c) A) as [nd Hnd]; [lia|].
  destruct (Hn A nd Hnd) as [Hq Hno Ht Hsent Hlk Hsd Hgood]. destruct (shards_small A HA) as (Hsm & _ & _).
  destruct (net_poll_ok _ _ (net nd) sid Hno Hs ltac:(lia)) as (b & n' & E & Hno' & Et & Hp & _ & Epush).
  unfold net_poll. rewrite Hnd. cbn [of_option mbind res_bind]. rewrite E. cbn [mbind res_bind]. eexists. split; [reflexivity|].
  apply (only_nil A). eapply (cluster_ok_node A (fun _ => []) [] c); [exact Hc|reflexivity| |done|].
  { intros A' p k Hne. cbn. rewrite decide_False, app_nil_r by congruence. done. }
  pose proof (n_count _ _ _ Hno) as Hcnt.
  assert (Hitems : polled_items (net nd) sid = tagged (net nd) sid (others sid (seq 0 (shards A)))) by (unfold polled_items, tagged; now rewrite Hcnt).
  assert (Hnd' : NoDup (others sid (seq 0 (shards A)))) by apply NoDup_filter, NoDup_seq.
  split; cbn [mach net pushed links]; rewrite ?Et; try done.
  - intros s p k Hs' Hp' Hk. rewrite (Hsent s p k Hs' Hp' Hk). cbn [by_sender omap list_omap]. unfold routed at 1 2. rewrite filter_nil, !app_nil_r.
    unfold queued. specialize (Hp p s). unfold polled in Hp. destruct (decide (p = sid)) as [->|Hne].
    + rewrite (decide_True (P := (A, sid) = (A, sid))), by_sender_app, Hitems, tagged_by by done. destruct (decide (s = sid)) as [->|Hss].
      * rewrite (decide_False (P := sid ∈ _)); [now rewrite !app_nil_r|]. rewrite other_shards. tauto.
      * rewrite decide_True in Hp by (split; [done|]; now apply other_shards). rewrite (decide_True (P := s ∈ _)) by now apply other_shards.
        rewrite Hp. unfold contents at 1. rewrite for_machine_app, <-app_assoc. done.
    + rewrite (decide_False (P := (A, p) = (A, sid))) by congruence. rewrite app_nil_r. rewrite decide_False in Hp by tauto.
      destruct (decide (s = p)); [done|]. case_decide; [destruct Hp as [-> _]|rewrite Hp]; done.
  - intros p k b0 Hk Hb. rewrite (push_items_buffer _ _ _ _ p k Epush) in Hb; [|exact (arriving_nonneg A sid _ Hno Hs)|done].
    destruct (decide (p = sid)) as [->|Hne].
    + rewrite decide_True by done. destruct (buffer_of (_cms (net nd)) sid k) as [b1|] eqn:Eb; [|done]. cbn in Hb. injection Hb as <-.
      rewrite fmap_app, Hitems, tagged_messages. apply buffer_pushes. now apply Hlk.
    + rewrite decide_False, app_nil_r by congruence. now apply Hlk.
  - intros p k. apply Forall_app. split; [apply Hsd|]. case_decide; [|constructor]. rewrite Hitems. apply tagged_senders.
    apply Forall_forall. intros i Hi. now apply other_shards in Hi as [? _].
Qed.

(** ** Steps of a connection *)
Lemma buffer_of_set (n : network) p k b b0 p' k' : 0 <= k -> 0 <= k' -> buffer_of (_cms n) p k = Some b0 ->
  buffer_of (_cms (set_buffer p k b n)) p' k' = if decide ((p', k') = (p, k)) then Some b else buffer_of (_cms n) p' k'.
Proof using All.
  intros Hk Hk' Hb. unfold buffer_of, set_buffer in *. cbn. destruct (_cms n !! p) as [row|] eqn:Er; [|done]. cbn in Hb.
  destruct (decide (p' = p)) as [->|Hne].
  - rewrite list_lookup_alter_eq, Er. cbn. destruct (decide (k' = k)) as [->|Hkk].
    + rewrite decide_True by done. apply list_lookup_insert_eq. eapply lookup_lt_Some, Hb.
    + rewrite decide_False by congruence. apply list_lookup_insert_ne. lia.
  - rewrite decide_False by congruence. now rewrite list_lookup_alter_ne.
Qed.

Lemma set_buffer_ok ns nm (n : network) p k b : net_ok ns nm n -> net_ok ns nm (set_buffer p k b n).
Proof using All.
  intros [Hc Hn [Hl HF] Hi]. split; try done. unfold set_buffer. cbn. split; [now rewrite length_alter|].
  apply Forall_lookup. intros i row Hrow. destruct (decide (i = p)) as [->|Hne].
  - rewrite list_lookup_alter_eq in Hrow. destruct (_cms n !! p) as [row0|] eqn:Er; [|done]. cbn in Hrow. injection Hrow as <-.
    rewrite length_insert. exact (Forall_lookup_1 _ _ _ _ HF Er).
  - rewrite list_lookup_alter_ne in Hrow by done. exact (Forall_lookup_1 _ _ _ _ HF Hrow).
Qed.

(** Every message in a buffer, or past it, was given to the network channel by its sender. *)
Lemma pushed_sendable A pend nd pu ls p k b :
  node_ok A pend nd pu ls -> 0 <= k -> buffer_of (_cms (net nd)) p k = Some b -> Forall (sendable object_of) (snd <$> pu p k).
Proof using All.
  intros [Hq Hno Ht Hsent Hlk Hsd Hgood] Hk Hb.
  assert (Hp : (p < shards A)%nat).
  { unfold buffer_of in Hb. destruct (_cms (net nd) !! p) eqn:Er; [|done]. apply lookup_lt_Some in Er. destruct (n_bufs _ _ _ Hno) as [Hl _]. lia. }
  rewrite Forall_fmap, Forall_forall. intros [s m] Hx. cbn. specialize (Hsd p k). rewrite Forall_forall in Hsd. specialize (Hsd _ Hx). cbn in Hsd.
  assert (Hm : m ∈ by_sender s (Machine.network (mach nd))).
  { assert (Hr : m ∈ routed (_routing_tbl (net nd)) p k (by_sender s (Machine.network (mach nd)))).
    { rewrite (Hsent s p k Hsd Hp Hk), elem_of_app. left. unfold by_sender. apply list_elem_of_omap. exists (s, m). split; [done|]. cbn. now rewrite decide_True. }
    now apply list_elem_of_filter in Hr as [_ Hr]. }
  unfold by_sender in Hm. apply list_elem_of_omap in Hm as ([s' m'] & Hin & E). cbn in E. case_decide; [|done]. injection E as <-.
  unfold sent_well in Hgood. rewrite Forall_forall in Hgood. exact (proj2 (Hgood _ Hin)).
Qed.

Lemma connected_range A p k : (A < length ws)%nat -> connected A p k -> (p < shards A)%nat /\ 0 <= k < Z.of_nat (length ws).
Proof using All.
  intros HA (mids & Hm & Hk). destruct (lookup_lt_is_Some_2 ws A HA) as [cA HcA]. destruct (Hws A cA HcA) as [_ (_ & HF & _)].
  split; [now apply lookup_lt_Some in Hm|]. destruct (Forall_lookup_1 _ _ _ _ HF Hm) as [_ Hr]. rewrite Forall_forall in Hr. now apply Hr.
Qed.

Lemma buffer_there A p k (n : network) : net_ok (shards A) (length ws) n -> (p < shards A)%nat -> 0 <= k < Z.of_nat (length ws) ->
  exists b, buffer_of (_cms n) p k = Some b.
Proof using All.
  intros Hn Hp Hk. destruct (n_bufs _ _ _ Hn) as [Hl HF]. destruct (lookup_lt_is_Some_2 (_cms n) p) as [row Hr]; [lia|].
  pose proof (Forall_lookup_1 _ _ _ _ HF Hr) as Hrl. cbn beta in Hrl. unfold buffer_of. rewrite Hr. cbn. apply lookup_lt_is_Some_2. lia.
Qed.

Lemma link_event_step A p k ev c :
  (A < length ws)%nat -> connected A p k -> match ev with Push _ | ReceiverRuns => False | _ => True end ->
  cluster_ok (fun _ => []) c -> exists c', link_event A p k ev c = Ok c' /\ cluster_ok (fun _ => []) c'.
Proof using All.
  intros HA Hcon Hev Hc. pose proof Hc as [Hl Hn]. destruct (lookup_lt_is_Some_2 (nodes c) A) as [nd Hnd]; [lia|].
  pose proof (Hn A nd Hnd) as HnA. pose proof HnA as [Hq Hno Ht Hsent Hlk Hsd Hgood]. destruct (connected_range A p k HA Hcon) as [Hp Hk].
  destruct (buffer_there A p k _ Hno Hp Hk) as [b Hb]. unfold link_event. rewrite Hnd. cbn [of_option mbind res_bind]. rewrite Hb. cbn [of_option mbind res_bind].
  assert (Hacc : accepts ev b = []) by (now destruct ev).
  pose proof (pushed_sendable A _ _ _ _ p k b HnA ltac:(lia) Hb) as Hs.
  destruct (Hlk p k b ltac:(lia) Hb) as (taken & dropped & Eg & Hlink & Hdr). rewrite Eg in Hs. apply Forall_app in Hs as [Hs _].
  destruct (link_step_ok object_of pad taken b (links c A p k) ev Hlink) as (b' & l' & E & Hok & Hab); [now rewrite Hacc, app_nil_r|].
  rewrite Hacc, app_nil_r in Hok. rewrite E. cbn [mbind res_bind]. eexists. split; [reflexivity|].
  assert (Hx : _ex b' = None -> dropped = []).
  { intros Hx. apply Hdr. unfold aborted in Hab. rewrite Hx in Hab. destruct (_ex b); [|done]. now destruct ev. }
  apply (only_nil A). eapply (cluster_ok_node A (fun _ => []) [] c); [exact Hc|reflexivity| |done|].
  { intros A' p' k' Hne. cbn. unfold at_link. rewrite decide_False by congruence. done. }
  split; cbn [mach net pushed links set_link set_node set_buffer _routing_tbl]; try done.
  - now apply set_buffer_ok.
  - intros p' k' b0 Hk' Hb0. unfold at_link. fold (set_buffer p k b' (net nd)) in Hb0. rewrite (buffer_of_set _ _ _ _ b) in Hb0 by (done || lia).
    destruct (decide ((p', k') = (p, k))) as [E'|Hne].
    + injection E' as -> ->. rewrite decide_True by done. injection Hb0 as <-. now exists taken, dropped.
    + rewrite decide_False by congruence. now apply Hlk.
Qed.

(** A receiver whose message, if there is one, the engine of its shard accepts. *)
Lemma receive_cluster A p k c nd r :
  nodes c !! A = Some nd -> (A < length ws)%nat -> connected A p k -> cluster_ok (fun _ => []) c ->
  receiver_step (rx (links c A p k)) = Ok r -> (exists done way, flowing object_of pad (with_rx r (links c A p k)) done way) ->
  cluster_ok (fun _ => []) (set_link A p k (with_rx r (links c A p k)) c).
Proof using All.
  intros Hnd HA Hcon Hc Er Hfl. pose proof Hc as [Hl Hn]. pose proof (Hn A nd Hnd) as HnA. destruct (connected_range A p k HA Hcon) as [Hp Hk].
  apply (only_nil A). eapply (cluster_ok_node A (fun _ => []) [] c _ nd); [exact Hc|symmetry; now apply list_insert_id| |done|].
  { intros A' p' k' Hne. cbn. unfold at_link. rewrite decide_False by congruence. done. }
  destruct HnA as [Hq Hno Ht Hsent Hlk Hsd Hgood]. split; cbn [pushed links set_link]; try done.
  intros p' k' b0 Hk' Hb0. unfold at_link. destruct (decide ((A, p', k') = (A, p, k))) as [E|Hne]; [|now apply Hlk].
  injection E as -> ->. destruct (Hlk p k b0 Hk' Hb0) as (taken & dropped & Eg & [H1 H2 _] & Hdr). exists taken, dropped. split; [done|]. split; [|done]. split; [exact H1|exact H2|exact Hfl].
Qed.

Lemma receive_step A p k c :
  (A < length ws)%nat -> connected A p k -> cluster_ok (fun _ => []) c ->
  (forall nd r o m M, nodes c !! Z.to_nat k = Some nd -> receiver_step (rx (links c A p k)) = Ok r ->
    handed r = handed (rx (links c A p k)) ++ [o] -> message_of o = Ok m ->
    machine_step (Z.to_nat k) (mach nd) (Invoke (peer A p k) (Send m)) = Ok M -> sent_well (Z.to_nat k) M) ->
  (exists c', receive A p k c = Ok c' /\ cluster_ok (fun _ => []) c') \/
  (exists f nd m, receive A p k c = Fault f /\ nodes c !! Z.to_nat k = Some nd /\
    machine_fails (Z.to_nat k) (mach nd) (Invoke (peer A p k) (Send m)) f).
Proof using All.
  intros HA Hcon Hc Hw. pose proof Hc as [Hl Hn]. destruct (lookup_lt_is_Some_2 (nodes c) A) as [nd Hnd]; [lia|].
  pose proof (Hn A nd Hnd) as HnA. destruct (connected_range A p k HA Hcon) as [Hp Hk].
  destruct (buffer_there A p k _ (n_net _ _ _ _ _ HnA) Hp Hk) as [b Hb].
  destruct (n_links _ _ _ _ _ HnA p k b ltac:(lia) Hb) as (taken & dropped & _ & [_ _ (done & way & Hfl)] & _).
  destruct (flowing_receive _ _ _ _ _ Hfl) as (r & Er & Hh & Hfl'). unfold receive. rewrite Er. cbn [mbind res_bind].
  pose proof (receive_cluster A p k c nd r Hnd HA Hcon Hc Er Hfl') as Hc'.
  destruct Hh as [Hh|(x & o & Hh & q & Ho & _)]; rewrite Hh.
  - rewrite drop_all. cbn [hand_over]. left. eauto.
  - rewrite drop_app_length. cbn [hand_over]. set (m := mk_emsg (Message.hdr o) (Net q) : emsg).
    assert (Em : message_of o = Ok m) by (unfold m; now rewrite Ho). rewrite Em. cbn [mbind res_bind]. destruct (lookup_lt_is_Some_2 (nodes c) (Z.to_nat k)) as [ndk Hndk]; [lia|].
    destruct (machine_event_ok (Z.to_nat k) (Invoke (peer A p k) (Send m)) (set_link A p k (with_rx r (links c A p k)) c) ndk)
      as [(c' & E & Hok)|(f & E & Hf)]; [exact Hndk|now apply Hpeer|exact Hc'| |..]; rewrite ?E; cbn [mbind res_bind].
    + intros M EM. exact (Hw ndk r o m M Hndk Er Hh Em EM).
    + left. eauto.
    + right. exists f, ndk, m. done.
Qed.

(** ** Runs *)
Definition event_ok (ev : event) : Prop :=
  match ev with
  | Local A ev => (A < length ws)%nat /\ (event_shard ev < shards A)%nat
  | NetPoll A sid => (A < length ws)%nat /\ (sid < shards A)%nat
  | Sender A _ _ | Transfer A _ _ _ | Receive A _ _ | Abort A _ _ _ | StopReceiver A _ _ | Close A _ _ => (A < length ws)%nat
  end.

(** The steps of machines that an event makes. *)
Inductive makes (c : cluster) : event -> nat -> machine -> Prop :=
  | makes_local A ev nd M : nodes c !! A = Some nd -> machine_step A (mach nd) ev = Ok M -> makes c (Local A ev) A M
  | makes_receive A p k nd r o m M :
      nodes c !! Z.to_nat k = Some nd -> receiver_step (rx (links c A p k)) = Ok r ->
      handed r = handed (rx (links c A p k)) ++ [o] -> message_of o = Ok m ->
      machine_step (Z.to_nat k) (mach nd) (Invoke (peer A p k) (Send m)) = Ok M -> makes c (Receive A p k) (Z.to_nat k) M.

(** An engine fails, in a call of its machine or on a message that arrived. *)
Definition engine_fails (c : cluster) (ev : event) (f : fault) : Prop :=
  match ev with
  | Local A ev => exists nd, nodes c !! A = Some nd /\ machine_fails A (mach nd) ev f
  | Receive A p k => exists nd m, nodes c !! Z.to_nat k = Some nd /\ machine_fails (Z.to_nat k) (mach nd) (Invoke (peer A p k) (Send m)) f
  | _ => False
  end.

Lemma cluster_step_ok c ev :
  event_ok ev -> cluster_ok (fun _ => []) c -> (forall A M, makes c ev A M -> sent_well A M) ->
  (exists c', step c ev = Ok c' /\ cluster_ok (fun _ => []) c') \/ (exists f, step c ev = Fault f /\ engine_fails c ev f).
Proof using All.
  intros Hev Hc Hw. pose proof (c_nodes _ _ Hc) as Hl. destruct ev as [A ev|A sid|A p k|A p k n|A p k|A p k e|A p k|A p k]; cbn [step event_ok engine_fails] in *.
  - destruct Hev as [HA Hs]. destruct (lookup_lt_is_Some_2 (nodes c) A) as [nd Hnd]; [lia|].
    destruct (machine_event_ok A ev c nd Hnd Hs Hc) as [H|(f & E & Hf)]; [|now left|right; eauto]. intros M E. eapply Hw. econstructor; eassumption.
  - left. now apply net_poll_step.
  - left. case_decide; [now apply link_event_step|eauto].
  - left. case_decide; [now apply link_event_step|eauto].
  - case_decide; [|left; eauto]. destruct (receive_step A p k c Hev H Hc) as [H'|(f & nd & m & E & Hnd & Hf)]; [|now left|right; eauto 6].
    intros nd r o m M H1 H2 H3 H4 H5. eapply Hw. econstructor; eassumption.
  - left. case_decide; [now apply link_event_step|eauto].
  - left. case_decide; [now apply link_event_step|eauto].
  - left. case_decide; [now apply link_event_step|eauto].
Qed.

Lemma configured_node_ok pms A :
  (A < length ws)%nat -> length (pms A) = shards A ->
  exists nd, configured_node pms A = Ok nd /\ node_ok A [] nd (fun _ _ => []) (fun _ _ => link_new).
Proof using All.
  intros HA Hp. destruct (lookup_lt_is_Some_2 ws A HA) as [cA HcA]. destruct (Hws A cA HcA) as [_ Hok].
  destruct (Machine.configured_ok (R := R) (Sem := Sem) (shards A) (anchor A) (pms A) Hp) as (M & EM & Hq & Ee & _).
  assert (Hnet : Machine.network M = []).
  { unfold Machine.configured in EM. apply bind_ok in EM as (ch & _ & EM). injection EM as <-. done. }
  destruct (build_ok ws (sharded A) Hok) as (t & cells & owner & Et & _).
  destruct (channel_started (R := RN) (M := message_item emsg) (shards A)) as (ch & Ech & Hcn & Hch).
  destruct (start_shards_spec (R := RN) (M := message_item emsg) (seq 0 (shards A)) (create_qs (shards A))) as (ch' & Ech' & _ & Hqs).
  { apply Forall_forall. intros x Hx%elem_of_seq. cbn. lia. }
  assert (ch' = ch) as -> by congruence.
  assert (Hcont : forall i j, (i < shards A)%nat -> contents (_qs ch i j) = []).
  { intros i j Hi. rewrite Hqs by done. case_decide; unfold contents; cbn; now rewrite ring_new_empty. }
  assert (Hno : net_ok (shards A) (length ws) (NetworkChannel.mk_network t ch (replicate (shards A) (Connection.build (length ws) 16)) : network)).
  { split; cbn [net_qs _cms]; try done.
    - split; [apply length_replicate|]. apply Forall_replicate. unfold Connection.build. apply length_replicate.
    - intros i j Hi _. rewrite Hcont by lia. constructor. }
  change (length (sharded A)) with (shards A) in Et. unfold configured_node, net_create_qs.
  rewrite EM. cbn [mbind res_bind]. rewrite Et. cbn [mbind res_bind]. rewrite Ech. cbn [mbind res_bind]. eexists. split; [reflexivity|]. split; cbn [mach net _routing_tbl net_qs _cms]; try done.
  - intros s p k Hs Hp' Hk. rewrite Hnet. unfold queued. cbn [net_qs]. rewrite Hcont by done. now case_decide.
  - intros p k b Hk Hb. unfold buffer_of in Hb. destruct (replicate _ _ !! p) as [row|] eqn:Er; [|done]. cbn in Hb.
    apply lookup_replicate in Er as [-> _]. apply lookup_replicate in Hb as [-> _]. exists [], []. split; [done|]. split; [apply link_new_ok|done].
  - unfold sent_well. rewrite Hnet. constructor.
Qed.

Lemma configured_nodes_ok pms As :
  Forall (fun A => (A < length ws)%nat /\ length (pms A) = shards A) As ->
  exists nds, configured_nodes pms As = Ok nds /\
    Forall2 (fun A nd => node_ok A [] nd (fun _ _ => []) (fun _ _ => link_new)) As nds.
Proof using All.
  induction 1 as [|A As [HA Hp] _ (nds & E & IH)]; cbn [configured_nodes]; [eauto|].
  destruct (configured_node_ok pms A HA Hp) as (nd & -> & Hnd). cbn [mbind res_bind]. rewrite E. cbn [mbind res_bind]. eauto.
Qed.

Lemma cluster_configured_ok pms : (forall A, (A < length ws)%nat -> length (pms A) = shards A) ->
  exists c, configured pms = Ok c /\ cluster_ok (fun _ => []) c.
Proof using All.
  intros Hp. destruct (configured_nodes_ok pms (seq 0 (length ws))) as (nds & E & HF).
  { apply Forall_forall. intros A HA%elem_of_seq. split; [lia|]. apply Hp. lia. }
  unfold configured. rewrite E. cbn [mbind res_bind]. eexists. split; [reflexivity|]. split; cbn [nodes pushed links].
  - apply Forall2_length in HF. now rewrite length_seq in HF.
  - intros A nd HA. assert (Hs : seq 0 (length ws) !! A = Some A).
    { apply lookup_seq. split; [done|]. apply Forall2_length in HF. rewrite length_seq in HF. apply lookup_lt_Some in HA. lia. }
    exact (Forall2_lookup_lr _ _ _ _ _ _ HF Hs HA).
Qed.

Lemma cluster_run_ok evs : forall c,
  Forall event_ok evs -> cluster_ok (fun _ => []) c ->
  (forall pre ev post c1 A M, evs = pre ++ ev :: post -> run c pre = Ok c1 -> makes c1 ev A M -> sent_well A M) ->
  (exists c', run c evs = Ok c' /\ cluster_ok (fun _ => []) c') \/
  (exists f pre ev post c1, run c evs = Fault f /\ evs = pre ++ ev :: post /\ run c pre = Ok c1 /\ engine_fails c1 ev f).
Proof using All.
  induction evs as [|ev evs IH]; intros c Hev Hc Hw; cbn [run]; [left; eauto|]. apply Forall_cons in Hev as [He Hev].
  destruct (cluster_step_ok c ev He Hc) as [(c1 & E1 & Hc1)|(f & E1 & Hf)]; [| |]; rewrite ?E1; cbn [mbind res_bind].
  - intros A M HM. exact (Hw [] ev evs c A M eq_refl eq_refl HM).
  - destruct (IH c1 Hev Hc1) as [H|(f & pre & ev' & post & c2 & E2 & -> & Hr & Hf)]; [| |].
    + intros pre ev' post c2 A M -> Hr HM. apply (Hw (ev :: pre) ev' post c2 A M); [done|cbn [run]; now rewrite E1|done].
    + now left.
    + right. exists f, (ev :: pre), ev', post, c2. cbn [run]. rewrite E1. done.
  - right. exists f, [], ev, evs, c. done.
Qed.

(** Where the messages are that shard [s] of machine [A] sent over its proxy [p] to machine [k]: handed to
    the engine of machine [k] ([arrived]), in the stream, deleted by the abort of the buffer, in the buffer, dropped
    because the buffer was aborted, in the queue to the proxy. *)
Definition accounted (c : cluster) (A : nat) (nd : node) (s p : nat) (k : Z) (out : list emsg) : Prop :=
  exists arrived flying aborted held dropped b sent way,
    buffer_of (_cms (net nd)) p k = Some b /\ snd <$> held = _q b /\ snd <$> aborted = Link.deleted (links c A p k) /\
    (_ex b = None -> aborted = [] /\ dropped = []) /\
    routed (_routing_tbl (net nd)) p k out = by_sender s (arrived ++ flying ++ aborted ++ held ++ dropped) ++ queued (net nd) p s k /\
    snd <$> arrived = sent.*1 /\ Forall2 (arrives_as object_of) sent (handed (rx (links c A p k))) /\
    snd <$> flying = way.*1 /\ in_stream object_of pad (rx (links c A p k)) (wire (links c A p k)) way.

Lemma node_accounts c A nd s p k :
  node_ok A [] nd (pushed c A) (links c A) -> (s < shards A)%nat -> (p < shards A)%nat -> 0 <= k < Z.of_nat (length ws) ->
  accounted c A nd s p k (by_sender s (Machine.network (mach nd))).
Proof using All.
  intros [Hq Hno Ht Hsent Hlk Hsd Hgood] Hs Hp Hk. destruct (buffer_there A p k _ Hno Hp Hk) as [b Hb].
  destruct (Hlk p k b ltac:(lia) Hb) as (taken & dropped & Eg & [Hqu _ (done & way & Hfl)] & Hdr). pose proof (inv_pushed _ _ _ Hqu) as Hpu.
  pose proof (i_deleted _ _ Hqu) as Hdel. cbn [sender_sys queue DynamicQueue.deleted] in Hdel.
  rewrite Hpu, (f_popped _ _ _ _ _ Hfl), fmap_app, <-!app_assoc in Eg.
  apply fmap_app_inv in Eg as (arrived & rest & Ha & Hrest & E). symmetry in Hrest.
  apply fmap_app_inv in Hrest as (flying & rest2 & Hf & Hrest & ->). symmetry in Hrest.
  apply fmap_app_inv in Hrest as (aborted & rest3 & Hab & Hrest & ->). symmetry in Hrest.
  apply fmap_app_inv in Hrest as (held & dr & Hh & Hd & ->).
  exists arrived, flying, aborted, held, dr, b, done, way. split; [done|]. split; [done|]. split; [done|]. split.
  { intros Hx. rewrite (Hdel Hx) in Hab. rewrite (Hdr Hx) in Hd. symmetry in Hab, Hd. split; [now apply fmap_nil_inv in Hab|].
    now apply fmap_nil_inv in Hd. }
  split; [|split; [done|]; split; [apply Hfl|]; split; [done|apply Hfl]].
  rewrite (Hsent s p k Hs Hp ltac:(lia)), E. cbn. now rewrite app_nil_r.
Qed.

End Cluster.

(** ** Two machines; the first has two shards, only its second one is connected to the other machine *)
Module ClusterExamples.
Import SerializablePrimitive.
Definition cmsg : Type := emsg (D := Integer) (Q := list bytes).
Definition promise : Type := option (cmsg + ex).
Definition value (p : promise) (m : cmsg) : promise := Some (inl m).
Definition exception (p : promise) (x : ex) : promise := Some (inr x).
Definition no_disabled (_ _ : nat) (_ : Z) (_ : cmsg) : bool := false.
Definition no_string (_ : bytes) : Integer := mk_Integer 0.
Definition no_pad (_ : cmsg) : padding := sample_padding.

Definition two_nodes : list worker_node_info := [NetworkConfig.mk_node 0 2 (mk_addr 1 9000); NetworkConfig.mk_node 1 1 (mk_addr 2 9000)].
Definition two_sharded (A : nat) : list (list Z) := match A with 0%nat => [[]; [1]] | _ => [[0]] end.
Definition first_shard (_ _ : nat) (_ : Z) : nat := 0.

Definition root_response : cmsg := mk_emsg (mk_header (ex_addr 0 []) 0 0 0 RESPONSE false) NoData.
Definition pm0 : pr_manager (P := promise) := pr_manager_new None value root_response.
Definition pms (A : nat) : list (pr_manager (P := promise)) := replicate (shards two_sharded A) pm0.

Abbreviation sample_configured := (configured (Ex := unit) (Sem := Z * list Z) (R := list cmsg) (RN := list (message_item cmsg)) two_nodes two_sharded pms).
Abbreviation sample_step A := (Machine.step (R := list cmsg) (Sem := Z * list Z) None value exception (no_disabled A) [] (shards two_sharded A) (anchor two_nodes A) (num_shards two_nodes)).
Abbreviation sample_run :=
  (run (Ex := unit) (Sem := Z * list Z) (R := list cmsg) (RN := list (message_item cmsg)) None value exception [] no_disabled no_string no_pad two_nodes two_sharded first_shard).

(** A message from shard 0 to an actor on shard 2, the only one of the other machine; another one is dropped
    because the buffer was aborted. *)
Definition sample_cell : ScopeBuilder.scope := ScopeBuilder.mk_scope 5 10.
Definition sample_msg : cmsg := mk_emsg (mk_header (ex_addr 2 [sample_cell]) 0 0 0 USER false) (Data (mk_Integer 7)).
Definition sample_events : list (event (D := Integer) (Q := list bytes) (Ex := unit)) :=
  [Local 0 (Invoke 0 (Send sample_msg)); NetPoll 0 0; NetPoll 0 1; Sender 0 1 1; Transfer 0 1 1 50; Receive 0 1 1;
   Transfer 0 1 1 50; Receive 0 1 1; Abort 0 1 1 tt; Local 0 (Invoke 0 (Send sample_msg)); NetPoll 0 0; NetPoll 0 1].

Example sample_delivered :
  (fun c => ((fun nd => (fun e => trace e) <$> engines (mach nd)) <$> nodes c)) <$> (c ← sample_configured; sample_run c sample_events) =
    Ok [[[ESendNet sample_msg; ESendNet sample_msg]; []];
        [[ECreated (cell_key sample_cell) 5; EScheduled (cell_key sample_cell);
          EDeliver (cell_key sample_cell) false (mk_emsg (as_received (e_hdr sample_msg)) (Net [enc_uint 4 7]))]]].
Proof. vm_compute. reflexivity. Qed.

Lemma two_nodes_ok A c : two_nodes !! A = Some c -> nr_cores c = Z.of_nat (shards two_sharded A) /\ nodes_ok two_nodes (two_sharded A).
Proof.
  intros H. assert (HA : A = 0%nat /\ c = NetworkConfig.mk_node 0 2 (mk_addr 1 9000) \/ A = 1%nat /\ c = NetworkConfig.mk_node 1 1 (mk_addr 2 9000)).
  { destruct A as [|[|A]]; [injection H as <-; auto..|now destruct A]. }
  destruct HA as [[-> ->]|[-> ->]]; (split; [reflexivity|]); (split; [repeat constructor|]); cbn; (split; [|lia]); repeat constructor;
    try (intros H1; now apply not_elem_of_nil in H1); lia.
Qed.
Lemma first_shard_ok A p k : connected two_sharded A p k -> (first_shard A p k < shards two_sharded (Z.to_nat k))%nat.
Proof.
  intros (mids & Hm & Hk). assert (Hk' : k = 0 \/ k = 1).
  { destruct A as [|A]; [destruct p as [|[|p]]; [injection Hm as <-|injection Hm as <-|now destruct p]|destruct p as [|p]; [injection Hm as <-|now destruct p]].
    - now apply not_elem_of_nil in Hk.
    - apply list_elem_of_singleton in Hk. now right.
    - apply list_elem_of_singleton in Hk. now left. }
  destruct Hk' as [-> | ->]; apply Nat.ltb_lt; reflexivity.
Qed.

Lemma sample_sent_well : routable two_nodes two_sharded 0 sample_msg /\ sendable (object_of no_string) sample_msg.
Proof.
  split.
  - exists 1%nat, (NetworkConfig.mk_node 1 1 (mk_addr 2 9000)). split; [reflexivity|]. split; [vm_compute; split; [discriminate|reflexivity]|discriminate].
  - exists [enc_uint 4 7]. split; [constructor; vm_compute; try (split; [discriminate|reflexivity]); reflexivity| |reflexivity].
    intros q s n Hr Hn. destruct (dump_to_bufs (mk_Integer 7) q s n) as (q' & E & H);
      [cbn; unfold int_valid; cbn; lia|exact Hr|exact Hn|]. exists q'. split; [exact E|exact H].
Qed.

(** The machine whose handlers run in the event that follows [pre], with what its shards have then
    given to the network channel; a fault where no handler runs. *)
Definition local_out (pre : list (event (D := Integer) (Q := list bytes) (Ex := unit))) (A : nat) ev : res (nat * list (nat * cmsg)) :=
  c0 ← sample_configured; c ← sample_run c0 pre; nd ← of_option OutOfBounds (nodes c !! A);
  M ← sample_step A (mach nd) ev; Ok (A, Machine.network M).
Definition receive_out (pre : list (event (D := Integer) (Q := list bytes) (Ex := unit))) (A p : nat) (k : Z) : res (nat * list (nat * cmsg)) :=
  c0 ← sample_configured; c ← sample_run c0 pre; nd ← of_option OutOfBounds (nodes c !! Z.to_nat k);
  r ← receiver_step (rx (links c A p k));
  match drop (length (handed (rx (links c A p k)))) (handed r) with
  | o :: _ => m ← message_of o; M ← sample_step (Z.to_nat k) (mach nd) (Invoke (first_shard A p k) (Send m)); Ok (Z.to_nat k, Machine.network M)
  | [] => Fault OutOfBounds
  end.
Definition event_out (pre : list (event (D := Integer) (Q := list bytes) (Ex := unit))) (ev : event (D := Integer) (Q := list bytes) (Ex := unit)) : res (nat * list (nat * cmsg)) :=
  match ev with Local A ev => local_out pre A ev | Receive A p k => receive_out pre A p k | _ => Fault OutOfBounds end.

Lemma makes_out pre ev c0 c A M :
  sample_configured = Ok c0 -> sample_run c0 pre = Ok c ->
  makes None value exception [] no_disabled two_nodes two_sharded first_shard c ev A M -> event_out pre ev = Ok (A, Machine.network M).
Proof.
  intros E0 E HM. destruct HM as [A ev nd M Hnd HM|A p k nd r o m M Hnd Hr Hh Hm HM]; cbn [event_out]; unfold local_out, receive_out;
    rewrite E0; cbn [mbind res_bind]; rewrite E; cbn [mbind res_bind]; rewrite Hnd; cbn [of_option mbind res_bind].
  - now rewrite HM.
  - rewrite Hr. cbn [mbind res_bind]. rewrite Hh, drop_app_length, Hm. cbn [mbind res_bind]. now rewrite HM.
Qed.

Lemma sample_outs :
  imap (fun i ev => event_out (take i sample_events) ev) sample_events =
    [Ok (0%nat, [(0%nat, sample_msg)]); Fault OutOfBounds; Fault OutOfBounds; Fault OutOfBounds; Fault OutOfBounds; Fault OutOfBounds;
     Fault OutOfBounds; Ok (1%nat, []); Fault OutOfBounds; Ok (0%nat, [(0%nat, sample_msg); (0%nat, sample_msg)]); Fault OutOfBounds; Fault OutOfBounds].
Proof. vm_compute. reflexivity. Qed.

Lemma sample_makes_well pre ev post c0 c A M :
  sample_events = pre ++ ev :: post -> sample_configured = Ok c0 -> sample_run c0 pre = Ok c ->
  makes None value exception [] no_disabled two_nodes two_sharded first_shard c ev A M -> sent_well no_string two_nodes two_sharded A M.
Proof.
  intros Eq E0 E HM. pose proof (makes_out _ _ _ _ _ _ E0 E HM) as Ho. unfold sent_well.
  assert (H : imap (fun i ev => event_out (take i sample_events) ev) sample_events !! length pre = Some (Ok (A, Machine.network M))).
  { rewrite list_lookup_imap, Eq, list_lookup_middle by done. cbn [fmap option_fmap option_map]. now rewrite take_app_length, Ho. }
  rewrite sample_outs in H. clear -H. generalize dependent (Machine.network M). intros out H.
  destruct (length pre) as [|[|[|[|[|[|[|[|[|[|[|[|i]]]]]]]]]]]]; cbn [lookup list_lookup] in H; try discriminate H; injection H as <- <-;
    repeat constructor; apply sample_sent_well.
Qed.

End ClusterExamples.
