(* ===== verification/Typing.v ===== *)
(** * Well-typed messages

    The C++ code casts an [actor_message] to the class that its header announces, without a
    check: [root_actor_group::receive] reads the payload of an EXCEPTION_RESPONSE as a
    [simple_string] (src/src/core/root_actor_group.cc), [send_and_wait] the payload of a response
    as a [serializable_queue] when the header says that it came over the network, and as the
    return type when it did not (src/include/hiactor/core/actor_client.hh); both index the promise
    table with an id out of the header.  This file gives messages a type system of which these casts and
    accesses are the elimination rules, and proves it sound for the engines of a machine: a well-typed call
    of an engine never fails and leaves every message well typed, wherever it went.

    A message is typed against the sizes of the promise tables of all shards, its world: tables only
    grow, so a message stays well typed. *)
From S2P Require Import Prelude NetworkConfig.
From S2P Require Import Bytes Address Message PromiseManager Actor Group.
From S2P Require Import MessageQueue Channels Engine Machine.
From S2P Require Connection Cluster.

(** ** The promise table: its ids stay in range

    Weaker than [PromiseManager.wf], and kept even by the calls that put an id into the free list twice. *)
Section Tables.
Context {P V Ex : Type}.
Variable new_promise : P.
Variable promise_set_value : P -> V -> P.
Variable promise_set_exception : P -> Ex -> P.
Variable promise_ok : P -> Prop.
Abbreviation pr_manager := (pr_manager (P := P)).

(** The reserved entry 0 is resolved with [value_type{}], a null pointer. *)
Definition entry_ok (size : Z) (i : nat) (n : node (P := P)) : Prop := 0 <= next_avl n < size /\ (i <> 0%nat -> promise_ok (pr n)).
Definition table_ok (m : pr_manager) : Prop :=
  0 <= available m < pr_size m /\ forall i n, pr_array m !! i = Some n -> entry_ok (pr_size m) i n.

Lemma at_id_in m id : table_ok m -> 0 <= id < pr_size m -> exists n, at_id m id = Ok n /\ entry_ok (pr_size m) (Z.to_nat id) n.
Proof.
  intros [_ He] Hid. unfold pr_size in *. destruct (lookup_lt_is_Some_2 (pr_array m) (Z.to_nat id)) as [n Hn]; [lia|].
  exists n. unfold at_id. rewrite Hn. split; [done|]. exact (He _ _ Hn).
Qed.

Lemma table_insert m i n a :
  table_ok m -> entry_ok (pr_size m) i n -> 0 <= a < pr_size m ->
  let m' := mk_pr_manager (<[i := n]> (pr_array m)) a in table_ok m' /\ pr_size m' = pr_size m.
Proof.
  intros [_ He] Hn Ha m'. assert (Hs : pr_size m' = pr_size m) by (unfold pr_size; cbn; now rewrite length_insert).
  split; [|done]. unfold table_ok. rewrite Hs. split; [done|]. intros j k Hj. cbn in Hj.
  apply list_lookup_insert_Some in Hj as [(-> & -> & _)|[_ Hj]]; [done|exact (He _ _ Hj)].
Qed.

Hypothesis new_ok : promise_ok new_promise.

Lemma acquire_table m : table_ok m ->
  exists id m', acquire_pr new_promise m = Ok (id, m') /\ table_ok m' /\ 0 <= id < pr_size m' /\ pr_size m <= pr_size m'.
Proof using new_ok.
  intros Ht. pose proof Ht as [Ha He]. unfold acquire_pr. destruct (Z.eqb_spec (available m) 0) as [E|E].
  - eexists _, _. split; [reflexivity|]. unfold table_ok, pr_size in *. cbn [pr_array available]. rewrite length_app. cbn [length].
    assert (Hu : 0 <= u32 (Z.of_nat (length (pr_array m) + 1) - 1) <= Z.of_nat (length (pr_array m)))
      by (unfold u32, wrap; split; [apply Z.mod_pos_bound; lia|]; etransitivity; [apply Z.mod_le; lia|lia]).
    split; [|lia]. split; [lia|]. intros i n Hi. apply lookup_app_Some in Hi as [Hi|[_ Hi]].
    + destruct (He _ _ Hi) as [H1 H2]. split; [lia|done].
    + apply list_lookup_singleton_Some in Hi as [_ <-]. split; [cbn; lia|intros _; exact new_ok].
  - destruct (at_id_in m (available m) Ht Ha) as (n & En & Hn). rewrite En. cbn [mbind res_bind]. eexists _, _. split; [reflexivity|].
    destruct (table_insert m (Z.to_nat (available m)) (occupy new_promise n) (next_avl n) Ht) as [H1 H2].
    + split; [apply Hn|intros _; exact new_ok].
    + apply Hn.
    + rewrite H2. split; [done|]. lia.
Qed.

Lemma remove_table m id : table_ok m -> 0 <= id < pr_size m ->
  exists m', remove_pr m id = Ok m' /\ table_ok m' /\ pr_size m' = pr_size m.
Proof.
  intros Ht Hid. unfold remove_pr. destruct (at_id_in m id Ht Hid) as (n & -> & Hn). cbn [mbind res_bind]. eexists. split; [reflexivity|].
  apply table_insert; [done| |done]. split; [exact (proj1 Ht)|exact (proj2 Hn)].
Qed.

Lemma is_active_in m id : table_ok m -> 0 <= id < pr_size m -> exists a, is_active m id = Ok a.
Proof. intros Ht Hid. unfold is_active. destruct (at_id_in m id Ht Hid) as (n & -> & _). cbn. eauto. Qed.

Lemma set_value_table m id v : table_ok m -> 0 <= id < pr_size m -> (forall p, promise_ok p -> promise_ok (promise_set_value p v)) ->
  exists m', set_value promise_set_value m id v = Ok m' /\ table_ok m' /\ pr_size m' = pr_size m.
Proof.
  intros Ht Hid Hv. unfold set_value. destruct (at_id_in m id Ht Hid) as (n & -> & Hn). cbn [mbind res_bind]. eexists. split; [reflexivity|].
  apply table_insert; [done| |exact (proj1 Ht)]. split; [exact (proj1 Hn)|intros Hi; now apply Hv, Hn].
Qed.

Hypothesis exception_ok : forall p x, promise_ok p -> promise_ok (promise_set_exception p x).

Lemma set_exception_table m id x : table_ok m -> 0 <= id < pr_size m ->
  exists m', set_exception promise_set_exception m id x = Ok m' /\ table_ok m' /\ pr_size m' = pr_size m.
Proof using exception_ok.
  intros Ht Hid. unfold set_exception. destruct (at_id_in m id Ht Hid) as (n & -> & Hn). cbn [mbind res_bind]. eexists. split; [reflexivity|].
  apply table_insert; [done| |exact (proj1 Ht)]. split; [exact (proj1 Hn)|intros Hi; now apply exception_ok, Hn].
Qed.

Lemma cancel_loop_table x fuel : forall id m, table_ok m -> Z.of_nat (id + fuel) <= pr_size m ->
  exists m', cancel_loop promise_set_exception x fuel id m = Ok m' /\ table_ok m' /\ pr_size m' = pr_size m.
Proof using exception_ok.
  induction fuel as [|fuel IH]; intros id m Ht Hid; cbn [cancel_loop]; [eauto|].
  destruct (is_active_in m (Z.of_nat id) Ht) as [a ->]; [lia|]. cbn [mbind res_bind]. destruct a; cbn [mbind res_bind].
  - destruct (set_exception_table m (Z.of_nat id) x Ht) as (m1 & -> & H1 & S1); [lia|]. cbn [mbind res_bind].
    destruct (remove_table m1 (Z.of_nat id) H1) as (m2 & -> & H2 & S2); [lia|]. cbn [mbind res_bind].
    destruct (IH (S id) m2 H2) as (m3 & E & H3 & S3); [lia|]. exists m3. split; [done|]. split; [done|]. congruence.
  - apply IH; [done|lia].
Qed.

Lemma cancel_table x m : table_ok m ->
  exists m', cancel_uncompleted promise_set_exception x m = Ok m' /\ table_ok m' /\ pr_size m' = pr_size m.
Proof using exception_ok. intros Ht. apply cancel_loop_table; [done|]. unfold pr_size. lia. Qed.
End Tables.

(** ** The types *)
Section Types.
Context {D Q P Sem : Type} {SM : Semaphore Sem}.
Abbreviation emsg := (emsg (D := D) (Q := Q)).
Abbreviation eout := (eout (D := D) (Q := Q)).
Abbreviation engine := (engine (D := D) (Q := Q) (P := P) (Sem := Sem)).

(** The header's [from_network] tells the class of the object apart. *)
Definition class_ok (m : emsg) : Prop :=
  match from_network (e_hdr m), e_data m with
  | _, NoData | true, Net _ | false, Str _ | false, Data _ => True
  | _, _ => False
  end.
(** A response holds a value, or nothing (the answer to [cancel_scope_request]); from the network it is bytes. *)
Definition response_ok (m : emsg) : Prop :=
  match from_network (e_hdr m), e_data m with
  | true, Net _ | false, NoData | false, Data _ => True
  | _, _ => False
  end.
(** The payload is of the type that [as_ret] casts to and [load] loads. *)
Definition of_type {R} (as_ret : edata (D := D) (Q := Q) -> option R) (load : Q -> res R) (d : edata (D := D) (Q := Q)) : Prop :=
  match d with Net q => exists r, load q = Ok r | _ => is_Some (as_ret d) end.

(** A world: the size of every shard's promise table. *)
Definition world : Type := Z -> Z.
Definition grows (W W' : world) : Prop := forall g, W g <= W' g.

(** A message to the root actor of shard [g]. *)
Definition root_ok (W : world) (g : Z) (m : emsg) : Prop :=
  (Message.m_type (e_hdr m) = RESPONSE /\ 0 <= pr_id (e_hdr m) < W g /\ response_ok m) \/
  (Message.m_type (e_hdr m) = EXCEPTION_RESPONSE /\ 0 <= pr_id (e_hdr m) < W g /\ exists s, e_data m = Str s) \/
  Message.m_type (e_hdr m) = PEACE_STOP \/ Message.m_type (e_hdr m) = FORCE_STOP.

(** [well_typed W g m]: to shard [g]; what is sent to actors says where its answer is expected. *)
Record well_typed_to (W : world) (g : Z) (m : emsg) : Prop := {
  wt_shard : in_u 32 g;
  wt_path : exists cs, repr (addr (e_hdr m)) g cs /\ Forall scope_ok cs;
  wt_class : class_ok m;
  wt_root : to_root m -> root_ok W g m;
  wt_reply : ~ to_root m -> pr_id (e_hdr m) = 0 \/ (in_u 32 (src_shard_id (e_hdr m)) /\ 0 <= pr_id (e_hdr m) < W (src_shard_id (e_hdr m)))
}.
Definition well_typed (W : world) (m : emsg) : Prop := exists g, well_typed_to W g m.

Definition output_typed (W : world) (o : eout) : Prop :=
  match o with EDeliver _ _ m | ESendLocal m | ESendNet m => well_typed W m | _ => True end.

Lemma root_ok_mono W W' g m : grows W W' -> root_ok W g m -> root_ok W' g m.
Proof. intros Hg. specialize (Hg g). unfold root_ok. intros [(? & ? & ?)|[(? & ? & ?)|?]]; [left|right; left|now do 2 right]; split_and!; lia || done. Qed.
Lemma well_typed_to_mono W W' g m : grows W W' -> well_typed_to W g m -> well_typed_to W' g m.
Proof.
  intros Hg [H1 H2 H3 H4 H5]. split; [done..| |]; intros Hr.
  - eapply root_ok_mono; eauto.
  - destruct (H5 Hr) as [?|[? ?]]; [now left|right]. specialize (Hg (src_shard_id (e_hdr m))). split; [done|lia].
Qed.
Lemma output_typed_mono W W' o : grows W W' -> output_typed W o -> output_typed W' o.
Proof. intros Hg. destruct o; cbn; try done; intros [g H]; exists g; eapply well_typed_to_mono; eassumption. Qed.

Lemma well_typed_to_shard W g m : well_typed_to W g m -> get_shard_id (addr (e_hdr m)) = Ok g.
Proof. intros [Hg (cs & R & _) _ _ _]. rewrite (repr_get_shard _ _ _ R). f_equal. unfold in_u in Hg. apply u32_small. lia. Qed.

(** ** Seastar's promise: what its future is resolved with, if it is *)
Variable new_promise : P.
Variable promise_set_value : P -> emsg -> P.
Variable promise_set_exception : P -> ex -> P.
Variable resolved : P -> option (ex + emsg).
Definition promise_typed (p : P) : Prop := forall m, resolved p = Some (inr m) -> response_ok m.
Hypothesis resolved_new : resolved new_promise = None.
Hypothesis resolved_value : forall p m, resolved (promise_set_value p m) = Some (inr m) \/ resolved (promise_set_value p m) = resolved p.
Hypothesis resolved_exception : forall p x, resolved (promise_set_exception p x) = Some (inl x) \/ resolved (promise_set_exception p x) = resolved p.

Lemma new_typed : promise_typed new_promise.
Proof using resolved_new. unfold promise_typed. rewrite resolved_new. done. Qed.
Lemma value_typed p m : response_ok m -> promise_typed p -> promise_typed (promise_set_value p m).
Proof using resolved_value. intros Hm Hp m'. destruct (resolved_value p m) as [-> | ->]; [congruence|apply Hp]. Qed.
Lemma exception_typed p x : promise_typed p -> promise_typed (promise_set_exception p x).
Proof using resolved_exception. intros Hp m'. destruct (resolved_exception p x) as [-> | ->]; [congruence|apply Hp]. Qed.

(** ** The engine of shard [this_gsid] *)
Variable this_gsid num_shards : Z.
Variable is_local : Z -> bool.
Variable disabled_below : Z -> emsg -> bool.
Variable canceled_text : bytes.
Hypothesis this_shard : in_u 32 this_gsid.

Record engine_typed (W : world) (e : engine) : Prop := {
  et_table : table_ok promise_typed (response_pr_manager e);
  et_size : pr_size (response_pr_manager e) = W this_gsid;
  et_alive : forall id, id ∈ alive e -> is_Some (inst_map e !! id);
  et_trace : Forall (output_typed W) (trace e)
}.
(** A call may make this shard's table larger, and no other. *)
Definition extended (W W' : world) : Prop := grows W W' /\ forall g, g <> this_gsid -> W' g = W g.
Definition succeeds (W : world) (r : res engine) : Prop := exists e, r = Ok e /\ engine_typed W e.

Lemma emit_typed W os e : Forall (output_typed W) os -> engine_typed W e -> engine_typed W (emit os e).
Proof. intros Ho [H1 H2 H3 H4]. split; [done..|]. cbn. now apply Forall_app. Qed.
Lemma emit1_typed W o e : output_typed W o -> engine_typed W e -> engine_typed W (emit [o] e).
Proof. intros Ho. apply emit_typed. now apply Forall_singleton. Qed.
Lemma with_pm_typed W pm e :
  table_ok promise_typed pm -> pr_size pm = pr_size (response_pr_manager e) -> engine_typed W e -> engine_typed W (with_pm pm e).
Proof. intros Ht Hs [H1 H2 H3 H4]. split; cbn; [done|congruence|done..]. Qed.

Lemma stop_actor_system_typed W force e : engine_typed W e -> succeeds W (stop_actor_system promise_set_exception force e).
Proof using resolved_exception.
  intros He. unfold succeeds, stop_actor_system. destruct (negb _); [eauto|]. pose proof He as [H1 H2 H3 H4].
  destruct (cancel_table promise_set_exception promise_typed exception_typed TaskCanceled _ H1) as (pm & E & Hpm & Hs).
  cbn [response_pr_manager with_status]. rewrite E. cbn [mbind res_bind]. eexists. split; [reflexivity|].
  assert (Hc : engine_typed W (stop_children force (with_pm pm (with_status (if force then FORCE_STOPPING else PEACE_STOPPING) e)))).
  { split; cbn; [done|congruence| |].
    - intros id Hid. destruct (H3 id Hid) as [b Hb]. rewrite lookup_fmap, Hb. eauto.
    - apply Forall_app. split; [done|]. now apply Forall_fmap, Forall_true. }
  destruct (_ =? 0); [now apply emit1_typed|done].
Qed.

Lemma stop_types_differ : RESPONSE <> EXCEPTION_RESPONSE /\ RESPONSE <> PEACE_STOP /\ RESPONSE <> FORCE_STOP /\
  EXCEPTION_RESPONSE <> PEACE_STOP /\ EXCEPTION_RESPONSE <> FORCE_STOP /\ PEACE_STOP <> FORCE_STOP.
Proof. split_and!; discriminate. Qed.

Lemma receive_root_typed W m e :
  well_typed W m -> root_ok W this_gsid m -> engine_typed W e -> succeeds W (receive_root promise_set_value promise_set_exception m e).
Proof using resolved_value resolved_exception.
  intros Hm Hr He. pose proof He as [H1 H2 _ _]. unfold root_ok in Hr. rewrite <-H2 in Hr. unfold succeeds, receive_root.
  assert (Hdel : forall e', engine_typed W e' -> exists e2, Ok (emit [EDeleted m] e') = Ok e2 /\ engine_typed W e2)
    by (intros e' He'; eexists; split; [reflexivity|now apply emit1_typed]).
  assert (Hstop : forall force, exists e2, (e1 ← stop_actor_system promise_set_exception force e; Ok (emit [EDeleted m] e1)) = Ok e2 /\ engine_typed W e2).
  { intros force. destruct (stop_actor_system_typed W force e He) as (e1 & -> & He1). now apply Hdel. }
  destruct Hr as [(-> & Hid & Hp)|[(-> & Hid & s & Hs)|[-> | ->]]]; cbn [Z.eqb RESPONSE EXCEPTION_RESPONSE PEACE_STOP FORCE_STOP Pos.eqb]; [| |apply Hstop..].
  - destruct (is_active_in _ _ _ H1 Hid) as [a ->]. cbn [mbind res_bind]. destruct a; [|now apply Hdel].
    destruct (set_value_table promise_set_value promise_typed _ _ m H1 Hid) as (pm & -> & Hpm & Hsz); [now intros p; apply value_typed|].
    cbn [mbind res_bind]. eexists. split; [reflexivity|]. now apply with_pm_typed.
  - destruct (is_active_in _ _ _ H1 Hid) as [a ->]. cbn [mbind res_bind]. destruct a; [|now apply Hdel]. rewrite Hs.
    destruct (set_exception_table promise_set_exception promise_typed exception_typed _ _ (MethodException s) H1 Hid) as (pm & -> & Hpm & Hsz).
    cbn [mbind res_bind]. apply Hdel. now apply with_pm_typed.
Qed.

(** The answer to a request that was refused. *)
Lemma stopped_actor_enqueue_typed W m e :
  well_typed W m -> ~ to_root m -> engine_typed W e ->
  succeeds W (stopped_actor_enqueue this_gsid is_local canceled_text (receive_root promise_set_value promise_set_exception) m e).
Proof using resolved_value resolved_exception.
  intros Hm Hr He. pose proof Hm as [g Hg]. unfold stopped_actor_enqueue. destruct (Z.eqb_spec (pr_id (e_hdr m)) 0) as [Hz|Hz]; cbn [mbind res_bind].
  { eexists. split; [reflexivity|]. now apply emit1_typed. }
  destruct (wt_reply _ _ _ Hg Hr) as [?|[Hsrc Hid]]; [done|].
  destruct (response_address (src_shard_id (e_hdr m)) (pr_id (e_hdr m)) EXCEPTION_RESPONSE) as (h & -> & R & Hp & Ht & Hn). cbn [mbind res_bind].
  set (r := mk_emsg h (Str canceled_text)). assert (Hroot : root_ok W (src_shard_id (e_hdr m)) r).
  { right. left. cbn [e_hdr e_data r]. rewrite Hp. eauto. }
  assert (Hr2 : well_typed_to W (src_shard_id (e_hdr m)) r).
  { split; [done|exists []; split; [exact R|constructor]|unfold class_ok; cbn; now rewrite Hn|done|].
    intros Hnr. destruct Hnr. unfold to_root. cbn. rewrite (repr_length _ _ _ R). done. }
  unfold send_with. rewrite (well_typed_to_shard _ _ _ Hr2). cbn [mbind res_bind].
  destruct (Z.eqb_spec (src_shard_id (e_hdr m)) this_gsid) as [E|E]; cbn [negb mbind res_bind].
  - rewrite E in Hroot. destruct (receive_root_typed W r e ltac:(eexists; exact Hr2) Hroot He) as (e1 & -> & He1). cbn [mbind res_bind].
    eexists. split; [reflexivity|]. now apply emit1_typed.
  - eexists. split; [reflexivity|]. apply emit1_typed; [done|]. apply emit1_typed; [|done]. destruct (is_local _); eexists; exact Hr2.
Qed.

Abbreviation receive := (Engine.receive promise_set_value promise_set_exception this_gsid is_local disabled_below canceled_text).
Abbreviation send := (Engine.send promise_set_value promise_set_exception this_gsid is_local disabled_below canceled_text).

Lemma create_child_typed W m c cs g id e :
  repr (addr (e_hdr m)) g (c :: cs) -> scope_ok c -> engine_typed W e -> succeeds W (create_child id m e).
Proof.
  intros R Hc [H1 H2 H3 H4]. destruct (repr_child _ _ _ 0 c R eq_refl Hc) as [_ Hty]. change (Z.of_nat (4 + 6 * 0)) with total_addr_length in Hty.
  unfold create_child. rewrite Hty. cbn [mbind res_bind]. cbv zeta. destruct (sem_wait _ id) as [s av]. set (e1 := with_sem s _).
  assert (He1 : engine_typed W e1).
  { split; cbn; [done..| |].
    - intros id'. rewrite elem_of_union, elem_of_singleton, lookup_insert_is_Some'. intros [->|?]; [now left|right; auto].
    - apply Forall_app. split; [done|now apply Forall_singleton]. }
  eexists. split; [reflexivity|]. destruct av; [now apply emit1_typed|done].
Qed.

(** Receiving a well-typed message for this shard. *)
Lemma receive_typed W m e : well_typed_to W this_gsid m -> engine_typed W e -> succeeds W (receive m e).
Proof using resolved_value resolved_exception.
  intros Hg He. assert (Hm : well_typed W m) by (eexists; exact Hg). rewrite receive_eq. unfold receive_step.
  destruct (Z.eqb_spec (addr_length (addr (e_hdr m))) total_addr_length) as [E|E]; [now apply receive_root_typed, He; [|now apply Hg]|].
  pose proof Hg as [_ (cs & R & Hcs) _ _ _]. destruct cs as [|c cs]; [now destruct E; rewrite (repr_length _ _ _ R)|].
  apply Forall_cons in Hcs as [Hc _]. destruct (repr_child _ _ _ 0 c R eq_refl Hc) as [Hid _]. change (Z.of_nat (4 + 6 * 0)) with total_addr_length in Hid.
  rewrite Hid. cbn [mbind res_bind].
  assert (Hdel : forall e', engine_typed W e' -> succeeds W (Ok (deliver (cell_key c) m e')))
    by (intros e' He'; eexists; split; [reflexivity|]; unfold deliver; now apply emit1_typed).
  destruct (inst_map e !! cell_key c) as [[]|]; [|now apply stopped_actor_enqueue_typed|].
  - destruct (_ || _); [now apply Hdel|now apply stopped_actor_enqueue_typed].
  - destruct (negb _); [now apply stopped_actor_enqueue_typed|].
    destruct (create_child_typed W m c cs _ (cell_key c) e R Hc He) as (e1 & -> & He1). now apply Hdel.
Qed.

Lemma send_typed W m e : well_typed W m -> engine_typed W e -> succeeds W (send m e).
Proof using resolved_value resolved_exception.
  intros [g Hg] He. unfold Engine.send, send_with. rewrite (well_typed_to_shard _ _ _ Hg). cbn [mbind res_bind].
  destruct (Z.eqb_spec g this_gsid) as [->|Hne]; cbn [negb]; [now apply receive_typed|].
  eexists. split; [reflexivity|]. apply emit1_typed; [|done]. destruct (is_local g); now exists g.
Qed.

(** ** Calls by actor clients *)
Lemma u32_in x : in_u 32 (u32 x).
Proof. unfold in_u, u32, wrap. apply Z.mod_pos_bound. lia. Qed.

(** A stop message to an actor or to the actor system. *)
Lemma stop_typed W a g cs src id force :
  repr a g cs -> in_u 32 g -> Forall scope_ok cs -> id = 0 \/ (in_u 32 src /\ 0 <= id < W src) ->
  well_typed_to W g (mk_emsg (mk_header a 0 src id (stop_type force) false) NoData).
Proof.
  intros R Hg Hcs Hid. split; [done|exists cs; done|done| |intros _; exact Hid].
  intros _. do 2 right. destruct force; [right|left]; done.
Qed.

Lemma on_shard_typed a g cs sid : repr a g cs -> exists a', on_shard a sid = Ok a' /\ repr a' sid cs.
Proof. intros R. destruct (repr_set_shard _ _ _ sid R) as (d & Hd & R'). unfold on_shard. rewrite Hd. cbn. eauto. Qed.

Lemma broadcast_typed W g cs a force k : forall sid e,
  repr a g cs -> in_u 32 sid -> Forall scope_ok cs -> engine_typed W e ->
  succeeds W (broadcast promise_set_value promise_set_exception this_gsid is_local disabled_below canceled_text k sid a (stop_type force) e).
Proof using resolved_value resolved_exception.
  induction k as [|k IH]; intros sid e R Hs Hcs He; cbn [broadcast]; [now exists e|].
  destruct (on_shard_typed a g cs sid R) as (a' & -> & R'). cbn [mbind res_bind].
  destruct (send_typed W (mk_emsg (mk_header a' 0 0 0 (stop_type force) false) NoData) e) as (e1 & -> & He1); [|done|].
  - exists sid. eapply stop_typed; eauto.
  - cbn [mbind res_bind]. apply IH; [done|apply u32_in|done..].
Qed.

(** Acquiring a promise may make the table larger. *)
Definition enlarged (W : world) (size : Z) : world := fun g => if g =? this_gsid then size else W g.
Lemma enlarged_extends W size : W this_gsid <= size -> extended W (enlarged W size).
Proof.
  intros Hs. unfold enlarged. split; intros g; destruct (Z.eqb_spec g this_gsid) as [->|]; done || lia.
Qed.
Lemma extended_trans W1 W2 W3 : extended W1 W2 -> extended W2 W3 -> extended W1 W3.
Proof. intros [G1 E1] [G2 E2]. split; intros g; [specialize (G1 g); specialize (G2 g); lia|intros Hg; now rewrite E2, E1]. Qed.
Lemma extended_refl W : extended W W.
Proof. split; [intros g; lia|done]. Qed.

Lemma acquire_typed W e : engine_typed W e ->
  exists id pm W', acquire_pr new_promise (response_pr_manager e) = Ok (id, pm) /\ extended W W' /\
    0 <= id < W' this_gsid /\ engine_typed W' (with_pm pm e).
Proof using resolved_new.
  intros [H1 H2 H3 H4]. destruct (acquire_table new_promise promise_typed new_typed _ H1) as (id & pm & E & Hpm & Hid & Hs).
  assert (Hx : extended W (enlarged W (pr_size pm))) by (apply enlarged_extends; congruence).
  assert (Hsz : enlarged W (pr_size pm) this_gsid = pr_size pm) by (unfold enlarged; now rewrite Z.eqb_refl).
  exists id, pm, (enlarged W (pr_size pm)). split; [done|]. split; [done|]. rewrite Hsz. split; [done|]. split; cbn; [done|done|done|].
  eapply Forall_impl; [exact H4|]. intros o. apply output_typed_mono, Hx.
Qed.

Lemma cancel_requests_typed g cs a force k : forall W sid e,
  repr a g cs -> in_u 32 sid -> Forall scope_ok cs -> engine_typed W e ->
  exists W' ids e', cancel_requests new_promise promise_set_value promise_set_exception this_gsid is_local disabled_below canceled_text
      k sid a (stop_type force) e = Ok (ids, e') /\ extended W W' /\ engine_typed W' e'.
Proof using resolved_new resolved_value resolved_exception this_shard.
  induction k as [|k IH]; intros W sid e R Hs Hcs He; cbn [cancel_requests]; [exists W, [], e; auto using extended_refl|].
  destruct (on_shard_typed a g cs sid R) as (a' & -> & R'). cbn [mbind res_bind].
  destruct (acquire_typed W e He) as (id & pm & W1 & -> & Hx & Hid & He1). cbn [mbind res_bind].
  destruct (send_typed W1 (mk_emsg (mk_header a' 0 this_gsid id (stop_type force) false) NoData) (with_pm pm e)) as (e2 & -> & He2); [|done|].
  - exists sid. eapply stop_typed; eauto.
  - cbn [mbind res_bind]. destruct (IH W1 (u32 (sid + 1)) e2 R (u32_in _) Hcs He2) as (W2 & ids & e3 & -> & Hx2 & He3).
    cbn [mbind res_bind]. exists W2, (id :: ids), e3. split; [done|]. split; [eapply extended_trans; eassumption|done].
Qed.

(** A request by a client goes to an actor; its payload is not one that came over the network. *)
Definition local_data (d : edata (D := D) (Q := Q)) : Prop := match d with Net _ => False | _ => True end.
Definition request_typed (a : address) (d : edata (D := D) (Q := Q)) : Prop :=
  local_data d /\ exists g c cs, in_u 32 g /\ repr a g (c :: cs) /\ Forall scope_ok (c :: cs).

Lemma client_request_typed W a b d t e : request_typed a d -> engine_typed W e ->
  exists W' id e', client_request new_promise promise_set_value promise_set_exception this_gsid is_local disabled_below canceled_text a b d t e = Ok (id, e') /\
    extended W W' /\ 0 <= id < W' this_gsid /\ engine_typed W' e'.
Proof using resolved_new resolved_value resolved_exception this_shard.
  intros (Hd & g & c & cs & Hg & R & Hcs) He. unfold client_request.
  destruct (acquire_typed W e He) as (id & pm & W1 & -> & Hx & Hid & He1). cbn [mbind res_bind].
  destruct (send_typed W1 (mk_emsg (mk_header a b this_gsid id t false) d) (with_pm pm e)) as (e2 & -> & He2); [|done|].
  - exists g. split; [done|exists (c :: cs); done|destruct d; done| |intros _; right; split; done].
    intros Hr. unfold to_root in Hr. cbn [e_hdr addr] in Hr. rewrite (repr_length _ _ _ R) in Hr.
    unfold total_addr_length, GShardIdInBytes in Hr. cbn [length] in Hr. lia.
  - cbn [mbind res_bind]. eauto 8.
Qed.

(** The continuation of a request: what its future was resolved with is read as what it is. *)
Lemma continue_typed {R} (as_ret : edata (D := D) (Q := Q) -> option R) (load : Q -> res R) W id failed result e :
  (forall m, failed = None -> result = inr m -> of_type as_ret load (e_data m)) ->
  0 <= id < pr_size (response_pr_manager e) ->
  (forall m, result = inr m -> response_ok m) -> engine_typed W e ->
  exists r e', send_and_wait_done as_ret load id failed result e = Ok (r, e') /\ engine_typed W e'.
Proof.
  intros Hty Hid Hr He. unfold send_and_wait_done. destruct (remove_table promise_typed _ id (et_table _ _ He) Hid) as (pm & -> & Hpm & Hs).
  cbn [mbind res_bind]. cbv zeta. pose proof (with_pm_typed W pm e Hpm Hs He) as He1. destruct failed; [eauto|]. destruct result as [x|m]; [eauto|].
  pose proof (Hr m eq_refl) as Hok. unfold response_ok in Hok. specialize (Hty m eq_refl eq_refl). unfold of_type in Hty.
  destruct (from_network (e_hdr m)), (e_data m) as [|s|d|q]; cbn [negb]; try done;
    destruct Hty as [r ->]; cbn [of_option mbind res_bind]; do 2 eexists; (split; [reflexivity|]); now apply emit1_typed.
Qed.
End Types.

(** ** The machine *)
Section Machine.
Context {D Q P Sem R : Type} {SM : Semaphore Sem} {SQ : Spsc R (emsg (D := D) (Q := Q))}.
Abbreviation emsg := (emsg (D := D) (Q := Q)).
Abbreviation engine := (engine (D := D) (Q := Q) (P := P) (Sem := Sem)).
Abbreviation machine := (machine (D := D) (Q := Q) (P := P) (Sem := Sem) (R := R)).
Variable new_promise : P.
Variable promise_set_value : P -> emsg -> P.
Variable promise_set_exception : P -> ex -> P.
Variable resolved : P -> option (ex + emsg).
Hypothesis resolved_new : resolved new_promise = None.
Hypothesis resolved_value : forall p m, resolved (promise_set_value p m) = Some (inr m) \/ resolved (promise_set_value p m) = resolved p.
Hypothesis resolved_exception : forall p x, resolved (promise_set_exception p x) = Some (inl x) \/ resolved (promise_set_exception p x) = resolved p.
Variable disabled_below : nat -> Z -> emsg -> bool.
Variable canceled_text : bytes.
Variable n : nat.
Variable anchor num_shards : Z.
Hypothesis Hanchor : 0 <= anchor.
Hypothesis Hshards : anchor + Z.of_nat n <= 4294967296.
(** The tables of the shards of other machines. *)
Variable remote : world.

Abbreviation gsid := (gsid anchor).
Abbreviation call_engine := (call_engine new_promise promise_set_value promise_set_exception disabled_below canceled_text n anchor num_shards).
Abbreviation invoke := (invoke new_promise promise_set_value promise_set_exception disabled_below canceled_text n anchor num_shards).
Abbreviation receive_all := (receive_all new_promise promise_set_value promise_set_exception disabled_below canceled_text n anchor num_shards).
Abbreviation poll_shards := (poll_shards new_promise promise_set_value promise_set_exception disabled_below canceled_text n anchor num_shards).
Abbreviation step := (Machine.step new_promise promise_set_value promise_set_exception disabled_below canceled_text n anchor num_shards).
Abbreviation run := (Machine.run new_promise promise_set_value promise_set_exception disabled_below canceled_text n anchor num_shards).
Abbreviation conserved := (conserved (R := R) n anchor).

Definition call_typed (W : world) (sid : nat) (e : engine) (c : call) : Prop :=
  match c with
  | Send m => well_typed W m
  | Receive m => well_typed_to W (gsid sid) m
  | Request a _ d _ => request_typed a d
  | CancelScope b _ | CancelScopeRequest b _ => exists g cs, repr (ScopeBuilder.addr b) g cs /\ Forall scope_ok cs
  | Exit _ | StopChild _ _ | Gone _ => True
  | Continue id as_ret load failed result => 0 < id < pr_size (response_pr_manager e) /\
      forall m, result = inr m -> (exists p, get_future (response_pr_manager e) id = Ok p /\ resolved p = Some (inr m)) /\ (failed = None -> of_type as_ret load (e_data m))
  end.

Lemma gsid_in sid : (sid < n)%nat -> in_u 32 (gsid sid).
Proof using Hanchor Hshards. unfold in_u, Machine.gsid. lia. Qed.

Lemma promise_in_table (pm : pr_manager (P := P)) id p : table_ok (promise_typed resolved) pm -> 0 < id -> get_future pm id = Ok p -> promise_typed resolved p.
Proof.
  intros [_ He] Hid H. unfold get_future, at_id in H. destruct (pr_array pm !! Z.to_nat id) as [nd|] eqn:E; cbn in H; [|done]. injection H as <-.
  apply (proj2 (He _ _ E)). lia.
Qed.

Lemma call_typed_ok W sid c e : (sid < n)%nat -> call_typed W sid e c -> engine_typed resolved (gsid sid) W e ->
  exists W' e', call_engine sid c e = Ok e' /\ extended (gsid sid) W W' /\ engine_typed resolved (gsid sid) W' e'.
Proof using All.
  intros Hs Hc He. pose proof (gsid_in sid Hs) as Hg.
  assert (Hsame : forall r : res engine, succeeds resolved (gsid sid) W r -> exists W' e', r = Ok e' /\ extended (gsid sid) W W' /\ engine_typed resolved (gsid sid) W' e')
    by (intros r (e' & -> & He'); exists W, e'; auto using extended_refl).
  destruct c as [m|m|a b d t|b force|b force|force|id force|id|id as_ret load failed result]; cbn [call_typed Machine.call_engine] in *.
  - apply Hsame. now apply send_typed.
  - apply Hsame. now apply receive_typed.
  - destruct (client_request_typed new_promise promise_set_value promise_set_exception resolved resolved_new resolved_value resolved_exception
      (gsid sid) (is_local (info n anchor num_shards)) (disabled_below sid) canceled_text Hg W a b d t e Hc He) as (W' & id & e' & -> & Hx & _ & He').
    cbn [mbind res_bind]. eauto.
  - destruct Hc as (g & cs & R' & Hcs). apply Hsame. unfold cancel_scope. eapply broadcast_typed; eauto. done.
  - destruct Hc as (g & cs & R' & Hcs). unfold cancel_scope_request.
    destruct (cancel_requests_typed new_promise promise_set_value promise_set_exception resolved resolved_new resolved_value resolved_exception
      (gsid sid) (is_local (info n anchor num_shards)) (disabled_below sid) canceled_text Hg g cs _ force (Z.to_nat num_shards) W 0 e R' ltac:(done) Hcs He)
      as (W' & ids & e' & -> & Hx & He'). cbn [mbind res_bind]. eauto.
  - apply Hsame. destruct root_address as [sh R']. unfold Engine.exit. eapply broadcast_typed; eauto; done.
  - apply Hsame. cbn [Engine.step]. case_bool_decide as Ha; [|now exists e]. destruct (et_alive _ _ _ _ He id Ha) as [b Eb].
    unfold stop_child_actor. rewrite Eb. cbn [of_option mbind res_bind]. eexists. split; [reflexivity|]. destruct b; [|done].
    destruct He as [H1 H2 H3 H4]. split; cbn; [done..| |].
    + intros id' Hid. rewrite lookup_insert_is_Some'. auto.
    + apply Forall_app. split; [done|now apply Forall_singleton].
  - apply Hsame. cbn [Engine.step]. destruct (_ && _); [|now exists e]. eexists. split; [reflexivity|]. unfold notify_child_stopped. cbv zeta.
    destruct (sem_signal _) as [s woken]. apply emit_typed; [now apply Forall_fmap, Forall_true|]. destruct He as [H1 H2 H3 H4].
    destruct (_ && _); split; cbn; try done; try (intros id' Hid; apply H3; set_solver). apply Forall_app. split; [done|now apply Forall_singleton].
  - destruct Hc as [Hid Hr].
    destruct (continue_typed resolved (gsid sid) as_ret load W id failed result e) as (r & e' & -> & He'); [|lia| |done|].
    + intros m Hf Em. now apply (Hr m Em).
    + intros m Em. destruct (Hr m Em) as [(p & Ep & Hp) _]. exact (promise_in_table _ _ _ (et_table _ _ _ _ He) (proj1 Hid) Ep m Hp).
    + cbn [mbind res_bind]. exists W, e'. auto using extended_refl.
Qed.

(** The tables as they are now. *)
Definition world_of (M : machine) : world := fun g =>
  if (anchor <=? g) && (g <? anchor + Z.of_nat n)
  then match engines M !! Z.to_nat (g - anchor) with Some e => pr_size (response_pr_manager e) | None => 0 end
  else remote g.
Definition machine_typed (M : machine) : Prop :=
  forall sid e, engines M !! sid = Some e -> engine_typed resolved (gsid sid) (world_of M) e.

Lemma world_here M sid e : (sid < n)%nat -> engines M !! sid = Some e -> world_of M (gsid sid) = pr_size (response_pr_manager e).
Proof.
  intros Hs He. unfold world_of, Machine.gsid. rewrite (proj2 (Z.leb_le _ _)), (proj2 (Z.ltb_lt _ _)) by lia. cbn [andb].
  replace (Z.to_nat _) with sid by lia. now rewrite He.
Qed.
Lemma world_elsewhere M M' sid g :
  (forall j, j <> sid -> engines M' !! j = engines M !! j) -> g <> gsid sid -> world_of M' g = world_of M g.
Proof.
  intros Hj Hg. unfold world_of. destruct (Z.leb_spec anchor g), (Z.ltb_spec g (anchor + Z.of_nat n)); cbn [andb]; try done.
  rewrite Hj; [done|]. unfold Machine.gsid in Hg. lia.
Qed.
Lemma engine_typed_mono W W' g (e : engine) : grows W W' -> W' g = W g -> engine_typed resolved g W e -> engine_typed resolved g W' e.
Proof.
  intros Hw Hg [H1 H2 H3 H4]. split; [done|congruence|done|]. eapply Forall_impl; [exact H4|]. intros o. now apply output_typed_mono.
Qed.
Lemma machine_typed_engines M M' : engines M' = engines M -> machine_typed M -> machine_typed M'.
Proof. intros E H sid e He. rewrite E in He. replace (world_of M') with (world_of M); [now apply H|]. unfold world_of. now rewrite E. Qed.

(** What is in a queue, or was popped from it and not handed over yet, was sent by the other shard. *)
Lemma in_transit_typed rx M i j m : (i < n)%nat -> (j < n)%nat -> i <> j -> conserved rx (fun _ => []) M -> machine_typed M ->
  m ∈ rx i j \/ m ∈ contents (_qs (local M) i j) -> well_typed_to (world_of M) (gsid i) m.
Proof using All.
  intros Hi Hj Hij Hc HM Hm. destruct (engine_there _ _ _ _ j M Hj Hc) as [e He].
  assert (Hin : m ∈ sent_to anchor i (trace e)).
  { rewrite (c_local _ _ _ _ _ Hc i j e Hi Hij He). rewrite !elem_of_app. cbn. tauto. }
  unfold sent_to in Hin. apply list_elem_of_omap in Hin as (o & Ho & Em). destruct o; try done.
  destruct (addressed_to (gsid i) m0) eqn:Ea; [|done]. injection Em as ->.
  destruct (Forall_forall (output_typed (world_of M)) (trace e)) as [Hall _]. specialize (Hall (et_trace _ _ _ _ (HM j e He)) _ Ho). cbn in Hall.
  destruct Hall as [g Hg]. unfold addressed_to in Ea. rewrite (well_typed_to_shard _ _ _ Hg) in Ea. apply Z.eqb_eq in Ea. now subst g.
Qed.

Lemma invoke_typed rx sid c M e :
  (sid < n)%nat -> conserved rx (fun _ => []) M -> machine_typed M -> engines M !! sid = Some e -> call_typed (world_of M) sid e c ->
  exists M', invoke sid c M = Ok M' /\ conserved rx (fun _ => []) M' /\ machine_typed M' /\ forall j, _qs (local M') sid j = _qs (local M) sid j.
Proof using All.
  intros Hs Hc HM He Hct. destruct (call_typed_ok _ sid c e Hs Hct (HM sid e He)) as (W' & e' & Ec & [Hgr Hx] & He').
  destruct (invoke_ok new_promise promise_set_value promise_set_exception disabled_below canceled_text n anchor num_shards Hanchor Hshards rx sid c M e e' Hs Hc He Ec)
    as (M' & E & Hc' & Een & _ & Hq). exists M'. split; [done|]. split; [done|]. split; [|done].
  pose proof (lookup_lt_Some _ _ _ He) as Hlt.
  assert (Hother : forall j, j <> sid -> engines M' !! j = engines M !! j) by (intros j Hj; rewrite Een; now apply list_lookup_insert_ne).
  assert (Hself : engines M' !! sid = Some e') by (rewrite Een; now apply list_lookup_insert_eq).
  assert (HW : forall g, world_of M' g = W' g).
  { intros g. destruct (Z.eq_dec g (gsid sid)) as [->|Hne].
    - rewrite (world_here M' sid e' Hs Hself). apply (et_size _ _ _ _ He').
    - rewrite (world_elsewhere M M' sid g Hother Hne). symmetry. now apply Hx. }
  intros j ej Hj. destruct (decide (j = sid)) as [->|Hne].
  - rewrite Hself in Hj. injection Hj as <-. apply (engine_typed_mono W'); [intros g; rewrite HW; lia|apply HW|done].
  - rewrite (Hother j Hne) in Hj. apply (engine_typed_mono (world_of M)); [|apply (world_elsewhere M M' sid); [done|unfold Machine.gsid; lia]|now apply HM].
    intros g. rewrite HW. apply Hgr.
Qed.

Lemma receive_all_typed sid i ms : forall M,
  (sid < n)%nat -> (i < n)%nat -> sid <> i -> conserved (one2 sid i ms) (fun _ => []) M -> machine_typed M ->
  exists M', receive_all sid i ms M = Ok M' /\ quiet n anchor M' /\ machine_typed M' /\ forall j, _qs (local M') sid j = _qs (local M) sid j.
Proof using All.
  induction ms as [|m ms IH]; intros M Hs Hi Hne Hc HM; cbn [Machine.receive_all].
  - exists M. split; [done|]. split; [|done]. eapply conserved_ext; [..|exact Hc]; [|done]. intros k j. unfold one2. now case_decide.
  - assert (Hm : well_typed_to (world_of M) (gsid sid) m).
    { apply (in_transit_typed _ M sid i m Hs Hi Hne Hc HM). left. unfold one2. rewrite decide_True by done. left. }
    apply conserved_log in Hc. destruct (engine_there _ _ _ _ sid _ Hs Hc) as [e He].
    assert (HM' : machine_typed (log sid i m M)) by (now apply (machine_typed_engines M)).
    destruct (invoke_typed _ sid (Receive m) _ e Hs Hc HM' He) as (M1 & -> & Hc1 & HM1 & Hq1); [exact Hm|]. cbn [mbind res_bind].
    destruct (IH M1 Hs Hi Hne Hc1 HM1) as (M2 & -> & Hc2 & HM2 & Hq2). exists M2. split_and!; [done..|]. intros j. now rewrite Hq2, Hq1.
Qed.

Lemma poll_shards_typed sid shards : forall got M,
  (sid < n)%nat -> Forall (fun i => (i < n)%nat) shards -> quiet n anchor M -> machine_typed M ->
  exists got' M', poll_shards shards sid got M = Ok (got', M') /\ quiet n anchor M' /\ machine_typed M'.
Proof using All.
  induction shards as [|i shards IH]; intros got M Hs Hin Hq HM; cbn [Machine.poll_shards]; [eauto|].
  apply Forall_cons in Hin as [Hi Hin]. case_decide as Hne; [|now apply IH]. pose proof Hq as [_ Hch Hcnt _ _].
  rewrite at_ok by lia. cbn [mbind res_bind].
  destruct (process_incoming_ok (_qs (local M) sid i)) as (nr & rxq & -> & Hqr & _ & Hcr); [split; apply Hch; lia|]. cbn [mbind res_bind].
  destruct (receive_all_typed sid i (ring (_pending (_qs (local M) sid i))) (set_local (upd (local M) sid i rxq) M) Hs Hi Hne)
    as (M1 & -> & Hq1 & HM1 & _); [now apply conserved_pop|now apply (machine_typed_engines M)|]. cbn [mbind res_bind].
  pose proof Hq1 as [_ Hch1 Hcnt1 _ _]. rewrite at_ok by lia. cbn [mbind res_bind].
  destruct (flush_ok (_qs (local M1) i sid)) as (nt & txq & -> & Hqt & Hct & _); [split; apply Hch1; lia|]. cbn [mbind res_bind].
  apply IH; [done..|now apply conserved_flush|now apply (machine_typed_engines M1)].
Qed.

Definition event_typed (M : machine) (ev : event) : Prop :=
  match ev with
  | Invoke sid c => exists e, engines M !! sid = Some e /\ call_typed (world_of M) sid e c
  | Poll sid => (sid < n)%nat
  end.

Lemma step_typed M ev : quiet n anchor M -> machine_typed M -> event_typed M ev ->
  exists M', step M ev = Ok M' /\ quiet n anchor M' /\ machine_typed M'.
Proof using All.
  intros Hq HM Hev. destruct ev as [sid c|sid]; cbn [event_typed Machine.step] in *.
  - destruct Hev as (e & He & Hc). pose proof (lookup_lt_Some _ _ _ He) as Hs. rewrite (c_engines _ _ _ _ _ Hq) in Hs.
    destruct (invoke_typed _ sid c M e Hs Hq HM He Hc) as (M' & E & Hq' & HM' & _). eauto.
  - unfold poll. rewrite (c_count _ _ _ _ _ Hq).
    destruct (poll_shards_typed sid (seq 0 n) 0 M Hev) as (got' & M' & -> & Hq' & HM'); [|done..|cbn [mbind res_bind]; eauto].
    apply Forall_forall. intros x Hx%elem_of_seq. lia.
Qed.

Lemma run_typed evs : forall M, quiet n anchor M -> machine_typed M ->
  (forall pre ev post M1, evs = pre ++ ev :: post -> run M pre = Ok M1 -> event_typed M1 ev) ->
  exists M', run M evs = Ok M' /\ quiet n anchor M' /\ machine_typed M'.
Proof using All.
  induction evs as [|ev evs IH]; intros M Hq HM Hev; cbn [Machine.run]; [eauto|].
  destruct (step_typed M ev Hq HM) as (M1 & E & Hq1 & HM1); [exact (Hev [] ev evs M eq_refl eq_refl)|]. rewrite E. cbn [mbind res_bind].
  apply IH; [done..|]. intros pre ev' post M2 -> H2. apply (Hev (ev :: pre) ev' post M2); [done|]. cbn [Machine.run]. now rewrite E.
Qed.

End Machine.

(** ** Between machines

    [Cluster.object_of] is the object that is written for a message, [Connection.received_as] what the receiver
    makes of it, and [Cluster.message_of] the message it hands to its engine. *)
Section Crossing.
Context {D Q Text : Type} {BQ : BufferQueue.BufferQueue Q} {BQL : BufferQueue.BufferQueueLaws Q} {SD : DataType.Serializable D} {ST : DataType.Serializable Text}.
Abbreviation emsg := (emsg (D := D) (Q := Q)).
Variable string_of : bytes -> Text.

(** A well-typed message is well typed when it arrives, unless it is an exception response. *)
Theorem crossing_typed W (m m' : emsg) bs o :
  well_typed W m -> Connection.received_as (Cluster.object_of string_of m, bs) o -> Cluster.message_of o = Ok m' ->
  well_typed W m' <-> ~ (to_root m /\ Message.m_type (e_hdr m) = EXCEPTION_RESPONSE).
Proof.
  intros [g [Hg Hp Hc Hr Hs]] (q & -> & _) H. cbn in H. injection H as <-.
  split.
  - intros [g' Hg'] [Hroot Ht]. destruct (wt_root _ _ _ Hg' Hroot) as [(E & _)|[(_ & _ & s & E)|[E|E]]]; cbn in E; try done; rewrite Ht in E; discriminate E.
  - intros Hn. exists g. split; [done|exact Hp|done| |exact Hs]. intros Hroot. cbn in Hroot. specialize (Hr Hroot).
    destruct Hr as [(E & Hid & _)|[(E & _)|Hst]]; [left; done|now destruct Hn|do 2 right; exact Hst].
Qed.
End Crossing.

(** ** Two shards, a request and its answer *)
Module TypingExamples.
Import MachineExamples.
Definition sample_resolved (p : toy_promise) : option (ex + toy_msg) :=
  match p with Some (inl m) => Some (inr m) | Some (inr x) => Some (inl x) | None => None end.
Abbreviation sample_step := (Machine.step (R := list toy_msg) None toy_value toy_exception no_disabled [] 2 0 2).
Abbreviation event_ok := (event_typed (R := list toy_msg) (Sem := Z * list Z) sample_resolved 2 0 (fun _ => 0)).

(** Shard 0 asks an actor on shard 1, polls send the request, the actor answers, the answer is polled and read. *)
Definition answer : toy_msg := mk_emsg (toy_header (ex_addr 0 []) 1 1 RESPONSE) (Data 8).
(** The caller's return type is a number. *)
Definition as_number (d : edata (D := Z) (Q := list bytes)) : option unit := match d with Data _ => Some tt | _ => None end.
Definition as_bytes (_ : list bytes) : res unit := Ok tt.
Definition asking : list event :=
  [Invoke 0 (Request (ex_addr 1 [toy_cell]) 0 (Data 7) USER); Poll 0; Poll 1; Invoke 1 (Send answer); Poll 1; Poll 0; Invoke 0 (Continue 1 as_number as_bytes None (inr answer))].

Lemma pm0_table : table_ok (promise_typed sample_resolved) toy_pm0.
Proof.
  split; [cbn; unfold pr_size; cbn; lia|]. intros i n Hn. cbn in Hn. destruct i as [|i]; [|now destruct i]. injection Hn as <-.
  split; [cbn; unfold pr_size; cbn; lia|]. done.
Qed.

(** Of every shard: the size of its table and what promise 1 is. *)
Definition view (M : machine (D := Z) (Q := list bytes) (P := toy_promise) (Sem := Z * list Z) (R := list toy_msg)) : list (Z * res toy_promise) :=
  (fun e => (pr_size (response_pr_manager e), get_future (response_pr_manager e) 1)) <$> engines M.
Lemma asking_views :
  imap (fun i _ => view <$> (M0 ← sample_configured; sample_run M0 (take i asking))) asking =
    [Ok [(1, Fault OutOfBounds); (1, Fault OutOfBounds)]; Ok [(2, Ok None); (1, Fault OutOfBounds)]; Ok [(2, Ok None); (1, Fault OutOfBounds)];
     Ok [(2, Ok None); (1, Fault OutOfBounds)]; Ok [(2, Ok None); (1, Fault OutOfBounds)]; Ok [(2, Ok None); (1, Fault OutOfBounds)];
     Ok [(2, Ok (Some (inl answer))); (1, Fault OutOfBounds)]].
Proof. vm_compute. reflexivity. Qed.

Lemma sample_view M0 pre ev post M :
  asking = pre ++ ev :: post -> sample_configured = Ok M0 -> sample_run M0 pre = Ok M ->
  imap (fun i _ => view <$> (M0 ← sample_configured; sample_run M0 (take i asking))) asking !! length pre = Some (Ok (view M)).
Proof.
  intros Eq E0 E. rewrite list_lookup_imap, Eq, list_lookup_middle by done. cbn [fmap option_fmap option_map].
  now rewrite take_app_length, E0; cbn [mbind res_bind]; rewrite E.
Qed.

Lemma view_two M a b : view M = [a; b] -> exists e0 e1, engines M !! 0%nat = Some e0 /\ engines M !! 1%nat = Some e1 /\
  (pr_size (response_pr_manager e0), get_future (response_pr_manager e0) 1) = a.
Proof.
  unfold view. intros H. destruct (engines M) as [|e0 [|e1 es]]; cbn in H; [discriminate..|]. injection H as <- _ _. now exists e0, e1.
Qed.

Lemma asking_typed M0 pre ev post M :
  asking = pre ++ ev :: post -> sample_configured = Ok M0 -> sample_run M0 pre = Ok M -> event_ok M ev.
Proof.
  intros Eq E0 E. pose proof (sample_view _ _ _ _ _ Eq E0 E) as Hv. rewrite asking_views in Hv.
  assert (Hev : asking !! length pre = Some ev) by (rewrite Eq; now apply list_lookup_middle). clear Eq E0 E.
  assert (Hi : (length pre < 7)%nat) by (now apply lookup_lt_Some in Hev).
  destruct (length pre) as [|[|[|[|[|[|[|i]]]]]]]; [..|lia]; cbn in Hv, Hev; injection Hv as Hv; injection Hev as <-; cbn [event_typed]; try lia;
    destruct (view_two M _ _ (eq_sym Hv)) as (e0 & e1 & E0 & E1 & Ev); injection Ev as Es Ef.
  - exists e0. split; [exact E0|]. split; [done|]. exists 1, toy_cell, [].
    split_and!; [unfold in_u; lia|apply toy_repr; cbn; lia|repeat constructor; vm_compute; congruence].
  - exists e1. split; [exact E1|]. exists 0. split; [unfold in_u; lia|exists []; split; [apply toy_repr; cbn; lia|constructor]|done| |].
    + intros _. left. split; [done|]. split; [|done]. pose proof (world_here (R := list toy_msg) 2 0 (fun _ => 0) M 0 e0 ltac:(lia) E0) as Hw.
      pose proof (eq_trans Hw Es) as Hw2. split; [done|]. refine (Z.lt_le_trans _ _ _ _ (Z.eq_le_incl _ _ (eq_sym Hw2))). done.
    + intros Hn. now destruct Hn.
  - exists e0. split; [exact E0|]. split; [split; [lia|]; refine (Z.lt_le_trans _ _ _ _ (Z.eq_le_incl _ _ (eq_sym Es))); lia|]. intros m [= <-]. split; [eexists; split; [exact Ef|done]|]. intros _. now exists tt.
Qed.

End TypingExamples.
