(* ===== verification/ActorBase.v ===== *)
(** * What all actors have

    [actor_base] (src/include/hiactor/core/actor_core.hh, src/src/core/actor_core.cc): the
    identity that an actor copies out of the address of the message that creates it, its table of
    meta data, a map of [boost::any], and the log line for an exception nobody handles; the
    exceptions (src/include/hiactor/core/exception.hh), the printing of
    addresses (src/src/core/actor_message.cc) and the continuation task that can be canceled
    (src/include/hiactor/core/continuation.hh).  Mailboxes and scheduling are in [Actor] and [Group]. *)
From S2P Require Import Prelude.
From S2P Require Import Bytes Address.
From S2P Require DataType.
From Stdlib Require Import Ascii Eqdep_dec.
From stdpp Require Import strings.
#[local] Open Scope Z_scope.

(** ** Exceptions

    A [const char*] is the bytes from where it points; reading the text of one that has no
    terminator reads past the end. *)
Module Exceptions.
Inductive exception :=
  | actor_method_exception (context : bytes)   (* a [std::string] *)
  | task_canceled_exception (context : bytes)  (* a [const char*] *)
  | gpu_exception (context : bytes)            (* a [const char*] *)
  | std_exception (what : bytes)               (* another [std::exception]: the text of its [what] *)
  | other_exception.                           (* anything else that was thrown *)

Definition c_text (p : bytes) : res bytes := n ← DataType.SimpleString.strlen p; Ok (take n p).

Definition actor_method_exception_c_str (ctx : bytes) : res exception := s ← c_text ctx; Ok (actor_method_exception s).
Definition actor_method_exception_len (ctx_str : bytes) (len : nat) : res exception :=
  s ← mem_read ctx_str 0 len; Ok (actor_method_exception s).

(** The text that [what()] points to; [std::string::c_str] ends the string with a terminator. *)
Definition what (e : exception) : res bytes :=
  match e with
  | actor_method_exception s => c_text (s ++ [Byte.x00])
  | task_canceled_exception p | gpu_exception p => c_text p
  | std_exception s => Ok s
  | other_exception => Fault BadCast
  end.

Lemma strlen_prefix s rest : Byte.x00 ∉ s -> DataType.SimpleString.strlen (s ++ Byte.x00 :: rest) = Ok (length s).
Proof.
  induction s as [|b s IH]; intros H; [done|]. apply not_elem_of_cons in H as [Hb Hs]. cbn [app DataType.SimpleString.strlen].
  destruct b; try (rewrite (IH Hs); done). done.
Qed.
Lemma c_text_prefix s rest : Byte.x00 ∉ s -> c_text (s ++ Byte.x00 :: rest) = Ok s.
Proof. intros H. unfold c_text. rewrite (strlen_prefix s rest H). cbn. now rewrite take_app_length. Qed.

(** The text an exception was made with is what it says, up to the first zero byte. *)
Theorem what_until_zero s rest e :
  Byte.x00 ∉ s -> actor_method_exception_len (s ++ Byte.x00 :: rest) (length (s ++ Byte.x00 :: rest)) = Ok e -> what e = Ok s.
Proof.
  intros Hs H. unfold actor_method_exception_len, mem_read in H. rewrite decide_True in H by lia. cbn [mbind res_bind] in H. injection H as <-.
  rewrite drop_0, take_ge by lia. cbn [what]. rewrite <-app_assoc. now apply c_text_prefix.
Qed.
Theorem what_whole s e : Byte.x00 ∉ s -> actor_method_exception_len s (length s) = Ok e -> what e = Ok s.
Proof.
  intros Hs H. unfold actor_method_exception_len, mem_read in H. rewrite decide_True in H by lia. cbn [mbind res_bind] in H. injection H as <-.
  rewrite drop_0, take_ge by lia. now apply c_text_prefix.
Qed.
End Exceptions.

(** ** Printing addresses *)
Definition hex_digit (n : Z) : ascii := Ascii.ascii_of_N (Z.to_N (if n <? 10 then 48 + n else 87 + n)).
(** [std::hex << static_cast<unsigned>(b)]: no leading zeros. *)
Definition hex_of (b : Z) : list ascii := if b <? 16 then [hex_digit b] else [hex_digit (b / 16); hex_digit (b mod 16)].
Definition byte_val (b : Init.Byte.byte) : Z := Z.of_N (Byte.to_N b).
Fixpoint char_arr_to_str (addr : bytes) (len : nat) : res (list ascii) :=
  match len with
  | O => Ok []
  | S len =>
      match addr with
      | [] => Fault OutOfBounds
      | b :: addr => s ← char_arr_to_str addr len; Ok (hex_of (byte_val b) ++ s)
      end
  end.

(** Two actors can have the same printed address: a byte below 16 is printed as one digit. *)
Theorem printed_address_ambiguous :
  exists c1 c2, scope_ok c1 /\ scope_ok c2 /\ ScopeBuilder.get_type c1 <> ScopeBuilder.get_type c2 /\
    char_arr_to_str (enc_cell c1) GLocalActorAddrLength = char_arr_to_str (enc_cell c2) GLocalActorAddrLength.
Proof.
  exists (ScopeBuilder.mk_scope 0x0123 1), (ScopeBuilder.mk_scope 0x3102 1). unfold scope_ok, in_u. cbn [ScopeBuilder.get_type ScopeBuilder.get_id].
  split_and!; lia || done || (vm_compute; reflexivity).
Qed.

(** ** Meta data

    [boost::any] holds a value with its type; [ctype] are the types that are put into it. *)
Section Meta.
Context {ctype : Type} {CE : EqDecision ctype}.
Variable value : ctype -> Type.
Variable type_name : ctype -> string.

Record any := mk_any { any_type : ctype; any_value : value any_type }.
(** [boost::any_cast], which throws [bad_any_cast], and on a pointer, which returns null. *)
Definition any_cast_ptr (t : ctype) (a : any) : option (value t) :=
  match decide (any_type a = t) with
  | left E => Some (eq_rect (any_type a) value (any_value a) t E)
  | right _ => None
  end.

Inductive thrown := out_of_range | bad_any_cast.
Abbreviation meta_map := (gmap string any).

Definition contains_meta (m : meta_map) (key : string) : bool := bool_decide (is_Some (m !! key)).
Definition at_key (m : meta_map) (key : string) : thrown + any :=
  match m !! key with Some a => inr a | None => inl out_of_range end.
Definition meta_type_name (m : meta_map) (key : string) : thrown + string :=
  match at_key m key with inr a => inr (type_name (any_type a)) | inl x => inl x end.
Definition add_meta (m : meta_map) (key : string) (t : ctype) (v : value t) : meta_map := <[key := mk_any t v]> m.
Definition get_meta (m : meta_map) (key : string) (t : ctype) : thrown + value t :=
  match at_key m key with
  | inr a => match any_cast_ptr t a with Some v => inr v | None => inl bad_any_cast end
  | inl x => inl x
  end.
Definition get_meta_ptr (m : meta_map) (key : string) (t : ctype) : thrown + option (value t) :=
  match at_key m key with inr a => inr (any_cast_ptr t a) | inl x => inl x end.

Lemma any_cast_same t (v : value t) : any_cast_ptr t (mk_any t v) = Some v.
Proof. unfold any_cast_ptr. cbn. destruct (decide (t = t)) as [E|E]; [|done]. f_equal. symmetry. apply eq_rect_eq_dec. apply CE. Qed.
Lemma any_cast_other t t' (v : value t') : t' <> t -> any_cast_ptr t (mk_any t' v) = None.
Proof. intros H. unfold any_cast_ptr. cbn. now destruct (decide (t' = t)). Qed.

(** What was added last under a key, if anything. *)
Fixpoint last_added (ops : list (string * any)) (key : string) : option any :=
  match ops with
  | [] => None
  | (k, a) :: ops => match last_added ops key with Some b => Some b | None => if decide (k = key) then Some a else None end
  end.
Definition add_all (ops : list (string * any)) (m : meta_map) : meta_map := fold_left (fun m op => add_meta m (fst op) (any_type (snd op)) (any_value (snd op))) ops m.

Lemma add_all_lookup ops : forall m key, add_all ops m !! key = match last_added ops key with Some a => Some a | None => m !! key end.
Proof.
  induction ops as [|[k a] ops IH]; intros m key; [done|]. cbn [add_all fold_left last_added fst snd].
  change (fold_left _ ops ?m') with (add_all ops m'). rewrite IH. destruct (last_added ops key); [done|].
  unfold add_meta. destruct (decide (k = key)) as [->|Hne]; [rewrite lookup_insert_eq; now destruct a|now rewrite lookup_insert_ne].
Qed.

(** The table of meta data is typed access to what was added last under a key: reading it at the type it was
    added with gives that value, at any other type throws [bad_any_cast], or gives a null pointer where a pointer is
    asked for, and reading a key that was never added throws [out_of_range]. *)
Theorem meta_read_back ops key t :
  let m := add_all ops ∅ in
  contains_meta m key = bool_decide (is_Some (last_added ops key)) /\
  match last_added ops key with
  | None => get_meta m key t = inl out_of_range /\ get_meta_ptr m key t = inl out_of_range /\ meta_type_name m key = inl out_of_range
  | Some a =>
      meta_type_name m key = inr (type_name (any_type a)) /\
      (any_type a <> t -> get_meta m key t = inl bad_any_cast /\ get_meta_ptr m key t = inr None) /\
      (forall v, a = mk_any t v -> get_meta m key t = inr v /\ get_meta_ptr m key t = inr (Some v))
  end.
Proof.
  intros m. assert (Hm : m !! key = last_added ops key) by (unfold m; rewrite add_all_lookup; now destruct (last_added ops key)).
  unfold contains_meta, meta_type_name, get_meta, get_meta_ptr, at_key. rewrite Hm. split; [done|].
  destruct (last_added ops key) as [a|]; [|done]. split; [done|]. split.
  - intros Hne. destruct a as [t' v]. now rewrite any_cast_other.
  - intros v ->. now rewrite any_cast_same.
Qed.
End Meta.

(** ** Identity *)
Record actor_base := mk_actor_base { _total_addr_length : Z; _address : bytes }.

(** [child_head]: the bytes of the message's address from the creator's cell on. *)
Definition actor_base_new (exec_ctx : actor_base) (child_head : bytes) : res actor_base :=
  a ← mem_read child_head 0 GLocalActorAddrLength;
  Ok (mk_actor_base (u8 (_total_addr_length exec_ctx + Z.of_nat GLocalActorAddrLength)) a).
(** The root actor; [g] is what its uninitialised [_address] holds. *)
Definition actor_base_root (g : bytes) : actor_base := mk_actor_base (Z.of_nat GShardIdInBytes) g.
Definition get_address_length (x : actor_base) : Z := _total_addr_length x.
Definition actor_type_id (x : actor_base) : res Z := load_unaligned_int 2 (_address x) 0.
Definition actor_id (x : actor_base) : res Z := load_unaligned_int 4 (_address x) GActorTypeInBytes.

(** Creation along the path of an address, as [receive] and [get_actor_local] do it. *)
Fixpoint created_along (a : address) (k : nat) (root : actor_base) : res actor_base :=
  match k with
  | O => Ok root
  | S k => x ← created_along a k root; actor_base_new x (drop (Z.to_nat (get_address_length x)) (addr_data a))
  end.

Lemma mem_read_drop m off len : (off <= length m)%nat -> mem_read (drop off m) 0 len = mem_read m off len.
Proof. intros H. unfold mem_read. rewrite length_drop, drop_0. repeat case_decide; done || lia. Qed.

(** The two halves of the cell an actor copied. *)
Lemma cell_identity n c : scope_ok c ->
  actor_type_id (mk_actor_base n (enc_cell c)) = Ok (ScopeBuilder.get_type c) /\ actor_id (mk_actor_base n (enc_cell c)) = Ok (ScopeBuilder.get_id c).
Proof.
  intros [Ht Hi]. assert (R : mem_read (enc_cell c) 0 6 = Ok (enc_cell c)) by (apply mem_read_ok; split; done).
  destruct (read_cell_halves _ _ _ R) as [H1 H2]. unfold actor_type_id, actor_id. cbn [_address]. change (0 + 2)%nat with GActorTypeInBytes in H2.
  rewrite (load_of_read _ _ _ _ H1), (load_of_read _ _ _ _ H2), !dec_enc_uint_small by assumption. done.
Qed.

(** An actor is who its address says: created on the way of a message with the path [cs], the actor at depth
    [k + 1] has the type and the id of the [k]th cell, and the length by which routing
    decides that a message is for it is that of a path of its depth, and of no other. *)
Theorem created_identity a sh cs k c root :
  repr a sh cs -> Forall scope_ok cs -> cs !! k = Some c -> get_address_length root = Z.of_nat GShardIdInBytes ->
  exists x, created_along a (S k) root = Ok x /\ actor_type_id x = Ok (ScopeBuilder.get_type c) /\ actor_id x = Ok (ScopeBuilder.get_id c) /\
    get_address_length x = Z.of_nat (4 + 6 * S k) /\ (addr_length a = get_address_length x <-> length cs = S k).
Proof.
  intros R Hcs Hk Hr. assert (H : forall j, (j <= length cs)%nat -> exists x, created_along a j root = Ok x /\ get_address_length x = Z.of_nat (4 + 6 * j) /\
    forall i d, j = S i -> cs !! i = Some d -> _address x = enc_cell d).
  { induction j as [|j IH]; intros Hj; [exists root; split; [done|]; split; [exact Hr|done]|].
    destruct (IH ltac:(lia)) as (x & E & Hx & _). cbn [created_along]. rewrite E. cbn [mbind res_bind]. rewrite Hx, Nat2Z.id.
    destruct (lookup_lt_is_Some_2 cs j Hj) as [d Hd]. pose proof (repr_read_cell _ _ _ _ _ R Hd) as Hc. pose proof (proj1 (mem_read_ok _ _ _ _) Hc) as [Hlen _].
    unfold actor_base_new. change GLocalActorAddrLength with 6%nat. rewrite mem_read_drop, Hc by lia. cbn [mbind res_bind].
    eexists. split; [reflexivity|]. cbn [get_address_length _total_addr_length _address]. split.
    - unfold get_address_length in Hx. rewrite Hx. pose proof (repr_layers _ _ _ R) as Hl. rewrite u8_small by addr_lia. addr_lia.
    - intros i d' [= <-] Hd'. congruence. }
  destruct (H (S k)) as (x & E & Hx & Ha); [now apply lookup_lt_Some in Hk|]. specialize (Ha k c eq_refl Hk). exists x. split; [done|].
  destruct x as [n addr]. cbn [_address get_address_length _total_addr_length] in *. subst addr.
  destruct (cell_identity n c (Forall_lookup_1 _ _ _ _ Hcs Hk)) as [H1 H2]. split; [done|]. split; [done|]. split; [done|].
  rewrite (repr_length _ _ _ R), Hx. lia.
Qed.

(** ** Exceptions nobody handles *)

(** [log_exception]: the line that is written to [std::cerr], if one is; a canceled task is only
    reported by a build with [HIACTOR_DEBUG]. *)
Definition of_bytes (b : bytes) : list ascii := Ascii.ascii_of_byte <$> b.
Definition log_line (x : actor_base) (ex_info : list ascii) : res (option (list ascii)) :=
  s ← char_arr_to_str (_address x) GLocalActorAddrLength;
  Ok (Some (String.list_ascii_of_string " Actor " ++ s ++ String.list_ascii_of_string " got exception " ++ ex_info)).
Definition log_exception (debug : bool) (x : actor_base) (eptr : Exceptions.exception) : res (option (list ascii)) :=
  match eptr with
  | Exceptions.task_canceled_exception _ =>
      ex_info ← Exceptions.what eptr;
      if debug then log_line x (of_bytes ex_info) else Ok None
  | Exceptions.other_exception => log_line x (String.list_ascii_of_string "unknown exception")
  | _ => ex_info ← Exceptions.what eptr; log_line x (of_bytes ex_info)
  end.

Lemma char_arr_total addr : forall len, (len <= length addr)%nat -> exists s, char_arr_to_str addr len = Ok s.
Proof.
  induction addr as [|b addr IH]; intros [|len] Hl; cbn [char_arr_to_str length] in *; [eauto|lia|eauto|].
  destruct (IH len ltac:(lia)) as [s ->]. cbn. eauto.
Qed.

(** An exception with a text is reported with it, whoever threw it, unless it says that a task was canceled. *)
Theorem exception_reported x s rest :
  (GLocalActorAddrLength <= length (_address x))%nat -> Byte.x00 ∉ s ->
  (exists a, log_exception false x (Exceptions.actor_method_exception s) = Ok (Some (String.list_ascii_of_string " Actor " ++ a ++ String.list_ascii_of_string " got exception " ++ of_bytes s)) /\
     log_exception false x (Exceptions.gpu_exception (s ++ Byte.x00 :: rest)) = log_exception false x (Exceptions.actor_method_exception s)) /\
  log_exception false x (Exceptions.task_canceled_exception (s ++ Byte.x00 :: rest)) = Ok None.
Proof.
  intros Hx Hs. destruct (char_arr_total _ _ Hx) as [a Ea]. unfold log_exception, log_line, Exceptions.what.
  rewrite !Exceptions.c_text_prefix by done. cbn [mbind res_bind]. rewrite Ea. cbn [mbind res_bind]. eauto.
Qed.

(** ** Continuation tasks

    [seastar::continuation_base] with a function: the future it waits for stores its result in [_state]
    and schedules the task; an actor cancels the tasks in its queue. *)
Section Continuation.
Context {T W : Type}.
Inductive future_state := future_invalid | future_value (v : T) | future_failed (e : Exceptions.exception).
Record continuation := mk_continuation { _state : future_state; _func : future_state -> W -> W }.

Definition failed (s : future_state) : bool := match s with future_failed _ => true | _ => false end.
Definition canceled_text : bytes := String.list_byte_of_string "continuation task canceled from external!" ++ [Byte.x00].

(** [run_and_dispose]: the function runs, then the task is deleted. *)
Definition run_and_dispose (c : continuation) (w : W) : W := _func c (_state c) w.
Definition cancel (c : continuation) : continuation :=
  if negb (failed (_state c)) then mk_continuation (future_failed (Exceptions.task_canceled_exception canceled_text)) (_func c) else c.

(** A canceled task still runs, once, and what it runs on is a failure: the one it had, or the cancellation. *)
Theorem cancel_runs_on_failure c w :
  failed (_state (cancel c)) = true /\ cancel (cancel c) = cancel c /\
  (forall e, _state c = future_failed e -> run_and_dispose (cancel c) w = _func c (future_failed e) w) /\
  (failed (_state c) = false -> run_and_dispose (cancel c) w = _func c (future_failed (Exceptions.task_canceled_exception canceled_text)) w).
Proof.
  unfold cancel, run_and_dispose. destruct c as [[|v|e] f]; cbn; split_and!; try done; intros e' [= <-]; done.
Qed.
End Continuation.

(** ** Examples *)
Module BaseExamples.
Definition value_of (t : bool) : Type := if t then Z else string.
Definition name_of (t : bool) : string := if t then "i" else "s".
Definition sample_adds : list (string * any value_of) :=
  [("food", mk_any value_of true 7); ("group_name", mk_any value_of false "food_group"); ("food", mk_any value_of true 8)].
Example sample_meta :
  get_meta value_of (add_all value_of sample_adds ∅) "food" true = inr 8 /\
  get_meta value_of (add_all value_of sample_adds ∅) "food" false = inl bad_any_cast /\
  get_meta_ptr value_of (add_all value_of sample_adds ∅) "medicine" true = inl out_of_range.
Proof. repeat split. Qed.

Lemma created_identity_witness :
  exists x, created_along (ex_addr 3 [ex_group1; ex_group2]) 2 (actor_base_root []) = Ok x /\ actor_type_id x = Ok 61440 /\ actor_id x = Ok 2 /\
    get_address_length x = 16 /\ (addr_length (ex_addr 3 [ex_group1; ex_group2]) = get_address_length x <-> 2%nat = 2%nat).
Proof.
  refine (created_identity (ex_addr 3 [ex_group1; ex_group2]) 3 [ex_group1; ex_group2] 1 ex_group2 (actor_base_root []) _ _ eq_refl eq_refl).
  - constructor; (reflexivity || cbn; addr_lia).
  - repeat constructor; vm_compute; congruence.
Defined.

Lemma exception_reported_witness :
  (exists a, log_exception false (mk_actor_base 10 (replicate 6 Byte.x00)) (Exceptions.actor_method_exception [Byte.x41]) =
     Ok (Some (String.list_ascii_of_string " Actor " ++ a ++ String.list_ascii_of_string " got exception " ++ of_bytes [Byte.x41])) /\
     log_exception false (mk_actor_base 10 (replicate 6 Byte.x00)) (Exceptions.gpu_exception [Byte.x41; Byte.x00]) =
       log_exception false (mk_actor_base 10 (replicate 6 Byte.x00)) (Exceptions.actor_method_exception [Byte.x41])) /\
  log_exception false (mk_actor_base 10 (replicate 6 Byte.x00)) (Exceptions.task_canceled_exception [Byte.x41; Byte.x00]) = Ok None.
Proof. apply (exception_reported (mk_actor_base 10 (replicate 6 Byte.x00)) [Byte.x41] []); [now apply Nat.leb_le|set_solver]. Defined.
End BaseExamples.
