(* ===== verification/Tree.v ===== *)
(** * The tree of actors of a shard

    Below the engine of a shard ([Engine]) stand actor groups ([Group]) and actors ([Actor]), each created by
    the first message that passes.  A message finds its way down the tree by
    [root_actor_group::receive] (src/src/core/root_actor_group.cc) and [get_actor_local]
    (src/src/core/actor-template.cc, src/src/core/actor_core.cc); the actor it is put into is
    activated, and activation goes up the tree: each parent is given its child as a task
    ([add_task]), up to the reactor.  This file composes the three components for that way down and
    up, with the recursion that [Engine] leaves open ([disabled_below]).

    An object is named by the ids on the way from it to the root, its own first: the maps of the
    groups never forget an id, so no name is used twice. *)
From S2P Require Import Prelude.
From S2P Require Import Bytes Address Message PromiseManager.
From S2P Require Import Actor TaskQueue Group Engine.

Section Tree.
Context {D Q P Sem : Type} {SM : Semaphore Sem} {HO : HeapOps Z} {HL : HeapLaws Z}.
Abbreviation emsg := (emsg (D := D) (Q := Q)).
Abbreviation engine := (engine (D := D) (Q := Q) (P := P) (Sem := Sem)).
Abbreviation actor := (actor (P := emsg)).
Abbreviation group := (group (Sem := Sem)).
Variable promise_set_value : P -> emsg -> P.
Variable promise_set_exception : P -> ex -> P.
Variable this_gsid : Z.
Variable is_local : Z -> bool.
Variable canceled_text : bytes.

(** What the constructor registered for a type id makes: the classes are the application's. *)
Inductive kind := ActorKind (reentrant : bool) | GroupKind (c : option (Z -> Z -> bool)).
Variable kind_of : Z -> kind.

Inductive obj := OActor (a : actor) | OGroup (g : group).
Definition create (type : Z) : obj :=
  match kind_of type with ActorKind r => OActor (actor_new r) | GroupKind c => OGroup (group_new c) end.

(** [reactor]: the children of the root actor that were given to the reactor as tasks. *)
Record shard := mk_shard { root : engine; objs : gmap (list Z) obj; reactor : list Z }.
Definition with_root e T := mk_shard e (objs T) (reactor T).
Definition set_obj rp o T := mk_shard (root T) (<[rp := o]> (objs T)) (reactor T).

(** ** What actors and groups have in common *)
Definition o_sched (o : obj) : schedule_status := match o with OActor a => Actor.sched a | OGroup g => Group.sched g end.
Definition o_queued (o : obj) : nat := match o with OActor a => Actor.queued a | OGroup g => Group.queued g end.
Definition o_schedule (o : obj) : res obj :=
  match o with
  | OActor a => a ← Actor.schedule a; Ok (OActor a)
  | OGroup g => g ← Group.schedule g; Ok (OGroup g)
  end.
Definition user (m : emsg) : bool := Message.m_type (e_hdr m) =? USER.
Definition actor_msg (m : emsg) : Actor.msg (P := emsg) := Actor.mk_msg (Message.m_type (e_hdr m)) m.
Definition group_msg (m : emsg) : gmsg := mk_gmsg (Message.m_type (e_hdr m)) (src_shard_id (e_hdr m)) (pr_id (e_hdr m)).
Definition o_enqueue (m : emsg) (o : obj) : obj :=
  match o with
  | OActor a => OActor (if user m then Actor.enque_message (actor_msg m) a else Actor.enque_urgent_message (actor_msg m) a)
  | OGroup g => OGroup (if user m then Group.enque_message (group_msg m) g else Group.enque_urgent_message (group_msg m) g)
  end.

(** ** Up the tree *)
(** [add_task] of the parent [rp], which is activated by it. *)
Fixpoint add_task (rp : list Z) (id : Z) (T : shard) : res shard :=
  match rp with
  | [] => Ok (mk_shard (root T) (objs T) (reactor T ++ [id]))
  | pid :: rq =>
      match objs T !! rp with
      | Some (OGroup g) =>
          let g' := Group.add_task id g in
          let T := set_obj rp (OGroup g') T in
          if (Group.queued g <? Group.queued g')%nat then add_task rq pid T else Ok T
      | Some (OActor _) => Fault BadCast
      | None => Fault UseAfterFree
      end
  end.
(** The object [id] below [rp] changes; if that activated it, it is given to its parent. *)
Definition settle (id : Z) (rp : list Z) (o o' : obj) (T : shard) : res shard :=
  let T := set_obj (id :: rp) o' T in
  if (o_queued o <? o_queued o')%nat then add_task rp id T else Ok T.

(** ** Down the tree *)
Definition total_length (rp : list Z) : Z := Z.of_nat (4 + 6 * length rp).

(** [actor_factory::create] and [schedule] of a new child, if its turn has come. *)
Definition new_child (type id : Z) (rp : list Z) (available : bool) (T : shard) : res shard :=
  let o := create type in
  let T := set_obj (id :: rp) o T in
  if available then o' ← o_schedule o; settle id rp o o' T else Ok T.

(** [get_actor_local] of the object [rp]: the object a message is for, [None] for the null pointer. *)
Fixpoint get_actor_local (fuel : nat) (a : address) (rp : list Z) (T : shard) : res (shard * option (list Z)) :=
  match fuel with
  | O => Fault NoFuel
  | S fuel =>
      match objs T !! rp with
      | None => Fault UseAfterFree
      | Some (OActor _) => Ok (T, Some rp)
      | Some (OGroup g) =>
          id ← child_id a (total_length rp);
          let '(g', child) := Group.get_actor_local id g in
          match child with
          | None => Ok (T, None)
          | Some _ =>
              T ← match Group.inst_map g !! id with
                  | Some _ => Ok T
                  | None => type ← child_type a (total_length rp);
                            new_child type id rp (snd (sem_wait (Group.sem g) id)) (set_obj rp (OGroup g') T)
                  end;
              if addr_length a =? total_length (id :: rp) then Ok (T, Some (id :: rp)) else get_actor_local fuel a (id :: rp) T
          end
      end
  end.

(** A null pointer further down, below an existing child of the root actor. *)
Definition depth : nat := GMaxAddrLayer.
Definition disabled_in (T : shard) (id : Z) (m : emsg) : bool :=
  match get_actor_local depth (addr (e_hdr m)) [id] T with Ok (_, None) => true | _ => false end.

Abbreviation receive T := (Engine.receive promise_set_value promise_set_exception this_gsid is_local (disabled_in T) canceled_text).

(** [enque_message] or [enque_urgent_message] of the object a message is for. *)
Definition deliver (m : emsg) (rp : list Z) (T : shard) : res shard :=
  match rp, objs T !! rp with
  | id :: rq, Some o => settle id rq o (o_enqueue m o) T
  | _, _ => Fault UseAfterFree
  end.

(** [receive] of a message to an actor: who got it, if it was not refused. *)
Definition route (m : emsg) (T : shard) : res (shard * option (list Z)) :=
  let a := addr (e_hdr m) in
  id ← child_id a (total_length []);
  e ← receive T m (root T);
  let down T :=
    '(T, c) ← (if addr_length a =? total_length [id] then Ok (T, Some [id]) else get_actor_local depth a [id] T);
    match c with Some rp => T ← deliver m rp T; Ok (T, Some rp) | None => Ok (T, None) end in
  match Engine.inst_map (root T) !! id with
  | Some false => Ok (with_root e T, None)
  | Some true => down (with_root e T)
  | None =>
      if Engine.running (root T) then
        type ← child_type a (total_length []);
        T ← new_child type id [] (snd (sem_wait (Engine.sem (root T)) id)) (with_root e T);
        down T
      else Ok (with_root e T, None)
  end.

(** ** Where a message is for, read off its address

    Routing stops at the first actor on the path; what [kind_of] says of the types on the path decides it. *)
Definition is_group (c : ScopeBuilder.scope) : bool := match kind_of (ScopeBuilder.get_type c) with GroupKind _ => true | ActorKind _ => false end.
Fixpoint leaf_cut (cs : list ScopeBuilder.scope) : list ScopeBuilder.scope :=
  match cs with [] => [] | c :: cs => c :: (if is_group c then leaf_cut cs else []) end.
Definition name_of (cs : list ScopeBuilder.scope) : list Z := rev (cell_key <$> cs).

(** Whether a child of [rp] was created, and is enabled. *)
Definition lookup_at (T : shard) (rp : list Z) (id : Z) : option bool :=
  match rp with
  | [] => Engine.inst_map (root T) !! id
  | _ => match objs T !! rp with Some (OGroup g) => Group.inst_map g !! id | _ => None end
  end.
(** Somebody on the path is disabled. *)
Fixpoint disabled (T : shard) (rp : list Z) (cs : list ScopeBuilder.scope) : bool :=
  match cs with
  | [] => false
  | c :: cs =>
      match lookup_at T rp (cell_key c) with
      | Some true => is_group c && disabled T (cell_key c :: rp) cs
      | Some false => true
      | None => false
      end
  end.

(** ** Invariant

    [cur]: the object that is running now, if any; so are its parents, which called
    it.  [inhand]: the messages it has taken out of its mailbox.  Between the activation of an object
    and the [add_task] of its parent, and between [pop_task] and its run, the object is [pend]. *)
Definition busy_in (cur : option (list Z)) (rp : list Z) : bool := match rp, cur with _ :: _, Some p => bool_decide (rp `suffix_of` p) | _, _ => false end.
Definition hand_in (cur : option (list Z)) (inhand : list (Actor.msg (P := emsg))) (rp : list Z) : list (Actor.msg (P := emsg)) := match cur with Some p => if decide (p = rp) then inhand else [] | None => [] end.

Definition o_alive (o : obj) : gset Z := match o with OActor _ => ∅ | OGroup g => Group.alive g end.
Definition o_tasks (o : obj) : list Z := match o with OActor _ => [] | OGroup g => queued_tasks (Group.tq g) end.
Definition o_listed (o : obj) : bool := match o with OActor a => Actor.listed a | OGroup g => Group.listed g end.
Definition o_map (o : obj) : gmap Z bool := match o with OActor _ => ∅ | OGroup g => Group.inst_map g end.
Definition o_waiting (o : obj) : list Z := match o with OActor _ => [] | OGroup g => Group.waiting (Group.sem g) end.
Definition alive_at (T : shard) (rp : list Z) : gset Z :=
  match rp with [] => Engine.alive (root T) | _ => match objs T !! rp with Some o => o_alive o | None => ∅ end end.
Definition tasks_at (T : shard) (rp : list Z) : list Z :=
  match rp with [] => reactor T | _ => match objs T !! rp with Some o => o_tasks o | None => [] end end.
Definition waiting_at (T : shard) (rp : list Z) : list Z :=
  match rp with [] => Group.waiting (Engine.sem (root T)) | _ => match objs T !! rp with Some o => o_waiting o | None => [] end end.
Definition o_live (h : list (Actor.msg (P := emsg))) (run : bool) (o : obj) : Prop :=
  match o with OActor a => Actor.live h run a | OGroup g => Group.live run g end.
Definition o_kind (o : obj) : bool := match o with OActor _ => false | OGroup _ => true end.
Definition o_mailbox (o : obj) : list (Actor.msg (P := emsg)) * list gmsg :=
  match o with OActor a => (Actor.mailbox a, []) | OGroup g => ([], Group.mailbox g) end.

Record consistent (cur : option (list Z)) (inhand : list (Actor.msg (P := emsg))) (pend : option (list Z)) (T : shard) : Prop := {
  t_engine : Engine.inv (root T);
  t_root : objs T !! [] = None;
  t_alive : forall id rp, is_Some (objs T !! (id :: rp)) <-> id ∈ alive_at T rp;
  t_live : forall rp o, objs T !! rp = Some o -> o_live (hand_in cur inhand rp) (busy_in cur rp) o;
  t_kind : forall id rp o, objs T !! (id :: rp) = Some o -> o_kind o = match kind_of (id mod 65536) with GroupKind _ => true | ActorKind _ => false end;
  t_queued : forall id rp o, objs T !! (id :: rp) = Some o ->
    o_queued o = ((if decide (id ∈ tasks_at T rp) then 1 else 0) + (if decide (pend = Some (id :: rp)) then 1 else 0))%nat;
  t_reactor : forall id, id ∈ reactor T -> id ∈ Engine.alive (root T);
  t_busy : forall rp, busy_in cur rp = true -> is_Some (objs T !! rp);
  t_listed : forall id rp o, objs T !! (id :: rp) = Some o -> lookup_at T rp id = Some (o_listed o);
  t_waiting : forall rp, NoDup (waiting_at T rp) /\ forall id, id ∈ waiting_at T rp -> exists o, objs T !! (id :: rp) = Some o /\ o_sched o = INITIALIZED;
  t_nodup : NoDup (reactor T)
}.

Variable cur : option (list Z).
Variable inhand : list (Actor.msg (P := emsg)).
Abbreviation busy := (busy_in cur).
Abbreviation hand := (hand_in cur inhand).
Abbreviation tree_ok := (consistent cur inhand).

(** What [add_task] leaves alone: everything but status and task queue. *)
Definition core (o : obj) : obj :=
  match o with
  | OActor a => OActor (Actor.with_queued 0 (Actor.with_sched INITIALIZED a))
  | OGroup g => OGroup (Group.with_tq (TaskQueue.mk [] [] None false) (Group.with_queued 0 (Group.with_sched INITIALIZED g)))
  end.
Definition stable (T T' : shard) : Prop := root T' = root T /\ forall rp, core <$> objs T' !! rp = core <$> objs T !! rp.

Lemma stable_refl T : stable T T.
Proof. done. Qed.
Lemma stable_trans T1 T2 T3 : stable T1 T2 -> stable T2 T3 -> stable T1 T3.
Proof. intros [R1 H1] [R2 H2]. split; [congruence|]. intros rp. now rewrite H2, H1. Qed.

Lemma core_eq o o' : core o' = core o -> o_alive o' = o_alive o /\ o_kind o' = o_kind o /\ o_mailbox o' = o_mailbox o /\
  o_listed o' = o_listed o /\ o_map o' = o_map o /\ o_waiting o' = o_waiting o.
Proof.
  destruct o as [a|g], o' as [a'|g']; cbn; intros H; try discriminate; injection H; intros; split_and!; congruence.
Qed.
Lemma stable_alive T T' rp : stable T T' -> alive_at T' rp = alive_at T rp.
Proof.
  intros [R H]. unfold alive_at. destruct rp as [|id rp]; [now rewrite R|]. specialize (H (id :: rp)).
  destruct (objs T !! _) as [o|], (objs T' !! _) as [o'|]; cbn in H; try discriminate; [|done]. injection H as H. now apply core_eq.
Qed.
Lemma stable_lookup T T' rp id : stable T T' -> lookup_at T' rp id = lookup_at T rp id.
Proof.
  intros [R H]. unfold lookup_at. destruct rp as [|i rp]; [now rewrite R|]. specialize (H (i :: rp)).
  destruct (objs T !! _) as [[a|g]|], (objs T' !! _) as [[a'|g']|]; cbn in H; try discriminate; try done. injection H. intros. congruence.
Qed.
Lemma stable_waiting T T' rp : stable T T' -> waiting_at T' rp = waiting_at T rp.
Proof.
  intros [R H]. unfold waiting_at. destruct rp as [|id rp]; [now rewrite R|]. specialize (H (id :: rp)).
  destruct (objs T !! _) as [o|], (objs T' !! _) as [o'|]; cbn in H; try discriminate; [|done]. injection H as H. now apply core_eq.
Qed.
Lemma stable_some T T' rp : stable T T' -> is_Some (objs T' !! rp) <-> is_Some (objs T !! rp).
Proof.
  intros [_ H]. specialize (H rp). destruct (objs T !! rp), (objs T' !! rp); cbn in H; try discriminate; split; intros [? ?]; eauto; done.
Qed.

(** ** Objects *)
Lemma busy_hand rp : rp <> [] -> busy rp = false -> hand rp = [].
Proof.
  unfold busy_in, hand_in. destruct rp as [|x rp]; [done|]. destruct cur as [p|]; [|done]. intros _ Hb. destruct (decide (p = x :: rp)) as [->|]; [|done].
  apply bool_decide_eq_false in Hb. now destruct Hb.
Qed.
(** The parents of a running object are running. *)
Lemma busy_parent id rp : rp <> [] -> busy (id :: rp) = true -> busy rp = true.
Proof.
  unfold busy_in. destruct cur as [p|]; [|done]. destruct rp as [|x rp]; [done|]. intros _ Hb%bool_decide_eq_true. apply bool_decide_eq_true.
  etrans; [|exact Hb]. now apply suffix_cons_r.
Qed.

Lemma o_queued_sched h (run : bool) o : o_live h run o -> o_queued o = if run then 0%nat else if decide (o_sched o = SCHEDULED) then 1%nat else 0%nat.
Proof.
  destruct o as [a|g], run; cbn; [intros ([_ [_ Hq]] & _); exact Hq|intros ([_ Hq] & _); exact Hq|intros (_ & [_ Hq] & _); exact Hq|intros (_ & Hq & _); exact Hq].
Qed.
Lemma o_running_sched h o : o_live h true o -> o_sched o = SCHEDULED.
Proof. destruct o as [a|g]; cbn; [intros ([_ [Hs _]] & _)|intros (_ & [Hs _] & _)]; exact Hs. Qed.

Lemma o_enqueue_live h run m o : o_live h run o -> o_live h run (o_enqueue m o).
Proof.
  destruct o as [a|g]; cbn; intros Hl; [|exact (group_send_ok run (group_msg m) g Hl)].
  destruct (Actor.put_ok h run (actor_msg m) a (proj1 Hl)) as [H1 H2]. exact (Actor.keeps_live _ _ _ _ Hl H1 H2).
Qed.

(** Changes that concern neither parent nor children. *)
Record like (o o' : obj) : Prop := {
  l_alive : o_alive o' = o_alive o;
  l_tasks : o_tasks o' = o_tasks o;
  l_kind : o_kind o' = o_kind o;
  l_listed : o_listed o' = o_listed o;
  l_map : o_map o' = o_map o;
  l_waiting : exists woken, o_waiting o = woken ++ o_waiting o'
}.
Lemma core_like o o' : core o' = core o -> o_tasks o' = o_tasks o -> like o o'.
Proof. intros H Ht. destruct (core_eq _ _ H) as (?&?&?&?&?&?). split; try done. now exists []. Qed.

Lemma o_enqueue_same m o : like o (o_enqueue m o) /\ o_sched (o_enqueue m o) <> SCHEDULABLE /\ (o_sched o = INITIALIZED -> o_sched (o_enqueue m o) = INITIALIZED).
Proof.
  destruct o as [a|g]; cbn; destruct (user m); unfold Actor.enque_message, Actor.enque_urgent_message, Group.enque_message, Group.enque_urgent_message;
    unfold Actor.activate, Actor.activatable, Group.activate, Group.activatable; cbn; case_bool_decide as Hs; cbn; (split; [split; try done; now exists []|]); (split; [done|]); congruence.
Qed.

(** ** Up the tree *)

(** An object changes, but neither its children nor its tasks; it may begin or end to run. *)
Lemma change_ok c' h' pend pend' T id rp o o' :
  tree_ok pend T -> objs T !! (id :: rp) = Some o -> o_live (hand_in c' h' (id :: rp)) (busy_in c' (id :: rp)) o' -> like o o' ->
  (forall q, q <> id :: rp -> busy_in c' q = busy q /\ hand_in c' h' q = hand q) ->
  (o_sched o = INITIALIZED -> o_sched o' = INITIALIZED \/ id ∉ waiting_at T rp) ->
  (pend = None \/ pend = Some (id :: rp)) -> (pend' = None \/ pend' = Some (id :: rp)) ->
  (o_queued o' + (if pend then 1 else 0) = o_queued o + (if pend' then 1 else 0))%nat ->
  consistent c' h' pend' (set_obj (id :: rp) o' T).
Proof.
  clear this_gsid is_local.
  intros [H1 H2 H3 H4 H5 H6 H7 H8 H9 H10 H11] Ho Hl [Ha Ht Hk Hli Hma [wk Hwa]] Hoth Hin Hp Hp' Hq.
  assert (Halive : forall q, alive_at (set_obj (id :: rp) o' T) q = alive_at T q).
  { intros [|x q]; [done|]. unfold alive_at. cbn [objs set_obj]. destruct (decide (id :: rp = x :: q)) as [E|E];
      [rewrite <-E, lookup_insert_eq, Ho; done|now rewrite lookup_insert_ne]. }
  assert (Htasks : forall q, tasks_at (set_obj (id :: rp) o' T) q = tasks_at T q).
  { intros [|x q]; [done|]. unfold tasks_at. cbn [objs set_obj]. destruct (decide (id :: rp = x :: q)) as [E|E];
      [rewrite <-E, lookup_insert_eq, Ho; done|now rewrite lookup_insert_ne]. }
  assert (Hwaits : forall q, exists w, waiting_at T q = w ++ waiting_at (set_obj (id :: rp) o' T) q).
  { intros [|x q]; [now exists []|]. unfold waiting_at. cbn [objs set_obj]. destruct (decide (id :: rp = x :: q)) as [E|E];
      [rewrite <-E, lookup_insert_eq, Ho; eauto|rewrite lookup_insert_ne by done; now exists []]. }
  assert (Hlook : forall q x, lookup_at (set_obj (id :: rp) o' T) q x = lookup_at T q x).
  { intros [|y q] x; [done|]. unfold lookup_at. cbn [objs set_obj]. destruct (decide (id :: rp = y :: q)) as [E|E]; [|now rewrite lookup_insert_ne].
    rewrite <-E, lookup_insert_eq, Ho. destruct o, o'; cbn in Hk, Hma; try done. now rewrite Hma. }
  split; cbn [root reactor set_obj]; try done.
  - cbn [objs set_obj]. now rewrite lookup_insert_ne.
  - intros id' q. rewrite Halive, <-H3. cbn [objs set_obj]. rewrite lookup_insert_is_Some'. split; [intros [E|?]; [rewrite <-E, Ho; eauto|done]|auto].
  - intros q x. cbn [objs set_obj]. rewrite lookup_insert_Some. intros [[<- <-]|[Hne E]]; [done|]. destruct (Hoth q) as [-> ->]; [done|]. eauto.
  - intros id' q x. cbn [objs set_obj]. rewrite lookup_insert_Some. intros [[E <-]|[_ E]]; [injection E as <- <-; rewrite Hk|]; eauto.
  - intros id' q x. cbn [objs set_obj]. rewrite Htasks, lookup_insert_Some. intros [[E <-]|[Hne E]].
    + injection E as <- <-. pose proof (H6 _ _ _ Ho) as Hx. set (n := if decide (id ∈ tasks_at T rp) then 1%nat else 0%nat) in *.
      destruct Hp as [-> | ->], Hp' as [-> | ->]; rewrite ?(decide_True (P := Some _ = Some _)), ?(decide_False (P := None = _)) in * by done; lia.
    + rewrite (H6 _ _ _ E). f_equal. destruct Hp as [-> | ->], Hp' as [-> | ->]; rewrite ?(decide_False (P := Some _ = _)), ?(decide_False (P := None = _)) by congruence; done.
  - intros q Hb. cbn [objs set_obj]. rewrite lookup_insert_is_Some'. destruct (decide (q = id :: rp)) as [->|Hne]; [now left|right]. apply H8. now destruct (Hoth q Hne) as [<- _].
  - intros id' q x. rewrite Hlook. cbn [objs set_obj]. rewrite lookup_insert_Some. intros [[E <-]|[_ E]]; [injection E as <- <-; rewrite Hli|]; eauto.
  - intros q. destruct (Hwaits q) as [w Hw]. destruct (H10 q) as [Hnd Hall]. rewrite Hw in Hnd, Hall. split; [now apply NoDup_app in Hnd as (_ & _ & ?)|].
    intros x Hx. destruct (Hall x) as (ox & Ex & Esx); [apply elem_of_app; auto|]. cbn [objs set_obj].
    destruct (decide (x :: q = id :: rp)) as [E|E]; [|rewrite lookup_insert_ne by done; eauto]. injection E as -> ->. rewrite lookup_insert_eq.
    assert (ox = o) as -> by congruence. destruct (Hin Esx) as [?|Hno]; [eauto|]. destruct Hno. rewrite Hw. apply elem_of_app. auto.
Qed.

Lemma set_obj_ok pend T id rp o o' :
  objs T !! (id :: rp) = Some o -> o_live (hand (id :: rp)) (busy (id :: rp)) o' -> like o o' ->
  (o_sched o = INITIALIZED -> o_sched o' = INITIALIZED \/ id ∉ waiting_at T rp) ->
  (o_queued o' = o_queued o /\ pend = None \/ o_queued o' = S (o_queued o) /\ pend = Some (id :: rp)) ->
  tree_ok None T -> tree_ok pend (set_obj (id :: rp) o' T).
Proof.
  clear this_gsid is_local.
  intros Ho Hl Hlk Hin Hq Ht. eapply change_ok; eauto; destruct Hq as [[Hq ->]|[Hq ->]]; auto; lia.
Qed.

(** A group is given a task. *)
Lemma group_add_task id (g : group) :
  let g' := Group.add_task id g in
  (forall x, x ∈ queued_tasks (Group.tq g') <-> x = id \/ x ∈ queued_tasks (Group.tq g)) /\
  (Group.queued g' = Group.queued g \/ Group.queued g' = S (Group.queued g)) /\ core (OGroup g') = core (OGroup g).
Proof.
  clear this_gsid is_local.
  cbn zeta. unfold Group.add_task, Group.activate. destruct (Group.activatable _); cbn; split_and!; auto; intros x; unfold queued_tasks; cbn; set_solver.
Qed.

Lemma not_below (id : Z) rp : id :: rp <> rp.
Proof. intros E. apply (f_equal length) in E. cbn in E. lia. Qed.

Lemma stable_listed T T' : stable T T' ->
  (forall id rp o, objs T !! (id :: rp) = Some o -> lookup_at T rp id = Some (o_listed o)) ->
  forall id rp o, objs T' !! (id :: rp) = Some o -> lookup_at T' rp id = Some (o_listed o).
Proof.
  intros Hst H id rp o' E. rewrite (stable_lookup _ _ _ _ Hst). destruct (proj1 (stable_some _ _ (id :: rp) Hst) ltac:(eauto)) as [o Eo].
  rewrite (H _ _ _ Eo). destruct Hst as [_ Hst]. specialize (Hst (id :: rp)). rewrite E, Eo in Hst. cbn in Hst. injection Hst as Hst.
  destruct (core_eq _ _ Hst) as (_ & _ & _ & -> & _). done.
Qed.
Definition init_kept (T T' : shard) : Prop :=
  forall rp o o', objs T !! rp = Some o -> objs T' !! rp = Some o' -> o_sched o = INITIALIZED -> o_sched o' = INITIALIZED.
Lemma init_kept_refl T : init_kept T T.
Proof. intros q o o' E1 E2. congruence. Qed.
Lemma init_kept_trans T1 T2 T3 : stable T1 T2 -> init_kept T1 T2 -> init_kept T2 T3 -> init_kept T1 T3.
Proof. intros Hst H1 H2 q o o' E1 E3 Hs. destruct (proj2 (stable_some _ _ q Hst) ltac:(eauto)) as [o2 E2]. eauto. Qed.
Lemma stable_waits T T' : stable T T' -> init_kept T T' ->
  (forall rp, NoDup (waiting_at T rp) /\ forall id, id ∈ waiting_at T rp -> exists o, objs T !! (id :: rp) = Some o /\ o_sched o = INITIALIZED) ->
  forall rp, NoDup (waiting_at T' rp) /\ forall id, id ∈ waiting_at T' rp -> exists o, objs T' !! (id :: rp) = Some o /\ o_sched o = INITIALIZED.
Proof.
  intros Hst Hs H rp. rewrite (stable_waiting _ _ _ Hst). destruct (H rp) as [Hnd Hw]. split; [done|]. intros id Hin.
  destruct (Hw id Hin) as (o & Eo & Es). destruct (proj2 (stable_some _ _ (id :: rp) Hst) ltac:(eauto)) as [o' Eo']. eauto.
Qed.

Lemma give_task pid rq id g T :
  tree_ok (Some (id :: pid :: rq)) T -> objs T !! (pid :: rq) = Some (OGroup g) -> id ∈ Group.alive g -> id ∉ queued_tasks (Group.tq g) ->
  let g' := Group.add_task id g in
  tree_ok (if (Group.queued g <? Group.queued g')%nat then Some (pid :: rq) else None) (set_obj (pid :: rq) (OGroup g') T) /\
  stable T (set_obj (pid :: rq) (OGroup g') T) /\ Group.live (busy (pid :: rq)) g' /\ (Group.sched g = INITIALIZED -> Group.sched g' = INITIALIZED).
Proof.
  clear this_gsid is_local.
  intros [H1 H2 H3 H4 H5 H6 H7 H8 H9 H10 H11] Eg Hal Hin. cbv zeta.
  pose proof (add_ok (busy (pid :: rq)) id false g (H4 _ _ Eg) Hal Hin) as Hlive. cbn iota in Hlive.
  destruct (group_add_task id g) as (Hmem & Hqg & Hcore). set (g' := Group.add_task id g) in *. set (pend := if (_ <? _)%nat then _ else None).
  assert (Hst : stable T (set_obj (pid :: rq) (OGroup g') T)).
  { split; [done|]. intros q. cbn [objs set_obj]. destruct (decide (q = pid :: rq)) as [->|E];
      [rewrite lookup_insert_eq, Eg; cbn [fmap option_fmap option_map]; now rewrite Hcore|now rewrite lookup_insert_ne]. }
  assert (Hinit : Group.sched g = INITIALIZED -> Group.sched g' = INITIALIZED)
    by (intros E; unfold g', Group.add_task, Group.activate, Group.activatable; cbn; rewrite E; done).
  split; [|split; [exact Hst|split; [exact Hlive|exact Hinit]]]. split; cbn [root reactor set_obj]; try done.
  - cbn [objs set_obj]. now rewrite lookup_insert_ne.
  - intros id' q. rewrite (stable_alive _ _ _ Hst), <-H3. now apply stable_some.
  - intros q x. cbn [objs set_obj]. rewrite lookup_insert_Some. intros [[<- <-]|[_ E]]; [exact Hlive|eauto].
  - intros id' q x. cbn [objs set_obj]. rewrite lookup_insert_Some. intros [[E <-]|[_ E]]; [injection E as <- <-; exact (H5 _ _ _ Eg)|eauto].
  - intros id' q x. cbn [objs set_obj]. rewrite lookup_insert_Some. intros [[E <-]|[Hne E]].
    + injection E as <- <-. replace (tasks_at _ rq) with (tasks_at T rq).
      2:{ destruct rq as [|z rq']; [done|]. unfold tasks_at. cbn [objs set_obj]. now rewrite lookup_insert_ne by apply not_below. }
      pose proof (H6 _ _ _ Eg) as Hy. cbn [o_queued] in *.
      rewrite (decide_False (P := Some (id :: pid :: rq) = _)) in Hy by (intros [= _ E]; now apply not_below in E).
      subst pend. destruct Hqg as [Hqg|Hqg]; rewrite Hqg in *.
      * rewrite Nat.ltb_irrefl. rewrite (decide_False (P := None = _)) by done. exact Hy.
      * rewrite (proj2 (Nat.ltb_lt _ _)) by lia. rewrite (decide_True (P := Some (pid :: rq) = _)) by done. lia.
    + rewrite (H6 _ _ _ E). rewrite (decide_False (P := pend = _)) by (subst pend; destruct (_ <? _)%nat; congruence).
      destruct (decide (q = pid :: rq)) as [->|Hq'].
      * cbn [tasks_at objs set_obj]. rewrite lookup_insert_eq, Eg. cbn [o_tasks]. destruct (decide (id' = id)) as [->|Hid].
        -- rewrite decide_False, !decide_True by (done || (apply Hmem; auto)). done.
        -- rewrite (decide_False (P := Some (id :: _) = _)) by congruence. f_equal.
           destruct (decide (id' ∈ queued_tasks (Group.tq g))); [rewrite decide_True by (apply Hmem; auto)|rewrite decide_False by (rewrite Hmem; tauto)]; done.
      * rewrite (decide_False (P := Some (id :: _) = _)) by congruence. f_equal. destruct q as [|z q]; [done|]. unfold tasks_at. cbn [objs set_obj]. now rewrite lookup_insert_ne.
  - intros q Hb. cbn [objs set_obj]. rewrite lookup_insert_is_Some'. auto.
  - exact (stable_listed _ _ Hst H9).
  - apply (stable_waits _ _ Hst); [|exact H10]. intros q x y Ex. cbn [objs set_obj]. rewrite lookup_insert_Some.
    intros [[<- <-]|[_ E]]; [|congruence]. rewrite Eg in Ex. injection Ex as <-. exact Hinit.
Qed.

(** The reactor is given a child of the root actor. *)
Lemma give_reactor id T : tree_ok (Some [id]) T -> id ∉ reactor T -> is_Some (objs T !! [id]) ->
  tree_ok None (mk_shard (root T) (objs T) (reactor T ++ [id])).
Proof.
  clear this_gsid is_local.
  intros [H1 H2 H3 H4 H5 H6 H7 H8 H9 H10 H11] Hin Ho. split; cbn [root objs reactor]; try done.
  - intros id' q x E. rewrite (H6 _ _ _ E). destruct q as [|y q].
    + cbn [tasks_at reactor]. destruct (decide (id' = id)) as [->|Hne].
      * rewrite (decide_False (P := id ∈ reactor T)), (decide_True (P := Some [id] = _)), (decide_True (P := id ∈ reactor T ++ _)) by (done || set_solver). done.
      * rewrite (decide_False (P := Some [id] = _)), (decide_False (P := None = _)) by congruence. f_equal.
        destruct (decide (id' ∈ reactor T)); [rewrite decide_True by set_solver|rewrite decide_False by set_solver]; done.
    + rewrite (decide_False (P := Some [id] = _)) by congruence. done.
  - intros id' Hi. apply elem_of_app in Hi as [Hi|Hi%list_elem_of_singleton]; [auto|subst id'; now apply (H3 id [])].
  - apply NoDup_app. split; [done|]. split; [|apply NoDup_singleton]. intros x Hx Hx2. apply list_elem_of_singleton in Hx2. now subst x.
Qed.

Lemma tree_add_task_ok rp : forall id T, tree_ok (Some (id :: rp)) T -> (exists o, objs T !! (id :: rp) = Some o /\ o_queued o = 1%nat) ->
  exists T', add_task rp id T = Ok T' /\ tree_ok None T' /\ stable T T' /\
    (forall q, (length rp < length q)%nat -> objs T' !! q = objs T !! q) /\
    init_kept T T'.
Proof using HL.
  clear this_gsid is_local.
  induction rp as [|pid rq IH]; intros id T Ht (o & Ho & Hq); pose proof (t_queued _ _ _ _ Ht _ _ _ Ho) as Hx;
    rewrite Hq, (decide_True (P := Some _ = _)) in Hx by done.
  - cbn [add_task]. eexists. split; [reflexivity|]. split; [|split; [done|split; [done|intros q x y E1 E2; cbn in E2; congruence]]]. apply give_reactor; [done| |eauto].
    intros Hi. cbn in Hx. rewrite decide_True in Hx by done. lia.
  - cbn [add_task]. assert (Hal : id ∈ alive_at T (pid :: rq)) by (apply (t_alive _ _ _ _ Ht); eauto). cbn [alive_at tasks_at] in *.
    destruct (objs T !! (pid :: rq)) as [[a|g]|] eqn:Eg; cbn [o_alive o_tasks] in *; [set_solver| |set_solver].
    assert (Hin : id ∉ queued_tasks (Group.tq g)) by (intros Hi; rewrite decide_True in Hx by done; lia).
    destruct (give_task pid rq id g T Ht Eg Hal Hin) as (HT1 & Hst & Hlive & Hinit). cbv zeta.
    assert (Hup : forall q, (length (pid :: rq) < length q)%nat -> objs (set_obj (pid :: rq) (OGroup (Group.add_task id g)) T) !! q = objs T !! q).
    { intros q Hl. cbn [objs set_obj]. apply lookup_insert_ne. intros <-. lia. }
    assert (Hk : init_kept T (set_obj (pid :: rq) (OGroup (Group.add_task id g)) T)).
    { intros q x y Ex. cbn [objs set_obj]. rewrite lookup_insert_Some. intros [[<- <-]|[_ E]]; [|congruence]. rewrite Eg in Ex. injection Ex as <-. exact Hinit. }
    destruct (Nat.ltb_spec (Group.queued g) (Group.queued (Group.add_task id g))) as [Hlt|Hge]; [|eauto 7].
    destruct (IH pid _ HT1) as (T' & E & Hok & Hst' & Hq' & Hk').
    + eexists. cbn [objs set_obj]. rewrite lookup_insert_eq. split; [reflexivity|].
      pose proof (o_queued_sched [] _ (OGroup (Group.add_task id g)) Hlive) as Hqo. cbn [o_queued] in *. rewrite Hqo in *. repeat case_match; lia.
    + exists T'. split; [done|]. split; [done|]. split; [eapply stable_trans; eassumption|]. split; [|eapply init_kept_trans; eassumption].
      intros q Hl. rewrite Hq' by (cbn in Hl; lia). now apply Hup.
Qed.

Lemma settle_ok id rp o o' T :
  tree_ok None T -> objs T !! (id :: rp) = Some o -> o_live (hand (id :: rp)) (busy (id :: rp)) o' -> like o o' ->
  (o_sched o = INITIALIZED -> o_sched o' = INITIALIZED \/ id ∉ waiting_at T rp) ->
  (o_queued o' = o_queued o \/ o_queued o' = 1%nat /\ o_queued o = 0%nat) ->
  exists T', settle id rp o o' T = Ok T' /\ tree_ok None T' /\ stable (set_obj (id :: rp) o' T) T' /\ objs T' !! (id :: rp) = Some o' /\
    init_kept (set_obj (id :: rp) o' T) T'.
Proof using HL.
  clear this_gsid is_local.
  intros Ht Ho Hl Hlk Hin Hq. unfold settle. cbv zeta. destruct Hq as [Hq|[Hq1 Hq0]].
  - rewrite Hq, Nat.ltb_irrefl. eexists. split; [reflexivity|]. split; [|split; [apply stable_refl|split; [cbn [objs set_obj]; apply lookup_insert_eq|apply init_kept_refl]]].
    eapply set_obj_ok; eauto.
  - rewrite Hq1, Hq0. cbn [Nat.ltb Nat.leb]. destruct (tree_add_task_ok rp id (set_obj (id :: rp) o' T)) as (T' & E & Hok & Hst & Hup & Hk).
    + eapply set_obj_ok; eauto. right. split; [congruence|done].
    + eexists. cbn [objs set_obj]. now rewrite lookup_insert_eq.
    + exists T'. split; [done|]. split; [done|]. split; [done|]. split; [|done]. rewrite Hup by (cbn; lia). cbn [objs set_obj]. apply lookup_insert_eq.
Qed.

(** What an activated object waits for. *)
Fixpoint runnable (T : shard) (rp : list Z) : Prop :=
  match rp with
  | [] => False
  | id :: rq =>
      id ∈ tasks_at T rq /\
      match rq with
      | [] => True
      | _ => exists g, objs T !! rq = Some (OGroup g) /\
               (Group.sched g = INITIALIZED \/ busy rq = true \/ (Group.sched g = SCHEDULED /\ runnable T rq))
      end
  end.

Lemma scheduled_runnable T rp : forall o, tree_ok None T -> objs T !! rp = Some o -> o_sched o = SCHEDULED -> busy rp = true \/ runnable T rp.
Proof using HL.
  induction rp as [|id rq IH]; intros o Ht Ho Hs; [now rewrite (t_root _ _ _ _ Ht) in Ho|]. destruct (busy (id :: rq)) eqn:Hb; [now left|right].
  pose proof (t_queued _ _ _ _ Ht _ _ _ Ho) as Hq. pose proof (t_live _ _ _ _ Ht _ _ Ho) as Hlo. rewrite Hb in Hlo.
  rewrite (o_queued_sched _ _ o Hlo), decide_True, (decide_False (P := None = _)) in Hq by done.
  destruct (decide (id ∈ tasks_at T rq)) as [Hin|]; [|done]. cbn [runnable]. split; [done|]. destruct rq as [|pid rq]; [done|].
  cbn [tasks_at] in Hin. destruct (objs T !! (pid :: rq)) as [[a|g]|] eqn:Eg; cbn [o_tasks] in Hin; [set_solver| |set_solver].
  exists g. split; [done|]. destruct (t_live _ _ _ _ Ht _ _ Eg) as (_ & _ & Hidle & _). unfold idle_ok in Hidle.
  destruct (Group.sched g) eqn:Es; [now left| |].
  - destruct (Hidle eq_refl) as (_ & Hempty & _). rewrite Hempty in Hin. set_solver.
  - right. destruct (IH (OGroup g) Ht eq_refl Es) as [?|?]; auto.
Qed.

(** ** Down the tree *)
Hypothesis kinds_ordered : forall t c, kind_of t = GroupKind c -> comparator_ok c.

Lemma create_live type : o_live [] false (create type).
Proof. unfold create. destruct (kind_of type) as [r|c] eqn:E; cbn; [apply Actor.actor_new_live|eapply group_new_live, kinds_ordered, E]. Qed.

Lemma schedule_created type : exists o, o_schedule (create type) = Ok o /\ o_live [] false o /\ o_queued o = 1%nat /\ core o = core (create type) /\ o_tasks o = o_tasks (create type).
Proof.
  unfold create. destruct (kind_of type) as [r|c] eqn:E; cbn; (eexists; split; [reflexivity|]); (split; [|split_and!; done]); cbn.
  - split; [split|split; done]; [|done]. split; cbn; try done; destruct r; cbn; done || lia.
  - pose proof (group_live_step ESchedule (group_new c) (group_new_live c (kinds_ordered _ _ E))) as Hg. cbn in Hg.
    destruct Hg as [Hg|Hd]; [exact Hg|]. destruct Hd. done.
Qed.

Lemma create_empty type : o_alive (create type) = ∅ /\ o_tasks (create type) = [] /\ o_mailbox (create type) = ([], []) /\ o_queued (create type) = 0%nat /\
  o_listed (create type) = true /\ o_map (create type) = ∅ /\ o_waiting (create type) = [] /\ o_sched (create type) = INITIALIZED /\
  o_kind (create type) = match kind_of type with GroupKind _ => true | ActorKind _ => false end.
Proof. unfold create. destruct (kind_of type) as [r|[c|]]; cbn; rewrite ?sem_init_waiting; done. Qed.

(** A parent has a new child. *)
Lemma add_child_ok T T1 id rp (av : bool) :
  tree_ok None T -> objs T !! (id :: rp) = None -> Engine.inv (root T1) -> reactor T1 = reactor T -> objs T1 !! [] = None ->
  (forall q, alive_at T1 q = if decide (q = rp) then {[id]} ∪ alive_at T q else alive_at T q) -> (forall q, tasks_at T1 q = tasks_at T q) ->
  (forall q, waiting_at T1 q = if decide (q = rp) then waiting_at T q ++ (if av then [] else [id]) else waiting_at T q) ->
  (forall q x, lookup_at T1 q x = if decide (x :: q = id :: rp) then Some true else lookup_at T q x) ->
  (forall q o1, objs T1 !! q = Some o1 -> exists o, objs T !! q = Some o /\ o_queued o1 = o_queued o /\ o_kind o1 = o_kind o /\
     o_listed o1 = o_listed o /\ o_sched o1 = o_sched o /\ o_live (hand q) (busy q) o1) ->
  (forall q, is_Some (objs T !! q) -> is_Some (objs T1 !! q)) ->
  tree_ok None (set_obj (id :: rp) (create (id mod 65536)) T1) /\
  (av = true -> id ∉ waiting_at (set_obj (id :: rp) (create (id mod 65536)) T1) rp).
Proof.
  intros [H1 H2 H3 H4 H5 H6 H7 H8 H9 H10 H11] Hno Hinv Hre Hr1 Hal Hts Hwt Hlk Hold Hsome.
  destruct (create_empty (id mod 65536)) as (C1 & C2 & C3 & C4 & C6 & C7 & C8 & C9 & C5).
  assert (Hno1 : objs T1 !! (id :: rp) = None) by (destruct (objs T1 !! (id :: rp)) eqn:E; [destruct (Hold _ _ E) as (o2 & Eo & _); congruence|done]).
  assert (Hnb : busy (id :: rp) = false) by (destruct (busy (id :: rp)) eqn:E; [apply H8 in E as [? ?]; congruence|done]).
  assert (Hfld : forall X (f : obj -> X) (d : X) (r : shard -> X) q, f (create (id mod 65536)) = d ->
    match q with [] => r (set_obj (id :: rp) (create (id mod 65536)) T1) | _ => match objs (set_obj (id :: rp) (create (id mod 65536)) T1) !! q with Some o => f o | None => d end end =
    match q with [] => r (set_obj (id :: rp) (create (id mod 65536)) T1) | _ => match objs T1 !! q with Some o => f o | None => d end end).
  { intros X f d r q Hd. destruct q as [|x q]; [done|]. cbn [objs set_obj]. destruct (decide (x :: q = id :: rp)) as [E|E];
      [rewrite E, lookup_insert_eq, Hno1; exact Hd|now rewrite lookup_insert_ne]. }
  assert (Halive : forall q, alive_at (set_obj (id :: rp) (create (id mod 65536)) T1) q = if decide (q = rp) then {[id]} ∪ alive_at T q else alive_at T q).
  { intros q. rewrite <-Hal. exact (Hfld _ o_alive ∅ (fun T => Engine.alive (root T)) q C1). }
  assert (Htasks : forall q, tasks_at (set_obj (id :: rp) (create (id mod 65536)) T1) q = tasks_at T q).
  { intros q. rewrite <-Hts. exact (Hfld _ o_tasks [] reactor q C2). }
  assert (Hwait : forall q, waiting_at (set_obj (id :: rp) (create (id mod 65536)) T1) q = if decide (q = rp) then waiting_at T q ++ (if av then [] else [id]) else waiting_at T q).
  { intros q. rewrite <-Hwt. exact (Hfld _ o_waiting [] (fun T => Group.waiting (Engine.sem (root T))) q C8). }
  assert (Hlook : forall q x, objs T1 !! q <> None \/ q = [] -> lookup_at (set_obj (id :: rp) (create (id mod 65536)) T1) q x = lookup_at T1 q x).
  { intros q x Hq. destruct q as [|y q]; [done|]. unfold lookup_at. cbn [objs set_obj]. rewrite lookup_insert_ne; [done|]. intros E. rewrite <-E, Hno1 in Hq. destruct Hq; congruence. }
  assert (Hiff : forall x q, is_Some (objs T1 !! (x :: q)) <-> x ∈ alive_at T q).
  { intros x q. rewrite <-H3. split; [|apply Hsome]. intros [o1 E1]. destruct (Hold _ _ E1) as (o & Eo & _). eauto. }
  assert (Hwno : id ∉ waiting_at T rp) by (intros Hin; destruct (proj2 (H10 rp) id Hin) as (o & Eo & _); congruence).
  split; [split; cbn [root reactor set_obj]; try done|].
  - cbn [objs set_obj]. now rewrite lookup_insert_ne.
  - intros x q. rewrite Halive. cbn [objs set_obj]. rewrite lookup_insert_is_Some', Hiff. case_decide as Hq; [subst q|].
    + rewrite elem_of_union, elem_of_singleton. split; intros [E|?]; auto; left; congruence.
    + split; [intros [E|?]; [congruence|done]|auto].
  - intros q o. cbn [objs set_obj]. rewrite lookup_insert_Some. intros [[<- <-]|[_ E]]; [rewrite Hnb, busy_hand by done; apply create_live|].
    now destruct (Hold _ _ E) as (_ & _ & _ & _ & _ & _ & ?).
  - intros x q o. cbn [objs set_obj]. rewrite lookup_insert_Some. intros [[E <-]|[_ E]]; [injection E as <- <-; exact C5|].
    destruct (Hold _ _ E) as (o0 & Eo & _ & -> & _). eauto.
  - intros x q o. cbn [objs set_obj]. rewrite Htasks, lookup_insert_Some, (decide_False (P := None = _)) by done. intros [[E <-]|[_ E]].
    + injection E as <- <-. rewrite C4. case_decide as Hin; [|done]. exfalso. assert (Hm : id ∈ alive_at T rp); [|apply H3 in Hm as [? ?]; congruence].
      destruct rp as [|pid rq]; [apply H7, Hin|]. cbn [alive_at tasks_at] in *. destruct (objs T !! (pid :: rq)) as [[a|g]|] eqn:Eg; cbn [o_tasks o_alive] in *;
        [now apply not_elem_of_nil in Hin| |now apply not_elem_of_nil in Hin]. destruct (H4 _ _ Eg) as ([] & _). auto.
    + destruct (Hold _ _ E) as (o0 & Eo & -> & _). rewrite (H6 _ _ _ Eo), (decide_False (P := None = _)) by done. done.
  - intros x Hx. rewrite Hre in Hx. apply H7 in Hx. change (Engine.alive (root T1)) with (alive_at T1 []). rewrite Hal. case_decide; [apply elem_of_union_r|]; exact Hx.
  - intros q Hb. cbn [objs set_obj]. rewrite lookup_insert_is_Some'. auto.
  - intros x q o. cbn [objs set_obj]. rewrite lookup_insert_Some. intros [[E <-]|[Hne E]].
    + injection E as <- <-. rewrite C6. destruct rp as [|pid rq]; [change (lookup_at (set_obj [id] (create (id mod 65536)) T1) [] id) with (lookup_at T1 [] id); now rewrite Hlk, decide_True|].
      rewrite Hlook, Hlk, decide_True; [done..|]. left. assert (Hin : id ∈ alive_at T1 (pid :: rq)) by (rewrite Hal, decide_True by done; set_solver).
      cbn [alive_at] in Hin. destruct (objs T1 !! (pid :: rq)); [done|set_solver].
    + destruct (Hold _ _ E) as (o0 & Eo & _ & _ & -> & _). rewrite Hlook, Hlk, decide_False by (congruence || (destruct q; [now right|left];
        pose proof (proj1 (Hiff _ _) ltac:(eauto)) as Hin; cbn [alive_at] in Hin; destruct (objs T !! _) eqn:Eq in Hin; [destruct (Hsome _ ltac:(eauto)) as [? ->]; done|set_solver])).
      eauto.
  - intros q. rewrite Hwait. destruct (H10 q) as [Hnd Hw]. split.
    + case_decide as Hq; [subst q|done]. destruct av; [now rewrite app_nil_r|]. apply NoDup_app. split; [done|]. split; [|apply NoDup_singleton].
      intros x Hx Hx2. apply list_elem_of_singleton in Hx2. now subst x.
    + intros x Hx. cbn [objs set_obj]. destruct (decide (x :: q = id :: rp)) as [E|E]; [injection E as -> ->; rewrite lookup_insert_eq; eauto|].
      rewrite lookup_insert_ne by done. assert (Hx' : x ∈ waiting_at T q).
      { case_decide as Hq; [subst q|done]. apply elem_of_app in Hx as [Hx|Hx]; [done|]. destruct av; [now apply not_elem_of_nil in Hx|]. apply list_elem_of_singleton in Hx. now subst x. }
      destruct (Hw x Hx') as (o & Eo & Es). destruct (Hsome _ ltac:(eauto)) as [o1 Eo1]. destruct (Hold _ _ Eo1) as (o2 & Eo2 & _ & _ & _ & Hs & _).
      exists o1. split; [done|]. congruence.
  - now rewrite Hre.
  - intros ->. rewrite Hwait, decide_True, app_nil_r by done. exact Hwno.
Qed.

Lemma new_child_ok type id rp av T : tree_ok None (set_obj (id :: rp) (create type) T) ->
  (av = true -> id ∉ waiting_at (set_obj (id :: rp) (create type) T) rp) ->
  exists T', new_child type id rp av T = Ok T' /\ tree_ok None T' /\ stable (set_obj (id :: rp) (create type) T) T'.
Proof.
  intros Ht Hw. unfold new_child. destruct av; [|eauto using stable_refl]. set (T2 := set_obj (id :: rp) (create type) T) in *.
  destruct (schedule_created type) as (o & -> & Hl & Hq & Hc & Hts). cbn [mbind res_bind].
  assert (Ho : objs T2 !! (id :: rp) = Some (create type)) by (cbn [objs set_obj T2]; now rewrite lookup_insert_eq).
  assert (Hnb : busy (id :: rp) = false).
  { destruct (busy (id :: rp)) eqn:E; [|done]. pose proof (t_live _ _ _ _ Ht _ _ Ho) as Hlo. rewrite E in Hlo. apply o_running_sched in Hlo.
    destruct (create_empty type) as (_ & _ & _ & _ & _ & _ & _ & C9 & _). congruence. }
  rewrite <-Hnb in Hl at 1. rewrite <-(busy_hand (id :: rp)) in Hl by done.
  destruct (settle_ok id rp (create type) o T2 Ht Ho Hl (core_like _ _ Hc Hts)) as (T' & E & Hok & Hst & _); [intros _; right; now apply Hw|right; split; [done|apply create_empty]|].
  exists T'. split; [done|]. split; [done|]. eapply stable_trans; [|exact Hst]. split; [done|]. intros q. cbn [objs set_obj].
  destruct (decide (q = id :: rp)) as [->|Hne]; [rewrite lookup_insert_eq, Ho; cbn; now rewrite Hc|now rewrite lookup_insert_ne].
Qed.

(** A group creates a child on the way of a message. *)
Lemma group_creates T pid rq g id :
  tree_ok None T -> objs T !! (pid :: rq) = Some (OGroup g) -> Group.inst_map g !! id = None -> Z.of_nat (base.size (Group.alive g)) < 4294967295 ->
  let T1 := set_obj (pid :: rq) (OGroup (fst (Group.get_actor_local id g))) T in
  let T2 := set_obj (id :: pid :: rq) (create (id mod 65536)) T1 in
  tree_ok None T2 /\ (snd (sem_wait (Group.sem g) id) = true -> id ∉ waiting_at T2 (pid :: rq)).
Proof.
  intros Ht Eg Em Hs T1. pose proof (t_live _ _ _ _ Ht _ _ Eg) as Hlive. pose proof (get_actor_local_live (busy (pid :: rq)) id g Hlive Hs) as Hl'.
  set (g' := fst (Group.get_actor_local id g)) in *. pose proof (sem_wait_spec (Group.sem g) id) as Hsw.
  assert (Hg : Group.alive g' = {[id]} ∪ Group.alive g /\ Group.tq g' = Group.tq g /\ Group.queued g' = Group.queued g /\
    Group.sem g' = fst (sem_wait (Group.sem g) id) /\ Group.inst_map g' = <[id := true]> (Group.inst_map g) /\ Group.listed g' = Group.listed g /\ Group.sched g' = Group.sched g).
  { subst g'. unfold Group.get_actor_local. rewrite Em. cbv zeta. change (Group.sem (Group.with_num _ _)) with (Group.sem g). destruct (sem_wait _ id) as [s []]; done. }
  destruct Hg as (G1 & G2 & G3 & G4 & G5 & G6 & G7).
  assert (Hna : id ∉ Group.alive g) by (intros Ha; destruct Hlive as ([] & _); destruct (b_alive _ Ha); congruence).
  assert (Hfld : forall X (f : obj -> X) (d : X) (r : shard -> X) q, match q with [] => r T1 | _ => match objs T1 !! q with Some o => f o | None => d end end =
    if decide (q = pid :: rq) then f (OGroup g') else match q with [] => r T1 | _ => match objs T !! q with Some o => f o | None => d end end).
  { intros X f d r q. case_decide as Hq; [subst q|]; unfold T1; cbn [objs set_obj]; [now rewrite lookup_insert_eq|]. destruct q; [done|]. now rewrite lookup_insert_ne. }
  apply (add_child_ok T); try done.
  - destruct (objs T !! (id :: pid :: rq)) as [o|] eqn:E; [|done]. exfalso. apply Hna.
    pose proof (proj1 (t_alive _ _ _ _ Ht id (pid :: rq)) ltac:(eauto)) as Hin. cbn [alive_at] in Hin. now rewrite Eg in Hin.
  - apply Ht.
  - unfold T1. cbn [objs set_obj]. rewrite lookup_insert_ne by done. apply Ht.
  - intros q. etrans; [exact (Hfld _ o_alive ∅ (fun T => Engine.alive (root T)) q)|]. case_decide as Hq; [subst q|done]. cbn [o_alive alive_at]. now rewrite G1, Eg.
  - intros q. etrans; [exact (Hfld _ o_tasks [] reactor q)|]. case_decide as Hq; [subst q|done]. cbn [o_tasks tasks_at]. now rewrite G2, Eg.
  - intros q. etrans; [exact (Hfld _ o_waiting [] (fun T => Group.waiting (Engine.sem (root T))) q)|]. case_decide as Hq; [subst q|done].
    cbn [o_waiting waiting_at]. now rewrite G4, Eg, Hsw.
  - intros q x. etrans; [exact (Hfld _ (fun o => match o with OGroup g => Group.inst_map g !! x | _ => None end) None (fun T => Engine.inst_map (root T) !! x) q)|].
    case_decide as Hq; [subst q; rewrite G5|rewrite decide_False by congruence; done].
    cbn [lookup_at]. rewrite Eg. destruct (decide (x = id)) as [->|Hx]; [rewrite lookup_insert_eq, decide_True by done; done|].
    rewrite lookup_insert_ne, decide_False by congruence. done.
  - intros q o1. unfold T1. cbn [objs set_obj]. rewrite lookup_insert_Some. intros [[<- <-]|[_ E]]; [exists (OGroup g); done|].
    exists o1. split_and!; try done. eapply t_live; eassumption.
  - intros q Hq. unfold T1. cbn [objs set_obj]. rewrite lookup_insert_is_Some'. auto.
Qed.

(** What routing never touches: the stop protocol, and the work of an actor. *)
Definition o_rest (o : obj) : actor_status * bool * option (Z * Z * list task * list (Actor.msg (P := emsg))) :=
  match o with
  | OActor a => (Actor.stop_status a, Actor.listed a, Some (max_concurrency a, cur_concurrency a, tasks a, flying a))
  | OGroup g => (Group.stop_status g, Group.listed g, None)
  end.
Definition o_stopping (o : obj) : bool := match o with OActor a => Actor.stopping a | OGroup g => Group.stopping g end.
Definition open_at (T : shard) (rp : list Z) : Prop :=
  match rp with [] => Engine.running (root T) = true | _ => exists o, objs T !! rp = Some o /\ o_stopping o = false end.

Lemma core_rest o o' : core o' = core o -> o_rest o' = o_rest o.
Proof. destruct o as [a|g], o' as [a'|g']; cbn; intros H; try discriminate; injection H; intros; congruence. Qed.
Lemma rest_stopping o o' : o_rest o' = o_rest o -> o_stopping o' = o_stopping o.
Proof.
  assert (E : forall o, o_stopping o = negb (bool_decide (fst (fst (o_rest o)) = RUNNING))) by (now intros []). intros H. now rewrite !E, H.
Qed.
Lemma create_open type : o_stopping (create type) = false.
Proof. unfold create. now destruct (kind_of type). Qed.
Lemma enabled_open T id rp o : tree_ok None T -> objs T !! (id :: rp) = Some o -> lookup_at T rp id = Some true -> o_stopping o = false.
Proof.
  intros Ht Ho Hl. pose proof (t_listed _ _ _ _ Ht _ _ _ Ho) as Hli. pose proof (t_live _ _ _ _ Ht _ _ Ho) as Hlive. rewrite Hl in Hli. injection Hli as Hli.
  destruct (o_stopping o) eqn:E; [|done]. destruct o as [a|g]; cbn in *; destruct Hlive as (_ & Hu); [destruct Hu as [_ Hu]|destruct Hu as (_ & _ & Hu)];
    specialize (Hu E); congruence.
Qed.

(** Mailboxes stay as they are and objects stay; new ones have no messages, and a parent that is not stopping. *)
Definition kept (T T' : shard) : Prop :=
  (forall q o, objs T !! q = Some o -> exists o', objs T' !! q = Some o' /\ o_rest o' = o_rest o) /\
  (forall x q o', objs T !! (x :: q) = None -> objs T' !! (x :: q) = Some o' -> o_listed o' = true /\ open_at T' q).
Definition grown (T T' : shard) : Prop :=
  root T' = root T /\ kept T T' /\
  forall q o', objs T' !! q = Some o' -> o_mailbox o' = match objs T !! q with Some o => o_mailbox o | None => ([], []) end.

Lemma kept_refl T : kept T T.
Proof. split; [eauto|]. intros. congruence. Qed.
Lemma rest_listed o o' : o_rest o' = o_rest o -> o_listed o' = o_listed o.
Proof. destruct o, o'; cbn; congruence. Qed.
Lemma kept_some T T' q : kept T T' -> is_Some (objs T !! q) -> is_Some (objs T' !! q).
Proof. intros [H _] [o Ho]. destruct (H _ _ Ho) as (o' & ? & _). eauto. Qed.
Lemma kept_open T T' q : kept T T' -> Engine.status (root T') = Engine.status (root T) -> open_at T q -> open_at T' q.
Proof.
  intros [H _] Hr. destruct q as [|x q]; cbn; [unfold Engine.running; now rewrite Hr|]. intros (o & Ho & Hs). destruct (H _ _ Ho) as (o' & Ho' & Hre).
  exists o'. split; [done|]. now rewrite (rest_stopping _ _ Hre).
Qed.
Lemma kept_trans T1 T2 T3 : Engine.status (root T3) = Engine.status (root T2) -> kept T1 T2 -> kept T2 T3 -> kept T1 T3.
Proof.
  intros R K1 K2. pose proof K1 as [A1 N1]. pose proof K2 as [A2 N2]. split.
  - intros q o Ho. destruct (A1 _ _ Ho) as (o2 & Ho2 & E2). destruct (A2 _ _ Ho2) as (o3 & Ho3 & E3). exists o3. split; [done|congruence].
  - intros x q o3 Hno Hs. destruct (objs T2 !! (x :: q)) as [o2|] eqn:E2; [|now apply (N2 x)]. destruct (A2 _ _ E2) as (o & Ho & E3).
    assert (o = o3) as -> by congruence. destruct (N1 x q o2 Hno E2) as [Hl Ho2]. split; [now rewrite (rest_listed _ _ E3)|]. now apply (kept_open T2 T3).
Qed.
Lemma grown_refl T : grown T T.
Proof. split; [done|]. split; [apply kept_refl|]. intros q o' ->. done. Qed.
Lemma grown_trans T1 T2 T3 : grown T1 T2 -> grown T2 T3 -> grown T1 T3.
Proof.
  intros (R1 & K1 & M1) (R2 & K2 & M2). split; [congruence|]. split; [eapply kept_trans; [now rewrite R2|eassumption..]|]. intros q o' E. rewrite (M2 _ _ E).
  destruct (objs T2 !! q) as [o2|] eqn:E2; [exact (M1 _ _ E2)|]. destruct (objs T1 !! q) as [o1|] eqn:E1; [|done].
  destruct (kept_some _ _ q K1 ltac:(eauto)) as [? ?]. congruence.
Qed.
Lemma stable_kept T T' : stable T T' -> kept T T'.
Proof.
  intros Hst. pose proof Hst as [R H]. split.
  - intros q o Ho. destruct (proj2 (stable_some _ _ q Hst) ltac:(eauto)) as [o' Ho']. exists o'. split; [done|]. specialize (H q). rewrite Ho, Ho' in H.
    injection H as H. now apply core_rest.
  - intros x q o' E Hs. destruct (proj1 (stable_some _ _ (x :: q) Hst) ltac:(eauto)) as [? ?]. congruence.
Qed.
Lemma stable_grown T T' : stable T T' -> grown T T'.
Proof.
  intros Hst. pose proof Hst as [R H]. split; [done|]. split; [now apply stable_kept|]. intros q o' E. specialize (H q). rewrite E in H.
  destruct (objs T !! q) as [o|]; [|discriminate]. cbn in H. injection H as H. now apply core_eq.
Qed.
Lemma child_grown T rp o o' id type :
  rp <> [] -> objs T !! (id :: rp) = None -> objs T !! rp = Some o -> o_mailbox o' = o_mailbox o -> o_rest o' = o_rest o -> o_stopping o = false ->
  grown T (set_obj (id :: rp) (create type) (set_obj rp o' T)).
Proof.
  intros Hrp Hno Ho Hm Hr Hs. assert (Hlk : forall q, q <> id :: rp -> objs (set_obj (id :: rp) (create type) (set_obj rp o' T)) !! q = if decide (q = rp) then Some o' else objs T !! q).
  { intros q Hq. cbn [objs set_obj]. rewrite lookup_insert_ne by done. case_decide as E; [subst q; apply lookup_insert_eq|now rewrite lookup_insert_ne]. }
  split; [done|]. split; [split|].
  - intros q x Hx. rewrite Hlk by congruence. case_decide as E; [|eauto]. subst q. exists o'. split; [done|]. congruence.
  - intros x q o2 Hx Hsome. destruct (decide (x :: q = id :: rp)) as [E|E].
    + injection E as -> ->. destruct rp as [|pid rq]; [done|]. split.
      { cbn [objs set_obj] in Hsome. rewrite lookup_insert_eq in Hsome. injection Hsome as <-. apply create_empty. }
      exists o'. rewrite (rest_stopping _ _ Hr), Hlk, decide_True by (done || (intros E; symmetry in E; now apply not_below in E)). done.
    + rewrite Hlk in Hsome by done. case_decide as E2; congruence.
  - intros q x. cbn [objs set_obj]. rewrite !lookup_insert_Some. intros [[<- <-]|[_ [[<- <-]|[_ E]]]]; [rewrite Hno; apply create_empty|now rewrite Ho|now rewrite E].
Qed.

(** Nobody is below an object without children. *)
Lemma nothing_below T rp : tree_ok None T -> rp <> [] -> alive_at T rp = ∅ -> forall q, q <> [] -> objs T !! (q ++ rp) = None.
Proof.
  intros Ht Hrp He. induction q as [|x q IH]; intros Hq; [done|]. cbn [app].
  destruct (objs T !! (x :: q ++ rp)) as [o|] eqn:E; [|done]. exfalso.
  pose proof (proj1 (t_alive _ _ _ _ Ht x (q ++ rp)) ltac:(eauto)) as Hin. destruct q as [|y q]; [cbn [app] in Hin; rewrite He in Hin; now apply not_elem_of_empty in Hin|].
  change (alive_at T ((y :: q) ++ rp)) with (match objs T !! ((y :: q) ++ rp) with Some o => o_alive o | None => ∅ end) in Hin.
  rewrite IH in Hin by done. now apply not_elem_of_empty in Hin.
Qed.

(** No group on the way has 2^32 - 1 children. *)
Definition room_below (T : shard) (rp : list Z) : Prop :=
  forall q g, objs T !! (q ++ rp) = Some (OGroup g) -> Z.of_nat (base.size (Group.alive g)) < 4294967295.

Lemma name_snoc pre c : name_of (pre ++ [c]) = cell_key c :: name_of pre.
Proof. unfold name_of. now rewrite fmap_app, rev_app_distr. Qed.
Lemma name_length pre : length (name_of pre) = length pre.
Proof. unfold name_of. rewrite length_rev. apply length_fmap. Qed.

Lemma key_type c : scope_ok c -> cell_key c mod 65536 = ScopeBuilder.get_type c.
Proof. intros [Ht _]. unfold cell_key, in_u in *. rewrite Z.mul_comm, Z_mod_plus_full. now apply Z.mod_small. Qed.

(** The step of [get_actor_local]: the child is there afterwards. *)
Lemma child_there T rp g c :
  tree_ok None T -> scope_ok c -> objs T !! rp = Some (OGroup g) -> Group.stopping g = false -> room_below T rp -> Group.inst_map g !! cell_key c <> Some false ->
  let id := cell_key c in
  exists T', (match Group.inst_map g !! id with
      | Some _ => Ok T
      | None => new_child (ScopeBuilder.get_type c) id rp (snd (sem_wait (Group.sem g) id)) (set_obj rp (OGroup (fst (Group.get_actor_local id g))) T)
      end) = Ok T' /\ tree_ok None T' /\ grown T T' /\ room_below T' (id :: rp) /\
    (exists o, objs T' !! (id :: rp) = Some o /\ o_kind o = is_group c /\ o_stopping o = false) /\
    forall cs, disabled T' (id :: rp) cs = match Group.inst_map g !! id with Some _ => disabled T (id :: rp) cs | None => false end.
Proof.
  intros Ht Hc Eg Hgs Hroom Hen id. assert (Hrp : rp <> []) by (intros ->; rewrite (t_root _ _ _ _ Ht) in Eg; discriminate).
  pose proof (t_live _ _ _ _ Ht _ _ Eg) as Hlive. assert (Hkind : forall T' o, tree_ok None T' -> objs T' !! (id :: rp) = Some o -> o_kind o = is_group c).
  { intros T' o Ht' E. rewrite (t_kind _ _ _ _ Ht' _ _ _ E). unfold id, is_group. now rewrite key_type. }
  destruct (Group.inst_map g !! id) as [[]|] eqn:Em; [|done|].
  - exists T. split; [done|]. split; [done|]. split; [apply grown_refl|]. split.
    + intros q g' E. apply (Hroom (q ++ [id])). now rewrite <-app_assoc.
    + split; [|done]. assert (Hin : id ∈ alive_at T rp) by (destruct rp; [done|]; cbn [alive_at]; rewrite Eg; apply Hlive, Em).
      apply (t_alive _ _ _ _ Ht) in Hin as [o Eo]. exists o. split; [done|]. split; [eauto|]. apply (enabled_open T id rp); [done..|]. destruct rp; [done|]. cbn [lookup_at]. now rewrite Eg.
  - destruct rp as [|pid rq]; [done|]. pose proof (group_creates T pid rq g id Ht Eg Em (Hroom [] g Eg)) as Ht2. cbv zeta in Ht2.
    change (id mod 65536) with (cell_key c mod 65536) in Ht2. rewrite key_type in Ht2 by done. destruct Ht2 as [Ht2 Hw2].
    destruct (new_child_ok _ id (pid :: rq) (snd (sem_wait (Group.sem g) id)) _ Ht2 Hw2) as (T' & E & Ht' & Hst). exists T'. split; [exact E|]. split; [done|].
    set (T2 := set_obj (id :: pid :: rq) _ _) in *. destruct (create_empty (ScopeBuilder.get_type c)) as (C1 & C2 & C3 & C4 & _).
    assert (Ho2 : objs T2 !! (id :: pid :: rq) = Some (create (ScopeBuilder.get_type c))) by (cbn [objs set_obj T2]; now rewrite lookup_insert_eq).
    assert (Hal : alive_at T' (id :: pid :: rq) = ∅) by (rewrite (stable_alive _ _ _ Hst); cbn [alive_at]; rewrite Ho2; exact C1).
    assert (Hsome : is_Some (objs T' !! (id :: pid :: rq))) by (apply (stable_some _ _ _ Hst); eauto).
    assert (Hno : objs T !! (id :: pid :: rq) = None).
    { destruct (objs T !! (id :: pid :: rq)) as [o|] eqn:Eo; [|done]. exfalso. pose proof (proj1 (t_alive _ _ _ _ Ht id (pid :: rq)) ltac:(eauto)) as Hin.
      cbn [alive_at] in Hin. rewrite Eg in Hin. destruct Hlive as ([] & _). destruct (b_alive _ Hin). congruence. }
    split; [|split; [|split]].
    + eapply grown_trans; [|apply stable_grown, Hst]. apply (child_grown T (pid :: rq) (OGroup g)); try done.
      all: cbn; unfold Group.get_actor_local; rewrite Em; cbv zeta; destruct (sem_wait _ id) as [s []]; done.
    + intros q g' Eq. destruct q as [|x q]; [|rewrite nothing_below in Eq by done; discriminate]. cbn [app alive_at] in Eq, Hal. rewrite Eq in Hal. cbn [o_alive] in Hal.
      rewrite Hal, size_empty. lia.
    + destruct Hsome as [o Eo]. exists o. split; [done|]. split; [eauto|]. destruct (stable_kept _ _ Hst) as [Hk _]. destruct (Hk _ _ Ho2) as (o2 & Eo2 & Er).
      assert (o2 = o) as -> by congruence. rewrite (rest_stopping _ _ Er). apply create_open.
    + intros [|d cs]; [done|]. cbn [disabled]. rewrite (stable_lookup _ _ _ _ Hst). cbn [lookup_at]. rewrite Ho2. unfold create.
      destruct (kind_of _); [done|]. cbn. now rewrite lookup_empty.
Qed.

(** The way down from an object on the path of an address. *)
Lemma path_below_ok a sh cs : forall fuel pre T,
  (length cs < fuel)%nat -> repr a sh (pre ++ cs) -> Forall scope_ok cs -> cs <> [] -> tree_ok None T -> room_below T (name_of pre) ->
  forall o, objs T !! name_of pre = Some o -> o_stopping o = false ->
  if o_kind o && disabled T (name_of pre) cs then get_actor_local fuel a (name_of pre) T = Ok (T, None)
  else let dst := name_of (pre ++ (if o_kind o then leaf_cut cs else [])) in
    exists T', get_actor_local fuel a (name_of pre) T = Ok (T', Some dst) /\ tree_ok None T' /\ grown T T' /\ is_Some (objs T' !! dst).
Proof.
  induction cs as [|c cs IH]; intros fuel pre T Hf R Hcs Hne Ht Hroom o Ho Hst; [done|]. destruct fuel as [|fuel]; [cbn in Hf; lia|].
  apply Forall_cons in Hcs as [Hc Hcs]. cbn [get_actor_local]. rewrite Ho. destruct o as [ac|g]; cbn [o_kind andb].
  { exists T. rewrite app_nil_r. split; [done|]. split; [done|]. split; [apply grown_refl|eauto]. }
  assert (Hk : (pre ++ c :: cs) !! length pre = Some c) by (now apply list_lookup_middle).
  destruct (repr_child _ _ _ _ _ R Hk Hc) as [Hid Hty]. unfold total_length. rewrite name_length, Hid. cbn [mbind res_bind].
  assert (Hla : lookup_at T (name_of pre) (cell_key c) = Group.inst_map g !! cell_key c).
  { unfold lookup_at. destruct (name_of pre) eqn:En; [rewrite (t_root _ _ _ _ Ht) in Ho; discriminate|now rewrite Ho]. }
  cbn [disabled]. rewrite Hla. pose proof (child_there T (name_of pre) g c Ht Hc Ho Hst Hroom) as Hstep. cbv zeta in Hstep.
  destruct (decide (Group.inst_map g !! cell_key c = Some false)) as [Em|Em].
  { rewrite Em. unfold Group.get_actor_local. now rewrite Em. }
  assert (Hchild : snd (Group.get_actor_local (cell_key c) g) = Some (cell_key c)).
  { unfold Group.get_actor_local. destruct (Group.inst_map g !! cell_key c) as [[]|]; try done. cbv zeta. now destruct (sem_wait _ _). }
  specialize (Hstep Em). destruct (Group.get_actor_local (cell_key c) g) as [g' child]; cbn [fst snd] in *; subst child.
  rewrite Hty. cbn [mbind res_bind]. destruct Hstep as (T1 & E1 & Ht1 & Hg1 & Hroom1 & (o1 & Ho1 & Hk1 & Hst1) & Hdis). rewrite E1. cbn [mbind res_bind].
  rewrite <-name_snoc in *.
  assert (Hexact : addr_length a =? Z.of_nat (4 + 6 * length (name_of (pre ++ [c]))) = match cs with [] => true | _ => false end).
  { rewrite (repr_length _ _ _ R), name_length, !length_app. destruct cs; [apply Z.eqb_eq|apply Z.eqb_neq]; cbn [length]; lia. }
  rewrite Hexact. change (leaf_cut (c :: cs)) with (c :: (if is_group c then leaf_cut cs else [])). rewrite (cons_middle c pre cs) in R.
  rewrite (cons_middle c pre (if is_group c then leaf_cut cs else [])), (app_assoc pre [c] (if is_group c then leaf_cut cs else [])).
  destruct cs as [|d cs].
  - cbn [leaf_cut disabled]. rewrite andb_false_r. replace (if is_group c then [] else []) with (@nil ScopeBuilder.scope) by (now destruct (is_group c)).
    rewrite app_nil_r. destruct (Group.inst_map g !! cell_key c) as [[]|]; [|done|]; exists T1; eauto.
  - specialize (IH fuel (pre ++ [c]) T1 ltac:(cbn in *; lia) ltac:(now rewrite <-app_assoc) Hcs ltac:(done) Ht1 Hroom1 o1 Ho1 Hst1). rewrite Hk1, Hdis in IH.
    assert (Hfin : (exists T', get_actor_local fuel a (name_of (pre ++ [c])) T1 = Ok (T', Some (name_of ((pre ++ [c]) ++ (if is_group c then leaf_cut (d :: cs) else [])))) /\
      tree_ok None T' /\ grown T1 T' /\ is_Some (objs T' !! name_of ((pre ++ [c]) ++ (if is_group c then leaf_cut (d :: cs) else [])))) ->
      exists T', get_actor_local fuel a (name_of (pre ++ [c])) T1 = Ok (T', Some (name_of ((pre ++ [c]) ++ (if is_group c then leaf_cut (d :: cs) else [])))) /\
      tree_ok None T' /\ grown T T' /\ is_Some (objs T' !! name_of ((pre ++ [c]) ++ (if is_group c then leaf_cut (d :: cs) else [])))).
    { intros (T' & H1 & H2 & H3 & H4). exists T'. split; [done|]. split; [done|]. split; [eapply grown_trans; eassumption|done]. }
    destruct (Group.inst_map g !! cell_key c) as [[]|]; [|done|].
    + injection E1 as <-. destruct (is_group c && disabled T (name_of (pre ++ [c])) (d :: cs)); [exact IH|apply Hfin, IH].
    + rewrite andb_false_r in IH. apply Hfin, IH.
Qed.

(** ** A message on its way *)
Definition put (m : emsg) (group : bool) (mb : list (Actor.msg (P := emsg)) * list gmsg) : list (Actor.msg (P := emsg)) * list gmsg :=
  if group then (fst mb, if user m then snd mb ++ [group_msg m] else group_msg m :: snd mb)
  else (if user m then fst mb ++ [actor_msg m] else actor_msg m :: fst mb, snd mb).

Lemma o_enqueue_mailbox m o : o_mailbox (o_enqueue m o) = put m (o_kind o) (o_mailbox o).
Proof.
  destruct o as [a|g]; cbn; destruct (user m); unfold Actor.enque_message, Actor.enque_urgent_message, Group.enque_message, Group.enque_urgent_message;
    unfold Actor.activate, Actor.activatable, Group.activate, Group.activatable; cbn; case_bool_decide; done.
Qed.
Lemma o_enqueue_rest m o : o_rest (o_enqueue m o) = o_rest o.
Proof.
  destruct o as [a|g]; cbn; destruct (user m); unfold Actor.enque_message, Actor.enque_urgent_message, Group.enque_message, Group.enque_urgent_message;
    unfold Actor.activate, Actor.activatable, Group.activate, Group.activatable; cbn; case_bool_decide; done.
Qed.
Lemma o_enqueue_queued m o : o_queued (o_enqueue m o) = o_queued o \/ o_queued (o_enqueue m o) = S (o_queued o).
Proof.
  destruct o as [a|g]; cbn; destruct (user m); unfold Actor.enque_message, Actor.enque_urgent_message, Group.enque_message, Group.enque_urgent_message;
    unfold Actor.activate, Actor.activatable, Group.activate, Group.activatable; cbn; case_bool_decide; auto.
Qed.

(** The message is in the mailbox of the object [dst], everything else is as it was; who was created on the
    way has a parent that is not stopping. *)
Definition delivered (m : emsg) (dst : list Z) (T T' : shard) : Prop :=
  exists o, objs T' !! dst = Some o /\
    (forall q x, objs T' !! q = Some x -> o_mailbox x =
       let before := match objs T !! q with Some y => o_mailbox y | None => ([], []) end in if decide (q = dst) then put m (o_kind o) before else before) /\
    kept T T' /\ Engine.status (root T') = Engine.status (root T) /\
    (o_sched o = INITIALIZED \/ busy dst = true \/ runnable T' dst).

Lemma deliver_ok m dst T : tree_ok None T -> is_Some (objs T !! dst) ->
  exists T', deliver m dst T = Ok T' /\ tree_ok None T' /\ root T' = root T /\ delivered m dst T T'.
Proof using HL.
  clear this_gsid is_local.
  intros Ht [o Ho]. destruct dst as [|id rq]; [now rewrite (t_root _ _ _ _ Ht) in Ho|]. unfold deliver. rewrite Ho.
  pose proof (t_live _ _ _ _ Ht _ _ Ho) as Hl. pose proof (o_enqueue_live _ _ m o Hl) as Hl'. destruct (o_enqueue_same m o) as (S1 & S4 & S5).
  destruct (settle_ok id rq o (o_enqueue m o) T Ht Ho Hl' S1) as (T' & E & Hok & Hst & Ho' & _); [auto| |].
  { destruct (o_enqueue_queued m o) as [Hq|Hq]; [now left|right]. rewrite (o_queued_sched _ _ _ Hl) in *. rewrite (o_queued_sched _ _ _ Hl') in *. repeat case_match; lia. }
  exists T'. split; [done|]. split; [done|]. split; [apply Hst|]. exists (o_enqueue m o). split; [done|].
  pose proof (stable_grown _ _ Hst) as (Hrt & Hs & Hm).
  assert (Hkept : kept T (set_obj (id :: rq) (o_enqueue m o) T)).
  { split; [|intros x q o' E0; cbn [objs set_obj]; rewrite lookup_insert_Some; intros [[E2 _]|[_ E2]]; congruence]. intros q x Ex. cbn [objs set_obj].
    destruct (decide (q = id :: rq)) as [->|Hne]; [rewrite lookup_insert_eq; eexists; split; [done|]|rewrite lookup_insert_ne; eauto].
    assert (x = o) as -> by congruence. apply o_enqueue_rest. }
  split; [|split; [eapply kept_trans; [|exact Hkept|exact Hs]; now rewrite Hrt|split; [now rewrite Hrt|]]].
  - intros q x Eq. rewrite (Hm _ _ Eq). cbn [objs set_obj]. cbv zeta. destruct (decide (q = id :: rq)) as [->|Hne].
    + rewrite lookup_insert_eq, Ho, (l_kind _ _ S1). apply o_enqueue_mailbox.
    + now rewrite lookup_insert_ne.
  - destruct (o_sched (o_enqueue m o)) eqn:Es; [now left|done|right]. eapply scheduled_runnable; eassumption.
Qed.

(** From a first child that is there. *)
Lemma down_ok m a sh c cs T :
  repr a sh (c :: cs) -> Forall scope_ok cs -> tree_ok None T -> room_below T [cell_key c] ->
  forall o, objs T !! [cell_key c] = Some o -> o_kind o = is_group c -> o_stopping o = false ->
  let run := ('(T', d) ← (if addr_length a =? total_length [cell_key c] then Ok (T, Some [cell_key c]) else get_actor_local depth a [cell_key c] T);
              match d with Some rp => T' ← deliver m rp T'; Ok (T', Some rp) | None => Ok (T', None) end) in
  if is_group c && disabled T [cell_key c] cs then run = Ok (T, None)
  else exists T', run = Ok (T', Some (name_of (leaf_cut (c :: cs)))) /\ tree_ok None T' /\ root T' = root T /\ delivered m (name_of (leaf_cut (c :: cs))) T T'.
Proof.
  intros R Hcs Ht Hroom o Ho Hk Hst run. assert (Hexact : addr_length a =? total_length [cell_key c] = match cs with [] => true | _ => false end).
  { rewrite (repr_length _ _ _ R). destruct cs; [apply Z.eqb_eq|apply Z.eqb_neq]; unfold total_length; cbn [length]; lia. }
  subst run. rewrite Hexact. change (leaf_cut (c :: cs)) with (c :: (if is_group c then leaf_cut cs else [])).
  destruct cs as [|d cs]; cbn [mbind res_bind].
  - cbn [disabled leaf_cut]. rewrite andb_false_r. replace (if is_group c then [] else []) with (@nil ScopeBuilder.scope) by (now destruct (is_group c)).
    destruct (deliver_ok m [cell_key c] T Ht ltac:(eauto)) as (T' & -> & H). cbn [mbind res_bind]. eauto.
  - assert (Hd : (length (d :: cs) < depth)%nat) by (pose proof (repr_layers _ _ _ R) as Hl; unfold depth, GMaxAddrLayer in *; cbn [length] in *; lia).
    pose proof (path_below_ok a sh (d :: cs) depth [c] T Hd R Hcs ltac:(done) Ht Hroom o Ho Hst) as H. rewrite Hk in H.
    change (name_of [c]) with [cell_key c] in H. cbn [app] in H.
    destruct (is_group c && disabled T [cell_key c] (d :: cs)); [now rewrite H|]. destruct H as (T1 & E1 & Ht1 & Hg1 & Hs1). rewrite E1. cbn [mbind res_bind].
    destruct (deliver_ok m _ T1 Ht1 Hs1) as (T' & E' & Ht' & Hr' & x & Hx & Hm & Hk' & Hsta & Hrun). rewrite E'. cbn [mbind res_bind]. destruct Hg1 as (R1 & S1 & M1). exists T'. split; [done|]. split; [done|]. split; [congruence|]. exists x. split; [done|].
    split; [|split; [eapply kept_trans; eassumption|split; [congruence|done]]]. intros q y Ey. rewrite (Hm _ _ Ey). cbv zeta. destruct (objs T1 !! q) as [o1|] eqn:E; [now rewrite (M1 _ _ E)|].
    destruct (objs T !! q) as [o0|] eqn:E0; [|done]. destruct (kept_some _ _ q S1 ltac:(eauto)). congruence.
Qed.

(** The root actor creates a child. *)
Lemma engine_creates T m sh c cs :
  tree_ok None T -> repr (addr (e_hdr m)) sh (c :: cs) -> scope_ok c -> Engine.inst_map (root T) !! cell_key c = None -> Engine.running (root T) = true ->
  Z.of_nat (base.size (Engine.alive (root T))) < 4294967295 ->
  exists e, (e ← create_child (cell_key c) m (root T); Ok (Engine.deliver (cell_key c) m e)) = Ok e /\ Engine.status e = Engine.status (root T) /\
    let T2 := set_obj [cell_key c] (create (ScopeBuilder.get_type c)) (with_root e T) in
    tree_ok None T2 /\ (snd (sem_wait (Engine.sem (root T)) (cell_key c)) = true -> cell_key c ∉ waiting_at T2 []).
Proof.
  intros Ht R Hc Em Er Hs. destruct (repr_child _ _ _ 0 c R eq_refl Hc) as [_ Hty]. change (Z.of_nat (4 + 6 * 0)) with total_addr_length in Hty.
  destruct (create_child (cell_key c) m (root T)) as [e|f] eqn:E;
    [|exfalso; unfold create_child in E; rewrite Hty in E; cbn [mbind res_bind] in E; cbv zeta in E; destruct (sem_wait _ _) as [s []]; discriminate].
  destruct (create_child_inv _ _ _ _ (t_engine _ _ _ _ Ht) Hs Er Em E) as [Hinv _]. cbn [mbind res_bind]. eexists. split; [reflexivity|].
  split; [unfold create_child in E; rewrite Hty in E; cbn [mbind res_bind] in E; cbv zeta in E; destruct (sem_wait _ _) as [? []]; now injection E as <-|].
  assert (Hal : Engine.alive e = {[cell_key c]} ∪ Engine.alive (root T) /\ Engine.sem e = fst (sem_wait (Engine.sem (root T)) (cell_key c)) /\
    Engine.inst_map e = <[cell_key c := true]> (Engine.inst_map (root T))).
  { unfold create_child in E. rewrite Hty in E. cbn [mbind res_bind] in E. cbv zeta in E. change (Engine.sem (Engine.with_num _ _)) with (Engine.sem (root T)) in E.
    destruct (sem_wait _ _) as [s []]; now injection E as <-. }
  destruct Hal as (Hal & Hse & Hma). pose proof (sem_wait_spec (Engine.sem (root T)) (cell_key c)) as Hsw.
  rewrite <-key_type by done. apply (add_child_ok T); try done.
  - destruct (objs T !! [cell_key c]) as [o|] eqn:Eo; [|done]. exfalso. pose proof (proj1 (t_alive _ _ _ _ Ht (cell_key c) []) ltac:(eauto)) as Hin.
    destruct (i_alive _ (t_engine _ _ _ _ Ht) _ Hin). congruence.
  - cbn [root with_root]. now apply emit1_inv.
  - apply Ht.
  - intros q. case_decide as Hq; [subst q; exact Hal|]. now destruct q.
  - intros q. case_decide as Hq; [subst q; cbn [waiting_at root with_root Engine.deliver Engine.emit Engine.sem]; now rewrite Hse, Hsw|]. now destruct q.
  - intros q x. destruct q as [|y q]; [|now rewrite decide_False by done]. cbn [lookup_at root with_root Engine.deliver Engine.emit Engine.inst_map]. rewrite Hma.
    destruct (decide (x = cell_key c)) as [->|Hx]; [now rewrite lookup_insert_eq, decide_True|rewrite lookup_insert_ne, decide_False by congruence; done].
  - intros q o1 Eq. exists o1. split; [exact Eq|]. split_and!; try done. eapply t_live; [exact Ht|exact Eq].
Qed.

Definition room (T : shard) : Prop :=
  Z.of_nat (base.size (Engine.alive (root T))) < 4294967295 /\
  forall rp g, objs T !! rp = Some (OGroup g) -> Z.of_nat (base.size (Group.alive g)) < 4294967295.

Definition refuse (m : emsg) (T : shard) : res (shard * option (list Z)) :=
  e ← stopped_actor_enqueue this_gsid is_local canceled_text (receive_root promise_set_value promise_set_exception) m (root T); Ok (with_root e T, None).

(** The engine changes, but not what it knows of its children. *)
Record same_children (e e' : engine) : Prop := {
  s_alive : Engine.alive e' = Engine.alive e;
  s_map : Engine.inst_map e' = Engine.inst_map e;
  s_sem : Engine.sem e' = Engine.sem e;
  s_status : Engine.status e' = Engine.status e
}.
Lemma tree_engine e T : tree_ok None T -> Engine.inv e ->
  Engine.alive e = Engine.alive (root T) -> Engine.inst_map e = Engine.inst_map (root T) -> Engine.sem e = Engine.sem (root T) -> tree_ok None (with_root e T).
Proof.
  intros [H1 H2 H3 H4 H5 H6 H7 H8 H9 H10 H11] Hi Ha Hm Hs.
  assert (Halive : forall q, alive_at (with_root e T) q = alive_at T q) by (intros [|x q]; [exact Ha|done]).
  assert (Hlook : forall q x, lookup_at (with_root e T) q x = lookup_at T q x) by (intros [|y q] x; [cbn; now rewrite Hm|done]).
  assert (Hwait : forall q, waiting_at (with_root e T) q = waiting_at T q) by (intros [|x q]; [cbn; now rewrite Hs|done]).
  split; cbn [root objs reactor with_root]; try done.
  - intros id rp. rewrite Halive. apply H3.
  - intros id Hin. rewrite Ha. auto.
  - intros id rp o E. rewrite Hlook. eauto.
  - intros rp. rewrite Hwait. apply H10.
Qed.

Lemma tree_root e T : tree_ok None T -> Engine.inv e -> same_children (root T) e -> tree_ok None (with_root e T).
Proof. intros Ht Hi []. now apply tree_engine. Qed.

Lemma stopped_alive m (e e' : engine) :
  stopped_actor_enqueue this_gsid is_local canceled_text (receive_root promise_set_value promise_set_exception) m e = Ok e' -> same_children e e'.
Proof.
  unfold stopped_actor_enqueue. intros H. apply bind_ok in H as (e1 & H & [= <-]).
  enough (Hs : same_children e e1) by (destruct Hs; now split).
  destruct (pr_id (e_hdr m) =? 0); [now injection H as <-|].
  destruct (response_address (src_shard_id (e_hdr m)) (pr_id (e_hdr m)) EXCEPTION_RESPONSE) as (h & Eh & _ & _ & Hty & _). rewrite Eh in H. cbn [mbind res_bind] in H.
  unfold send_with in H. apply bind_ok in H as (g & _ & H). destruct (negb _); [now injection H as <-|].
  unfold receive_root in H. cbn [e_hdr e_data] in H. rewrite Hty in H. cbn in H. apply bind_ok in H as (act & _ & H).
  destruct act; [apply bind_ok in H as (pm & _ & H)|]; now injection H as <-.
Qed.

(** The message is refused below an enabled child of the root actor. *)
Lemma refused_below m sh c cs T e o :
  repr (addr (e_hdr m)) sh (c :: cs) -> Forall scope_ok cs -> tree_ok None (with_root e T) -> room T -> objs T !! [cell_key c] = Some o -> o_kind o = is_group c ->
  o_stopping o = false -> Engine.status e = Engine.status (root T) ->
  let a := addr (e_hdr m) in
  let run := ('(T', d) ← (if addr_length a =? total_length [cell_key c] then Ok (with_root e T, Some [cell_key c]) else get_actor_local depth a [cell_key c] (with_root e T));
              match d with Some rp => T' ← deliver m rp T'; Ok (T', Some rp) | None => Ok (T', None) end) in
  if is_group c && disabled T [cell_key c] cs then run = Ok (with_root e T, None)
  else exists T', run = Ok (T', Some (name_of (leaf_cut (c :: cs)))) /\ tree_ok None T' /\ delivered m (name_of (leaf_cut (c :: cs))) T T'.
Proof.
  intros R Hcs Ht [_ Hroom] Ho Hk Hst Hse a run. assert (Hd : forall cs rp, rp <> [] -> disabled (with_root e T) rp cs = disabled T rp cs).
  { induction cs0 as [|d cs0 IH]; intros rp Hrp; [done|]. cbn [disabled]. replace (lookup_at (with_root e T) rp) with (lookup_at T rp) by (now destruct rp).
    destruct (lookup_at T rp _) as [[]|]; [|done..]. now rewrite IH. }
  pose proof (down_ok m a sh c cs (with_root e T) R Hcs Ht ltac:(intros q g; apply Hroom) o Ho Hk Hst) as H. cbv zeta in H. rewrite Hd in H by done. subst run.
  destruct (is_group c && disabled T [cell_key c] cs); [exact H|]. destruct H as (T' & E & Ht' & _ & Hdel). exists T'. split; [exact E|]. split; [done|].
  destruct Hdel as (x & Hx & Hm & Hke & Hs & Hrun). exists x. split; [done|]. split; [exact Hm|]. split; [exact Hke|]. split; [|done]. rewrite Hs. exact Hse.
Qed.

(** Below a child of the root actor that was just created. *)
Lemma created_below m sh c cs T e T1 :
  repr (addr (e_hdr m)) sh (c :: cs) -> scope_ok c -> Forall scope_ok cs -> objs T !! [cell_key c] = None -> tree_ok None T1 ->
  Engine.status e = Engine.status (root T) -> Engine.running (root T) = true ->
  stable (set_obj [cell_key c] (create (ScopeBuilder.get_type c)) (with_root e T)) T1 ->
  exists T', ('(T', d) ← (if addr_length (addr (e_hdr m)) =? total_length [cell_key c] then Ok (T1, Some [cell_key c])
                          else get_actor_local depth (addr (e_hdr m)) [cell_key c] T1);
              match d with Some rp => T' ← deliver m rp T'; Ok (T', Some rp) | None => Ok (T', None) end) = Ok (T', Some (name_of (leaf_cut (c :: cs)))) /\
    tree_ok None T' /\ delivered m (name_of (leaf_cut (c :: cs))) T T'.
Proof.
  intros R Hc Hcs Hno Ht1 Hse Hrunning Hst. set (T2 := set_obj _ _ _) in *. destruct (create_empty (ScopeBuilder.get_type c)) as (C1 & _ & C3 & _).
  assert (Ho2 : objs T2 !! [cell_key c] = Some (create (ScopeBuilder.get_type c))) by (cbn [objs set_obj T2]; apply lookup_insert_eq).
  destruct (proj2 (stable_some _ _ [cell_key c] Hst) ltac:(eauto)) as [o Ho].
  assert (Hk : o_kind o = is_group c) by (rewrite (t_kind _ _ _ _ Ht1 _ _ _ Ho), key_type by done; reflexivity).
  assert (Hal : alive_at T1 [cell_key c] = ∅) by (rewrite (stable_alive _ _ _ Hst); cbn [alive_at]; rewrite Ho2; exact C1).
  assert (Hroom : room_below T1 [cell_key c]).
  { intros q g Eq. destruct q as [|x q]; [|now rewrite nothing_below in Eq by done]. cbn [app] in Eq. cbn [alive_at] in Hal. rewrite Eq in Hal. cbn [o_alive] in Hal.
    rewrite Hal, size_empty. lia. }
  pose proof (down_ok m (addr (e_hdr m)) sh c cs T1 R Hcs Ht1 Hroom o Ho Hk) as H. cbv zeta in H.
  assert (Hopen : o_stopping o = false).
  { destruct (stable_kept _ _ Hst) as [Hk1 _]. destruct (Hk1 _ _ Ho2) as (o2 & Eo2 & Er). assert (o2 = o) as -> by congruence.
    rewrite (rest_stopping _ _ Er). apply create_open. }
  specialize (H Hopen). assert (Hdis : disabled T1 [cell_key c] cs = false).
  { destruct cs as [|d cs]; [done|]. cbn [disabled]. rewrite (stable_lookup _ _ _ _ Hst). cbn [lookup_at]. rewrite Ho2. unfold create.
    destruct (kind_of _); [done|]. cbn. now rewrite lookup_empty. }
  rewrite Hdis, andb_false_r in H. destruct H as (T' & E & Ht' & _ & Hdel). exists T'. split; [exact E|]. split; [done|].
  assert (Hbefore : forall q, match objs T1 !! q with Some y => o_mailbox y | None => ([], []) end = match objs T !! q with Some y => o_mailbox y | None => ([], []) end).
  { intros q. destruct (stable_grown _ _ Hst) as (_ & S2 & M2). destruct (objs T1 !! q) as [y|] eqn:Ey.
    - rewrite (M2 _ _ Ey). cbn [objs set_obj T2]. destruct (decide (q = [cell_key c])) as [->|Hq]; [now rewrite lookup_insert_eq, Hno, C3|now rewrite lookup_insert_ne].
    - destruct (objs T !! q) as [z|] eqn:Ez; [|done]. destruct (kept_some _ _ q S2) as [? ?]; [|congruence]. cbn [objs set_obj T2]. rewrite lookup_insert_is_Some'. right. cbn. eauto. }
  destruct Hdel as (x & Hx & Hm & Hke & Hs & Hrun). assert (Hst' : Engine.status (root T') = Engine.status (root T)) by (rewrite Hs; destruct Hst as [-> _]; exact Hse).
  exists x. split; [done|]. split; [intros q y Ey; rewrite (Hm _ _ Ey), Hbefore; done|]. split; [|done]. pose proof (kept_trans _ _ _ Hs (stable_kept _ _ Hst) Hke) as [K1 K2].
  assert (Hlk : forall q, q <> [cell_key c] -> objs T2 !! q = objs T !! q) by (intros q Hq; cbn [objs set_obj T2]; now rewrite lookup_insert_ne).
  split.
  - intros q y Ey. apply K1. rewrite Hlk; [done|]. intros ->. congruence.
  - intros y q o' Ey Hsome. destruct (decide (y :: q = [cell_key c])) as [E2|E2]; [|apply (K2 y); [now rewrite Hlk|done]].
    injection E2 as -> ->. split; [|cbn [open_at]; unfold Engine.running in *; now rewrite Hst'].
    destruct (K1 _ _ Ho2) as (o2 & Eo2 & Er). assert (o2 = o') as -> by congruence. rewrite (rest_listed _ _ Er). apply create_empty.
Qed.

(** C4: A message finds its actor, and the actor is run.  On a shard whose tree is consistent, a message for a path is put into
    the mailbox of one object and of no other: the one its path names, where a path ends at the first actor, which handles what
    is sent to paths below it; the groups and the actor on the way are created if they were never
    created, and nobody else.  Then the object waits in its parent's task queue, the parent in its parent's, and so on up to
    the reactor, unless one of them still waits for its turn to start or is running now.  The message is refused exactly when somebody on the path
    is disabled, or the shard is stopping and has no such child.  The tree stays consistent. *)
Theorem tree_delivers m sh c cs T :
  repr (addr (e_hdr m)) sh (c :: cs) -> Forall scope_ok (c :: cs) -> tree_ok None T -> room T ->
  let dst := name_of (leaf_cut (c :: cs)) in
  if disabled T [] (c :: cs) || (negb (Engine.running (root T)) && bool_decide (lookup_at T [] (cell_key c) = None))
  then route m T = refuse m T
  else exists T', route m T = Ok (T', Some dst) /\ tree_ok None T' /\ delivered m dst T T'.
Proof.
  intros R Hcs Ht [Hroom1 Hroom2] dst. apply Forall_cons in Hcs as [Hc Hcs]. destruct (repr_child _ _ _ 0 c R eq_refl Hc) as [Hid Hty].
  change (Z.of_nat (4 + 6 * 0)) with (total_length []) in *. unfold route. rewrite Hid, Hty. cbn [mbind res_bind].
  rewrite (receive_at_child _ _ _ _ _ _ m (root T) sh c cs R Hc). cbn [disabled lookup_at].
  destruct (Engine.inst_map (root T) !! cell_key c) as [[]|] eqn:Em.
  - rewrite (bool_decide_false (Some true = None)), andb_false_r, orb_false_r by done.
    assert (Hin : cell_key c ∈ alive_at T []) by exact (i_enabled _ (t_engine _ _ _ _ Ht) _ Em). apply (t_alive _ _ _ _ Ht) in Hin as [o Ho].
    assert (Hk : o_kind o = is_group c) by (rewrite (t_kind _ _ _ _ Ht _ _ _ Ho), key_type by done; reflexivity).
    assert (Hopen : o_stopping o = false) by (apply (enabled_open T (cell_key c) []); done).
    assert (Hdis : disabled_in T (cell_key c) m = match cs with [] => disabled_in T (cell_key c) m | _ => is_group c && disabled T [cell_key c] cs end).
    { destruct cs as [|d cs]; [done|]. unfold disabled_in.
      assert (Hd : (length (d :: cs) < depth)%nat) by (pose proof (repr_layers _ _ _ R) as Hl; unfold depth, GMaxAddrLayer in *; cbn [length] in *; lia).
      pose proof (path_below_ok _ sh (d :: cs) depth [c] T Hd R Hcs ltac:(done) Ht ltac:(intros q g; apply Hroom2) o Ho Hopen) as H. rewrite Hk in H.
      change (name_of [c]) with [cell_key c] in H. destruct (is_group c && disabled T [cell_key c] (d :: cs)); [now rewrite H|]. now destruct H as (T1 & -> & _). }
    rewrite Hdis. replace (match cs with [] => true | _ :: _ => negb (match cs with [] => _ | _ :: _ => _ end) end) with (negb (is_group c && disabled T [cell_key c] cs))
      by (destruct cs; [cbn; now rewrite andb_false_r|done]).
    set (e := Engine.deliver (cell_key c) m (root T)).
    assert (Hte : tree_ok None (with_root e T)) by (apply tree_root; [done|now apply emit1_inv, Ht|done]).
    destruct (is_group c && disabled T [cell_key c] cs) eqn:Ed; cbn [negb].
    + unfold refuse. destruct (stopped_actor_enqueue _ _ _ _ m (root T)) as [e2|f] eqn:Es; cbn [mbind res_bind]; [|done].
      assert (Ht2 : tree_ok None (with_root e2 T)) by (apply tree_root; [done|eapply stopped_actor_enqueue_inv; [apply Ht|exact Es]|exact (stopped_alive _ _ _ Es)]).
      pose proof (refused_below m sh c cs T e2 o R Hcs Ht2 (conj Hroom1 Hroom2) Ho Hk Hopen (s_status _ _ (stopped_alive _ _ _ Es))) as H. cbv zeta in H. rewrite Ed in H. exact H.
    + cbn [mbind res_bind]. pose proof (refused_below m sh c cs T e o R Hcs Hte (conj Hroom1 Hroom2) Ho Hk Hopen eq_refl) as H. cbv zeta in H. rewrite Ed in H. exact H.
  - done.
  - rewrite bool_decide_true, andb_true_r by done. cbn [orb]. destruct (Engine.running (root T)) eqn:Er; cbn [negb]; [|done].
    destruct (engine_creates T m sh c cs Ht R Hc Em Er Hroom1) as (e & -> & Hse & Ht2 & Hw2). cbn [mbind res_bind].
    destruct (new_child_ok _ _ _ (snd (sem_wait (Engine.sem (root T)) (cell_key c))) _ Ht2 Hw2) as (T1 & -> & Ht1 & Hst). cbn [mbind res_bind].
    assert (Hno : objs T !! [cell_key c] = None).
    { destruct (objs T !! [cell_key c]) as [o0|] eqn:Eo; [|done]. exfalso. pose proof (proj1 (t_alive _ _ _ _ Ht (cell_key c) []) ltac:(eauto)) as Hin.
      destruct (i_alive _ (t_engine _ _ _ _ Ht) _ Hin). congruence. }
    exact (created_below m sh c cs T e T1 R Hc Hcs Hno Ht1 Hse Er Hst).
Qed.

(** A shard after [allocate_actor_engine]. *)
Definition shard_new (pm : pr_manager (P := P)) : shard := mk_shard (engine_new pm) ∅ [].
Lemma shard_new_ok pm : cur = None -> tree_ok None (shard_new pm) /\ room (shard_new pm).
Proof.
  intros Hc. assert (Hno : forall rp, objs (shard_new pm) !! rp = None) by (intros rp; apply lookup_empty).
  split; [split|split].
  - apply engine_new_inv.
  - apply Hno.
  - intros id rp. rewrite Hno. split; [now intros [? ?]|]. intros Hin. exfalso. destruct rp; cbn in Hin; now apply not_elem_of_empty in Hin.
  - intros rp o E. now rewrite Hno in E.
  - intros id rp o E. now rewrite Hno in E.
  - intros id rp o E. now rewrite Hno in E.
  - intros id Hin. now apply not_elem_of_nil in Hin.
  - intros rp Hb. unfold busy_in in Hb. rewrite Hc in Hb. now destruct rp.
  - intros id rp o E. now rewrite Hno in E.
  - intros rp. assert (E : waiting_at (shard_new pm) rp = []) by (destruct rp; [apply sem_init_waiting|unfold waiting_at; now rewrite Hno]). rewrite E.
    split; [constructor|]. intros id Hin. now apply not_elem_of_nil in Hin.
  - constructor.
  - cbn. rewrite size_empty. lia.
  - intros rp g E. now rewrite Hno in E.
Qed.
End Tree.

(** ** A group with two actors *)
Module TreeExamples.
(** Type 61440 is a group without a comparator, all others are actors. *)
Definition sample_kind (t : Z) : kind := if t =? 61440 then GroupKind None else ActorKind true.
Lemma sample_ordered t c : sample_kind t = GroupKind c -> comparator_ok c.
Proof. unfold sample_kind. destruct (t =? 61440); [intros [= <-]; intros f Hf; discriminate Hf|discriminate]. Qed.

Definition cell1 : ScopeBuilder.scope := ScopeBuilder.mk_scope 5 10.
Definition cell2 : ScopeBuilder.scope := ScopeBuilder.mk_scope 5 11.
Definition to (cs : list ScopeBuilder.scope) (t : Z) : toy_msg := mk_emsg (toy_header (ex_addr 1 cs) 0 0 t) NoData.
Abbreviation sample_route := (route (Sem := Z * list Z) toy_value toy_exception 1 toy_local [] sample_kind).
Abbreviation sample_shard := (shard_new (D := Z) (Q := list bytes) (Sem := Z * list Z) toy_pm0).

(** What the reactor, the group and the two actors have, after messages to the group, to both actors and to a path below one. *)
Example sample_routes :
  (fun p => let T := fst p in (reactor T, tasks_at T [cell_key ex_group1], (fun o => (o_sched o, length (fst (o_mailbox o)), length (snd (o_mailbox o)))) <$>
      ((fun rp => objs T !! rp) <$> [[cell_key ex_group1]; [cell_key cell1; cell_key ex_group1]; [cell_key cell2; cell_key ex_group1]]) ≫= option_list)) <$>
   ('(T, _) ← sample_route (to [ex_group1; cell1] USER) sample_shard;
    '(T, _) ← sample_route (to [ex_group1; cell2] USER) T;
    '(T, _) ← sample_route (to [ex_group1] FORCE_STOP) T;
    sample_route (to [ex_group1; cell1; ex_group2] USER) T) =
   Ok ([cell_key ex_group1], [cell_key cell1; cell_key cell2], [(SCHEDULED, 0, 1); (SCHEDULED, 2, 0); (SCHEDULED, 1, 0)]%nat).
Proof. vm_compute. reflexivity. Qed.

Lemma tree_delivers_witness :
  exists T', sample_route (to [ex_group1; cell1; ex_group2] USER) sample_shard = Ok (T', Some [cell_key cell1; cell_key ex_group1]) /\
    consistent sample_kind None [] None T' /\ delivered None (to [ex_group1; cell1; ex_group2] USER) [cell_key cell1; cell_key ex_group1] sample_shard T'.
Proof.
  destruct (shard_new_ok (D := Z) (Q := list bytes) (Sem := Z * list Z) sample_kind None [] toy_pm0 eq_refl) as [Ht Hroom].
  refine (tree_delivers toy_value toy_exception 1 toy_local [] sample_kind None [] sample_ordered (to [ex_group1; cell1; ex_group2] USER) 1 ex_group1 [cell1; ex_group2]
    sample_shard _ _ Ht Hroom).
  - constructor; (reflexivity || cbn; addr_lia).
  - repeat constructor; vm_compute; congruence.
Defined.
End TreeExamples.
