(* ===== verification/TreeRun.v ===== *)
(** * Running the tree of actors

    [Tree] puts messages into mailboxes; here the reactor of the shard runs what is activated:
    [run_and_dispose] of groups and actors (src/src/core/actor-template.cc), the children a running group calls,
    the stop protocol from the root down ([stop_actor_system], src/src/core/root_actor_group.cc) and from a
    deleted child up ([notify_child_stopped]).  One step of [run_and_dispose] is one message or one
    task; user code that is handling a message may send others ([Receive]) before it completes.

    The objects on the stack are the running one, whose phase [frame] holds, and its parents,
    each of which is waiting in the loop over its task queue for its child to return. *)
From S2P Require Import Prelude.
From S2P Require Import Bytes Address Message PromiseManager.
From S2P Require Import Actor TaskQueue Group Engine Tree.

Section TreeRun.
Context {D Q P Sem : Type} {SM : Semaphore Sem} {HO : HeapOps Z} {HL : HeapLaws Z}.
Abbreviation emsg := (emsg (D := D) (Q := Q)).
Abbreviation amsg := (Actor.msg (P := emsg)).
Abbreviation actor := (actor (P := emsg)).
Abbreviation obj := (obj (D := D) (Q := Q) (Sem := Sem)).
Abbreviation shard := (shard (D := D) (Q := Q) (P := P) (Sem := Sem)).
Variable promise_set_value : P -> emsg -> P.
Variable promise_set_exception : P -> ex -> P.
Variable this_gsid : Z.
Variable is_local : Z -> bool.
Variable canceled_text : bytes.
Variable kind_of : Z -> kind.
Variable do_work : emsg -> Actor.work (P := emsg).

Abbreviation route := (route promise_set_value promise_set_exception this_gsid is_local canceled_text kind_of).

(** [Returned]: a child of a running group has returned to it; [Handling]: [do_work] is being called. *)
Inductive phase := Tasks | Mailbox | Returned | Handling (m : amsg).

(** [responses]: the answers to cancel requests, handed to [actor_engine().send]. *)
Record state := mk_state { tree : shard; frame : option (list Z * phase); responses : list (Z * Z) }.
Definition cur (s : state) : option (list Z) := fst <$> frame s.
Definition inhand (s : state) : list amsg := match frame s with Some (_, Handling m) => [m] | _ => [] end.

(** ** What an object does to its children *)
Definition schedule_at (id : Z) (rp : list Z) (T : shard) : res shard :=
  o ← of_option UseAfterFree (objs T !! (id :: rp));
  o' ← o_schedule o; settle id rp o o' T.
(** [make_system_message] with [null_addr]. *)
Definition stop_message (m_type : Z) : emsg := mk_emsg (mk_header address_zero 0 0 0 m_type false) NoData.

Definition do_out (rp : list Z) (x : out) (T : shard) : res shard :=
  match x with
  | Scheduled id => schedule_at id rp T
  | ChildMsg id t => deliver (stop_message t) (id :: rp) T
  | _ => Ok T
  end.
Fixpoint do_outs (rp : list Z) (os : list out) (T : shard) : res shard :=
  match os with [] => Ok T | x :: os => T ← do_out rp x T; do_outs rp os T end.
Definition o_trace (o : obj) : list out := match o with OActor _ => [] | OGroup g => Group.trace g end.
(** What the object did in a step. *)
Definition o_outs (o o' : obj) : list out := drop (length (o_trace o)) (o_trace o').

(** ** What an object does to its parent *)
(** [stop_child_actor] of the parent: the child's [stop] is the caller's, here its pointer becomes null. *)
Definition forget (id : Z) (rp : list Z) (force : bool) (T : shard) : res shard :=
  match rp with
  | [] => e ← Engine.stop_child_actor id force (root T); Ok (with_root e T)
  | _ =>
      match objs T !! rp with
      | Some (OGroup g) => g ← Group.stop_child_actor id force g; Ok (set_obj rp (OGroup g) T)
      | Some (OActor _) => Fault BadCast
      | None => Fault UseAfterFree
      end
  end.
Definition o_force (o : obj) : bool :=
  match o with OActor a => Actor.force_stopping a | OGroup g => bool_decide (Group.stop_status g = FORCE_STOPPING) end.

(** The object [id] below [rp] did [o'], which it was stopped by if its parent is to forget it.  (The code
    assigns the null pointer last; nothing before reads it.) *)
Definition update (id : Z) (rp : list Z) (o o' : obj) (T : shard) : res shard :=
  T ← (if o_listed o && negb (o_listed o') then forget id rp (o_force o') T else Ok T);
  T ← settle id rp o o' T;
  do_outs (id :: rp) (o_outs o o') T.

(** ** From the root down *)
Definition o_stop (force : bool) (o : obj) : res obj :=
  match o with
  | OActor a => a ← Actor.stop_child_actor force a; Ok (OActor a)
  | OGroup g => Ok (OGroup (Group.parent_stop force g))
  end.
Definition do_eout (x : eout (D := D) (Q := Q)) (T : shard) : res shard :=
  match x with
  | EScheduled id => schedule_at id [] T
  | EStopped id force =>
      o ← of_option UseAfterFree (objs T !! [id]);
      o' ← o_stop force o;
      T ← settle id [] o o' T; do_outs [id] (o_outs o o') T
  | _ => Ok T
  end.
Fixpoint do_eouts (os : list (eout (D := D) (Q := Q))) (T : shard) : res shard :=
  match os with [] => Ok T | x :: os => T ← do_eout x T; do_eouts os T end.
(** The engine did [e]. *)
Definition update_root (e : engine) (T : shard) : res shard :=
  do_eouts (drop (length (Engine.trace (root T))) (Engine.trace e)) (with_root e T).

Definition receive (m : emsg) (T : shard) : res shard :=
  if addr_length (addr (e_hdr m)) =? total_addr_length then
    e ← receive_root promise_set_value promise_set_exception m (root T); update_root e T
  else '(T, _) ← route m T; Ok T.

(** ** run_and_dispose *)
Definition with_frame f T (s : state) : state := mk_state T f (responses s).

(** The beginning: the object has been taken from a task queue. *)
Definition started (o : obj) : obj :=
  match o with
  | OActor a => let a := Actor.with_queued (pred (Actor.queued a)) a in OActor (if force_stopping a then cancel_tasks a else a)
  | OGroup g => OGroup (Group.with_queued (pred (Group.queued g)) g)
  end.
Definition first_phase (o : obj) : phase := match o with OActor _ => Tasks | OGroup _ => Mailbox end.
Definition start (rp : list Z) (T : shard) (s : state) : res state :=
  o ← of_option UseAfterFree (objs T !! rp);
  Ok (with_frame (Some (rp, first_phase o)) (set_obj rp (started o) T) s).

(** The caller goes on. *)
Definition back (rp : list Z) : option (list Z * phase) := match rp with [] => None | _ => Some (rp, Returned) end.

(** [notify_child_stopped] of the parent, and [delete this].  (The code deletes last; nothing before reads the object.) *)
Definition leave (id : Z) (rp : list Z) (T : shard) : res shard :=
  let T := mk_shard (root T) (delete (id :: rp) (objs T)) (reactor T) in
  match rp with
  | [] => update_root (Engine.notify_child_stopped (Engine.with_alive (Engine.alive (root T) ∖ {[id]}) (root T))) T
  | _ =>
      match objs T !! rp with
      | Some (OGroup g) =>
          let g' := Group.notify_child_stopped (Group.with_alive (Group.alive g ∖ {[id]}) g) in
          do_outs rp (o_outs (OGroup g) (OGroup g')) (set_obj rp (OGroup g') T)
      | Some (OActor _) => Fault BadCast
      | None => Fault UseAfterFree
      end
  end.

(** From the label FINAL on. *)
Definition o_finish (o : obj) : obj := match o with OActor a => OActor (Actor.finish a) | OGroup g => OGroup (Group.finish g) end.
Definition o_deleted (o : obj) : bool := match o with OActor a => Actor.deleted a | OGroup g => Group.deleted g end.
Definition o_responses (o o' : obj) : list (Z * Z) := omap (fun x => match x with Response s p => Some (s, p) | _ => None end) (o_outs o o').
Definition final (id : Z) (rp : list Z) (o : obj) (s : state) : res state :=
  let o' := o_finish o in
  T ← (if o_deleted o' then leave id rp (tree s) else settle id rp o o' (tree s));
  Ok (mk_state T (back rp) (responses s ++ o_responses o o')).
(** The object did [o']; what comes next. *)
Definition next (id : Z) (rp : list Z) (o o' : obj) (yield : bool) (p : phase) (s : state) : res state :=
  T ← update id rp o o' (tree s);
  if yield then o ← of_option UseAfterFree (objs T !! (id :: rp)); final id rp o (with_frame (frame s) T s)
  else Ok (with_frame (Some (id :: rp, p)) T s).

(** One iteration of a loop of [actor::run_and_dispose]. *)
Definition actor_step (id : Z) (rp : list Z) (p : phase) (a : actor) (yield : bool) (s : state) : res state :=
  match p with
  | Tasks =>
      match Actor.tasks a with
      | [] =>
          if cur_concurrency a =? max_concurrency a then
            T ← settle id rp (OActor a) (OActor (Actor.set_activatable a)) (tree s); Ok (with_frame (back rp) T s)
          else Ok (with_frame (Some (id :: rp, Mailbox)) (tree s) s)
      | t :: q =>
          let '(a', stop) := run_task t (Actor.with_tasks q a) in
          a' ← stop_if stop a'; next id rp (OActor a) (OActor a') yield Tasks s
      end
  | Mailbox =>
      match Actor.mailbox a with
      | [] => final id rp (OActor a) s
      | m :: q =>
          Ok (with_frame (Some (id :: rp, Handling m)) (set_obj (id :: rp) (OActor (begin m (Actor.with_mailbox q a))) (tree s)) s)
      end
  | Handling m =>
      '(a', full) ← complete do_work m a; next id rp (OActor a) (OActor a') (full || yield) Mailbox s
  | Returned => Fault AssertFail
  end.

(** One iteration of a loop of [actor_group::run_and_dispose]; the call of a child is a step of its own. *)
Definition group_step (id : Z) (rp : list Z) (p : phase) (g : group) (yield : bool) (s : state) : res state :=
  match p with
  | Mailbox =>
      match Group.mailbox g with
      | [] => Ok (with_frame (Some (id :: rp, Tasks)) (tree s) s)
      | m :: q => g' ← process_message m (Group.with_mailbox q g); next id rp (OGroup g) (OGroup g') yield Mailbox s
      end
  | Tasks =>
      if TaskQueue.empty (Group.tq g) then final id rp (OGroup g) s
      else
        '(child, q) ← pop_task (Group.tq g);
        start (child :: id :: rp) (set_obj (id :: rp) (OGroup (Group.with_tq q g)) (tree s)) s
  | Returned =>
      if yield then final id rp (OGroup g) s else Ok (with_frame (Some (id :: rp, Tasks)) (tree s) s)
  | Handling _ => Fault AssertFail
  end.

Definition run_step (yield : bool) (s : state) : res state :=
  match frame s with
  | Some (id :: rp, p) =>
      match objs (tree s) !! (id :: rp) with
      | Some (OActor a) => actor_step id rp p a yield s
      | Some (OGroup g) => group_step id rp p g yield s
      | None => Fault UseAfterFree
      end
  | _ => Ok s
  end.

(** ** What happens on a shard *)
Inductive event :=
  | Receive (m : emsg)                                    (* a message to an object of the shard *)
  | Reactor                                               (* the reactor runs a task *)
  | Run (yield : bool)                                    (* the running object goes on *)
  | Resolve (rp : list Z) (k : nat) (st : work_state)     (* a future of [do_work] resolves *)
  | Ready (rp : list Z) (c : chain (P := emsg)).          (* a continuation of an actor becomes ready *)

(** A continuation belongs to an actor, and is gone with it. *)
Definition actor_event (rp : list Z) (f : actor -> actor) (s : state) : res state :=
  match rp, objs (tree s) !! rp with
  | id :: rq, Some (OActor a) => T ← update id rq (OActor a) (OActor (f a)) (tree s); Ok (with_frame (frame s) T s)
  | _, _ => Fault UseAfterFree
  end.

Definition step (ev : event) (s : state) : res state :=
  match ev with
  | Receive m => T ← receive m (tree s); Ok (with_frame (frame s) T s)
  | Reactor =>
      match frame s, reactor (tree s) with
      | None, id :: r => start [id] (mk_shard (root (tree s)) (objs (tree s)) r) s
      | _, _ => Ok s
      end
  | Run yield => run_step yield s
  | Resolve rp k st => actor_event rp (Actor.resolve k st) s
  | Ready rp c => actor_event rp (Actor.add_task (Cont c)) s
  end.
Fixpoint run (evs : list event) (s : state) : res state :=
  match evs with [] => Ok s | ev :: evs => s ← step ev s; run evs s end.
End TreeRun.
