(* ===== verification/TreeSteps.v ===== *)
(** * What one step does to the tree of actors

    The steps of [TreeRun] are made of a few moves: an object changes and its parents learn that it was
    activated ([settle]), it schedules children or sends them stop messages ([do_outs]), its parent forgets it
    ([forget]).  Here each of them is shown to keep the tree consistent ([Tree]), and to keep the stop protocol:
    a forgotten object is stopping, the child of a stopping group stops too or was told to. *)
From S2P Require Import Prelude.
From S2P Require Import Bytes Address Message PromiseManager.
From S2P Require Import Actor TaskQueue Group Engine Tree TreeRun.

Section TreeSteps.
Context {D Q P Sem : Type} {SM : Semaphore Sem} {HO : HeapOps Z} {HL : HeapLaws Z}.
Abbreviation emsg := (emsg (D := D) (Q := Q)).
Abbreviation amsg := (Actor.msg (P := emsg)).
Abbreviation actor := (actor (P := emsg)).
Abbreviation obj := (obj (D := D) (Q := Q) (Sem := Sem)).
Abbreviation shard := (shard (D := D) (Q := Q) (P := P) (Sem := Sem)).
Abbreviation phase := (phase (D := D) (Q := Q)).
Abbreviation state := (state (D := D) (Q := Q) (P := P) (Sem := Sem)).
Abbreviation engine := (engine (D := D) (Q := Q) (P := P) (Sem := Sem)).
Abbreviation stop_message := (stop_message (D := D) (Q := Q)).
Context {kind_of : Z -> kind}.

(** ** What steps do to the stop protocol

    A stopping object stays stopping; the parent forgets only stopping objects; a message leaves the
    mailbox of an object that is not stopping only to be handled. *)
Definition resched (s s' : schedule_status) : Prop := s' = s \/ s = SCHEDULABLE /\ s' = SCHEDULED.
Lemma resched_trans s1 s2 s3 : resched s1 s2 -> resched s2 s3 -> resched s1 s3.
Proof. unfold resched. intros [->|[-> ->]]; [done|]. intros [->|[? _]]; [auto|done]. Qed.
Record onward (a a' : actor) : Prop := {
  w_sched : resched (Actor.sched a) (Actor.sched a');
  w_stop : Actor.stopping a = true -> Actor.stopping a' = true;
  w_listed : Actor.listed a = false -> Actor.listed a' = false;
  w_unlisted : Actor.listed a' = false -> Actor.listed a = false \/ Actor.stopping a' = true;
  w_mail : forall m, m ∈ Actor.mailbox a -> m ∈ Actor.mailbox a' \/ Actor.stopping a' = true
}.
Lemma onward_refl a : onward a a.
Proof. split; auto. now left. Qed.
Lemma onward_trans a b c : onward a b -> onward b c -> onward a c.
Proof.
  intros [A0 A1 A2 A3 A4] [B0 B1 B2 B3 B4]. split; auto.
  - eapply resched_trans; eassumption.
  - intros H. destruct (B3 H) as [H2|]; [|auto]. destruct (A3 H2); auto.
  - intros m H. destruct (A4 m H) as [H2|]; auto.
Qed.
Lemma onward_same a a' :
  Actor.sched a' = Actor.sched a -> Actor.stop_status a' = Actor.stop_status a -> Actor.listed a' = Actor.listed a -> (forall m, m ∈ Actor.mailbox a -> m ∈ Actor.mailbox a') -> onward a a'.
Proof. intros H0 H1 H2 H3. split; rewrite ?H2, ?(stopping_eq _ _ H1); auto. now left. Qed.
(** Whatever is stopping afterwards. *)
Lemma onward_stopping a a' :
  resched (Actor.sched a) (Actor.sched a') -> Actor.stopping a' = true -> (Actor.listed a = false -> Actor.listed a' = false) -> onward a a'.
Proof. intros H0 H1 H2. split; auto. Qed.

Lemma activate_resched (a : actor) : resched (Actor.sched a) (Actor.sched (Actor.activate a)).
Proof. unfold Actor.activate, Actor.activatable. case_bool_decide as E; [right; now rewrite E|now left]. Qed.
Lemma onward_activate a b :
  Actor.sched b = Actor.sched a -> Actor.stop_status b = Actor.stop_status a -> Actor.listed b = Actor.listed a -> (forall m, m ∈ Actor.mailbox a -> m ∈ Actor.mailbox b) -> onward a (Actor.activate b).
Proof.
  intros H0 H1 H2 H3. eapply onward_trans; [now apply (onward_same a b)|]. pose proof (activate_resched b) as Hr.
  unfold Actor.activate in *. destruct (Actor.activatable b); [|apply onward_refl]. split; auto.
Qed.
Lemma do_effects_onward es : forall a, onward a (Actor.do_effects es a).
Proof.
  induction es as [|e es IH]; intros a; [apply onward_refl|]. cbn [Actor.do_effects]. eapply onward_trans; [|apply IH].
  destruct e as [c|c|k st|m]; cbn [Actor.do_effect]; try now apply onward_activate.
  - unfold resolve. destruct (_ !! _); [now apply onward_activate|apply onward_refl].
  - unfold Actor.send. destruct (Actor.listed a); [|now apply onward_same]. destruct (_ =? _); apply onward_activate; try done; cbn; set_solver.
Qed.
Lemma run_task_onward t q a : onward a (fst (run_task t (Actor.with_tasks q a))).
Proof.
  destruct t as [m st|[r c]]; cbn [run_task fst]; [now apply onward_same|].
  eapply onward_trans; [|apply do_effects_onward]. now apply onward_same.
Qed.
Lemma clean_loop_onward fuel : forall a a', Actor.stopping a = true -> clean_loop fuel a = Ok a' -> onward a a'.
Proof.
  induction fuel as [|fuel IH]; intros a a' Hs; cbn [clean_loop]; (destruct (Actor.tasks a) as [|t q]; [intros [= <-]; apply onward_refl|]); [done|].
  pose proof (run_task_onward t q a) as Hr. destruct (run_task t (Actor.with_tasks q a)) as [b st]. cbn [fst] in Hr. intros E.
  pose proof (w_stop _ _ Hr Hs) as Hb.
  assert (Hu : onward b (if st then Actor.with_listed false b else b)) by (destruct st; [apply onward_stopping; [now left|done..]|apply onward_refl]).
  eapply onward_trans; [exact Hr|]. eapply onward_trans; [exact Hu|]. apply (IH _ _ (w_stop _ _ Hu Hb) E).
Qed.
Lemma stop_onward force a a' : Actor.stop force a = Ok a' -> onward a a' /\ Actor.stopping a' = true.
Proof.
  unfold Actor.stop. destruct (Actor.stopping a) eqn:Es; [intros [= <-]; split; [apply onward_refl|done]|].
  assert (Hi : forall b, resched (Actor.sched a) (Actor.sched b) -> Actor.stopping b = true -> (Actor.listed a = false -> Actor.listed b = false) ->
    onward a (Actor.activate_if_idle b) /\ Actor.stopping (Actor.activate_if_idle b) = true).
  { intros b H0 H1 H2. assert (Hb : Actor.stopping (Actor.activate_if_idle b) = true) by (rewrite (activate_if_idle_field Actor.stopping); done).
    split; [|done]. apply onward_stopping; [|done|now rewrite (activate_if_idle_field Actor.listed)]. eapply resched_trans; [exact H0|].
    unfold Actor.activate_if_idle. destruct (_ && _); [apply activate_resched|now left]. }
  destruct force; [|intros [= <-]; apply Hi; [now left|done..]]. intros E. apply bind_ok in E as (b & E & [= <-]).
  unfold clean_task_queue in E. apply bind_ok in E as (? & _ & E). apply clean_loop_onward in E; [|done]. apply Hi; [apply E|now apply E|]. intros Hl. now apply E.
Qed.
Lemma stop_child_onward force a a' :
  Actor.stop_child_actor force a = Ok a' -> onward a a' /\ (Actor.listed a = true \/ Actor.stopping a = true -> Actor.stopping a' = true).
Proof.
  unfold Actor.stop_child_actor. destruct (Actor.listed a) eqn:El.
  - intros E. apply bind_ok in E as (b & E & [= <-]). apply stop_onward in E as [H1 H2]. split; [|done]. apply onward_stopping; [apply H1|done..].
  - intros [= <-]. split; [apply onward_refl|]. now intros [?|?].
Qed.
Lemma stop_if_onward b a a' : stop_if b a = Ok a' -> onward a a'.
Proof. destruct b; [intros E; now apply stop_child_onward in E|intros [= <-]; apply onward_refl]. Qed.

Definition is_stop (t : Z) : bool := (t =? PEACE_STOP) || (t =? FORCE_STOP).
Lemma complete_onward (do_work : emsg -> Actor.work (P := emsg)) m a a' full : complete do_work m a = Ok (a', full) ->
  onward a a' /\ (is_stop (m_type m) = true -> Actor.listed a = true \/ Actor.stopping a = true -> Actor.stopping a' = true).
Proof.
  unfold complete, is_stop. destruct (Z.eqb_spec (m_type m) USER) as [Eu|_].
  - intros E. split; [|intros H; now rewrite Eu in H]. destruct (do_work (body m)) as [es r|es].
    + apply bind_ok in E as (b & E & [= <- _]). apply stop_if_onward in E. eapply onward_trans; [apply (do_effects_onward es)|].
      eapply onward_trans; [|exact E]. now apply onward_same.
    + injection E as <- _. eapply onward_trans; [apply (do_effects_onward es)|]. now apply onward_same.
  - assert (Hk : forall force, (a ← Actor.stop_child_actor force a; Ok (reclaim [m] a, false)) = Ok (a', full) ->
      onward a a' /\ (Actor.listed a = true \/ Actor.stopping a = true -> Actor.stopping a' = true)).
    { intros force E. apply bind_ok in E as (b & E & [= <- _]). apply stop_child_onward in E as [H1 H2]. split; [|exact H2].
      eapply onward_trans; [exact H1|now apply onward_same]. }
    destruct (_ =? PEACE_STOP); [intros E; destruct (Hk _ E); auto|]. destruct (_ =? FORCE_STOP); [intros E; destruct (Hk _ E); auto|done].
Qed.

(** ** Objects *)
Definition has_stop (o : obj) : bool :=
  existsb (fun m => is_stop (m_type m)) (fst (o_mailbox o)) || existsb (fun m => is_stop (g_type m)) (snd (o_mailbox o)).
(** The object stops, or has been told to. *)
Definition told (hand : list amsg) (o : obj) : bool := o_stopping o || has_stop o || existsb (fun m => is_stop (m_type m)) hand.
Record advance (hand hand' : list amsg) (o o' : obj) : Prop := {
  a_stop : o_stopping o = true -> o_stopping o' = true;
  a_listed : o_listed o = false -> o_listed o' = false;
  a_unlisted : o_listed o' = false -> o_listed o = false \/ o_stopping o' = true;
  a_told : told hand o = true -> told hand' o' = true
}.
Lemma existsb_mono {A} (f : A -> bool) l l' : (forall x, x ∈ l -> x ∈ l') -> existsb f l = true -> existsb f l' = true.
Proof. intros H. rewrite !existsb_exists. intros (x & Hx & Hf). exists x. split; [|done]. now apply list_elem_of_In, H, list_elem_of_In. Qed.
Lemma actor_advance hand hand' a a' : onward a a' ->
  (Actor.stopping a' = false -> existsb (fun m => is_stop (m_type m)) hand = true -> existsb (fun m => is_stop (m_type m)) hand' = true) ->
  advance hand hand' (OActor a) (OActor a').
Proof.
  intros [_ H1 H2 H3 H4] Hh. split; try done. unfold told, has_stop. cbn [o_stopping o_mailbox fst snd existsb]. rewrite !orb_false_r, !orb_true_iff.
  destruct (Actor.stopping a') eqn:Es; [auto|]. intros [[H|H]|H]; [now apply H1 in H| |auto]. left. right. revert H. apply existsb_mono.
  intros m Hm. now destruct (H4 m Hm).
Qed.

(** ** Touching an object *)
Abbreviation consistent := (consistent kind_of).

(** An object changes, it may begin or end to run, and if it was activated its parents learn of it. *)
Lemma settle_to c c' h h' id rp o o' (T : shard) :
  consistent c h None T -> objs T !! (id :: rp) = Some o -> o_live (hand_in c' h' (id :: rp)) (busy_in c' (id :: rp)) o' -> like o o' ->
  (forall q, q <> id :: rp -> busy_in c' q = busy_in c q /\ hand_in c' h' q = hand_in c h q) ->
  (o_sched o = INITIALIZED -> o_sched o' = INITIALIZED \/ id ∉ waiting_at T rp) ->
  (o_queued o' = o_queued o \/ o_queued o' = 1%nat /\ o_queued o = 0%nat) ->
  exists T', settle id rp o o' T = Ok T' /\ consistent c' h' None T' /\ stable (set_obj (id :: rp) o' T) T' /\ objs T' !! (id :: rp) = Some o' /\
    init_kept (set_obj (id :: rp) o' T) T'.
Proof.
  intros Ht Ho Hl Hlk Hoth Hin Hq. unfold settle. cbv zeta. destruct Hq as [Hq|[Hq1 Hq0]].
  - rewrite Hq, Nat.ltb_irrefl. eexists. split; [reflexivity|].
    split; [|split; [apply stable_refl|split; [cbn [objs set_obj]; apply lookup_insert_eq|intros q x y E1 E2; congruence]]].
    eapply (change_ok kind_of c h); eauto.
  - rewrite Hq1, Hq0. cbn [Nat.ltb Nat.leb]. destruct (tree_add_task_ok kind_of c' h' rp id (set_obj (id :: rp) o' T)) as (T' & E & Hok & Hst & Hup & Hk).
    + eapply (change_ok kind_of c h); eauto. cbn. lia.
    + eexists. cbn [objs set_obj]. now rewrite lookup_insert_eq.
    + exists T'. split; [done|]. split; [done|]. split; [done|]. split; [|done]. rewrite Hup by (cbn; lia). cbn [objs set_obj]. apply lookup_insert_eq.
Qed.

(** No object comes or goes, starts or stops, and none loses a stop message. *)
Record calm (T T' : shard) : Prop := {
  c_root : root T' = root T;
  c_obj : forall q o, objs T !! q = Some o -> exists o', objs T' !! q = Some o' /\ o_rest o' = o_rest o /\ (has_stop o = true -> has_stop o' = true);
  c_old : forall q, is_Some (objs T' !! q) -> is_Some (objs T !! q)
}.
Lemma calm_refl T : calm T T.
Proof. split; eauto. Qed.
Lemma calm_trans T1 T2 T3 : calm T1 T2 -> calm T2 T3 -> calm T1 T3.
Proof.
  intros [R1 O1 N1] [R2 O2 N2]. split; [congruence| |auto]. intros q o Ho. destruct (O1 _ _ Ho) as (o2 & Ho2 & E2 & S2).
  destruct (O2 _ _ Ho2) as (o3 & Ho3 & E3 & S3). exists o3. split; [done|]. split; [congruence|auto].
Qed.
Lemma core_calm (o o' : obj) : core o' = core o -> o_rest o' = o_rest o /\ has_stop o' = has_stop o.
Proof.
  intros H. split; [|unfold has_stop; now destruct (core_eq _ _ H) as (_ & _ & -> & _)].
  destruct o as [a|g], o' as [a'|g']; cbn; cbn in H; try discriminate; injection H; intros; congruence.
Qed.
Lemma stable_calm T T' : stable T T' -> calm T T'.
Proof.
  intros Hst. pose proof Hst as [R H]. split; [done| |intros q; apply (stable_some _ _ q Hst)]. intros q o Ho.
  destruct (proj2 (stable_some _ _ q Hst) ltac:(eauto)) as [o' Ho']. exists o'. split; [done|]. specialize (H q). rewrite Ho, Ho' in H.
  injection H as H. destruct (core_calm _ _ H) as [H1 H2]. now rewrite H2.
Qed.
Lemma set_calm p (o o' : obj) T : objs T !! p = Some o -> o_rest o' = o_rest o -> (has_stop o = true -> has_stop o' = true) -> calm T (set_obj p o' T).
Proof.
  intros Ho Hr Hs. split; [done| |intros q; cbn [objs set_obj]; rewrite lookup_insert_is_Some'; intros [<-|?]; [eauto|done]].
  intros q x Hx. cbn [objs set_obj]. destruct (decide (q = p)) as [->|Hq]; [rewrite lookup_insert_eq|rewrite lookup_insert_ne by done; eauto].
  exists o'. split; [done|]. split; congruence || now replace x with o by congruence.
Qed.

(** The object [id] below [rp] is scheduled or gets a message. *)
Lemma touch_ok c h id rp o o' (T : shard) :
  consistent c h None T -> objs T !! (id :: rp) = Some o -> o_live (hand_in c h (id :: rp)) (busy_in c (id :: rp)) o' -> like o o' -> o_waiting o' = o_waiting o ->
  o_rest o' = o_rest o -> (has_stop o = true -> has_stop o' = true) ->
  (o_sched o = INITIALIZED -> o_sched o' = INITIALIZED \/ id ∉ waiting_at T rp) ->
  (o_queued o' = o_queued o \/ o_queued o' = 1%nat /\ o_queued o = 0%nat) ->
  exists T', settle id rp o o' T = Ok T' /\ consistent c h None T' /\ calm T T' /\ objs T' !! (id :: rp) = Some o' /\
    (forall q, waiting_at T' q = waiting_at T q) /\
    (forall q x, objs T !! q = Some x -> o_sched x = INITIALIZED -> q <> id :: rp \/ o_sched o' = INITIALIZED -> exists x', objs T' !! q = Some x' /\ o_sched x' = INITIALIZED).
Proof.
  intros Ht Ho Hl Hlk Hw Hr Hs Hin Hq. destruct (settle_to c c h h id rp o o' T Ht Ho Hl Hlk) as (T' & E & Ht' & Hst & Ho' & Hk); [done|done|done|].
  exists T'. split; [done|]. split; [done|]. split; [eapply calm_trans; [now apply (set_calm (id :: rp) o o')|now apply stable_calm]|]. split; [done|]. split.
  - intros q. rewrite (stable_waiting _ _ _ Hst). destruct q as [|y q]; [done|]. unfold waiting_at. cbn [objs set_obj].
    destruct (decide (y :: q = id :: rp)) as [->|Hne]; [now rewrite lookup_insert_eq, Ho|now rewrite lookup_insert_ne].
  - intros q x Ex Es Hne. assert (Hsome : exists y, objs (set_obj (id :: rp) o' T) !! q = Some y /\ o_sched y = INITIALIZED).
    { cbn [objs set_obj]. destruct (decide (q = id :: rp)) as [->|Hq']; [rewrite lookup_insert_eq|rewrite lookup_insert_ne by done; eauto].
      exists o'. split; [done|]. now destruct Hne. }
    destruct Hsome as (y & Ey & Esy). destruct (proj2 (stable_some _ _ q Hst) ltac:(eauto)) as [x' Ex']. exists x'. split; [done|]. eapply Hk; eassumption.
Qed.

Lemma o_schedule_ok h (o : obj) : o_live h false o -> o_sched o = INITIALIZED ->
  exists o', o_schedule o = Ok o' /\ o_live h false o' /\ o_queued o' = 1%nat /\ o_queued o = 0%nat /\ core o' = core o /\ o_tasks o' = o_tasks o.
Proof.
  intros Hl Hs. pose proof (o_queued_sched _ _ _ Hl) as Hq. rewrite decide_False in Hq by congruence. destruct o as [a|g]; cbn [o_schedule o_live o_sched] in *.
  - destruct (schedule_live h a Hl Hs) as (b & -> & H & ->). cbn [mbind res_bind]. eexists. split; [reflexivity|]. cbn in *. rewrite Hq in *. done.
  - destruct (group_schedule_live g Hl Hs) as (b & -> & H & ->). cbn [mbind res_bind]. eexists. split; [reflexivity|]. cbn in *. rewrite Hq in *. done.
Qed.

Lemma initialized_idle c h rp o (T : shard) : consistent c h None T -> objs T !! rp = Some o -> o_sched o = INITIALIZED -> busy_in c rp = false.
Proof.
  intros Ht Ho Hs. destruct (busy_in c rp) eqn:Hb; [|done]. pose proof (t_live _ _ _ _ _ Ht _ _ Ho) as Hl. rewrite Hb in Hl.
  apply o_running_sched in Hl. congruence.
Qed.

Lemma schedule_at_ok c h id rp o (T : shard) :
  consistent c h None T -> objs T !! (id :: rp) = Some o -> o_sched o = INITIALIZED -> id ∉ waiting_at T rp ->
  exists T', schedule_at id rp T = Ok T' /\ consistent c h None T' /\ calm T T' /\ (forall q, waiting_at T' q = waiting_at T q) /\
    (forall q x, objs T !! q = Some x -> o_sched x = INITIALIZED -> q <> id :: rp -> exists x', objs T' !! q = Some x' /\ o_sched x' = INITIALIZED).
Proof.
  intros Ht Ho Hs Hw. pose proof (initialized_idle _ _ _ _ _ Ht Ho Hs) as Hb. pose proof (t_live _ _ _ _ _ Ht _ _ Ho) as Hl. rewrite Hb in Hl.
  destruct (o_schedule_ok _ _ Hl Hs) as (o' & E & Hl' & Hq' & Hq & Hc & Htk). unfold schedule_at. rewrite Ho. cbn [of_option mbind res_bind]. rewrite E. cbn [mbind res_bind].
  rewrite <-Hb in Hl' at 1. destruct (core_calm _ _ Hc) as [Hr Hst]. destruct (core_eq _ _ Hc) as (_ & _ & _ & _ & _ & Hwt).
  destruct (touch_ok c h id rp o o' T Ht Ho Hl' (core_like _ _ Hc Htk) Hwt Hr) as (T' & ET & H1 & H2 & _ & H4 & H5); [congruence|auto|auto|].
  exists T'. split; [done|]. split; [done|]. split; [done|]. split; [done|]. intros q x Ex Es Hne. eapply H5; eauto.
Qed.

Lemma stop_message_type t : is_stop t = true -> user (stop_message t) = false /\ m_type (actor_msg (stop_message t)) = t /\ g_type (group_msg (stop_message t)) = t.
Proof. unfold is_stop, user. cbn. intros H. split; [|done]. apply orb_prop in H as [->%Z.eqb_eq| ->%Z.eqb_eq]; reflexivity. Qed.
Lemma enqueue_has_stop m (o : obj) : has_stop o = true -> has_stop (o_enqueue m o) = true.
Proof.
  unfold has_stop. rewrite (o_enqueue_mailbox m o). unfold put. destruct (o_kind o), (user m); cbn [fst snd]; rewrite ?orb_true_iff, ?existsb_app; cbn [existsb]; rewrite ?orb_true_iff; tauto.
Qed.
Lemma enqueue_stop t (o : obj) : is_stop t = true -> has_stop (o_enqueue (stop_message t) o) = true.
Proof.
  intros Ht. destruct (stop_message_type t Ht) as (Hu & Ha & Hg). unfold has_stop. rewrite o_enqueue_mailbox. unfold put.
  rewrite Hu. destruct (o_kind o); cbn [fst snd existsb]; rewrite ?Ha, ?Hg, Ht, ?orb_true_r; done.
Qed.

Lemma deliver_stop_ok c h id rp o t (T : shard) :
  consistent c h None T -> objs T !! (id :: rp) = Some o -> is_stop t = true ->
  exists T', deliver (stop_message t) (id :: rp) T = Ok T' /\ consistent c h None T' /\ calm T T' /\ (forall q, waiting_at T' q = waiting_at T q) /\
    (forall q x, objs T !! q = Some x -> o_sched x = INITIALIZED -> exists x', objs T' !! q = Some x' /\ o_sched x' = INITIALIZED) /\
    exists o', objs T' !! (id :: rp) = Some o' /\ has_stop o' = true.
Proof.
  intros Ht Ho Hst. unfold deliver. rewrite Ho. set (m := stop_message t). pose proof (t_live _ _ _ _ _ Ht _ _ Ho) as Hl.
  pose proof (o_enqueue_live _ _ m o Hl) as Hl'. destruct (o_enqueue_same m o) as (S1 & S4 & S5).
  destruct (touch_ok c h id rp o (o_enqueue m o) T Ht Ho Hl' S1) as (T' & E & H1 & H2 & H3 & H4 & H5).
  - destruct o as [a|g]; [done|]. cbn. unfold Group.enque_message, Group.enque_urgent_message, Group.activate. destruct (user m), (Group.activatable _); done.
  - apply o_enqueue_rest.
  - apply enqueue_has_stop.
  - auto.
  - destruct (o_enqueue_queued m o) as [Hq|Hq]; [now left|right].
    rewrite (o_queued_sched _ _ _ Hl) in *. rewrite (o_queued_sched _ _ _ Hl') in *. repeat case_match; lia.
  - exists T'. split; [done|]. split; [done|]. split; [done|]. split; [done|]. split; [|exists (o_enqueue m o); split; [done|now apply enqueue_stop]].
    intros q x Ex Es. apply (H5 q x Ex Es). destruct (decide (q = id :: rp)) as [->|]; [|now left]. right. apply S5. congruence.
Qed.

(** ** What an object does to its children *)
Definition ready_to_start (rp : list Z) (T : shard) (id : Z) : Prop :=
  id ∉ waiting_at T rp /\ exists o, objs T !! (id :: rp) = Some o /\ o_sched o = INITIALIZED.
Definition stoppable (rp : list Z) (T : shard) (p : Z * Z) : Prop := is_Some (objs T !! (fst p :: rp)) /\ is_stop (snd p) = true.
Definition told_at (rp : list Z) (T : shard) (p : Z * Z) : Prop := exists o, objs T !! (fst p :: rp) = Some o /\ has_stop o = true.

Lemma calm_stoppable rp T T' p : calm T T' -> stoppable rp T p -> stoppable rp T' p.
Proof. intros Hc [[o Ho] Hs]. split; [|done]. destruct (c_obj _ _ Hc _ _ Ho) as (o' & ? & _). eauto. Qed.
Lemma calm_told rp T T' p : calm T T' -> told_at rp T p -> told_at rp T' p.
Proof. intros Hc (o & Ho & Hs). destruct (c_obj _ _ Hc _ _ Ho) as (o' & Ho' & _ & Hs'). exists o'. auto. Qed.
Lemma calm_some T T' q : calm T T' -> is_Some (objs T !! q) -> is_Some (objs T' !! q).
Proof. intros Hc [o Ho]. destruct (c_obj _ _ Hc _ _ Ho) as (o' & ? & _). eauto. Qed.

Lemma do_outs_ok c h rp os : forall (T : shard), consistent c h None T ->
  NoDup (Group.scheduled os) -> Forall (ready_to_start rp T) (Group.scheduled os) -> Forall (stoppable rp T) (child_msgs os) ->
  exists T', do_outs rp os T = Ok T' /\ consistent c h None T' /\ calm T T' /\ Forall (told_at rp T') (child_msgs os).
Proof.
  induction os as [|x os IH]; intros T Ht Hnd Hr Hs; cbn [do_outs]; [exists T; split; [done|]; split; [done|]; split; [apply calm_refl|constructor]|].
  destruct x as [id|id|id t|id f|m| |s p]; try exact (IH T Ht Hnd Hr Hs); cbn [do_out].
  - change (Group.scheduled (Scheduled id :: os)) with (id :: Group.scheduled os) in *. apply NoDup_cons in Hnd as [Hni Hnd].
    apply Forall_cons in Hr as [(Hw & o & Ho & Hos) Hr].
    destruct (schedule_at_ok c h id rp o T Ht Ho Hos Hw) as (T1 & -> & Ht1 & Hc1 & Hw1 & Hi1). cbn [mbind res_bind].
    destruct (IH T1 Ht1 Hnd) as (T' & -> & Ht' & Hc' & Hto); [| |exists T'; split; [done|]; split; [done|]; split; [eapply calm_trans; eassumption|exact Hto]].
    + apply Forall_forall. intros y Hy. pose proof (proj1 (Forall_forall _ _) Hr y Hy) as (Hyw & oy & Hoy & Hys). split; [now rewrite Hw1|].
      apply (Hi1 _ oy Hoy Hys). intros [= ->]. done.
    + eapply Forall_impl; [exact Hs|]. intros p. now apply calm_stoppable.
  - change (child_msgs (ChildMsg id t :: os)) with ((id, t) :: child_msgs os) in *. apply Forall_cons in Hs as [[[o Ho] Hst] Hs]. cbn [fst snd] in *.
    destruct (deliver_stop_ok c h id rp o t T Ht Ho Hst) as (T1 & -> & Ht1 & Hc1 & Hw1 & Hi1 & o1 & Ho1 & Hs1). cbn [mbind res_bind].
    destruct (IH T1 Ht1 Hnd) as (T' & -> & Ht' & Hc' & Hto).
    + eapply Forall_impl; [exact Hr|]. intros y (Hyw & oy & Hoy & Hys). split; [now rewrite Hw1|]. exact (Hi1 _ oy Hoy Hys).
    + eapply Forall_impl; [exact Hs|]. intros p. now apply calm_stoppable.
    + exists T'. split; [done|]. split; [done|]. split; [eapply calm_trans; eassumption|]. constructor; [|exact Hto]. apply (calm_told _ T1); [done|]. exists o1. auto.
Qed.

(** What [stop] and [process_message] do to a group, seen from its children. *)
Record stop_spec (g g' : group (Sem := Sem)) (os : list out) : Prop := {
  p_trace : Group.trace g' = Group.trace g ++ os;
  p_alive : Group.alive g' = Group.alive g;
  p_tq : Group.tq g' = Group.tq g;
  p_map : Group.inst_map g' = Group.inst_map g;
  p_wait : Group.waiting (Group.sem g) = Group.scheduled os ++ Group.waiting (Group.sem g');
  p_msgs : Forall (fun p => Group.inst_map g !! fst p = Some true /\ is_stop (snd p) = true) (child_msgs os);
  p_all : Group.stopping g = false -> Group.stopping g' = true -> forall id, Group.inst_map g !! id = Some true -> exists t, (id, t) ∈ child_msgs os;
  p_stop : Group.stopping g = true -> Group.stopping g' = true;
  p_listed : Group.listed g = false -> Group.listed g' = false;
  p_unlisted : Group.listed g' = false -> Group.listed g = false \/ Group.stopping g' = true;
  p_sched : resched (Group.sched g) (Group.sched g')
}.
Lemma stop_spec_refl g : stop_spec g g [].
Proof. split; auto; [now rewrite app_nil_r|congruence|now left]. Qed.

Definition stop_msgs (t : Z) (m : gmap Z bool) : list out :=
  omap (fun p => if snd p : bool then Some (ChildMsg (fst p) t) else None) (map_to_list m).
Lemma stop_msgs_quiet t m : Group.scheduled (stop_msgs t m) = [].
Proof. unfold stop_msgs, Group.scheduled. induction (map_to_list m) as [|[k []] l IH]; cbn; done. Qed.

Lemma stop_body_outs force (g : group (Sem := Sem)) : exists woken ms,
  let g' := stop_body force g in
  Group.trace g' = Group.trace g ++ (Scheduled <$> woken) ++ stop_msgs (if force then FORCE_STOP else PEACE_STOP) (Group.inst_map g) ++ (Reclaimed <$> ms) /\
  Group.waiting (Group.sem g) = woken ++ Group.waiting (Group.sem g') /\ Group.alive g' = Group.alive g /\ Group.inst_map g' = Group.inst_map g.
Proof.
  destruct force; cbn [stop_body]; [|exists [], []; cbn; now rewrite app_nil_r].
  unfold break_sem. change (Group.sem (Group.with_stop FORCE_STOPPING g)) with (Group.sem g). pose proof (sem_broken_spec (Group.sem g)) as [Hb1 Hb2].
  destruct (Group.waiting (Group.sem g)) as [|w ws] eqn:Ew.
  - exists [], (Group.mailbox g). cbn. rewrite Ew, <-app_assoc. done.
  - exists (w :: ws), (Group.mailbox g). destruct (sem_broken (Group.sem g)) as [s woken]. cbn [fst snd] in *. subst woken. cbn. rewrite Hb2, app_nil_r, <-!app_assoc. done.
Qed.

Lemma parent_stop_spec run force (g : group (Sem := Sem)) : Group.live run g -> Group.listed g = true ->
  exists os, stop_spec g (Group.parent_stop force g) os /\ Group.stopping (Group.parent_stop force g) = true.
Proof.
  intros (_ & _ & _ & Hu) Hl. unfold Group.parent_stop. rewrite Hl. assert (Hn : Group.stopping g = false) by (destruct (Group.stopping g) eqn:E; [now rewrite (Hu E) in Hl|done]).
  unfold Group.stop. rewrite Hn. change (if force then _ else _) with (stop_body force g).
  destruct (stop_body_outs force g) as (woken & ms & Htr & Hw & Hal & Hma). destruct (stop_body_fields force g) as (F1 & F2 & F3 & F4 & F5 & F6 & F7).
  set (g' := stop_body force g) in *. set (os := (Scheduled <$> woken) ++ _) in *.
  destruct (scheduled_list woken) as (Q1 & _). destruct (pointers_spec (Group.inst_map g)) as [_ Hp].
  set (t := if force then FORCE_STOP else PEACE_STOP) in *. assert (Ht : is_stop t = true) by (subst t; now destruct force).
  assert (Hsc : Group.scheduled os = woken).
  { subst os. rewrite !Group.scheduled_app, Q1, stop_msgs_quiet. replace (Group.scheduled (Reclaimed <$> ms)) with (@nil Z) by (clear; now induction ms). now rewrite !app_nil_r. }
  assert (Hcm : child_msgs os = (fun id => (id, t)) <$> pointers (Group.inst_map g)).
  { subst os. rewrite !child_msgs_app, (child_msgs_quiet Scheduled), (child_msgs_quiet Reclaimed), app_nil_r by done. apply child_msgs_stop_all. }
  exists os.
  assert (Hact : Group.activate_if_idle g' = g' \/ Group.activate_if_idle g' = Group.activate g') by (unfold Group.activate_if_idle; destruct (_ && _); auto).
  assert (Hst : forall h, h = g' \/ h = Group.activate g' -> Group.trace h = Group.trace g' /\ Group.alive h = Group.alive g' /\ Group.tq h = Group.tq g' /\
    Group.inst_map h = Group.inst_map g' /\ Group.sem h = Group.sem g' /\ Group.stopping h = true /\ resched (Group.sched g') (Group.sched h)).
  { intros h [->| ->]; [split_and!; done || now left|]. unfold Group.activate, Group.activatable. case_bool_decide as E; [|split_and!; done || now left].
    split_and!; try done. now right. }
  destruct (Hst _ Hact) as (S1 & S2 & S3 & S4 & S5 & S6 & S7). set (h := Group.activate_if_idle g') in *.
  split; [|exact S6]. split; cbn [Group.trace Group.alive Group.tq Group.inst_map Group.sem Group.sched Group.listed Group.with_listed]; try congruence; auto.
  - rewrite Hcm. apply Forall_fmap, Forall_forall. intros id Hid. split; [now apply Hp|exact Ht].
  - intros _ _ id Hid. exists t. rewrite Hcm. apply list_elem_of_fmap. exists id. split; [done|now apply Hp].
Qed.

Lemma parent_stop_outs run force (g : group (Sem := Sem)) : Group.live run g ->
  exists os, stop_spec g (Group.parent_stop force g) os /\ (Group.listed g = true \/ Group.stopping g = true -> Group.stopping (Group.parent_stop force g) = true).
Proof.
  intros Hl. destruct (Group.listed g) eqn:E; [destruct (parent_stop_spec run force g Hl E) as (os & H1 & H2); eauto|].
  exists []. unfold Group.parent_stop. rewrite E. split; [apply stop_spec_refl|]. now intros [?|?].
Qed.

Lemma process_message_outs m q (g g' : group (Sem := Sem)) : Group.live true g -> process_message m (Group.with_mailbox q g) = Ok g' ->
  exists os, stop_spec g g' os /\ is_stop (g_type m) = true /\ (Group.listed g = true \/ Group.stopping g = true -> Group.stopping g' = true) /\ Group.sched g' = Group.sched g.
Proof.
  intros Hl E. pose proof (drop_message q g Hl) as Hl2. pose proof (process_message_ok m _ Hl2) as Hok. rewrite E in Hok.
  assert (Hk : forall force, Ok (Group.emit [Reclaimed m] (Group.with_cancel (g_src m, g_pr m) (Group.parent_stop force (Group.with_mailbox q g)))) = Ok g' ->
    exists os, stop_spec g g' os /\ (Group.listed g = true \/ Group.stopping g = true -> Group.stopping g' = true)).
  { intros force [= <-]. destruct (parent_stop_outs true force _ Hl2) as (os & [] & Hs). exists (os ++ [Reclaimed m]). split; [|exact Hs].
    split; cbn [Group.trace Group.emit Group.with_trace] in *; auto; rewrite ?Group.scheduled_app, ?child_msgs_app, ?app_nil_r; try done. change (Group.trace g) with (Group.trace (Group.with_mailbox q g)). now rewrite app_assoc, <-p_trace0. }
  assert (Hsch : Group.sched g' = Group.sched g) by (destruct Hok as (_ & [-> _] & _); now destruct Hl as (_ & [-> _] & _)).
  revert E. unfold process_message, is_stop. destruct (g_type m =? PEACE_STOP); [intros E; destruct (Hk _ E) as (os & H1 & H2); eauto 10|].
  destruct (g_type m =? FORCE_STOP); [intros E; destruct (Hk _ E) as (os & H1 & H2); eauto 10|done].
Qed.

(** ** An object and its parent *)
(** The parent has forgotten the object. *)
Definition unlist (o : obj) : obj := match o with OActor a => OActor (Actor.with_listed false a) | OGroup g => OGroup (Group.with_listed false g) end.
Lemma unlist_live h run (o : obj) : o_live h run o -> o_live h run (unlist o).
Proof.
  destruct o as [a|g]; cbn.
  - intros ([[] ?] & Hi & _). split; [split; [split|]; done|]. split; [exact Hi|done].
  - intros (Hb & Hq & Hi & _). split; [eapply Group.base_same; [..|exact Hb]; done|]. split; [exact Hq|]. split; [exact Hi|done].
Qed.
Lemma unlist_same (o : obj) : o_alive (unlist o) = o_alive o /\ o_tasks (unlist o) = o_tasks o /\ o_kind (unlist o) = o_kind o /\ o_map (unlist o) = o_map o /\
  o_waiting (unlist o) = o_waiting o /\ o_queued (unlist o) = o_queued o /\ o_sched (unlist o) = o_sched o /\ o_listed (unlist o) = false.
Proof. now destruct o. Qed.

(** The trees that differ only in what the parent [rp] knows of its child [id]. *)
Record forgets (id : Z) (rp : list Z) (T T1 : shard) : Prop := {
  f_status : Engine.status (root T1) = Engine.status (root T);
  f_reactor : reactor T1 = reactor T;
  f_alive : forall q, alive_at T1 q = alive_at T q;
  f_tasks : forall q, tasks_at T1 q = tasks_at T q;
  f_waiting : forall q, waiting_at T1 q = waiting_at T q;
  f_lookup : forall q x, lookup_at T1 q x = if decide (x :: q = id :: rp) then Some false else lookup_at T q x;
  f_same : forall q, q <> rp \/ rp = [] -> objs T1 !! q = objs T !! q;
  f_parent : rp <> [] -> exists g g1, objs T !! rp = Some (OGroup g) /\ objs T1 !! rp = Some (OGroup g1) /\
    Group.stop_status g1 = Group.stop_status g /\ Group.listed g1 = Group.listed g /\ Group.mailbox g1 = Group.mailbox g /\ Group.queued g1 = Group.queued g /\ Group.sched g1 = Group.sched g
}.

Lemma forgets_obj id rp T T1 q (o : obj) : forgets id rp T T1 -> objs T !! q = Some o ->
  exists o1, objs T1 !! q = Some o1 /\ o_rest o1 = o_rest o /\ has_stop o1 = has_stop o /\ o_queued o1 = o_queued o /\ o_kind o1 = o_kind o /\ o_sched o1 = o_sched o.
Proof.
  intros F Ho. destruct (decide (q = rp /\ rp <> [])) as [[-> Hrp]|Hn].
  - destruct (f_parent _ _ _ _ F Hrp) as (g & g1 & E & E1 & H1 & H2 & H3 & H4 & H5). assert (o = OGroup g) as -> by congruence. exists (OGroup g1).
    split; [done|]. unfold has_stop. cbn. rewrite H1, H2, H3. done.
  - exists o. rewrite (f_same _ _ _ _ F); [done|]. destruct (decide (q = rp)) as [->|]; [|auto]. right. destruct rp; [done|]. now destruct Hn.
Qed.
Lemma forgets_old id rp T T1 q : forgets id rp T T1 -> is_Some (objs T1 !! q) -> is_Some (objs T !! q).
Proof.
  intros F [o1 Ho]. destruct (decide (q = rp /\ rp <> [])) as [[-> Hrp]|Hn].
  - destruct (f_parent _ _ _ _ F Hrp) as (g & g1 & E & _). eauto.
  - rewrite (f_same _ _ _ _ F) in Ho; [eauto|]. destruct (decide (q = rp)) as [->|]; [|auto]. right. destruct rp; [done|]. now destruct Hn.
Qed.

Lemma unlist_ok c h id rp o (T T1 : shard) :
  consistent c h None T -> objs T !! (id :: rp) = Some o -> forgets id rp T T1 -> Engine.inv (root T1) ->
  (forall g1, rp <> [] -> objs T1 !! rp = Some (OGroup g1) -> Group.live (busy_in c rp) g1) ->
  consistent c h None (set_obj (id :: rp) (unlist o) T1).
Proof.
  intros Ht Ho F Hinv Hlive. pose proof Ht as [H1 H2 H3 H4 H5 H6 H7 H8 H9 H10 H11]. destruct (unlist_same o) as (U1 & U2 & U3 & U4 & U5 & U6 & U7 & U8).
  assert (Hp : objs T1 !! (id :: rp) = Some o) by (rewrite (f_same _ _ _ _ F) by (left; apply not_below); done).
  set (T2 := set_obj (id :: rp) (unlist o) T1).
  assert (Hfld : forall X (f : obj -> X) (d : X) (r : shard -> X) q, f (unlist o) = f o ->
    match q with [] => r T2 | _ => match objs T2 !! q with Some o => f o | None => d end end = match q with [] => r T2 | _ => match objs T1 !! q with Some o => f o | None => d end end).
  { intros X f d r q Hf. destruct q as [|x q]; [done|]. cbn [objs set_obj T2]. destruct (decide (x :: q = id :: rp)) as [E|E];
      [rewrite E, lookup_insert_eq, Hp; exact Hf|now rewrite lookup_insert_ne]. }
  assert (Halive : forall q, alive_at T2 q = alive_at T q) by (intros q; rewrite <-(f_alive _ _ _ _ F); exact (Hfld _ o_alive ∅ (fun T => Engine.alive (root T)) q U1)).
  assert (Htasks : forall q, tasks_at T2 q = tasks_at T q) by (intros q; rewrite <-(f_tasks _ _ _ _ F); exact (Hfld _ o_tasks [] reactor q U2)).
  assert (Hwait : forall q, waiting_at T2 q = waiting_at T q)
    by (intros q; rewrite <-(f_waiting _ _ _ _ F); exact (Hfld _ o_waiting [] (fun T => Group.waiting (Engine.sem (root T))) q U5)).
  assert (Hlook : forall q x, lookup_at T2 q x = if decide (x :: q = id :: rp) then Some false else lookup_at T q x).
  { intros q x. rewrite <-(f_lookup _ _ _ _ F). refine (Hfld _ (fun o => match o with OGroup g => Group.inst_map g !! x | _ => None end) None (fun T => Engine.inst_map (root T) !! x) q _).
    now destruct o. }
  assert (Hold : forall q y, objs T2 !! q = Some y -> exists x, objs T !! q = Some x /\ o_queued y = o_queued x /\ o_kind y = o_kind x /\ o_sched y = o_sched x /\
    (q <> id :: rp -> o_listed y = o_listed x) /\ o_live (hand_in c h q) (busy_in c q) y).
  { intros q y. cbn [objs set_obj T2]. rewrite lookup_insert_Some. intros [[<- <-]|[Hne E]]; [exists o; split_and!; try done; apply unlist_live, H4, Ho|].
    destruct (forgets_old _ _ _ _ q F ltac:(eauto)) as [x Ex]. destruct (forgets_obj _ _ _ _ _ _ F Ex) as (y' & Ey & Er & _ & Q1 & Q2 & Q3).
    assert (y' = y) as -> by congruence. exists x. split_and!; try done; [intros _; now apply rest_listed|].
    destruct (decide (q = rp /\ rp <> [])) as [[-> Hrp]|Hn]; [destruct (f_parent _ _ _ _ F Hrp) as (g & g1 & _ & Eg & _);
      assert (y = OGroup g1) as -> by congruence; apply Hlive; done|].
    rewrite (f_same _ _ _ _ F) in E; [eauto|]. destruct (decide (q = rp)) as [->|]; [|auto]. right. destruct rp; [done|]. now destruct Hn. }
  assert (Hsome : forall q, is_Some (objs T !! q) -> is_Some (objs T2 !! q)).
  { intros q [x Ex]. destruct (forgets_obj _ _ _ _ _ _ F Ex) as (y & Ey & _). cbn [objs set_obj T2]. rewrite lookup_insert_is_Some'. eauto. }
  split; cbn [root reactor set_obj T2]; try done.
  - cbn [objs set_obj T2]. rewrite lookup_insert_ne by done. destruct (objs T1 !! []) eqn:E; [|done]. destruct (forgets_old _ _ _ _ [] F ltac:(eauto)); congruence.
  - intros x q. rewrite Halive, <-H3. split; [intros [y Ey]; destruct (Hold _ _ Ey) as (z & Ez & _); eauto|apply Hsome].
  - intros q y Ey. now destruct (Hold _ _ Ey) as (_ & _ & _ & _ & _ & _ & ?).
  - intros x q y Ey. destruct (Hold _ _ Ey) as (z & Ez & _ & -> & _). eauto.
  - intros x q y Ey. destruct (Hold _ _ Ey) as (z & Ez & -> & _). rewrite Htasks. eauto.
  - intros x Hx. rewrite (f_reactor _ _ _ _ F) in Hx. apply H7 in Hx. change (Engine.alive (root T1)) with (alive_at T1 []). rewrite (f_alive _ _ _ _ F). exact Hx.
  - intros q Hb. now apply Hsome, H8.
  - intros x q y Ey. rewrite Hlook. case_decide as Hd; [|destruct (Hold _ _ Ey) as (z & Ez & _ & _ & _ & Hl & _); rewrite Hl by done; eauto].
    rewrite Hd in Ey. cbn [objs set_obj T2] in Ey. rewrite lookup_insert_eq in Ey. injection Ey as <-. now rewrite U8.
  - intros q. rewrite Hwait. destruct (H10 q) as [Hnd Hw]. split; [done|]. intros x Hx. destruct (Hw x Hx) as (z & Ez & Hz).
    destruct (Hsome _ ltac:(eauto)) as [y Ey]. destruct (Hold _ _ Ey) as (z2 & Ez2 & _ & _ & Hs & _). exists y. split; [done|]. congruence.
  - now rewrite (f_reactor _ _ _ _ F).
Qed.

Lemma forget_ok c h id rp force o (T : shard) :
  consistent c h None T -> objs T !! (id :: rp) = Some o -> o_listed o = true ->
  exists T1, forget id rp force T = Ok T1 /\ forgets id rp T T1 /\ consistent c h None (set_obj (id :: rp) (unlist o) T1).
Proof.
  intros Ht Ho Hl. pose proof (t_listed _ _ _ _ _ Ht _ _ _ Ho) as Hlk. rewrite Hl in Hlk. pose proof (proj1 (t_alive _ _ _ _ _ Ht id rp) ltac:(eauto)) as Hin.
  destruct rp as [|pid rq]; cbn [forget].
  - cbn [lookup_at alive_at] in *. destruct (stop_child_inv id force (root T) (t_engine _ _ _ _ _ Ht) Hin) as (e & E & He). rewrite E. cbn [mbind res_bind].
    unfold Engine.stop_child_actor in E. rewrite Hlk in E. cbn [of_option mbind res_bind] in E. injection E as <-. eexists. split; [reflexivity|].
    assert (F : forgets id [] T (with_root (Engine.with_map (<[id:=false]> (Engine.inst_map (root T))) (Engine.emit [EStopped id force] (root T))) T)).
    { split; try done; intros [|y q]; try done; intros x; [cbn|now rewrite decide_False]. destruct (decide (x = id)) as [->|Hx];
        [now rewrite lookup_insert_eq, decide_True|rewrite lookup_insert_ne, decide_False by congruence; done]. }
    split; [exact F|]. eapply unlist_ok; [exact Ht|exact Ho|exact F|exact He|done].
  - cbn [lookup_at alive_at] in *. destruct (objs T !! (pid :: rq)) as [[a|g]|] eqn:Eg; [done| |done].
    pose proof (t_live _ _ _ _ _ Ht _ _ Eg) as Hlive. destruct (group_stop_child_actor_ok _ id force g Hlive ltac:(eauto)) as (g1 & E & Hg1). rewrite E. cbn [mbind res_bind].
    unfold Group.stop_child_actor in E. rewrite Hlk in E. injection E as <-. eexists. split; [reflexivity|].
    assert (F : forgets id (pid :: rq) T (set_obj (pid :: rq) (OGroup (Group.with_map (<[id:=false]> (Group.inst_map g)) (Group.emit [Stopped id force] g))) T)).
    { assert (Hfld : forall X (f : obj -> X) (d : X) (r : shard -> X) q g', f (OGroup g') = f (OGroup g) ->
        match q with [] => r T | _ => match objs (set_obj (pid :: rq) (OGroup g') T) !! q with Some o => f o | None => d end end = match q with [] => r T | _ => match objs T !! q with Some o => f o | None => d end end).
      { intros X f d r q g' Hf. destruct q as [|x q]; [done|]. cbn [objs set_obj]. destruct (decide (x :: q = pid :: rq)) as [E|E];
          [rewrite E, lookup_insert_eq, Eg; exact Hf|now rewrite lookup_insert_ne]. }
      split; try done.
      - intros q. now apply (Hfld _ o_alive ∅ (fun T => Engine.alive (root T)) q).
      - intros q. now apply (Hfld _ o_tasks [] reactor q).
      - intros q. now apply (Hfld _ o_waiting [] (fun T => Group.waiting (Engine.sem (root T))) q).
      - intros [|y q] x; [now rewrite decide_False|]. unfold lookup_at. cbn [objs set_obj]. destruct (decide (y :: q = pid :: rq)) as [E|E].
        + rewrite E, lookup_insert_eq, Eg. cbn. destruct (decide (x = id)) as [->|Hx]; [now rewrite lookup_insert_eq, decide_True|rewrite lookup_insert_ne, decide_False by congruence; done].
        + rewrite lookup_insert_ne, decide_False by congruence. done.
      - intros q [Hq|]; [|done]. cbn [objs set_obj]. now rewrite lookup_insert_ne.
      - intros _. eexists g, _. split; [done|]. cbn [objs set_obj]. rewrite lookup_insert_eq. split; [reflexivity|]. done. }
    split; [exact F|]. eapply unlist_ok; [exact Ht|exact Ho|exact F|apply Ht|]. intros g1 _ Eg1. cbn [objs set_obj] in Eg1. rewrite lookup_insert_eq in Eg1. injection Eg1 as <-. exact Hg1.
Qed.

(** ** One step of an object *)
(** Everything the tree needs to know of what an object does; [hand], [hand']: what it has in hand. *)
Record op (run : bool) (hand hand' : list amsg) (o o' : obj) : Prop := {
  op_live : o_live hand' run o';
  op_alive : o_alive o' = o_alive o;
  op_tasks : o_tasks o' = o_tasks o;
  op_kind : o_kind o' = o_kind o;
  op_map : o_map o' = o_map o;
  op_wait : o_waiting o = Group.scheduled (o_outs o o') ++ o_waiting o';
  op_msgs : Forall (fun p => o_map o !! fst p = Some true /\ is_stop (snd p) = true) (child_msgs (o_outs o o'));
  op_all : o_stopping o = false -> o_stopping o' = true -> forall id, o_map o !! id = Some true -> exists t, (id, t) ∈ child_msgs (o_outs o o');
  op_adv : advance hand hand' o o';
  op_sched : resched (o_sched o) (o_sched o')
}.

Lemma op_queued run h0 h h' o o' : o_live h0 run o -> op run h h' o o' -> o_queued o' = o_queued o \/ o_queued o' = 1%nat /\ o_queued o = 0%nat.
Proof.
  intros Hl Ho. rewrite (o_queued_sched _ _ _ Hl), (o_queued_sched _ _ _ (op_live _ _ _ _ _ Ho)). destruct run; [auto|].
  destruct (op_sched _ _ _ _ _ Ho) as [->|[-> ->]]; [auto|]. right. done.
Qed.

(** Everything but the object [p], which is now [o'], is as calm as it was. *)
Record updated (p : list Z) (o' : obj) (os : list out) (T T' : shard) : Prop := {
  u_status : Engine.status (root T') = Engine.status (root T);
  u_obj : forall q x, q <> p -> objs T !! q = Some x -> exists x', objs T' !! q = Some x' /\ o_rest x' = o_rest x /\ (has_stop x = true -> has_stop x' = true);
  u_self : exists x', objs T' !! p = Some x' /\ o_rest x' = o_rest o' /\ (has_stop o' = true -> has_stop x' = true);
  u_old : forall q, is_Some (objs T' !! q) -> is_Some (objs T !! q);
  u_told : Forall (told_at p T') (child_msgs os)
}.

Lemma child_exists c h id pid rq o (T : shard) : consistent c h None T -> objs T !! (pid :: rq) = Some o -> o_map o !! id = Some true -> is_Some (objs T !! (id :: pid :: rq)).
Proof.
  intros Ht Ho Hm. apply (t_alive _ _ _ _ _ Ht). cbn [alive_at]. rewrite Ho. pose proof (t_live _ _ _ _ _ Ht _ _ Ho) as Hl.
  destruct o as [a|g]; [done|]. cbn in *. now apply Hl.
Qed.

Lemma put_back_ok c h h' id rp o o' os (T : shard) :
  consistent c h None T -> objs T !! (id :: rp) = Some o -> o_live (hand_in c h' (id :: rp)) (busy_in c (id :: rp)) o' ->
  o_alive o' = o_alive o -> o_tasks o' = o_tasks o -> o_kind o' = o_kind o -> o_map o' = o_map o -> o_listed o' = o_listed o ->
  o_waiting o = Group.scheduled os ++ o_waiting o' -> Forall (fun p => o_map o !! fst p = Some true /\ is_stop (snd p) = true) (child_msgs os) ->
  resched (o_sched o) (o_sched o') -> (o_queued o' = o_queued o \/ o_queued o' = 1%nat /\ o_queued o = 0%nat) ->
  (forall q, q <> id :: rp -> hand_in c h' q = hand_in c h q) ->
  exists T', (T ← settle id rp o o' T; do_outs (id :: rp) os T) = Ok T' /\ consistent c h' None T' /\ updated (id :: rp) o' os T T'.
Proof.
  intros Ht Ho Hl La Lt Lk Lm Ll Lw Hmsgs Hs Hq Hh. set (p := id :: rp) in *.
  destruct (settle_to c c h h' id rp o o' T Ht Ho Hl) as (T1 & E & Ht1 & Hst & Ho1 & Hk); [split; eauto|auto| |done|].
  { intros Hi. left. destruct Hs as [->|[Hs _]]; [done|congruence]. }
  rewrite E. cbn [mbind res_bind]. destruct (t_waiting _ _ _ _ _ Ht p) as [Hnd Hwt].
  assert (Hwp : waiting_at T p = Group.scheduled os ++ o_waiting o') by (cbn [waiting_at p]; fold p; now rewrite Ho).
  rewrite Hwp in Hnd, Hwt. apply NoDup_app in Hnd as (Hnd & Hdis & _).
  assert (Hch : forall x y, objs T !! (x :: p) = Some y -> exists y', objs T1 !! (x :: p) = Some y' /\ (o_sched y = INITIALIZED -> o_sched y' = INITIALIZED)).
  { intros x y Ey. assert (Ey' : objs (set_obj p o' T) !! (x :: p) = Some y) by (cbn [objs set_obj]; rewrite lookup_insert_ne; [done|intros E2; symmetry in E2; now apply not_below in E2]).
    destruct (proj2 (stable_some _ _ (x :: p) Hst) ltac:(eauto)) as [y' Ey2]. exists y'. split; [done|]. intros Hy. eapply Hk; eassumption. }
  destruct (do_outs_ok c h' p os T1 Ht1 Hnd) as (T' & E' & Ht' & Hc & Hto).
  - apply Forall_forall. intros x Hx. split.
    + unfold waiting_at, p. rewrite Ho1. auto.
    + destruct (Hwt x ltac:(set_solver)) as (y & Ey & Hy). destruct (Hch _ _ Ey) as (y' & ? & ?). eauto.
  - eapply Forall_impl; [exact Hmsgs|]. intros [x t] [Hx Htp]. split; [|done]. cbn [fst] in *. destruct (child_exists _ _ x id rp o T Ht Ho Hx) as [y Ey].
    destruct (Hch _ _ Ey) as (y' & ? & _). eauto.
  - exists T'. split; [exact E'|]. split; [exact Ht'|]. pose proof (calm_trans _ _ _ (stable_calm _ _ Hst) Hc) as [C1 C2 C3]. split.
    + now rewrite C1.
    + intros q x Hq' Ex. apply C2. cbn [objs set_obj]. now rewrite lookup_insert_ne.
    + apply C2. cbn [objs set_obj]. apply lookup_insert_eq.
    + intros q Hsm. apply C3 in Hsm. cbn [objs set_obj] in Hsm. rewrite lookup_insert_is_Some' in Hsm. destruct Hsm as [<-|?]; [eauto|done].
    + exact Hto.
Qed.

Lemma update_ok c h h' id rp o o' (T : shard) :
  consistent c h None T -> objs T !! (id :: rp) = Some o -> op (busy_in c (id :: rp)) (hand_in c h (id :: rp)) (hand_in c h' (id :: rp)) o o' ->
  (forall q, q <> id :: rp -> hand_in c h' q = hand_in c h q) ->
  exists T', update id rp o o' T = Ok T' /\ consistent c h' None T' /\ updated (id :: rp) o' (o_outs o o') T T'.
Proof.
  intros Ht Ho Hop Hh. pose proof (t_live _ _ _ _ _ Ht _ _ Ho) as Hl. pose proof (op_queued _ _ _ _ _ _ Hl Hop) as Hq. destruct Hop as [O1 O2 O3 O4 O5 O6 O7 O8 O9 O10].
  unfold update. destruct (o_listed o && negb (o_listed o')) eqn:Eu.
  - apply andb_prop in Eu as [El El']. apply negb_true_iff in El'. destruct (forget_ok c h id rp (o_force o') o T Ht Ho El) as (T1 & -> & F & Ht1). cbn [mbind res_bind].
    destruct (unlist_same o) as (U1 & U2 & U3 & U4 & U5 & U6 & U7 & U8).
    assert (Hset : forall T2 : shard, settle id rp o o' T2 = settle id rp (unlist o) o' (set_obj (id :: rp) (unlist o) T2)).
    { intros T2. unfold settle. rewrite U6. replace (set_obj (id :: rp) o' (set_obj (id :: rp) (unlist o) T2)) with (set_obj (id :: rp) o' T2); [done|].
      unfold set_obj. cbn. now rewrite insert_insert_eq. }
    rewrite Hset. set (T2 := set_obj (id :: rp) (unlist o) T1) in *.
    destruct (put_back_ok c h h' id rp (unlist o) o' (o_outs o o') T2 Ht1) as (T' & E & Ht' & [V1 V2 V3 V4 V5]); try congruence; try done.
    { cbn [objs set_obj T2]. apply lookup_insert_eq. }
    all: try (rewrite ?U4, ?U6, ?U7; done).
    exists T'. split; [exact E|]. split; [exact Ht'|]. split; [rewrite V1; apply F| |exact V3| |exact V5].
    + intros q x Hne Ex. destruct (forgets_obj _ _ _ _ _ _ F Ex) as (x1 & Ex1 & R1 & S1 & _). destruct (V2 q x1 Hne) as (x' & Ex' & R' & S').
      { cbn [objs set_obj T2]. now rewrite lookup_insert_ne. }
      exists x'. split; [done|]. split; [congruence|]. rewrite <-S1. exact S'.
    + intros q Hsm. apply V4 in Hsm. cbn [objs set_obj T2] in Hsm. rewrite lookup_insert_is_Some' in Hsm. destruct Hsm as [<-|Hsm]; [eauto|]. now apply (forgets_old _ _ _ _ q F).
  - cbn [mbind res_bind]. apply put_back_ok with h; try done. destruct (o_listed o) eqn:El; cbn [andb] in Eu; [now apply negb_false_iff in Eu|]. now apply O9.
Qed.

(** ** The stop protocol *)
(** What the parent has forgotten is stopping; the child of a stopping group stops too or was told to. *)
Definition protocol (c : option (list Z)) (h : list amsg) (T : shard) : Prop :=
  (forall rp o, objs T !! rp = Some o -> o_listed o = false -> o_stopping o = true) /\
  (forall id pid rq g o, objs T !! (pid :: rq) = Some g -> o_stopping g = true -> objs T !! (id :: pid :: rq) = Some o -> told (hand_in c h (id :: pid :: rq)) o = true).

Lemma rest_told h o o' : o_rest o' = o_rest o -> (has_stop o = true -> has_stop o' = true) -> told h o = true -> told h o' = true.
Proof. intros Hr Hs. unfold told. rewrite (rest_stopping _ _ Hr), !orb_true_iff. tauto. Qed.

Lemma protocol_updated c h h' p run o o' (T T' : shard) :
  consistent c h None T -> protocol c h T -> objs T !! p = Some o -> op run (hand_in c h p) (hand_in c h' p) o o' -> updated p o' (o_outs o o') T T' ->
  (forall q, q <> p -> hand_in c h' q = hand_in c h q) -> protocol c h' T'.
Proof.
  intros Ht [Pu Pt] Ho Hop [V1 V2 [o2 (Eo2 & R2 & S2)] V4 V5] Hh. pose proof (op_adv _ _ _ _ _ Hop) as [A1 A2 A3 A4]. split.
  - intros q x Ex Hl. destruct (decide (q = p)) as [->|Hq].
    + assert (x = o2) as -> by congruence. rewrite (rest_stopping _ _ R2). rewrite (rest_listed _ _ R2) in Hl. destruct (A3 Hl); eauto.
    + destruct (V4 q ltac:(eauto)) as [y Ey]. destruct (V2 q y Hq Ey) as (x' & Ex' & R & _). assert (x' = x) as -> by congruence.
      rewrite (rest_stopping _ _ R). rewrite (rest_listed _ _ R) in Hl. eauto.
  - intros id pid rq g' x' Eg' Hg' Ex'. set (P0 := pid :: rq) in *. destruct (V4 (id :: P0) ltac:(eauto)) as [x Ex].
    assert (Hx : told (hand_in c h (id :: P0)) x = true -> told (hand_in c h' (id :: P0)) x' = true).
    { intros Hto. destruct (decide (id :: P0 = p)) as [Ep|Hne].
      - rewrite Ep in *. assert (x' = o2) as -> by congruence. assert (x = o) as -> by congruence. eapply rest_told; [exact R2|exact S2|]. now apply A4.
      - destruct (V2 _ x Hne Ex) as (y & Ey & R & S). assert (y = x') as -> by congruence. rewrite Hh by done. eapply rest_told; eassumption. }
    destruct (decide (P0 = p)) as [Ep|Hne].
    + subst p. assert (g' = o2) as -> by congruence. rewrite (rest_stopping _ _ R2) in Hg'. destruct (o_stopping o) eqn:Eo; [apply Hx; eauto|].
      pose proof (t_listed _ _ _ _ _ Ht _ _ _ Ex) as Hlk. unfold lookup_at in Hlk. cbn [P0] in Hlk. fold P0 in Hlk.
      assert (Hmap : o_map o !! id = Some (o_listed x)) by (rewrite Ho in Hlk; destruct o; [discriminate|exact Hlk]).
      assert (Hcn : P0 <> id :: P0) by (intros E; symmetry in E; now apply not_below in E).
      destruct (o_listed x) eqn:El.
      * destruct (op_all _ _ _ _ _ Hop Eo Hg' id Hmap) as (t & Hin). pose proof (proj1 (Forall_forall _ _) V5 _ Hin) as (y & Ey & Hy). cbn [fst] in Ey.
        assert (y = x') as -> by congruence. unfold told. now rewrite Hy, orb_true_r.
      * apply Hx. unfold told. now rewrite (Pu _ _ Ex El).
    + destruct (V4 P0 ltac:(eauto)) as [g Eg]. destruct (V2 _ g Hne Eg) as (y & Ey & R & S). assert (y = g') as -> by congruence. rewrite (rest_stopping _ _ R) in Hg'. apply Hx. eauto.
Qed.

(** *** Of an actor, of a group *)
Lemma actor_op run h h' a a' : Actor.live h' run a' -> onward a a' ->
  (Actor.stopping a' = false -> existsb (fun m => is_stop (m_type m)) h = true -> existsb (fun m => is_stop (m_type m)) h' = true) -> op run h h' (OActor a) (OActor a').
Proof. intros Hl Ho Hh. split; try done; [now apply actor_advance|apply Ho]. Qed.

Lemma group_op run h g g' os : Group.live run g' -> stop_spec g g' os -> (Group.stopping g' = true \/ g' = g) -> op run h h (OGroup g) (OGroup g').
Proof.
  intros Hl [P1 P2 P3 P4 P5 P6 P7 P8 P9 P10 P11] Hm. assert (Hos : o_outs (OGroup g : obj) (OGroup g') = os) by (unfold o_outs; cbn; rewrite P1; apply drop_app_length).
  split; rewrite ?Hos; try done; cbn; try congruence. split; try done. destruct Hm as [Hm| ->]; [|done]. intros _. unfold told. cbn. now rewrite Hm.
Qed.
End TreeSteps.
