(* ===== verification/Shutdown.v ===== *)
(** * A shard runs, and stops

    Whatever happens on a shard, in whatever order, the tree of its actors ([Tree], [TreeRun]) stays consistent
    and no step fails; a shard that was stopped has no object left once it is at rest. *)
From S2P Require Import Prelude.
From S2P Require Import Bytes Address Message PromiseManager.
From S2P Require Import Actor TaskQueue Group Engine Tree TreeRun TreeSteps.

Section Shutdown.
Context {D Q P Sem : Type} {SM : Semaphore Sem} {HO : HeapOps Z} {HL : HeapLaws Z}.
Abbreviation emsg := (emsg (D := D) (Q := Q)).
Abbreviation amsg := (Actor.msg (P := emsg)).
Abbreviation actor := (actor (P := emsg)).
Abbreviation obj := (obj (D := D) (Q := Q) (Sem := Sem)).
Abbreviation shard := (shard (D := D) (Q := Q) (P := P) (Sem := Sem)).
Abbreviation phase := (phase (D := D) (Q := Q)).
Abbreviation state := (state (D := D) (Q := Q) (P := P) (Sem := Sem)).
Abbreviation engine := (engine (D := D) (Q := Q) (P := P) (Sem := Sem)).
Variable promise_set_value : P -> emsg -> P.
Variable promise_set_exception : P -> ex -> P.
Variable this_gsid : Z.
Variable is_local : Z -> bool.
Variable canceled_text : bytes.
Variable kind_of : Z -> kind.
Variable do_work : emsg -> Actor.work (P := emsg).
Abbreviation consistent := (consistent kind_of).
Abbreviation route := (route promise_set_value promise_set_exception this_gsid is_local canceled_text kind_of).
Abbreviation receive := (receive promise_set_value promise_set_exception this_gsid is_local canceled_text kind_of).
Abbreviation actor_step := (actor_step do_work).
Abbreviation run_step := (run_step do_work).
Abbreviation step := (step promise_set_value promise_set_exception this_gsid is_local canceled_text kind_of do_work).

(** ** The invariant *)
(** The concurrency limit is not reached while an actor takes messages. *)
Definition phase_ok (p : phase) (o : obj) : Prop :=
  match o, p with
  | OActor a, Mailbox | OActor a, Handling _ => cur_concurrency a < max_concurrency a
  | OActor _, Tasks => True
  | OActor _, Returned => False
  | OGroup _, Handling _ => False
  | OGroup _, _ => True
  end.
Lemma phase_rest p o o' : o_rest o' = o_rest o -> phase_ok p o -> phase_ok p o'.
Proof. destruct o, o'; cbn; intros H; try discriminate; [|done]. injection H as _ _ H1 H2 _ _. now rewrite H1, H2. Qed.

Record inv (s : state) : Prop := {
  v_tree : consistent (cur s) (inhand s) None (tree s);
  v_protocol : protocol (cur s) (inhand s) (tree s);
  v_frame : match frame s with None => True | Some (rp, p) => exists o, objs (tree s) !! rp = Some o /\ phase_ok p o end
}.

Lemma step_object c h h' id rp o o' (T : shard) :
  consistent c h None T -> protocol c h T -> objs T !! (id :: rp) = Some o ->
  op (busy_in c (id :: rp)) (hand_in c h (id :: rp)) (hand_in c h' (id :: rp)) o o' -> (forall q, q <> id :: rp -> hand_in c h' q = hand_in c h q) ->
  exists T', update id rp o o' T = Ok T' /\ consistent c h' None T' /\ protocol c h' T' /\ updated (id :: rp) o' (o_outs o o') T T'.
Proof.
  intros Ht Hp Ho Hop Hh. destruct (update_ok c h h' id rp o o' T Ht Ho Hop Hh) as (T' & E & Ht' & Hu). exists T'. split; [done|]. split; [done|]. split; [|done].
  exact (protocol_updated c h h' (id :: rp) _ o o' T T' Ht Hp Ho Hop Hu Hh).
Qed.

(** *** The stack of running objects *)
Lemma hand_other p (h h' : list amsg) q : q <> p -> hand_in (Some p) h' q = hand_in (Some p) h q.
Proof. intros Hq. unfold hand_in. now rewrite !decide_False. Qed.
Lemma hand_self p (h : list amsg) : hand_in (Some p) h p = h.
Proof. unfold hand_in. now rewrite decide_True. Qed.
Lemma hand_nil c q : hand_in c ([] : list amsg) q = [].
Proof. unfold hand_in. destruct c as [p|]; [|done]. now destruct (decide _). Qed.
Lemma busy_self id rp : busy_in (Some (id :: rp)) (id :: rp) = true.
Proof. apply bool_decide_eq_true. apply suffix_nil || done. Qed.
Definition caller (rp : list Z) : option (list Z) := match rp with [] => None | _ => Some rp end.
Lemma busy_caller id rp q : q <> id :: rp -> busy_in (caller rp) q = busy_in (Some (id :: rp)) q.
Proof.
  intros Hq. destruct q as [|x q]; [done|]. unfold busy_in, caller. destruct rp as [|y rp]; symmetry.
  - apply bool_decide_eq_false. intros Hs. apply suffix_cons_inv in Hs as [|Hs]; [congruence|]. apply suffix_nil_inv in Hs. done.
  - apply bool_decide_ext. split; [|apply suffix_cons_r]. intros Hs. now apply suffix_cons_inv in Hs as [|Hs].
Qed.
Lemma busy_caller_self id rp : busy_in (caller rp) (id :: rp) = false.
Proof.
  unfold busy_in, caller. destruct rp as [|y rp]; cbn; [done|]. apply bool_decide_eq_false. intros Hs. apply suffix_length in Hs. cbn in Hs. lia.
Qed.
Lemma busy_parent_self id x rp : busy_in (Some (id :: x :: rp)) (x :: rp) = true.
Proof. apply bool_decide_eq_true. now apply suffix_cons_r. Qed.

(** *** The end of a run *)
Lemma finish_cases (o : obj) : o_live [] true o -> if o_deleted (o_finish o)
  then o_alive o = ∅ /\ o_listed o = false /\ o_stopping o = true
  else o_live [] false (o_finish o) /\ core (o_finish o) = core o /\ o_tasks (o_finish o) = o_tasks o.
Proof.
  destruct o as [a|g]; cbn [o_finish o_deleted o_live]; intros Hl.
  - pose proof (Actor.finish_ok a Hl) as H. destruct Hl as ([[] _] & _ & Hu). unfold Actor.finish in *. destruct (_ && _ && _) eqn:E.
    + cbn. apply andb_prop in E as [E _]. apply andb_prop in E as [E _]. split; [done|]. split; [now apply Hu|exact E].
    + cbv zeta in *. set (b := Actor.set_activatable a) in *. assert (Hb : Actor.deleted b = false) by apply b_live. unfold Actor.activate in *.
      destruct (_ || _); [destruct (Actor.activatable b)|]; cbn [Actor.deleted Actor.with_queued Actor.with_sched] in *; rewrite Hb;
        (destruct H as [H|H]; [split; [exact H|done]|]); exfalso; pose proof (Actor.d_deleted _ H) as Hd; subst b; cbn in Hd, Hb; congruence.
  - pose proof (group_finish_ok g Hl) as H. destruct Hl as ([] & _ & _ & Hu). unfold Group.finish in *. destruct (_ && _ && _ && _) eqn:E.
    + cbn. apply andb_prop in E as [E _]. apply andb_prop in E as [E _]. apply andb_prop in E as [E En]. apply Z.eqb_eq in En.
      split; [|split; [now apply Hu|exact E]]. rewrite b_num in En. apply leibniz_equiv, size_empty_iff. lia.
    + cbv zeta in *. set (b := Group.set_activatable g) in *. assert (Hb : Group.deleted b = false) by apply b_live. unfold Group.activate in *.
      destruct (_ || _); [destruct (Group.activatable b)|]; cbn [Group.deleted Group.with_queued Group.with_sched] in *; rewrite Hb;
        (destruct H as [H|H]; [split; [exact H|done]|]); exfalso; pose proof (Group.d_deleted _ H) as Hd; subst b; cbn in Hd, Hb; congruence.
Qed.
Lemma protocol_calm c c' (T T' : shard) : protocol c [] T -> calm T T' -> protocol c' [] T'.
Proof.
  intros [Pu Pt] [_ C2 C3]. split.
  - intros q o' Eo Hl. destruct (C3 q ltac:(eauto)) as [o Ho]. destruct (C2 _ _ Ho) as (o2 & Eo2 & R & _). assert (o2 = o') as -> by congruence.
    rewrite (rest_stopping _ _ R). rewrite (rest_listed _ _ R) in Hl. eauto.
  - intros id pid rq g' o' Eg Hg Eo. destruct (C3 (pid :: rq) ltac:(eauto)) as [g Hg1]. destruct (C2 _ _ Hg1) as (g2 & Eg2 & R & _). assert (g2 = g') as -> by congruence.
    destruct (C3 (id :: pid :: rq) ltac:(eauto)) as [o Ho]. destruct (C2 _ _ Ho) as (o2 & Eo2 & R2 & S2). assert (o2 = o') as -> by congruence.
    rewrite hand_nil. eapply rest_told; [exact R2|exact S2|]. rewrite (rest_stopping _ _ R) in Hg. rewrite <-(hand_nil c (id :: pid :: rq)). eauto.
Qed.

Lemma parent_group c h id pid rq (T : shard) : consistent c h None T -> is_Some (objs T !! (id :: pid :: rq)) -> exists g, objs T !! (pid :: rq) = Some (OGroup g).
Proof.
  intros Ht Ho. apply (t_alive _ _ _ _ _ Ht) in Ho. cbn [alive_at] in Ho. destruct (objs T !! (pid :: rq)) as [[a|g]|]; [|eauto|]; now apply not_elem_of_empty in Ho.
Qed.
Lemma back_ok s rp (T : shard) : consistent (caller rp) [] None T -> protocol (caller rp) [] T ->
  (rp <> [] -> exists g, objs T !! rp = Some (OGroup g)) -> inv (mk_state T (back rp) s).
Proof.
  intros Ht Hp Hg. assert (Hi : inhand (mk_state T (back rp) s) = []) by (now destruct rp).
  assert (Hc : cur (mk_state T (back rp) s) = caller rp) by (now destruct rp). split; rewrite ?Hi, ?Hc; [exact Ht|exact Hp|].
  cbn [frame]. destruct rp as [|x rp]; [done|]. cbn [back]. destruct (Hg ltac:(done)) as [g Eg]. exists (OGroup g). split; [done|exact I].
Qed.

(** The object returns to its caller, without being deleted. *)
Lemma return_ok id rp o o' s (T : shard) :
  consistent (Some (id :: rp)) [] None T -> protocol (Some (id :: rp)) [] T -> objs T !! (id :: rp) = Some o ->
  o_live [] false o' -> core o' = core o -> o_tasks o' = o_tasks o ->
  exists T', settle id rp o o' T = Ok T' /\ inv (mk_state T' (back rp) s).
Proof.
  intros Ht Hp Ho Hl Hc Htk. pose proof (t_live _ _ _ _ _ Ht _ _ Ho) as Hlo. rewrite busy_self, hand_nil in Hlo.
  destruct (settle_to (Some (id :: rp)) (caller rp) [] [] id rp o o' T Ht Ho) as (T' & E & Ht' & Hst & _).
  - now rewrite hand_nil, busy_caller_self.
  - now apply core_like.
  - intros q Hq. rewrite !hand_nil. split; [now apply busy_caller|done].
  - rewrite (o_running_sched _ _ Hlo). discriminate.
  - rewrite (o_queued_sched _ _ _ Hlo), (o_queued_sched _ _ _ Hl). destruct (decide _); auto.
  - exists T'. split; [done|]. destruct (core_calm _ _ Hc) as [Hr Hs].
    assert (Hcalm : calm T T') by (eapply calm_trans; [apply (set_calm (id :: rp) o o'); [done|done|congruence]|now apply stable_calm]).
    apply back_ok; [done|eapply protocol_calm; eassumption|]. intros Hrp. destruct rp as [|x rq]; [done|].
    apply (parent_group _ _ id _ _ _ Ht'). apply (calm_some _ _ _ Hcalm). eauto.
Qed.

(** *** The end of an object *)
(** The trees that differ in that the object [id] below [rp] is gone; [woken]: the children that waited for its turn. *)
Record removed (id : Z) (rp : list Z) (woken : list Z) (T T1 : shard) : Prop := {
  r_status : Engine.status (root T1) = Engine.status (root T);
  r_reactor : reactor T1 = reactor T;
  r_alive : forall q, q <> id :: rp -> alive_at T1 q = if decide (q = rp) then alive_at T q ∖ {[id]} else alive_at T q;
  r_tasks : forall q, q <> id :: rp -> tasks_at T1 q = tasks_at T q;
  r_waiting : forall q, q <> id :: rp -> waiting_at T q = (if decide (q = rp) then woken else []) ++ waiting_at T1 q;
  r_lookup : forall q x, q <> id :: rp -> lookup_at T1 q x = lookup_at T q x;
  r_gone : objs T1 !! (id :: rp) = None;
  r_same : forall q, q <> id :: rp -> q <> rp \/ rp = [] -> objs T1 !! q = objs T !! q;
  r_parent : rp <> [] -> exists g g1, objs T !! rp = Some (OGroup g) /\ objs T1 !! rp = Some (OGroup g1) /\
    Group.stop_status g1 = Group.stop_status g /\ Group.listed g1 = Group.listed g /\ Group.mailbox g1 = Group.mailbox g /\ Group.queued g1 = Group.queued g /\
    Group.sched g1 = Group.sched g
}.
Lemma removed_obj id rp w T T1 q (o : obj) : removed id rp w T T1 -> q <> id :: rp -> objs T !! q = Some o ->
  exists o1, objs T1 !! q = Some o1 /\ o_rest o1 = o_rest o /\ has_stop o1 = has_stop o /\ o_queued o1 = o_queued o /\ o_kind o1 = o_kind o /\ o_sched o1 = o_sched o.
Proof.
  intros F Hq Ho. destruct (decide (q = rp /\ rp <> [])) as [[-> Hrp]|Hn].
  - destruct (r_parent _ _ _ _ _ F Hrp) as (g & g1 & E & E1 & H1 & H2 & H3 & H4 & H5). assert (o = OGroup g) as -> by congruence. exists (OGroup g1).
    split; [done|]. unfold has_stop. cbn. rewrite H1, H2, H3. done.
  - exists o. rewrite (r_same _ _ _ _ _ F); [done|done|]. destruct (decide (q = rp)) as [->|]; [|auto]. right. destruct rp; [done|]. now destruct Hn.
Qed.
Lemma removed_old id rp w T T1 q (o1 : obj) : removed id rp w T T1 -> objs T1 !! q = Some o1 -> q <> id :: rp /\ is_Some (objs T !! q).
Proof.
  intros F Ho. assert (Hq : q <> id :: rp) by (intros ->; rewrite (r_gone _ _ _ _ _ F) in Ho; done). split; [done|].
  destruct (decide (q = rp /\ rp <> [])) as [[-> Hrp]|Hn].
  - destruct (r_parent _ _ _ _ _ F Hrp) as (g & g1 & E & _). eauto.
  - rewrite (r_same _ _ _ _ _ F) in Ho; [eauto|done|]. destruct (decide (q = rp)) as [->|]; [|auto]. right. destruct rp; [done|]. now destruct Hn.
Qed.
Lemma removed_ok id rp w o (T T1 : shard) :
  consistent (Some (id :: rp)) [] None T -> objs T !! (id :: rp) = Some o -> o_alive o = ∅ -> removed id rp w T T1 -> Engine.inv (root T1) ->
  (forall g1, rp <> [] -> objs T1 !! rp = Some (OGroup g1) -> Group.live true g1) ->
  consistent (caller rp) [] None T1.
Proof.
  intros Ht Ho Hal F Hinv Hlive. pose proof Ht as [H1 H2 H3 H4 H5 H6 H7 H8 H9 H10 H11]. set (p := id :: rp) in *.
  pose proof (r_gone _ _ _ _ _ F) as Hg0. change (id :: rp) with p in Hg0.
  assert (Hlo : o_live [] true o) by (rewrite <-(hand_nil (Some p) p), <-(busy_self id rp); now apply H4).
  assert (Hnt : id ∉ tasks_at T rp).
  { intros Hin. pose proof (H6 _ _ _ Ho) as Hq. rewrite (o_queued_sched _ _ _ Hlo), decide_True in Hq by done. lia. }
  assert (Hnone : forall x, objs T !! (x :: p) = None).
  { intros x. destruct (objs T !! (x :: p)) eqn:E; [|done]. pose proof (proj1 (H3 x p) ltac:(eauto)) as Hin. unfold alive_at, p in Hin. change (id :: rp) with p in Hin.
    rewrite Ho, Hal in Hin. now apply not_elem_of_empty in Hin. }
  assert (Hgone : alive_at T1 p = ∅ /\ tasks_at T1 p = [] /\ waiting_at T1 p = []) by (unfold alive_at, tasks_at, waiting_at, p in *; now rewrite Hg0).
  assert (Hob : forall q y, objs T1 !! q = Some y -> exists x, q <> p /\ objs T !! q = Some x /\ o_rest y = o_rest x /\ o_queued y = o_queued x /\ o_kind y = o_kind x /\ o_sched y = o_sched x /\
    (forall z q', q = z :: q' -> q' <> p)).
  { intros q y Ey. destruct (removed_old _ _ _ _ _ _ _ F Ey) as [Hq [x Ex]]. destruct (removed_obj _ _ _ _ _ _ _ F Hq Ex) as (y' & Ey' & R & _ & Q1 & Q2 & Q3).
    assert (y' = y) as -> by congruence. exists x. split_and!; try done. intros z q' -> ->. rewrite Hnone in Ex. done. }
  assert (Hsome : forall q, q <> p -> is_Some (objs T !! q) -> is_Some (objs T1 !! q)) by (intros q Hq [x Ex]; destruct (removed_obj _ _ _ _ _ _ _ F Hq Ex) as (y & ? & _); eauto).
  split; try done.
  - destruct (objs T1 !! []) eqn:E; [|done]. destruct (Hob _ _ E) as (x & _ & Ex & _). congruence.
  - intros x q. destruct (decide (q = p)) as [->|Hq].
    { rewrite (proj1 Hgone). split; [|intros Hin; now apply not_elem_of_empty in Hin]. intros [y Ey]. destruct (Hob _ _ Ey) as (z & _ & _ & _ & _ & _ & _ & Hz). now destruct (Hz x p). }
    rewrite (r_alive _ _ _ _ _ F q Hq). destruct (decide (x :: q = p)) as [E|E].
    { injection E as -> ->. rewrite decide_True by done. change (id :: rp) with p. rewrite Hg0. split; [now intros [? ?]|set_solver]. }
    assert (Hx : x ∈ (if decide (q = rp) then alive_at T q ∖ {[id]} else alive_at T q) <-> x ∈ alive_at T q).
    { case_decide as Hd; [|done]. rewrite elem_of_difference, elem_of_singleton. split; [tauto|]. intros ?. split; [done|]. intros ->. now subst q. }
    rewrite Hx, <-H3. split; [intros [y Ey]; destruct (Hob _ _ Ey) as (z & _ & Ez & _); eauto|now apply Hsome].
  - intros q y Ey. destruct (Hob _ _ Ey) as (x & Hq & Ex & _). rewrite hand_nil, (busy_caller id) by done.
    destruct (decide (q = rp /\ rp <> [])) as [[-> Hrp]|Hn].
    + destruct (r_parent _ _ _ _ _ F Hrp) as (g & g1 & _ & Eg & _). assert (y = OGroup g1) as -> by congruence. destruct rp as [|r rp']; [done|].
      rewrite busy_parent_self. now apply Hlive.
    + rewrite (r_same _ _ _ _ _ F) in Ey; [rewrite <-(hand_nil (Some p) q); now apply H4|done|]. destruct (decide (q = rp)) as [->|]; [|auto]. right. destruct rp; [done|]. now destruct Hn.
  - intros x q y Ey. destruct (Hob _ _ Ey) as (z & _ & Ez & _ & _ & -> & _). eauto.
  - intros x q y Ey. destruct (Hob _ _ Ey) as (z & _ & Ez & _ & -> & _ & _ & Hz). rewrite (r_tasks _ _ _ _ _ F) by eauto. eauto.
  - intros x Hx. rewrite (r_reactor _ _ _ _ _ F) in Hx. change (Engine.alive (root T1)) with (alive_at T1 []). rewrite (r_alive _ _ _ _ _ F) by done.
    case_decide as Hd; [|now apply H7]. rewrite elem_of_difference, elem_of_singleton. split; [now apply H7|]. intros ->. now subst rp.
  - intros q Hb. assert (Hq : q <> p) by (intros ->; unfold p in Hb; now rewrite busy_caller_self in Hb). apply Hsome; [done|]. apply H8. rewrite (busy_caller id) in Hb by done. exact Hb.
  - intros x q y Ey. destruct (Hob _ _ Ey) as (z & _ & Ez & R & _ & _ & _ & Hz). rewrite (r_lookup _ _ _ _ _ F) by eauto. rewrite (rest_listed _ _ R). eauto.
  - intros q. destruct (decide (q = p)) as [->|Hq]; [destruct Hgone as (_ & _ & ->); split; [constructor|intros x Hx; now apply not_elem_of_nil in Hx]|].
    destruct (H10 q) as [Hnd Hw]. rewrite (r_waiting _ _ _ _ _ F q Hq) in Hnd, Hw. apply NoDup_app in Hnd as (_ & _ & Hnd). split; [done|].
    intros x Hx. destruct (Hw x ltac:(set_solver)) as (z & Ez & Hz). assert (Hne : x :: q <> p).
    { intros E. rewrite E in Ez. assert (z = o) as -> by congruence. rewrite (o_running_sched _ _ Hlo) in Hz. done. }
    destruct (removed_obj _ _ _ _ _ _ _ F Hne Ez) as (y & Ey & _ & _ & _ & _ & Hs). exists y. split; [done|congruence].
  - now rewrite (r_reactor _ _ _ _ _ F).
Qed.

Lemma removed_protocol id rp w c c' (T T1 : shard) : removed id rp w T T1 -> protocol c [] T -> protocol c' [] T1.
Proof.
  intros F [Pu Pt]. assert (Hob : forall q y, objs T1 !! q = Some y -> exists x, objs T !! q = Some x /\ o_rest y = o_rest x /\ has_stop y = has_stop x).
  { intros q y Ey. destruct (removed_old _ _ _ _ _ _ _ F Ey) as [Hq [x Ex]]. destruct (removed_obj _ _ _ _ _ _ _ F Hq Ex) as (y' & Ey' & R & S & _).
    assert (y' = y) as -> by congruence. eauto. }
  split.
  - intros q y Ey Hl. destruct (Hob _ _ Ey) as (x & Ex & R & _). rewrite (rest_stopping _ _ R). rewrite (rest_listed _ _ R) in Hl. eauto.
  - intros x pid rq g1 y Eg Hg Ey. destruct (Hob _ _ Eg) as (g & Eg0 & Rg & _). destruct (Hob _ _ Ey) as (z & Ez & R & S). rewrite (rest_stopping _ _ Rg) in Hg.
    rewrite hand_nil. eapply rest_told; [exact R|congruence|]. rewrite <-(hand_nil c (x :: pid :: rq)). eauto.
Qed.
Lemma calm_group (T T' : shard) q g : calm T T' -> objs T !! q = Some (OGroup g) -> exists g', objs T' !! q = Some (OGroup g').
Proof. intros Hc Hg. destruct (c_obj _ _ Hc _ _ Hg) as ([a|g'] & E & R & _); [discriminate|eauto]. Qed.

(** What the parent does when its child notifies it. *)
Lemma notify_group A (g : group (Sem := Sem)) : exists woken, let g' := Group.notify_child_stopped (Group.with_alive A g) in
  Group.trace g' = Group.trace g ++ (Scheduled <$> woken) /\ Group.waiting (Group.sem g) = woken ++ Group.waiting (Group.sem g') /\ Group.alive g' = A /\
  Group.inst_map g' = Group.inst_map g /\ Group.tq g' = Group.tq g /\ Group.stop_status g' = Group.stop_status g /\ Group.listed g' = Group.listed g /\
  Group.mailbox g' = Group.mailbox g /\ Group.queued g' = Group.queued g /\ Group.sched g' = Group.sched g.
Proof.
  exists (snd (sem_signal (Group.sem g))). unfold Group.notify_child_stopped. cbv zeta. change (Group.sem (Group.with_num _ _)) with (Group.sem g).
  pose proof (sem_signal_spec (Group.sem g)) as Hs. destruct (sem_signal (Group.sem g)) as [s w]. done.
Qed.
Lemma notify_engine A (e : engine) : exists woken os, let e' := Engine.notify_child_stopped (Engine.with_alive A e) in
  Engine.trace e' = Engine.trace e ++ os ++ (EScheduled <$> woken) /\ (os = [] \/ os = [EBarrier]) /\
  Group.waiting (Engine.sem e) = woken ++ Group.waiting (Engine.sem e') /\ Engine.alive e' = A /\ Engine.inst_map e' = Engine.inst_map e /\ Engine.status e' = Engine.status e.
Proof.
  unfold Engine.notify_child_stopped. cbv zeta. destruct (_ && _) eqn:E; cbn; pose proof (sem_signal_spec (Engine.sem e)) as Hs; destruct (sem_signal (Engine.sem e)) as [s w]; exists w.
  - exists [EBarrier]. cbn. rewrite <-app_assoc. auto 10.
  - exists []. auto 10.
Qed.
Lemma do_eouts_scheduled w : forall T : shard, do_eouts (EScheduled <$> w) T = do_outs [] (Scheduled <$> w) T.
Proof. induction w as [|x w IH]; intros T; [done|]. cbn. destruct (schedule_at x [] T); cbn; [apply IH|done]. Qed.
Lemma do_eouts_app os1 os2 : forall T : shard, do_eouts (os1 ++ os2) T = (T ← do_eouts os1 T; do_eouts os2 T).
Proof. induction os1 as [|x os1 IH]; intros T; [done|]. cbn. destruct (do_eout x T); cbn; [apply IH|done]. Qed.

(** The children that waited for the turn of the one that is gone are scheduled. *)
Lemma wake_up_ok id rp w o s (T T1 : shard) :
  consistent (Some (id :: rp)) [] None T -> protocol (Some (id :: rp)) [] T -> objs T !! (id :: rp) = Some o -> o_alive o = ∅ -> removed id rp w T T1 -> Engine.inv (root T1) ->
  (forall g1, rp <> [] -> objs T1 !! rp = Some (OGroup g1) -> Group.live true g1) ->
  exists T', do_outs rp (Scheduled <$> w) T1 = Ok T' /\ inv (mk_state T' (back rp) s).
Proof.
  intros Ht Hp Ho Hal F Hinv Hlive. pose proof (removed_ok _ _ _ _ _ _ Ht Ho Hal F Hinv Hlive) as Ht1. destruct (scheduled_list w) as (Q1 & _).
  assert (Hlo : o_live [] true o) by (rewrite <-(hand_nil (Some (id :: rp)) (id :: rp)), <-(busy_self id rp); now apply Ht).
  assert (Hrp : rp <> id :: rp) by (intros E; symmetry in E; now apply not_below in E).
  destruct (t_waiting _ _ _ _ _ Ht rp) as [Hnd Hw]. rewrite (r_waiting _ _ _ _ _ F rp Hrp), decide_True in Hnd, Hw by done. apply NoDup_app in Hnd as (Hnd & Hdis & _).
  destruct (do_outs_ok (caller rp) [] rp (Scheduled <$> w) T1 Ht1) as (T' & E & Ht' & Hc & _).
  - now rewrite Q1.
  - rewrite Q1. apply Forall_forall. intros x Hx. split; [auto|]. destruct (Hw x ltac:(set_solver)) as (z & Ez & Hz).
    assert (Hne : x :: rp <> id :: rp) by (intros [= ->]; assert (z = o) as -> by congruence; rewrite (o_running_sched _ _ Hlo) in Hz; done).
    destruct (removed_obj _ _ _ _ _ _ _ F Hne Ez) as (y & Ey & _ & _ & _ & _ & Hs). exists y. split; [done|congruence].
  - rewrite (child_msgs_quiet Scheduled) by done. constructor.
  - exists T'. split; [done|]. apply back_ok; [done|eapply protocol_calm; [|exact Hc]; eapply (removed_protocol _ _ _ _ (caller rp)); eassumption|].
    intros Hne. destruct (r_parent _ _ _ _ _ F Hne) as (g & g1 & _ & Eg & _). exact (calm_group _ _ _ _ Hc Eg).
Qed.

Lemma leave_ok id rp o s (T : shard) :
  consistent (Some (id :: rp)) [] None T -> protocol (Some (id :: rp)) [] T -> objs T !! (id :: rp) = Some o -> o_alive o = ∅ -> o_listed o = false ->
  exists T', leave id rp T = Ok T' /\ inv (mk_state T' (back rp) s).
Proof.
  intros Ht Hp Ho Hal Hl. unfold leave. cbv zeta. set (T0 := mk_shard (root T) (delete (id :: rp) (objs T)) (reactor T)).
  pose proof (t_listed _ _ _ _ _ Ht _ _ _ Ho) as Hlk. rewrite Hl in Hlk. pose proof (proj1 (t_alive _ _ _ _ _ Ht id rp) ltac:(eauto)) as Hin.
  assert (Hlo : o_live [] true o) by (rewrite <-(hand_nil (Some (id :: rp)) (id :: rp)), <-(busy_self id rp); now apply Ht).
  assert (Hnt : id ∉ tasks_at T rp).
  { intros Hi. pose proof (t_queued _ _ _ _ _ Ht _ _ _ Ho) as Hq. rewrite (o_queued_sched _ _ _ Hlo), decide_True in Hq by done. lia. }
  destruct rp as [|pid rq].
  - cbn [lookup_at alive_at tasks_at] in *. unfold update_root. change (root T0) with (root T).
    destruct (notify_engine (Engine.alive (root T) ∖ {[id]}) (root T)) as (w & os & Htr & Hos & Hw & Ha & Hm & Hs). set (e' := Engine.notify_child_stopped _) in *.
    rewrite Htr, drop_app_length, do_eouts_app. replace (do_eouts os (with_root e' T0)) with (Ok (with_root e' T0)) by (now destruct Hos as [-> | ->]). cbn [mbind res_bind].
    rewrite do_eouts_scheduled. apply (wake_up_ok id [] w o s T); try done.
    + split; try done; cbn.
      * intros [|x q] Hq; [rewrite decide_True by done; exact Ha|rewrite decide_False by done]. unfold alive_at. cbn. now rewrite lookup_delete_ne.
      * intros [|x q] Hq; [done|]. unfold tasks_at. cbn. now rewrite lookup_delete_ne.
      * intros [|x q] Hq; [rewrite decide_True by done; exact Hw|rewrite decide_False by done]. unfold waiting_at. cbn. now rewrite lookup_delete_ne.
      * intros [|y q] x Hq; [cbn; now rewrite Hm|]. unfold lookup_at. cbn. now rewrite lookup_delete_ne.
      * now rewrite lookup_delete_eq.
      * intros q Hq _. now rewrite lookup_delete_ne.
    + apply notify_inv; [apply Ht|done|done].
  - cbn [lookup_at alive_at tasks_at] in *. assert (Hne : pid :: rq <> id :: pid :: rq) by (intros E; symmetry in E; now apply not_below in E).
    destruct (objs T !! (pid :: rq)) as [[a|g]|] eqn:Eg; [done| |done]. assert (Eg0 : objs T0 !! (pid :: rq) = Some (OGroup g)) by (cbn; now rewrite lookup_delete_ne). rewrite Eg0.
    pose proof (t_live _ _ _ _ _ Ht _ _ Eg) as Hg. rewrite busy_parent_self in Hg. pose proof (notify_ok g id Hg Hin Hlk Hnt) as Hg1.
    destruct (notify_group (Group.alive g ∖ {[id]}) g) as (w & Htr & Hw & Ha & Hm & Hq & Hst & Hli & Hmb & Hqu & Hsc). set (g1 := Group.notify_child_stopped _) in *.
    replace (o_outs (OGroup g : obj) (OGroup g1)) with (Scheduled <$> w) by (unfold o_outs; cbn; now rewrite Htr, drop_app_length).
    assert (Hfld : forall X (f : obj -> X) (d : X) (r : shard -> X) q, q <> id :: pid :: rq -> r (set_obj (pid :: rq) (OGroup g1) T0) = r T ->
      match q with [] => r (set_obj (pid :: rq) (OGroup g1) T0) | _ => match objs (set_obj (pid :: rq) (OGroup g1) T0) !! q with Some o => f o | None => d end end =
      if decide (q = pid :: rq) then f (OGroup g1) else match q with [] => r T | _ => match objs T !! q with Some o => f o | None => d end end).
    { intros X f d r q Hq' Hr. case_decide as Hd; [subst q; cbn [objs set_obj]; now rewrite lookup_insert_eq|]. destruct q as [|x q]; [exact Hr|].
      cbn [objs set_obj T0]. rewrite lookup_insert_ne by done. cbn. now rewrite lookup_delete_ne. }
    apply (wake_up_ok id (pid :: rq) w o s T); try done.
    + split; try done.
      * intros q Hq'. etrans; [now apply (Hfld _ o_alive ∅ (fun T => Engine.alive (root T)) q)|]. case_decide as Hd; [|done]. subst q. cbn. now rewrite Ha, Eg.
      * intros q Hq'. etrans; [now apply (Hfld _ o_tasks [] reactor q)|]. case_decide as Hd; [|done]. subst q. cbn. now rewrite Hq, Eg.
      * intros q Hq'. unfold waiting_at at 2. rewrite (Hfld _ o_waiting [] (fun T => Group.waiting (Engine.sem (root T))) q) by done. case_decide as Hd; [|done]. subst q. cbn. now rewrite Eg.
      * intros q x Hq'. etrans; [now apply (Hfld _ (fun o => match o with OGroup g => Group.inst_map g !! x | _ => None end) None (fun T => Engine.inst_map (root T) !! x) q)|].
        case_decide as Hd; [|done]. subst q. cbn. now rewrite Hm, Eg.
      * cbn. rewrite lookup_insert_ne by done. now rewrite lookup_delete_eq.
      * intros q Hq1 [Hq2|]; [|done]. cbn. rewrite lookup_insert_ne by done. now rewrite lookup_delete_ne.
      * intros _. exists g, g1. split; [done|]. cbn [objs set_obj]. rewrite lookup_insert_eq. done.
    + apply Ht.
    + intros g2 _ E. cbn [objs set_obj] in E. rewrite lookup_insert_eq in E. injection E as <-. exact Hg1.
Qed.

Lemma final_ok id rp o (s : state) :
  consistent (Some (id :: rp)) [] None (tree s) -> protocol (Some (id :: rp)) [] (tree s) -> objs (tree s) !! (id :: rp) = Some o ->
  exists s', final id rp o s = Ok s' /\ inv s'.
Proof.
  intros Ht Hp Ho. unfold final. cbv zeta. assert (Hlo : o_live [] true o) by (rewrite <-(hand_nil (Some (id :: rp)) (id :: rp)), <-(busy_self id rp); now apply Ht).
  pose proof (finish_cases o Hlo) as Hf. set (rs := responses s ++ _). destruct (o_deleted (o_finish o)).
  - destruct Hf as (Hal & Hl & _). destruct (leave_ok id rp o rs (tree s) Ht Hp Ho Hal Hl) as (T' & -> & Hi). cbn [mbind res_bind]. eauto.
  - destruct Hf as (Hl & Hc & Htk). destruct (return_ok id rp o (o_finish o) rs (tree s) Ht Hp Ho Hl Hc Htk) as (T' & -> & Hi). cbn [mbind res_bind]. eauto.
Qed.

(** *** The beginning of a run *)
Lemma started_ok (o : obj) : o_live [] false o -> o_queued o = 1%nat ->
  o_live [] true (started o) /\ like o (started o) /\ o_queued (started o) = 0%nat /\ o_sched o = SCHEDULED /\
  o_stopping (started o) = o_stopping o /\ has_stop (started o) = has_stop o /\ phase_ok (first_phase o) (started o).
Proof.
  intros Hl Hq. assert (Hs : o_sched o = SCHEDULED) by (rewrite (o_queued_sched _ _ _ Hl) in Hq; now destruct (decide _)).
  destruct o as [a|g]; cbn [o_live o_queued o_sched] in *.
  - destruct Hl as ([Hb _] & _ & Hu). set (b := Actor.with_queued (pred (Actor.queued a)) a).
    assert (Hob : Actor.ok [] true b) by (split; [destruct Hb; split; done|]; split; [exact Hs|cbn; now rewrite Hq]).
    unfold started. fold b. cbn [o_live]. destruct (force_stopping b).
    + split; [apply Actor.live_running; [now apply cancel_tasks_ok|exact Hu]|]. split; [split; try done; now exists []|]. split; [cbn; now rewrite Hq|done].
    + split; [now apply Actor.live_running|]. split; [split; try done; now exists []|]. split; [cbn; now rewrite Hq|done].
  - destruct Hl as (Hb & _ & _ & Hu). split; [apply running_live; [eapply Group.base_same; [..|exact Hb]; done|split; [exact Hs|cbn; now rewrite Hq]|exact Hu]|].
    split; [split; try done; now exists []|]. split; [cbn; now rewrite Hq|done].
Qed.

Lemma start_ok id rp (T : shard) s :
  consistent (caller rp) [] (Some (id :: rp)) T -> protocol (caller rp) [] T -> is_Some (objs T !! (id :: rp)) -> exists s', start (id :: rp) T s = Ok s' /\ inv s'.
Proof.
  intros Ht Hp [o Ho]. unfold start. rewrite Ho. cbn [of_option mbind res_bind]. eexists. split; [reflexivity|].
  pose proof (t_live _ _ _ _ _ Ht _ _ Ho) as Hl. rewrite hand_nil, busy_caller_self in Hl. pose proof (t_queued _ _ _ _ _ Ht _ _ _ Ho) as Hq.
  rewrite (decide_True (P := Some (id :: rp) = _)) in Hq by done.
  assert (Hq1 : o_queued o = 1%nat) by (rewrite (o_queued_sched _ _ _ Hl) in *; repeat case_decide; lia). clear Hq.
  destruct (started_ok o Hl Hq1) as (Hl' & Hlk & Hq0 & Hs & Hst & Hhs & Hph). set (p := id :: rp) in *.
  assert (Hi : forall (s0 : state) (T0 : shard), inhand (with_frame (Some (p, first_phase o)) T0 s0) = []) by (intros; now destruct o).
  assert (Hset : forall q, objs (set_obj p (started o) T) !! q = if decide (q = p) then Some (started o) else objs T !! q).
  { intros q. cbn [objs set_obj]. case_decide as Hd; [rewrite Hd; apply lookup_insert_eq|now rewrite lookup_insert_ne]. }
  split.
  - rewrite Hi. eapply (change_ok kind_of (caller rp) []); try eassumption.
    + cbn [cur with_frame frame fmap option_fmap option_map fst]. rewrite hand_nil. unfold p. now rewrite busy_self.
    + intros q Hne. rewrite !hand_nil. split; [|done]. symmetry. now apply (busy_caller id).
    + rewrite Hs. discriminate.
    + now right.
    + now left.
    + cbn. lia.
  - rewrite Hi. destruct Hp as [Pu Pt]. split; cbn [tree with_frame].
    + intros q x. rewrite Hset. case_decide as Hd; [|eauto]. intros [= <-]. rewrite Hst, (l_listed _ _ Hlk). eauto.
    + intros x pid rq g y. rewrite !Hset, hand_nil. intros Eg Hg Ey. pose proof (Pt x pid rq) as Hpt. rewrite hand_nil in Hpt.
      assert (Hgx : exists g0, objs T !! (pid :: rq) = Some g0 /\ o_stopping g0 = true) by (destruct (decide (pid :: rq = p)) as [Hd|Hd]; [rewrite Hd; exists o; split; [done|congruence]|eauto]).
      destruct Hgx as (g0 & Eg0 & Hg0). clear Eg. case_decide as Hd; [injection Ey as <-; rewrite Hd in Hpt|eauto]. unfold told in *. rewrite Hst, Hhs. eauto.
  - cbn [frame with_frame tree]. exists (started o). rewrite Hset, decide_True by done. done.
Qed.


(** *** A task is taken *)
Lemma pop_live x q (g : group (Sem := Sem)) : Group.live true g -> Permutation (queued_tasks (Group.tq g)) (x :: queued_tasks q) -> tq_ok q -> Group.live true (Group.with_tq q g).
Proof.
  intros ([] & Hq & _ & Hu) Hp Ho. apply running_live; [|exact Hq|exact Hu]. assert (Hnd : NoDup (x :: queued_tasks q)) by (now rewrite <-Hp).
  apply NoDup_cons in Hnd as [_ Hnd]. split; cbn; try done. intros id Hid. apply b_members. rewrite Hp. now right.
Qed.

Lemma take_task_ok x q id rp g (T : shard) :
  consistent (Some (id :: rp)) [] None T -> protocol (Some (id :: rp)) [] T -> objs T !! (id :: rp) = Some (OGroup g) ->
  Permutation (queued_tasks (Group.tq g)) (x :: queued_tasks q) -> tq_ok q ->
  let T1 := set_obj (id :: rp) (OGroup (Group.with_tq q g)) T in
  consistent (Some (id :: rp)) [] (Some (x :: id :: rp)) T1 /\ protocol (Some (id :: rp)) [] T1 /\ is_Some (objs T1 !! (x :: id :: rp)).
Proof.
  intros Ht Hp Eg Hperm Hok T1. pose proof Ht as [H1 H2 H3 H4 H5 H6 H7 H8 H9 H10 H11]. pose proof (H4 _ _ Eg) as Hg. rewrite busy_self, hand_nil in Hg. cbn [o_live] in Hg.
  pose proof (pop_live x q g Hg Hperm Hok) as Hg'. set (p := id :: rp) in *. set (g' := Group.with_tq q g) in *.
  assert (Hnd : NoDup (x :: queued_tasks q)) by (rewrite <-Hperm; apply Hg). apply NoDup_cons in Hnd as [Hnx Hnd].
  assert (Hset : forall r, objs T1 !! r = if decide (r = p) then Some (OGroup g') else objs T !! r).
  { intros r. unfold T1. cbn [objs set_obj]. destruct (decide (r = p)) as [->|Hd]; [apply lookup_insert_eq|now rewrite lookup_insert_ne]. }
  assert (Hst : stable T T1).
  { split; [done|]. intros r. rewrite Hset. destruct (decide (r = p)) as [->|]; [|done]. now rewrite Eg. }
  assert (Hsome : is_Some (objs T !! (x :: p))).
  { apply H3. unfold p at 1. cbn [alive_at]. change (id :: rp) with p. rewrite Eg. cbn. apply (b_members _ (proj1 Hg)). rewrite Hperm. now left. }
  assert (Hpx : x :: p <> p) by apply not_below.
  split; [|split; [|now apply (stable_some _ _ _ Hst)]].
  - split; try done.
    + rewrite Hset, decide_False by done. done.
    + intros y r. rewrite (stable_alive _ _ _ Hst), <-H3. now apply stable_some.
    + intros r y. rewrite Hset. destruct (decide (r = p)) as [->|]; [|eauto]. intros [= <-]. unfold p. rewrite busy_self, hand_nil. exact Hg'.
    + intros y r z. rewrite Hset. destruct (decide (y :: r = p)) as [E|]; [|eauto]. intros [= <-]. injection E as -> ->. exact (H5 _ _ _ Eg).
    + intros y r z. rewrite Hset. intros Ez. assert (Hz : exists z0, objs T !! (y :: r) = Some z0 /\ o_queued z = o_queued z0)
        by (destruct (decide (y :: r = p)) as [E|]; [injection Ez as <-; rewrite E; eexists; split; [exact Eg|done]|eauto]).
      destruct Hz as (z0 & Ez0 & ->). clear Ez. rewrite (H6 _ _ _ Ez0), (decide_False (P := None = _)) by done. destruct (decide (r = p)) as [->|Hr].
      * assert (Hts : tasks_at T1 p = queued_tasks q /\ tasks_at T p = queued_tasks (Group.tq g)).
        { unfold tasks_at, p. change (id :: rp) with p. rewrite Hset, decide_True, Eg by done. done. }
        destruct Hts as [-> ->]. destruct (decide (y = x)) as [->|Hy].
        -- rewrite decide_True, (decide_False (P := x ∈ queued_tasks q)), decide_True by (done || (rewrite Hperm; now left)). done.
        -- rewrite (decide_False (P := Some (x :: p) = _)) by congruence. f_equal.
           destruct (decide (y ∈ queued_tasks q)) as [Hin|Hin]; [rewrite decide_True by (rewrite Hperm; now right)|rewrite decide_False by (rewrite Hperm; intros Hc; apply elem_of_cons in Hc as [?|?]; done)]; done.
      * rewrite (decide_False (P := Some (x :: p) = _)) by congruence. f_equal. destruct r as [|w r]; [done|]. replace (tasks_at T1 (w :: r)) with (tasks_at T (w :: r)); [done|]. unfold tasks_at. rewrite Hset. now rewrite decide_False.
    + intros r Hb. apply (stable_some _ _ _ Hst). auto.
    + exact (stable_listed _ _ Hst H9).
    + apply (stable_waits _ _ Hst); [|exact H10]. intros r y z Ey. rewrite Hset. destruct (decide (r = p)) as [->|]; [|congruence]. intros [= <-].
      rewrite Eg in Ey. injection Ey as <-. done.
  - eapply protocol_calm; [exact Hp|]. now apply stable_calm.
Qed.

Lemma pop_reactor_ok id r (T : shard) : consistent None [] None T -> protocol None [] T -> reactor T = id :: r ->
  let T1 := mk_shard (root T) (objs T) r in consistent None [] (Some [id]) T1 /\ protocol None [] T1 /\ is_Some (objs T1 !! [id]).
Proof.
  intros Ht Hp Er T1. pose proof Ht as [H1 H2 H3 H4 H5 H6 H7 H8 H9 H10 H11]. rewrite Er in *. apply NoDup_cons in H11 as [Hn H11].
  split; [|split; [exact Hp|apply (H3 id []), H7; now left]]. split; try done.
  - intros x q o Eo. cbn [objs T1] in Eo. rewrite (H6 _ _ _ Eo), (decide_False (P := None = _)) by done. destruct q as [|y q].
    + cbn [tasks_at reactor T1]. rewrite Er. destruct (decide (x = id)) as [->|Hx].
      * rewrite decide_True, (decide_False (P := id ∈ r)), decide_True by (done || now left). done.
      * rewrite (decide_False (P := Some [id] = _)) by congruence. f_equal. destruct (decide (x ∈ r)); [rewrite decide_True by (now right)|rewrite decide_False by (intros Hc; apply elem_of_cons in Hc as [?|?]; done)]; done.
    + rewrite (decide_False (P := Some [id] = _)) by congruence. done.
  - intros x Hx. apply H7. now right.
Qed.

(** *** The steps of a run *)
Lemma next_ok id rp h o o' yield ph (s : state) :
  consistent (Some (id :: rp)) h None (tree s) -> protocol (Some (id :: rp)) h (tree s) -> objs (tree s) !! (id :: rp) = Some o ->
  op true h [] o o' -> (yield = false -> phase_ok ph o') -> (forall m, ph <> Handling m) ->
  exists s', next id rp o o' yield ph s = Ok s' /\ inv s'.
Proof.
  intros Ht Hp Ho Hop Hph Hnh. destruct (step_object (Some (id :: rp)) h [] id rp o o' (tree s) Ht Hp Ho) as (T' & E & Ht' & Hp' & Hu).
  - now rewrite busy_self, !hand_self.
  - intros q Hq. now apply hand_other.
  - unfold next. rewrite E. cbn [mbind res_bind]. destruct (u_self _ _ _ _ _ Hu) as (o2 & Eo2 & R2 & _). destruct yield.
    + rewrite Eo2. cbn [of_option mbind res_bind]. now apply final_ok.
    + eexists. split; [reflexivity|]. assert (Hi : inhand (with_frame (Some (id :: rp, ph)) T' s) = []) by (destruct ph; try done; now destruct (Hnh m)).
      split; [now rewrite Hi|now rewrite Hi|]. cbn. exists o2. split; [done|]. eapply phase_rest; [exact R2|auto].
Qed.

Definition bad_message (ph : phase) (o : obj) : Prop :=
  match ph, o with
  | Handling m, _ => known_type (m_type m) = false
  | Mailbox, OGroup g => exists m q, Group.mailbox g = m :: q /\ is_stop (g_type m) = false
  | _, _ => False
  end.

Lemma hand_set id rp m a q (T : shard) :
  consistent (Some (id :: rp)) [] None T -> protocol (Some (id :: rp)) [] T -> objs T !! (id :: rp) = Some (OActor a) -> Actor.mailbox a = m :: q ->
  let a' := begin m (Actor.with_mailbox q a) in
  consistent (Some (id :: rp)) [m] None (set_obj (id :: rp) (OActor a') T) /\ protocol (Some (id :: rp)) [m] (set_obj (id :: rp) (OActor a') T).
Proof.
  intros Ht Hp Ho Em a'. set (p := id :: rp) in *. pose proof (t_live _ _ _ _ _ Ht _ _ Ho) as Hl. rewrite hand_nil in Hl. unfold p in Hl. rewrite busy_self in Hl. cbn [o_live] in Hl.
  assert (Hl' : Actor.live [m] true a') by (pose proof (take_message m q a Hl Em); unfold a', begin; now destruct (_ =? _)).
  assert (Hf : Actor.stop_status a' = Actor.stop_status a /\ Actor.listed a' = Actor.listed a /\ Actor.mailbox a' = q /\ Actor.sched a' = Actor.sched a /\ Actor.queued a' = Actor.queued a /\
    cur_concurrency a' = cur_concurrency a /\ max_concurrency a' = max_concurrency a /\ Actor.tasks a' = Actor.tasks a /\ Actor.flying a' = Actor.flying a)
    by (unfold a', begin; destruct (_ =? _); done).
  destruct Hf as (F1 & F2 & F3 & F4 & F5 & F6 & F7 & F8 & F9).
  assert (Hop : op true (hand_in (Some p) [] p) (hand_in (Some p) [m] p) (OActor a) (OActor a')).
  { rewrite !hand_self. split; try done; [|left; exact F4]. split; cbn; rewrite ?F2, ?(stopping_eq _ _ F1); auto.
    unfold told, has_stop. cbn. rewrite (stopping_eq _ _ F1), Em, F3. cbn. rewrite !orb_false_r, !orb_true_iff. tauto. }
  split.
  - eapply (change_ok kind_of (Some p) []); try eassumption.
    + rewrite hand_self. unfold p. now rewrite busy_self.
    + split; try done. now exists [].
    + intros r Hr. split; [done|now apply hand_other].
    + left. cbn in *. congruence.
    + now left.
    + now left.
    + cbn. lia.
  - eapply (protocol_updated (Some p) [] [m] p true (OActor a) (OActor a') T); try eassumption; [|intros r Hr; now apply hand_other].
    split; try done; cbn [objs set_obj].
    + intros r x Hr Ex. rewrite lookup_insert_ne by done. eauto.
    + rewrite lookup_insert_eq. eauto.
    + intros r Hs. rewrite lookup_insert_is_Some' in Hs. destruct Hs as [<-|?]; eauto.
Qed.

Lemma actor_step_ok id rp ph a yield (s : state) :
  inv s -> frame s = Some (id :: rp, ph) -> objs (tree s) !! (id :: rp) = Some (OActor a) ->
  match actor_step id rp ph a yield s with Ok s' => inv s' | Fault f => f = AssertFail /\ bad_message ph (OActor a) end.
Proof.
  intros [Ht Hp Hf] Ef Ho. unfold cur, inhand in Ht, Hp. rewrite Ef in Ht, Hp, Hf. cbn [fmap option_fmap option_map fst] in *. destruct Hf as (o & Eo & Hph).
  assert (o = OActor a) as -> by congruence. pose proof (t_live _ _ _ _ _ Ht _ _ Ho) as Hl. rewrite hand_self, busy_self in Hl. cbn [o_live] in Hl.
  pose proof (proj1 (proj1 Hl)) as Hb.
  destruct ph as [| | |m]; cbn [actor_step]; [| |done|].
  - destruct (Actor.tasks a) as [|t q] eqn:Et.
    + destruct (Z.eqb_spec (cur_concurrency a) (max_concurrency a)) as [Hc|Hc].
      * destruct (return_ok id rp (OActor a) (OActor (Actor.set_activatable a)) (responses s) (tree s) Ht Hp Ho) as (T' & -> & Hi); try done.
        destruct Hl as ([[] [Hs Hq]] & _ & Hu). split; [split; [split; done|exact Hq]|]. split; [|exact Hu].
        intros _. unfold Actor.set_activatable. cbn. split; [done|]. split; [now right|]. lia.
      * cbn. split; [exact Ht|exact Hp|]. cbn. exists (OActor a). split; [done|]. cbn. destruct Hb. lia.
    + pose proof (run_task_live t q a Hl Et) as [H1 _]. pose proof (run_task_onward t q a) as Hw. destruct (run_task t (Actor.with_tasks q a)) as [b st]. cbn [fst] in *.
      destruct (stop_if_ok [] true st b H1) as (b' & E & H2 & _). rewrite E. cbn [mbind res_bind]. apply stop_if_onward in E.
      destruct (next_ok id rp [] (OActor a) (OActor b') yield Tasks s Ht Hp Ho) as (s' & -> & Hi); try done.
      apply actor_op; [done|eapply onward_trans; eassumption|done].
  - destruct (Actor.mailbox a) as [|m q] eqn:Em.
    + destruct (final_ok id rp (OActor a) s Ht Hp Ho) as (s' & -> & Hi). done.
    + destruct (hand_set id rp m a q (tree s) Ht Hp Ho Em) as [Ht' Hp']. split; [exact Ht'|exact Hp'|].
      cbn. rewrite lookup_insert_eq. eexists. split; [reflexivity|]. cbn in *. unfold begin. now destruct (_ =? _).
  - pose proof (complete_ok do_work m a Hl Hph) as Hc. pose proof (complete_onward do_work m a) as Hw. destruct (complete do_work m a) as [[b full]|f]; cbn [mbind res_bind]; [|done].
    destruct Hc as (H1 & H2 & H3). destruct (Hw _ _ eq_refl) as [Hw1 Hw2].
    destruct (next_ok id rp [m] (OActor a) (OActor b) (full || yield) Mailbox s Ht Hp Ho) as (s' & -> & Hi); try done.
    + apply actor_op; [done|done|]. intros Hs. cbn [existsb]. rewrite orb_false_r. intros Hm. rewrite Hw2 in Hs; [done|done|].
      destruct (Actor.listed a) eqn:El; [now left|right]. exact (proj1 Hp _ _ Ho El).
    + intros Hy. apply orb_false_iff in Hy as [-> _]. cbn. auto.
Qed.

Lemma group_step_ok id rp ph g yield (s : state) :
  inv s -> frame s = Some (id :: rp, ph) -> objs (tree s) !! (id :: rp) = Some (OGroup g) ->
  match group_step id rp ph g yield s with Ok s' => inv s' | Fault f => f = AssertFail /\ bad_message ph (OGroup g : obj) end.
Proof.
  intros [Ht Hp Hf] Ef Ho. unfold cur in Ht, Hp. rewrite Ef in Ht, Hp, Hf. cbn [fmap option_fmap option_map fst] in *. destruct Hf as (o & Eo & Hph).
  assert (o = OGroup g) as -> by congruence. assert (Hh : inhand s = []) by (unfold inhand; rewrite Ef; now destruct ph). rewrite Hh in *.
  pose proof (t_live _ _ _ _ _ Ht _ _ Ho) as Hl. rewrite busy_self in Hl. cbn [o_live] in Hl.
  assert (Hgo : forall p', (forall m, p' <> Handling m) -> inv (with_frame (Some (id :: rp, p')) (tree s) s)).
  { intros p' Hn. assert (Hi : inhand (with_frame (Some (id :: rp, p')) (tree s) s) = []) by (destruct p'; try done; now destruct (Hn m)).
    split; [now rewrite Hi|now rewrite Hi|]. cbn. exists (OGroup g). split; [done|]. destruct p'; try done; now destruct (Hn m). }
  destruct ph as [| | |m]; cbn [group_step]; [| | |done].
  - destruct (TaskQueue.empty (Group.tq g)) eqn:Ee; [destruct (final_ok id rp (OGroup g) s Ht Hp Ho) as (s' & -> & Hi); done|].
    destruct (pop_task_spec (Group.tq g) (b_tq _ (proj1 Hl)) Ee) as (x & q & -> & _ & Hperm & Hok & _). cbn [mbind res_bind].
    destruct (take_task_ok x q id rp g (tree s) Ht Hp Ho Hperm Hok) as (H1 & H2 & H3). destruct (start_ok x (id :: rp) _ s H1 H2 H3) as (s' & -> & Hi). done.
  - destruct (Group.mailbox g) as [|m q] eqn:Em; [now apply Hgo|].
    pose proof (process_message_ok m _ (drop_message q g Hl)) as Hok. pose proof (process_message_outs m q g) as Hw.
    destruct (process_message m (Group.with_mailbox q g)) as [g'|f] eqn:E; cbn [mbind res_bind].
    + destruct (Hw g' Hl eq_refl) as (os & Hsp & Hm & Hs & _).
      destruct (next_ok id rp [] (OGroup g) (OGroup g') yield Mailbox s Ht Hp Ho) as (s' & -> & Hi); try done.
      eapply group_op; [done|exact Hsp|]. left. apply Hs. destruct (Group.listed g) eqn:El; [now left|right]. exact (proj1 Hp _ _ Ho El).
    + split; [exact Hok|]. exists m, q. split; [done|]. unfold process_message in E. unfold is_stop. destruct (_ =? PEACE_STOP); [done|]. now destruct (_ =? FORCE_STOP).
  - destruct yield; [destruct (final_ok id rp (OGroup g) s Ht Hp Ho) as (s' & -> & Hi); done|now apply Hgo].
Qed.

Lemma run_step_ok yield (s : state) : inv s ->
  match run_step yield s with
  | Ok s' => inv s'
  | Fault f => f = AssertFail /\ exists rp ph o, frame s = Some (rp, ph) /\ objs (tree s) !! rp = Some o /\ bad_message ph o
  end.
Proof.
  intros Hi. unfold run_step. pose proof (v_frame _ Hi) as Hf. destruct (frame s) as [[[|id rp] ph]|] eqn:Ef; [exact Hi| |exact Hi]. destruct Hf as (o & Eo & _). rewrite Eo.
  destruct o as [a|g].
  - pose proof (actor_step_ok id rp ph a yield s Hi Ef Eo) as H. destruct (actor_step _ _ _ _ _ _); [done|]. destruct H as [-> H]. eauto 10.
  - pose proof (group_step_ok id rp ph g yield s Hi Ef Eo) as H. destruct (group_step _ _ _ _ _ _); [done|]. destruct H as [-> H]. eauto 10.
Qed.

(** *** Events *)
Lemma frame_kept f (T T' : shard) :
  match f with None => True | Some (rp, p) => exists o, objs T !! rp = Some o /\ phase_ok p o end ->
  (forall q o, objs T !! q = Some o -> exists o', objs T' !! q = Some o' /\ forall p, phase_ok p o -> phase_ok p o') ->
  match f with None => True | Some (rp, p) => exists o, objs T' !! rp = Some o /\ phase_ok p o end.
Proof. intros Hf Hk. destruct f as [[rp p]|]; [|done]. destruct Hf as (o & Eo & Hp). destruct (Hk _ _ Eo) as (o' & Eo' & H). eauto. Qed.

Lemma updated_kept p o o' os (T T' : shard) : objs T !! p = Some o -> updated p o' os T T' -> (forall ph, phase_ok ph o -> phase_ok ph o') ->
  forall q x, objs T !! q = Some x -> exists x', objs T' !! q = Some x' /\ forall ph, phase_ok ph x -> phase_ok ph x'.
Proof.
  intros Ho Hu Hp q x Ex. destruct (decide (q = p)) as [->|Hq].
  - destruct (u_self _ _ _ _ _ Hu) as (x' & Ex' & R & _). exists x'. split; [done|]. intros ph H. eapply phase_rest; [exact R|]. apply Hp. congruence.
  - destruct (u_obj _ _ _ _ _ Hu q x Hq Ex) as (x' & Ex' & R & _). exists x'. split; [done|]. intros ph. now apply phase_rest.
Qed.

Lemma actor_event_ok id rq a f (s : state) : inv s -> objs (tree s) !! (id :: rq) = Some (OActor a) ->
  (forall h run, Actor.live h run a -> Actor.live h run (f a)) -> onward a (f a) ->
  cur_concurrency (f a) = cur_concurrency a -> max_concurrency (f a) = max_concurrency a ->
  exists s', actor_event (id :: rq) f s = Ok s' /\ inv s'.
Proof.
  intros [Ht Hp Hf] Ho Hl Hw Hc Hm. unfold actor_event. rewrite Ho. pose proof (t_live _ _ _ _ _ Ht _ _ Ho) as Hlo. cbn [o_live] in Hlo.
  destruct (step_object (cur s) (inhand s) (inhand s) id rq (OActor a) (OActor (f a)) (tree s) Ht Hp Ho) as (T' & -> & Ht' & Hp' & Hu); [|done|].
  - apply actor_op; auto.
  - cbn [mbind res_bind]. eexists. split; [reflexivity|]. split; [exact Ht'|exact Hp'|]. cbn [frame tree with_frame]. eapply frame_kept; [exact Hf|].
    eapply updated_kept; [exact Ho|exact Hu|]. intros ph. cbn. now rewrite Hc, Hm.
Qed.

Lemma resolve_event_ok id rq k st a (s : state) : inv s -> objs (tree s) !! (id :: rq) = Some (OActor a) ->
  exists s', actor_event (id :: rq) (Actor.resolve k st) s = Ok s' /\ inv s'.
Proof.
  intros Hi Ho. assert (Hk : forall h run, Actor.live h run a -> Actor.live h run (Actor.resolve k st a))
    by (intros h run Hl; destruct (Actor.resolve_ok h run k st a (proj1 Hl)) as [H1 H2]; exact (Actor.keeps_live _ _ _ _ Hl H1 H2)).
  assert (Hsame : cur_concurrency (Actor.resolve k st a) = cur_concurrency a /\ max_concurrency (Actor.resolve k st a) = max_concurrency a /\ onward a (Actor.resolve k st a)).
  { unfold Actor.resolve. destruct (Actor.flying a !! k); [|split_and!; try done; apply onward_refl].
    split_and!; [unfold Actor.add_task, Actor.activate; now destruct (Actor.activatable _)..|now apply onward_activate]. }
  destruct Hsame as (H1 & H2 & H3). now apply (actor_event_ok id rq a).
Qed.
Lemma ready_event_ok id rq c a (s : state) : inv s -> objs (tree s) !! (id :: rq) = Some (OActor a) ->
  exists s', actor_event (id :: rq) (Actor.add_task (Cont c)) s = Ok s' /\ inv s'.
Proof.
  intros Hi Ho. apply (actor_event_ok id rq a); [done|done| |now apply onward_activate|unfold Actor.add_task, Actor.activate; now destruct (Actor.activatable _)..].
  intros h run Hl. destruct (Actor.add_task_ok h run c a (proj1 Hl)) as [H1 H2]. exact (Actor.keeps_live _ _ _ _ Hl H1 H2).
Qed.

Lemma reactor_ok (s : state) id r : inv s -> frame s = None -> reactor (tree s) = id :: r ->
  exists s', start [id] (mk_shard (root (tree s)) (objs (tree s)) r) s = Ok s' /\ inv s'.
Proof.
  intros [Ht Hp _] Ef Er. unfold cur, inhand in *. rewrite Ef in *. destruct (pop_reactor_ok id r (tree s) Ht Hp Er) as (H1 & H2 & H3). now apply start_ok.
Qed.

(** *** Messages *)
Lemma put_stop m o : forall mb : list amsg * list gmsg, existsb (fun m => is_stop (m_type m)) (fst mb) || existsb (fun m => is_stop (g_type m)) (snd mb) = true ->
  existsb (fun m => is_stop (m_type m)) (fst (put m o mb)) || existsb (fun m => is_stop (g_type m)) (snd (put m o mb)) = true.
Proof.
  intros mb. unfold put. destruct o, (user m); cbn [fst snd]; rewrite ?orb_true_iff, ?existsb_app; cbn [existsb]; rewrite ?orb_true_iff; tauto.
Qed.

Lemma protocol_delivered c h dst m (T T' : shard) :
  consistent c h None T -> consistent c h None T' -> protocol c h T -> delivered c m dst T T' -> protocol c h T'.
Proof.
  intros Ht Ht' [Pu Pt] (o & Eo & Hmb & [K1 K2] & _). split.
  - intros q x Ex Hl. destruct q as [|y q]; [now rewrite (t_root _ _ _ _ _ Ht') in Ex|].
    destruct (objs T !! (y :: q)) as [z|] eqn:Ez; [|destruct (K2 _ _ _ Ez Ex); congruence]. destruct (K1 _ _ Ez) as (x' & Ex' & R). assert (x' = x) as -> by congruence.
    rewrite (rest_stopping _ _ R). rewrite (rest_listed _ _ R) in Hl. eauto.
  - intros x pid rq g' y' Eg' Hg Ey'. destruct (objs T !! (x :: pid :: rq)) as [y|] eqn:Ey.
    + destruct (parent_group _ _ x pid rq _ Ht ltac:(eauto)) as [g Eg]. destruct (K1 _ _ Eg) as (g2 & Eg2 & Rg). assert (g2 = g') as -> by congruence.
      rewrite (rest_stopping _ _ Rg) in Hg. destruct (K1 _ _ Ey) as (y2 & Ey2 & R). assert (y2 = y') as -> by congruence. eapply rest_told; [exact R| |eauto].
      unfold has_stop. pose proof (Hmb _ _ Ey') as Hm. cbv zeta in Hm. rewrite Ey in Hm. rewrite Hm. case_decide; [apply put_stop|done].
    + destruct (K2 _ _ _ Ey Ey') as [_ (g2 & Eg2 & Hs)]. congruence.
Qed.

Hypothesis kinds_ordered : forall t c, kind_of t = GroupKind c -> comparator_ok c.
Abbreviation refuse := (refuse promise_set_value promise_set_exception this_gsid is_local canceled_text).

Lemma routed_ok m sh c cs (s : state) : inv s -> repr (addr (e_hdr m)) sh (c :: cs) -> Forall scope_ok (c :: cs) -> room (tree s) ->
  match route m (tree s) with
  | Ok (T', _) => inv (with_frame (frame s) T' s)
  | Fault f => refuse m (tree s) = Fault f
  end.
Proof.
  intros [Ht Hp Hf] R Hcs Hroom.
  pose proof (tree_delivers promise_set_value promise_set_exception this_gsid is_local canceled_text kind_of (cur s) (inhand s) kinds_ordered m sh c cs (tree s) R Hcs Ht Hroom) as Hd.
  cbv zeta in Hd. destruct (disabled _ _ _ _ || _).
  - rewrite Hd. destruct (refuse m (tree s)) as [[Tr d]|f] eqn:Hr; [|done]. unfold Tree.refuse in Hr. apply bind_ok in Hr as (e & E & [= <- <-]). split; cbn; [|exact Hp|exact Hf].
    apply tree_root; [exact Ht|eapply stopped_actor_enqueue_inv; [apply Ht|exact E]|eapply stopped_alive; exact E].
  - destruct Hd as (T' & -> & Ht' & Hdel). split; [exact Ht'|eapply protocol_delivered; [exact Ht|exact Ht'|exact Hp|exact Hdel]|].
    cbn [frame tree with_frame]. eapply frame_kept; [exact Hf|]. destruct Hdel as (o & _ & _ & [K1 _] & _). intros q x Ex. destruct (K1 _ _ Ex) as (x' & Ex' & R'). exists x'.
    split; [done|]. intros ph. now apply phase_rest.
Qed.

(** *** The root actor stops its children *)
Definition lift (e : engine) (r : res shard) : res shard := T ← r; Ok (with_root e T).
Lemma add_task_root e rp : forall id (T : shard), add_task rp id (with_root e T) = lift e (add_task rp id T).
Proof.
  induction rp as [|pid rq IH]; intros id T; [done|]. cbn [add_task with_root objs]. destruct (objs T !! (pid :: rq)) as [[a|g]|]; [done| |done]. cbv zeta.
  destruct (_ <? _)%nat; [exact (IH pid (set_obj _ _ T))|done].
Qed.
Lemma settle_root e id rp o o' (T : shard) : settle id rp o o' (with_root e T) = lift e (settle id rp o o' T).
Proof. unfold settle. cbv zeta. destruct (_ <? _)%nat; [exact (add_task_root e rp id (set_obj (id :: rp) o' T))|done]. Qed.
Lemma do_outs_root e rp os : forall T : shard, do_outs rp os (with_root e T) = lift e (do_outs rp os T).
Proof.
  induction os as [|x os IH]; intros T; [done|]. cbn [do_outs].
  assert (Hx : do_out rp x (with_root e T) = lift e (do_out rp x T)).
  { destruct x; try done; cbn [do_out].
    - unfold schedule_at. cbn [objs with_root]. destruct (objs T !! _) as [o|]; cbn [of_option mbind res_bind]; [|done]. destruct (o_schedule o); cbn [mbind res_bind]; [apply settle_root|done].
    - unfold deliver. cbn [objs with_root]. destruct (objs T !! _); [apply settle_root|done]. }
  rewrite Hx. unfold lift. destruct (do_out rp x T) as [T1|]; cbn [mbind res_bind]; [apply IH|done].
Qed.

Lemma lift_same (T T' : shard) (r : shard -> res shard) : (forall T, r (with_root (root T) T) = lift (root T) (r T)) -> r T = Ok T' -> root T' = root T.
Proof. intros H E. specialize (H T). replace (with_root (root T) T) with T in H by (now destruct T). rewrite E in H. injection H as ->. done. Qed.
Lemma settle_same id rp o o' (T T' : shard) : settle id rp o o' T = Ok T' -> root T' = root T.
Proof. apply (lift_same T T' (settle id rp o o')). intros T0. apply settle_root. Qed.
Lemma do_outs_same rp os (T T' : shard) : do_outs rp os T = Ok T' -> root T' = root T.
Proof. apply (lift_same T T' (do_outs rp os)). intros T0. apply do_outs_root. Qed.

Lemma o_stop_ok c h id force o (T : shard) : consistent c h None T -> protocol c h T -> objs T !! [id] = Some o -> o_listed o = true ->
  exists o', o_stop force o = Ok o' /\ op (busy_in c [id]) (hand_in c h [id]) (hand_in c h [id]) o o' /\ o_listed o' = false /\ forall ph, phase_ok ph o -> phase_ok ph o'.
Proof.
  intros Ht Hp Ho Hl. pose proof (t_live _ _ _ _ _ Ht _ _ Ho) as Hlo. destruct o as [a|g]; cbn [o_stop o_live o_listed] in *.
  - destruct (Actor.stop_child_actor_ok _ _ force a Hlo) as (b & E & Hb & Hm & Hc). rewrite E. cbn [mbind res_bind]. eexists. split; [reflexivity|].
    pose proof (stop_child_onward force a b E) as [Hw Hs]. split; [apply actor_op; auto|]. split.
    + unfold Actor.stop_child_actor in E. rewrite Hl in E. apply bind_ok in E as (b' & _ & [= <-]). done.
    + intros ph. destruct ph; cbn; lia || done.
  - eexists. split; [reflexivity|]. destruct (parent_stop_spec _ force g Hlo Hl) as (os & Hsp & Hst). split; [eapply group_op; [now apply parent_stop_live|exact Hsp|now left]|].
    split; [unfold Group.parent_stop; now rewrite Hl|]. now intros [].
Qed.

Lemma stop_children_ok c h force ids : forall e (T : shard), consistent c h None (with_root e T) -> protocol c h T -> NoDup ids ->
  (forall id, id ∈ ids -> Engine.inst_map e !! id = Some true) ->
  exists T' e', do_eouts ((fun id => EStopped id force) <$> ids) T = Ok T' /\ root T' = root T /\ consistent c h None (with_root e' T') /\ protocol c h T' /\
    (forall q x, objs T !! q = Some x -> exists x', objs T' !! q = Some x' /\ forall ph, phase_ok ph x -> phase_ok ph x') /\
    Engine.alive e' = Engine.alive e /\ Engine.sem e' = Engine.sem e /\
    forall id, Engine.inst_map e' !! id = if decide (id ∈ ids) then Some false else Engine.inst_map e !! id.
Proof.
  induction ids as [|id ids IH]; intros e T Ht Hp Hnd Hids.
  { exists T, e. split; [done|]. split; [done|]. split; [done|]. split; [done|]. split; [eauto|]. done. }
  apply NoDup_cons in Hnd as [Hni Hnd]. pose proof (Hids id ltac:(now left)) as Hm.
  assert (Hin : id ∈ Engine.alive e) by (now apply (t_engine _ _ _ _ _ Ht)). destruct (proj2 (t_alive _ _ _ _ _ Ht id []) Hin) as [o Ho].
  assert (Hl : o_listed o = true) by (pose proof (t_listed _ _ _ _ _ Ht _ _ _ Ho) as Hl; cbn in Hl; congruence).
  destruct (o_stop_ok c h id force o (with_root e T) Ht Hp Ho Hl) as (o' & Es & Hop & Hl' & Hph).
  destruct (step_object c h h id [] o o' (with_root e T) Ht Hp Ho Hop) as (T2 & E & Ht2 & Hp2 & Hu); [done|].
  unfold update, forget in E. rewrite Hl, Hl' in E. cbn [andb negb root with_root] in E. unfold Engine.stop_child_actor in E. rewrite Hm in E. cbn [of_option mbind res_bind] in E.
  set (e1 := Engine.with_map _ _) in E. change (with_root e1 (with_root e T)) with (with_root e1 T) in E. rewrite settle_root in E.
  cbn [fmap list_fmap do_eouts do_eout]. change (objs (with_root e T)) with (objs T) in Ho. rewrite Ho. cbn [of_option mbind res_bind]. rewrite Es. cbn [mbind res_bind].
  unfold lift in E. destruct (settle id [] o o' T) as [T1|] eqn:Es1; cbn [mbind res_bind] in *; [|done]. rewrite do_outs_root in E. unfold lift in E.
  destruct (do_outs [id] (o_outs o o') T1) as [T3|] eqn:Eo; cbn [mbind res_bind] in *; [|done]. injection E as <-.
  destruct (IH e1 T3 Ht2 Hp2 Hnd) as (T' & e' & E' & Hr & Ht' & Hp' & Hk & Ha & Hse & Hma).
  { intros x Hx. cbn. rewrite lookup_insert_ne by (intros ->; done). apply Hids. now right. }
  exists T', e'. split; [exact E'|]. split; [rewrite Hr; exact (eq_trans (do_outs_same _ _ _ _ Eo) (settle_same _ _ _ _ _ _ Es1))|]. split; [exact Ht'|]. split; [exact Hp'|].
  split; [|split; [exact Ha|split; [exact Hse|]]].
  - intros q x Ex. destruct (updated_kept [id] o o' _ (with_root e T) (with_root e1 T3) Ho Hu Hph q x Ex) as (x1 & Ex1 & P1). destruct (Hk _ _ Ex1) as (x2 & Ex2 & P2). exists x2. auto.
  - intros x. rewrite Hma. cbn. destruct (decide (x ∈ ids)) as [Hx|Hx]; [now rewrite decide_True by (now right)|]. destruct (decide (x = id)) as [->|Hne].
    + rewrite decide_True by (now left). apply lookup_insert_eq.
    + rewrite decide_False by (intros Hc; apply elem_of_cons in Hc as [?|?]; done). now apply lookup_insert_ne.
Qed.

(** What receiving a message to the root actor does to the children of the root actor. *)
Definition silent (x : eout (D := D) (Q := Q)) : Prop := match x with EScheduled _ | EStopped _ _ => False | _ => True end.
Lemma do_eouts_silent os : Forall silent os -> forall T : shard, do_eouts os T = Ok T.
Proof. induction 1 as [|x os Hx _ IH]; intros T; [done|]. cbn [do_eouts]. destruct x; try done; cbn [do_eout mbind res_bind]; apply IH. Qed.

Record root_step (e e' : engine) : Prop := {
  rs_alive : Engine.alive e' = Engine.alive e;
  rs_sem : Engine.sem e' = Engine.sem e;
  rs_outs : exists os, Engine.trace e' = Engine.trace e ++ os /\
    (Engine.inst_map e' = Engine.inst_map e /\ Forall silent os \/
     exists force os', os = ((fun id => EStopped id force) <$> pointers (Engine.inst_map e)) ++ os' /\ Forall silent os' /\ Engine.inst_map e' = (fun _ => false) <$> Engine.inst_map e)
}.
Lemma root_step_emit e e' x : root_step e e' -> silent x -> root_step e (Engine.emit [x] e').
Proof.
  intros [R1 R2 (os & Ht & Hc)] Hx. split; [done|done|]. exists (os ++ [x]). split; [cbn; now rewrite Ht, app_assoc|].
  destruct Hc as [[Hm Hq]|(force & os' & -> & Hq & Hm)]; [left|right].
  - split; [done|]. apply Forall_app. auto.
  - exists force, (os' ++ [x]). split; [now rewrite app_assoc|]. split; [apply Forall_app; auto|done].
Qed.
Lemma root_step_pm (e : engine) pm : root_step e (Engine.with_pm pm e).
Proof. split; [done|done|]. exists []. split; [cbn; now rewrite app_nil_r|]. left. auto. Qed.
Lemma root_step_refl e : root_step e e.
Proof. split; [done|done|]. exists []. split; [now rewrite app_nil_r|]. left. auto. Qed.

Lemma stop_system_step force e e' : stop_actor_system promise_set_exception force e = Ok e' -> root_step e e'.
Proof.
  unfold stop_actor_system. destruct (negb _); [intros [= <-]; apply root_step_refl|]. intros E. apply bind_ok in E as (pm & _ & [= <-]).
  set (os := (fun id => EStopped (D := D) (Q := Q) id force) <$> pointers (Engine.inst_map e)).
  assert (H : forall os', Forall silent os' -> root_step e (Engine.emit os' (stop_children force (Engine.with_pm pm (Engine.with_status (if force then FORCE_STOPPING else PEACE_STOPPING) e))))).
  { intros os' Hos. split; [done|done|]. exists (os ++ os'). split; [cbn; now rewrite <-app_assoc|]. right. exists force, os'. done. }
  match goal with |- root_step e (if _ then wait_others_and_exit ?x else ?x) => set (e1 := x) in * end. destruct (_ =? 0); [apply (H [EBarrier]); now repeat constructor|].
  pose proof (H [] ltac:(constructor)) as H0. replace (Engine.emit [] e1) with e1 in H0; [done|]. unfold Engine.emit. rewrite app_nil_r. now destruct e1.
Qed.

Lemma receive_root_step m e e' : receive_root promise_set_value promise_set_exception m e = Ok e' -> root_step e e'.
Proof.
  unfold receive_root. cbv zeta. destruct (_ =? RESPONSE); [|destruct (_ =? EXCEPTION_RESPONSE); [|destruct (_ =? PEACE_STOP); [|destruct (_ =? FORCE_STOP); [|done]]]].
  - intros E. apply bind_ok in E as (a & _ & E). destruct a; [apply bind_ok in E as (pm & _ & [= <-]); apply root_step_pm|injection E as <-; now apply root_step_emit; [apply root_step_refl|]].
  - intros E. apply bind_ok in E as (a & _ & E). destruct a; [|injection E as <-; now apply root_step_emit; [apply root_step_refl|]].
    destruct (e_data m); try done. apply bind_ok in E as (pm & _ & [= <-]). apply root_step_emit; [apply root_step_pm|done].
  - intros E. apply bind_ok in E as (e1 & E & [= <-]). apply root_step_emit; [eapply stop_system_step; exact E|done].
  - intros E. apply bind_ok in E as (e1 & E & [= <-]). apply root_step_emit; [eapply stop_system_step; exact E|done].
Qed.

Lemma update_root_ok e (s : state) : inv s -> root_step (root (tree s)) e -> Engine.inv e ->
  exists T', update_root e (tree s) = Ok T' /\ inv (with_frame (frame s) T' s).
Proof.
  intros [Ht Hp Hf] [R1 R2 (os & Htr & Hc)] Hinv. unfold update_root. rewrite Htr, drop_app_length.
  destruct Hc as [[Hm Hq]|(force & os' & -> & Hq & Hm)].
  - rewrite do_eouts_silent by done. eexists. split; [reflexivity|]. split; [|exact Hp|exact Hf]. now apply tree_engine.
  - destruct (pointers_spec (Engine.inst_map (root (tree s)))) as [Hnd Hpt]. rewrite do_eouts_app.
    destruct (stop_children_ok (cur s) (inhand s) force (pointers (Engine.inst_map (root (tree s)))) (root (tree s)) (with_root e (tree s))) as
      (T' & e' & -> & Hr & Ht' & Hp' & Hk & Ha & Hs & Hma).
    + replace (with_root (root (tree s)) (with_root e (tree s))) with (tree s) by (now destruct (tree s)). exact Ht.
    + exact Hp.
    + exact Hnd.
    + intros id Hid. now apply Hpt.
    + cbn [mbind res_bind]. rewrite do_eouts_silent by done. eexists. split; [reflexivity|]. split; [|exact Hp'|].
      * assert (E : with_root e (with_root e' T') = T') by (unfold with_root; cbn in *; rewrite <-Hr; now destruct T'). change (consistent (cur s) (inhand s) None T'). rewrite <-E.
        apply tree_engine; cbn [root with_root]; [exact Ht'|exact Hinv|congruence| |congruence].
        apply map_eq. intros x. rewrite Hm, Hma, lookup_fmap. case_decide as Hx; [apply Hpt in Hx; now rewrite Hx|]. rewrite Hpt in Hx.
        destruct (Engine.inst_map (root (tree s)) !! x) as [[]|]; done.
      * eapply frame_kept; [exact Hf|exact Hk].
Qed.

Abbreviation root_receive := (receive_root promise_set_value promise_set_exception).
Lemma receive_ok_root m (s : state) : inv s -> addr_length (addr (e_hdr m)) = total_addr_length ->
  match receive m (tree s) with
  | Ok T' => inv (with_frame (frame s) T' s)
  | Fault f => root_receive m (root (tree s)) = Fault f
  end.
Proof.
  intros Hi Ha. unfold receive. rewrite Ha, Z.eqb_refl. destruct (root_receive m (root (tree s))) as [e|f] eqn:E; cbn [mbind res_bind]; [|done].
  destruct (update_root_ok e s Hi) as (T' & -> & H); [eapply receive_root_step; exact E|eapply receive_root_inv; [apply Hi|exact E]|exact H].
Qed.

(** *** Histories *)
(** A message for the root actor or for a path of the shard, which has room for new objects. *)
Definition addressed (m : emsg) (T : shard) : Prop :=
  addr_length (addr (e_hdr m)) = total_addr_length \/
  ((exists sh c cs, repr (addr (e_hdr m)) sh (c :: cs) /\ Forall scope_ok (c :: cs)) /\ room T).
Definition enabled (ev : event) (s : state) : Prop :=
  match ev with Receive m => addressed m (tree s) | _ => True end.
Inductive reachable : state -> Prop :=
  | R_new pm : reachable (mk_state (shard_new pm) None [])
  | R_step s ev s' : reachable s -> enabled ev s -> step ev s = Ok s' -> reachable s'.

Lemma reachable_runs evs : forall s s', Forall (fun ev => match ev with Reactor | Run _ => True | _ => False end) evs ->
  TreeRun.run promise_set_value promise_set_exception this_gsid is_local canceled_text kind_of do_work evs s = Ok s' -> reachable s -> reachable s'.
Proof.
  induction evs as [|ev evs IH]; intros s s' Hf E Hr; [injection E as <-; done|]. apply Forall_cons in Hf as [Hev Hf]. cbn [TreeRun.run] in E.
  apply bind_ok in E as (s1 & E1 & E). apply (IH s1); [done|done|]. eapply R_step; [exact Hr| |exact E1]. now destruct ev.
Qed.

(** What a step can fail with: the running object has taken a message of a type it does not handle; a future or a
    continuation belongs to an actor that is gone; the root actor fails on a message to it, or on refusing one. *)
Definition failed (ev : event) (s : state) (f : fault) : Prop :=
  match ev with
  | Run _ => f = AssertFail /\ exists rp ph o, frame s = Some (rp, ph) /\ objs (tree s) !! rp = Some o /\ bad_message ph o
  | Resolve rp _ _ | Ready rp _ => f = UseAfterFree /\ forall a, objs (tree s) !! rp <> Some (OActor a)
  | Receive m =>
      if addr_length (addr (e_hdr m)) =? total_addr_length then root_receive m (root (tree s)) = Fault f
      else refuse m (tree s) = Fault f
  | Reactor => False
  end.

Lemma actor_event_gone rp f (s : state) : (forall a, objs (tree s) !! rp <> Some (OActor a)) -> actor_event rp f s = Fault UseAfterFree.
Proof. intros H. unfold actor_event. destruct rp as [|id rq]; [done|]. destruct (objs (tree s) !! (id :: rq)) as [[a|g]|]; [now destruct (H a)|done|done]. Qed.

Lemma actor_at rp (s : state) : inv s -> (exists id rq a, rp = id :: rq /\ objs (tree s) !! rp = Some (OActor a)) \/ forall a, objs (tree s) !! rp <> Some (OActor a).
Proof.
  intros Hi. destruct (objs (tree s) !! rp) as [[a|g]|] eqn:Eo; [|now right..]. left.
  destruct rp as [|id rq]; [now rewrite (t_root _ _ _ _ _ (v_tree _ Hi)) in Eo|eauto].
Qed.

Lemma event_ok ev s : inv s -> enabled ev s ->
  match step ev s with Ok s' => inv s' | Fault f => failed ev s f end.
Proof.
  intros Hi He. destruct ev as [m| |yield|rp k st|rp c]; cbn [step enabled failed] in *.
  - destruct He as [Ha|((sh & c & cs & R & Hcs) & Hroom)].
    + pose proof (receive_ok_root m s Hi Ha) as H. rewrite Ha, Z.eqb_refl. destruct (receive m (tree s)); exact H.
    + pose proof (routed_ok m sh c cs s Hi R Hcs Hroom) as H. unfold receive. replace (_ =? _) with false; [destruct (route m (tree s)) as [[T' d]|]; exact H|].
      symmetry. apply Z.eqb_neq. rewrite (repr_length _ _ _ R). cbn [length]. unfold total_addr_length, GShardIdInBytes. lia.
  - destruct (frame s) eqn:Ef; [exact Hi|]. destruct (reactor (tree s)) as [|id r] eqn:Er; [exact Hi|]. destruct (reactor_ok s id r Hi Ef Er) as (s' & -> & H). exact H.
  - pose proof (run_step_ok yield s Hi) as H. destruct (run_step yield s); [done|]. destruct H as [-> H]. eauto.
  - destruct (actor_at rp s Hi) as [(id & rq & a & -> & Ha)|Hg]; [|now rewrite (actor_event_gone _ _ _ Hg)].
    destruct (resolve_event_ok id rq k st a s Hi Ha) as (s' & -> & H). exact H.
  - destruct (actor_at rp s Hi) as [(id & rq & a & -> & Ha)|Hg]; [|now rewrite (actor_event_gone _ _ _ Hg)].
    destruct (ready_event_ok id rq c a s Hi Ha) as (s' & -> & H). exact H.
Qed.

Lemma reachable_inv s : reachable s -> inv s.
Proof.
  induction 1 as [pm|s ev s' _ Hi He E].
  - destruct (shard_new_ok (D := D) (Q := Q) (Sem := Sem) kind_of None [] pm eq_refl) as [Ht _]. split; [exact Ht| |done]. assert (Hno : forall q, objs (shard_new (D := D) (Q := Q) (Sem := Sem) pm) !! q = None) by (intros q; apply lookup_empty).
    split; intros; cbn in *; rewrite Hno in *; done.
  - pose proof (event_ok ev s Hi He) as H. now rewrite E in H.
Qed.

(** *** A shard at rest *)
(** Nothing runs and nothing is to run; no object waits for its turn, and no actor for a future of [do_work]. *)
Record at_rest (s : state) : Prop := {
  q_frame : frame s = None;
  q_reactor : reactor (tree s) = [];
  q_started : forall rp o, objs (tree s) !! rp = Some o -> o_sched o <> INITIALIZED;
  q_flying : forall rp a, objs (tree s) !! rp = Some (OActor a) -> Actor.flying a = []
}.

Lemma runnable_reactor rp (T : shard) : (forall q o, objs T !! q = Some o -> o_sched o <> INITIALIZED) -> runnable None T rp -> reactor T <> [].
Proof.
  intros Hi. induction rp as [|id rq IH]; [done|]. cbn [runnable]. intros [Hin H]. destruct rq as [|pid rq].
  - cbn in Hin. intros E. rewrite E in Hin. now apply not_elem_of_nil in Hin.
  - destruct H as (g & Eg & [H|[H|[_ H]]]); [destruct (Hi _ _ Eg); done|done|auto].
Qed.

Lemma rest_idle s rp o : inv s -> at_rest s -> objs (tree s) !! rp = Some o ->
  has_stop o = false /\ (o_stopping o = true -> exists id, is_Some (objs (tree s) !! (id :: rp))).
Proof.
  intros Hi [Qf Qr Qs Qfl] Ho. destruct Hi as [Ht _ _]. unfold cur, inhand in Ht. rewrite Qf in Ht. cbn in Ht.
  assert (Hs : o_sched o = SCHEDULABLE).
  { pose proof (Qs _ _ Ho) as Hn. destruct (o_sched o) eqn:Es; [done|done|]. destruct (scheduled_runnable _ _ _ _ _ _ Ht Ho Es) as [Hb|Hr]; [now destruct rp|].
    now apply (runnable_reactor rp (tree s)) in Hr. }
  pose proof (t_live _ _ _ _ _ Ht _ _ Ho) as Hl. destruct o as [a|g]; cbn in Hl, Hs.
  - destruct Hl as ([Hb _] & Hidle & _). destruct (Hidle Hs) as (Htk & Hm & Hst). pose proof (b_cur _ _ Hb) as Hc. rewrite (Qfl _ _ Ho), Htk in Hc. cbn in Hc.
    pose proof (Actor.b_max _ _ Hb) as Hmax. destruct Hm as [Hm|Hm]; [|lia]. unfold has_stop. cbn. rewrite Hm. split; [done|]. intros H. specialize (Hst H). lia.
  - destruct Hl as (Hb & _ & Hidle & _). destruct (Hidle Hs) as (Hm & _ & Hst). unfold has_stop. cbn. rewrite Hm. split; [done|]. intros H. specialize (Hst H).
    rewrite (Group.b_num _ Hb) in Hst. destruct (decide (Group.alive g = ∅)) as [He|He]; [rewrite He, size_empty in Hst; lia|].
    apply set_choose_L in He as [id Hid]. exists id. apply (t_alive _ _ _ _ _ Ht). destruct rp as [|x rp]; [now rewrite (t_root _ _ _ _ _ Ht) in Ho|]. cbn [alive_at]. now rewrite Ho.
Qed.

Lemma rest_stopping_all s : inv s -> at_rest s -> Engine.running (root (tree s)) = false -> forall rp o, objs (tree s) !! rp = Some o -> o_stopping o = true.
Proof.
  intros Hi Hq Hr rp. induction rp as [|id rq IH]; intros o Ho; [now rewrite (t_root _ _ _ _ _ (v_tree _ Hi)) in Ho|].
  pose proof (rest_idle _ _ _ Hi Hq Ho) as [Hns _]. destruct Hi as [Ht [Pu Pt] _]. destruct rq as [|pid rq].
  - pose proof (t_listed _ _ _ _ _ Ht _ _ _ Ho) as Hl. cbn [lookup_at] in Hl. apply (Pu _ _ Ho). exact (i_stopped _ (t_engine _ _ _ _ _ Ht) Hr _ _ Hl).
  - destruct (parent_group _ _ id pid rq _ Ht ltac:(eauto)) as [g Eg]. specialize (Pt id pid rq _ _ Eg (IH _ Eg) Ho). unfold told in Pt. rewrite Hns in Pt.
    unfold inhand in Pt. rewrite (q_frame _ Hq), hand_nil in Pt. cbn in Pt. now rewrite !orb_false_r in Pt.
Qed.

Lemma rest_empties s : inv s -> at_rest s -> Engine.running (root (tree s)) = false ->
  objs (tree s) = ∅ /\ Engine.num_actors_managed (root (tree s)) = 0 /\ barriers (Engine.trace (root (tree s))) = 1%nat.
Proof.
  intros Hi Hq Hr. pose proof (rest_stopping_all s Hi Hq Hr) as Hst.
  assert (He : objs (tree s) = ∅).
  { apply map_empty. intros rp. destruct (objs (tree s) !! rp) as [o|] eqn:Eo; [|done]. exfalso.
    assert (Hdeep : forall k, exists q, is_Some (objs (tree s) !! q) /\ (k <= length q)%nat).
    { induction k as [|k (q & [x Ex] & Hk)]; [exists rp; split; [eauto|lia]|]. destruct (rest_idle s q x Hi Hq Ex) as [_ H]. destruct (H (Hst _ _ Ex)) as [id Hid].
      exists (id :: q). split; [done|]. cbn. lia. }
    set (ls := (fun p => length (fst p)) <$> map_to_list (objs (tree s))). destruct (Hdeep (S (max_list ls))) as (q & [x Ex] & Hk).
    assert (Hle : (length q <= max_list ls)%nat); [|lia]. apply max_list_elem_of_le. apply list_elem_of_fmap. exists (q, x). split; [done|]. now apply elem_of_map_to_list. }
  split; [done|]. destruct (v_tree _ Hi) as [He1 _ He3]. assert (Hal : Engine.alive (root (tree s)) = ∅).
  { apply set_eq. intros id. rewrite elem_of_empty. split; [|done]. intros Hin. apply (He3 id []) in Hin as [o Eo]. now rewrite He, lookup_empty in Eo. }
  assert (Hn : Engine.num_actors_managed (root (tree s)) = 0) by (rewrite (i_num _ He1), Hal, size_empty; done).
  split; [done|]. now rewrite (i_barrier _ He1), Hr, Hn.
Qed.


(** C2: A shard that is stopped ends up empty.  When the actor system of a shard was stopped, peacefully or by force, and the shard
    is at rest (no task of the reactor, no object that waits for its turn to start, no actor with an unresolved future), then
    no group and no actor is left, the root actor counts no children, and it has waited for the others exactly once
    ([wait_others_and_exit]). *)
Theorem stopped_shard_empties s : reachable s -> at_rest s -> Engine.running (root (tree s)) = false ->
  objs (tree s) = ∅ /\ Engine.num_actors_managed (root (tree s)) = 0 /\ barriers (Engine.trace (root (tree s))) = 1%nat.
Proof. intros Hre. exact (rest_empties s (reachable_inv _ Hre)). Qed.
End Shutdown.

(** ** A group with two actors is stopped *)
Module ShutdownExamples.
Import TreeExamples.
(** Messages with behavior 1 block. *)
Definition work_of (m : toy_msg) : Actor.work (P := toy_msg) := if behavior_tid (e_hdr m) =? 1 then Blocked [] else Done [] (WOk false).
Definition blocking (cs : list ScopeBuilder.scope) : toy_msg := mk_emsg (mk_header (ex_addr 1 cs) 1 0 0 USER false) NoData.
Definition to_root (t : Z) : toy_msg := mk_emsg (mk_header (mk_address total_addr_length (addr_data address_zero)) 0 0 0 t false) NoData.
Abbreviation sample_run := (TreeRun.run (SM := counter_sem) toy_value toy_exception 1 toy_local [] sample_kind work_of).
Abbreviation sample_reachable := (reachable (SM := counter_sem) toy_value toy_exception 1 toy_local [] sample_kind work_of).
Abbreviation sample_state := (state (D := Z) (Q := list bytes) (P := toy_promise) (Sem := Z * list Z)).
Abbreviation sample_event := (event (D := Z) (Q := list bytes)).
Definition at_start : sample_state := mk_state sample_shard None [].
Definition after (evs : list sample_event) : sample_state := match sample_run evs at_start with Ok s => s | Fault _ => at_start end.

Definition runs : list sample_event := Reactor :: replicate 20 (Run false).
Definition messages : list sample_event := [Receive (to [ex_group1; cell1] USER); Receive (blocking [ex_group1; cell2])].
Definition all_run : list sample_event := messages ++ runs.
Definition stopped : list sample_event := all_run ++ Receive (to_root PEACE_STOP) :: runs ++ runs.
Definition all_events : list sample_event := stopped ++ Resolve [cell_key cell2; cell_key ex_group1] 0 (WOk false) :: runs ++ runs.

(** The statuses of the objects, and how often the root actor waited for the others. *)
Definition summary (s : sample_state) : nat * list (list Z * schedule_status) := (barriers (Engine.trace (root (tree s))), map_to_list (o_sched <$> objs (tree s))).
(** One actor waits for a future: the shard is not at rest, it stays until the future resolves. *)
Example sample_shutdown :
  summary (after all_run) = (0%nat, [([cell_key cell2; cell_key ex_group1], SCHEDULABLE); ([cell_key cell1; cell_key ex_group1], SCHEDULABLE); ([cell_key ex_group1], SCHEDULABLE)]) /\
  summary (after stopped) = (0%nat, [([cell_key cell2; cell_key ex_group1], SCHEDULABLE); ([cell_key ex_group1], SCHEDULABLE)]) /\
  summary (after all_events) = (1%nat, []).
Proof. split; [vm_compute; reflexivity|]. split; vm_compute; reflexivity. Qed.

Lemma room_check (T : shard (D := Z) (Q := list bytes) (P := toy_promise) (Sem := Z * list Z)) :
  (Z.of_nat (base.size (Engine.alive (root T))) <? 4294967295) &&
  forallb (fun p => match snd p with OGroup g => Z.of_nat (base.size (Group.alive g)) <? 4294967295 | OActor _ => true end) (map_to_list (objs T)) = true -> room T.
Proof.
  intros [H1 H2]%andb_prop. split; [now apply Z.ltb_lt|]. intros rp g Hg. rewrite forallb_forall in H2. specialize (H2 (rp, OGroup g)).
  apply Z.ltb_lt, H2, list_elem_of_In. now apply elem_of_map_to_list.
Qed.
Lemma sample_receive evs m cs : sample_reachable (after evs) -> repr (addr (e_hdr m)) 1 (ex_group1 :: cs) -> Forall scope_ok (ex_group1 :: cs) -> room (tree (after evs)) ->
  sample_run [Receive m] (after evs) = Ok (after (evs ++ [Receive m])) -> sample_reachable (after (evs ++ [Receive m])).
Proof.
  intros Hr R Hcs Hroom E. eapply R_step with (ev := Receive m); [exact Hr| |]; [right; split; [exists 1, ex_group1, cs; done|done]|]. cbn [TreeRun.run] in E. apply bind_ok in E as (s & E & [= <-]). exact E.
Qed.
Lemma repr1 c : repr (ex_addr 1 [ex_group1; c]) 1 [ex_group1; c].
Proof. constructor; (reflexivity || cbn; addr_lia). Qed.
Lemma cells_ok : Forall scope_ok [ex_group1; cell1] /\ Forall scope_ok [ex_group1; cell2].
Proof. split; repeat constructor; vm_compute; congruence. Qed.
Lemma first_reachable : sample_reachable (after [Receive (to [ex_group1; cell1] USER)]).
Proof.
  apply (sample_receive [] (to [ex_group1; cell1] USER) [cell1]).
  - constructor.
  - apply repr1.
  - apply cells_ok.
  - apply room_check. vm_compute. reflexivity.
  - vm_compute. reflexivity.
Qed.
Lemma messages_reachable : sample_reachable (after messages).
Proof.
  apply (sample_receive [Receive (to [ex_group1; cell1] USER)] (blocking [ex_group1; cell2]) [cell2]).
  - apply first_reachable.
  - apply repr1.
  - apply cells_ok.
  - apply room_check. vm_compute. reflexivity.
  - vm_compute. reflexivity.
Qed.
Lemma stop_reachable : sample_reachable (after (all_run ++ [Receive (to_root PEACE_STOP)])).
Proof.
  assert (H1 : sample_reachable (after all_run)) by (eapply (reachable_runs _ _ _ _ _ _ _ runs); [repeat constructor| |apply messages_reachable]; vm_compute; reflexivity).
  eapply R_step with (ev := Receive (to_root PEACE_STOP)); [exact H1| |]; [left; reflexivity|]. vm_compute. reflexivity.
Qed.
Lemma all_reachable : sample_reachable (after all_events).
Proof.
  assert (H3 : sample_reachable (after stopped)) by (eapply (reachable_runs _ _ _ _ _ _ _ (runs ++ runs)); [repeat constructor| |apply stop_reachable]; vm_compute; reflexivity).
  assert (H4 : sample_reachable (after (stopped ++ [Resolve [cell_key cell2; cell_key ex_group1] 0 (WOk false)]))).
  { eapply R_step with (ev := Resolve [cell_key cell2; cell_key ex_group1] 0 (WOk false)); [exact H3|exact I|]. vm_compute. reflexivity. }
  eapply (reachable_runs _ _ _ _ _ _ _ (runs ++ runs)); [repeat constructor| |exact H4]; vm_compute; reflexivity.
Qed.

Lemma stopped_shard_empties_witness :
  let s := after all_events in objs (tree s) = ∅ /\ Engine.num_actors_managed (root (tree s)) = 0 /\ barriers (Engine.trace (root (tree s))) = 1%nat.
Proof.
  assert (E : objs (tree (after all_events)) = ∅) by (vm_compute; reflexivity).
  apply (stopped_shard_empties toy_value toy_exception 1 toy_local [] sample_kind work_of sample_ordered (after all_events)).
  - apply all_reachable.
  - split; [vm_compute; reflexivity|vm_compute; reflexivity| |]; rewrite E; intros rp o Ho; now rewrite lookup_empty in Ho.
  - vm_compute. reflexivity.
Defined.

End ShutdownExamples.
