(* ===== verification/Quiescence.v ===== *)
(** * A shard left alone comes to rest

    When no message comes from outside, no future resolves and no continuation becomes ready, the reactor runs out of tasks, however
    often the running objects yield: every step of [TreeRun] makes a measure smaller.  Its first part
    is what is left to do, messages and tasks and the stop messages that groups may still send; its second
    part the objects that are not idle; its last part how far the running object is in its run. *)
From Stdlib Require Import Wellfounded.Lexicographic_Product Relations.Relation_Operators.
From S2P Require Import Prelude.
From S2P Require Import Bytes Address Message PromiseManager.
From S2P Require Import Actor TaskQueue Group Engine Tree TreeRun TreeSteps Shutdown.

(** ** Sums over maps *)
Section Total.
Context {K A : Type} `{Countable K}.
Definition total (f : A -> nat) (m : gmap K A) : nat := map_fold (fun _ x n => (f x + n)%nat) 0%nat m.

Lemma total_delete f (m : gmap K A) k x : m !! k = Some x -> total f m = (f x + total f (delete k m))%nat.
Proof. intros Hk. unfold total. rewrite (map_fold_delete_L _ _ k x m); [done| |done]. intros. lia. Qed.
Lemma total_insert f (m : gmap K A) k x : m !! k = None -> total f (<[k := x]> m) = (f x + total f m)%nat.
Proof. intros Hk. rewrite (total_delete f _ k x) by apply lookup_insert_eq. now rewrite delete_insert_id. Qed.
Lemma total_update f (m : gmap K A) k x y : m !! k = Some x -> (total f (<[k := y]> m) + f x = total f m + f y)%nat.
Proof.
  intros Hk. rewrite (total_delete f m k x Hk), (total_delete f (<[k := y]> m) k y) by apply lookup_insert_eq.
  rewrite delete_insert_eq. lia.
Qed.
Lemma total_le f (m' : gmap K A) : forall m, (forall k y, m' !! k = Some y -> exists x, m !! k = Some x /\ (f y <= f x)%nat) -> (total f m' <= total f m)%nat.
Proof.
  induction m' as [|k y m' Hk IH] using map_ind; intros m Hm; [unfold total at 1; rewrite map_fold_empty; lia|]. rewrite total_insert by done.
  destruct (Hm k y (lookup_insert_eq _ _ _)) as (x & Ex & Hle). rewrite (total_delete f m k x Ex). enough (total f m' <= total f (delete k m))%nat by lia.
  apply IH. intros j z Ej. assert (j <> k) by congruence. destruct (Hm j z) as (x' & Ex' & Hle'); [now rewrite lookup_insert_ne|]. exists x'. now rewrite lookup_delete_ne.
Qed.
Lemma total_lt f (m m' : gmap K A) k x : m !! k = Some x -> (0 < f x)%nat -> (forall y, m' !! k = Some y -> f y = 0)%nat ->
  (forall j y, m' !! j = Some y -> exists x, m !! j = Some x /\ (f y <= f x)%nat) -> (total f m' < total f m)%nat.
Proof.
  intros Ex Hx Hy Hm. rewrite (total_delete f m k x Ex). assert (Hd : (total f m' <= total f (delete k m'))%nat).
  { destruct (m' !! k) as [y|] eqn:E; [rewrite (total_delete f m' k y E), (Hy y eq_refl); lia|rewrite delete_id by done; lia]. }
  enough (total f (delete k m') <= total f (delete k m))%nat by lia. apply total_le. intros j y. rewrite lookup_delete_Some. intros [Hj Ej].
  destruct (Hm j y Ej) as (z & Ez & ?). exists z. now rewrite lookup_delete_ne.
Qed.
End Total.

Section Quiescence.
Context {D Q P Sem : Type} {SM : Semaphore Sem} {HO : HeapOps Z} {HL : HeapLaws Z}.
Abbreviation emsg := (emsg (D := D) (Q := Q)).
Abbreviation amsg := (Actor.msg (P := emsg)).
Abbreviation actor := (actor (P := emsg)).
Abbreviation obj := (obj (D := D) (Q := Q) (Sem := Sem)).
Abbreviation shard := (shard (D := D) (Q := Q) (P := P) (Sem := Sem)).
Abbreviation phase := (phase (D := D) (Q := Q)).
Abbreviation state := (state (D := D) (Q := Q) (P := P) (Sem := Sem)).
Abbreviation engine := (engine (D := D) (Q := Q) (P := P) (Sem := Sem)).
Abbreviation effect := (Actor.effect (P := emsg)).
Abbreviation chain := (Actor.chain (P := emsg)).
Abbreviation stop_message := (stop_message (D := D) (Q := Q)).
Variable promise_set_value : P -> emsg -> P.
Variable promise_set_exception : P -> ex -> P.
Variable this_gsid : Z.
Variable is_local : Z -> bool.
Variable canceled_text : bytes.
Variable kind_of : Z -> kind.
Variable do_work : emsg -> Actor.work (P := emsg).
Abbreviation step := (step promise_set_value promise_set_exception this_gsid is_local canceled_text kind_of do_work).
Abbreviation inv := (inv kind_of).

(** ** What is left to do

    [rank]: how much user code does for a message; what it sends to its own actor counts. *)
Variable rank : emsg -> nat.
Definition msg_cost (m : amsg) : nat := (2 + rank (body m))%nat.
Fixpoint chain_cost (c : chain) : nat :=
  match c with
  | Chain r c => S (Nat.max (list_sum (List.map effect_cost r)) (list_sum (List.map effect_cost c)))
  end
with effect_cost (e : effect) : nat :=
  match e with
  | AddTask c | AddUrgentTask c => chain_cost c
  | Actor.Resolve _ _ => 1
  | SelfSend m => msg_cost m
  end.
Definition effects_cost (es : list effect) : nat := list_sum (List.map effect_cost es).
Definition work_effects (w : Actor.work (P := emsg)) : list effect := match w with Done es _ => es | Blocked es => es end.
Hypothesis ranked : forall m, (effects_cost (work_effects (do_work m)) <= rank m)%nat.

Definition task_cost (t : Actor.task (P := emsg)) : nat := match t with PostWork _ _ => 1 | Cont c => chain_cost c end.
Definition tasks_cost (ts : list (Actor.task (P := emsg))) : nat := list_sum (List.map task_cost ts).
Definition mail_cost (ms : list amsg) : nat := list_sum (List.map msg_cost ms).
Definition actor_cost (a : actor) : nat := (tasks_cost (Actor.tasks a) + mail_cost (Actor.mailbox a))%nat.

(** A stop message that a group may still send to a child. *)
Definition stop_cost : nat := (2 + rank (stop_message PEACE_STOP) + rank (stop_message FORCE_STOP))%nat.
Definition children (m : gmap Z bool) : nat := length (pointers m).
Definition group_cost (g : group (Sem := Sem)) : nat :=
  (length (Group.mailbox g) + (if Group.stopping g then 0 else stop_cost * children (Group.inst_map g)))%nat.
Definition o_cost (o : obj) : nat := match o with OActor a => actor_cost a | OGroup g => group_cost g end.
Definition left_in (T : shard) : nat := total o_cost (objs T).
Definition hand_cost (s : state) : nat := match inhand s with [] => 0 | m :: _ => S (rank (body m)) end.
Definition left_to_do (s : state) : nat := (left_in (tree s) + hand_cost s)%nat.

#[local] Arguments mail_cost : simpl never.
#[local] Arguments tasks_cost : simpl never.
#[local] Arguments msg_cost : simpl never.

(** *** Actors *)
Lemma tasks_cost_app a b : tasks_cost (a ++ b) = (tasks_cost a + tasks_cost b)%nat.
Proof. unfold tasks_cost. now rewrite map_app, list_sum_app. Qed.
Lemma tasks_cost_cons t ts : tasks_cost (t :: ts) = (task_cost t + tasks_cost ts)%nat.
Proof. done. Qed.
Lemma mail_cost_app a b : mail_cost (a ++ b) = (mail_cost a + mail_cost b)%nat.
Proof. unfold mail_cost. now rewrite map_app, list_sum_app. Qed.
Lemma mail_cost_cons m ms : mail_cost (m :: ms) = (msg_cost m + mail_cost ms)%nat.
Proof. done. Qed.
Lemma cost_nil : tasks_cost [] = 0%nat /\ mail_cost [] = 0%nat.
Proof. done. Qed.
Ltac costs := unfold actor_cost; cbn; rewrite ?tasks_cost_app, ?mail_cost_app, ?tasks_cost_cons, ?mail_cost_cons, ?(proj1 cost_nil), ?(proj2 cost_nil); cbn [task_cost effect_cost chain_cost]; try lia.
Lemma list_sum_cons n l : list_sum (n :: l) = (n + list_sum l)%nat.
Proof. done. Qed.
Lemma activate_cost (a : actor) : actor_cost (Actor.activate a) = actor_cost a.
Proof. unfold Actor.activate. now destruct (Actor.activatable a). Qed.
Lemma resolve_cost k st (a : actor) : (actor_cost (Actor.resolve k st a) <= actor_cost a + 1)%nat.
Proof.
  unfold Actor.resolve. destruct (_ !! _); [|lia]. unfold Actor.add_task. rewrite activate_cost. costs.
Qed.
Lemma do_effect_cost e (a : actor) : (actor_cost (Actor.do_effect e a) <= actor_cost a + effect_cost e)%nat.
Proof.
  destruct e as [c|c|k st|m]; cbn [Actor.do_effect]; [| |apply resolve_cost|].
  - unfold Actor.add_task. rewrite activate_cost. costs.
  - unfold Actor.add_urgent_task. rewrite activate_cost. costs.
  - unfold Actor.send. destruct (Actor.listed a); [|costs]. unfold Actor.enque_message, Actor.enque_urgent_message.
    destruct (_ =? _); rewrite activate_cost; costs.
Qed.
Lemma do_effects_cost es : forall a : actor, (actor_cost (Actor.do_effects es a) <= actor_cost a + effects_cost es)%nat.
Proof.
  induction es as [|e es IH]; intros a; cbn [Actor.do_effects]; [lia|]. unfold effects_cost in *. cbn [List.map]. rewrite list_sum_cons.
  pose proof (do_effect_cost e a). specialize (IH (Actor.do_effect e a)). lia.
Qed.
Lemma run_task_cost t q (a : actor) : Actor.tasks a = t :: q -> (actor_cost (fst (run_task t (Actor.with_tasks q a))) < actor_cost a)%nat.
Proof.
  intros Ht. assert (Ha : actor_cost a = (task_cost t + actor_cost (Actor.with_tasks q a))%nat) by (unfold actor_cost; rewrite Ht; costs).
  rewrite Ha. destruct t as [m st|[r c]]; cbn [run_task fst].
  - costs.
  - pose proof (do_effects_cost r (Actor.with_tasks q a)) as He. unfold effects_cost in He. cbn [task_cost chain_cost]. lia.
Qed.
Lemma clean_loop_cost fuel : forall a a' : actor, clean_loop fuel a = Ok a' -> (actor_cost a' <= actor_cost a)%nat.
Proof.
  induction fuel as [|fuel IH]; intros a a'; cbn [clean_loop]; (destruct (Actor.tasks a) as [|t q] eqn:Et; [now intros [= <-]|]); [done|].
  pose proof (run_task_cost t q a Et) as Hr. destruct (run_task t (Actor.with_tasks q a)) as [b st]. cbn [fst] in Hr. intros E. apply IH in E.
  replace (actor_cost (if st then Actor.with_listed false b else b)) with (actor_cost b) in E by (now destruct st). lia.
Qed.
Lemma cancel_cost ts : (tasks_cost (cancel <$> ts) <= tasks_cost ts)%nat.
Proof.
  unfold tasks_cost. induction ts as [|t ts IH]; [done|]. cbn [fmap list_fmap List.map]. rewrite !list_sum_cons.
  enough (task_cost (cancel t) <= task_cost t)%nat by lia. destruct t as [m st|[r c]]; cbn [cancel task_cost chain_cost]; lia.
Qed.
Lemma cancel_tasks_cost (a : actor) : (actor_cost (cancel_tasks a) <= actor_cost a)%nat.
Proof. unfold actor_cost, cancel_tasks. cbn. pose proof (cancel_cost (Actor.tasks a)). lia. Qed.
Lemma stop_cost_le force (a a' : actor) : Actor.stop force a = Ok a' -> (actor_cost a' <= actor_cost a)%nat.
Proof.
  assert (Hi : forall b : actor, actor_cost (Actor.activate_if_idle b) = actor_cost b) by (intros b; unfold Actor.activate_if_idle; destruct (_ && _); [apply activate_cost|done]).
  unfold Actor.stop. destruct (Actor.stopping a); [now intros [= <-]|]. destruct force; [|intros [= <-]; now rewrite Hi].
  intros E. apply bind_ok in E as (b & E & [= <-]). rewrite Hi. unfold clean_task_queue in E. apply bind_ok in E as (u & _ & E). apply clean_loop_cost in E.
  etrans; [exact E|]. etrans; [apply cancel_tasks_cost|]. unfold Actor.clean_mailbox. costs.
Qed.
Lemma stop_child_cost force (a a' : actor) : Actor.stop_child_actor force a = Ok a' -> (actor_cost a' <= actor_cost a)%nat.
Proof.
  unfold Actor.stop_child_actor. destruct (Actor.listed a); [|now intros [= <-]]. intros E. apply bind_ok in E as (b & E & [= <-]).
  apply stop_cost_le in E. exact E.
Qed.
Lemma stop_if_cost b (a a' : actor) : stop_if b a = Ok a' -> (actor_cost a' <= actor_cost a)%nat.
Proof. destruct b; [apply stop_child_cost|now intros [= <-]]. Qed.
Lemma complete_cost m (a a' : actor) full : complete do_work m a = Ok (a', full) -> (actor_cost a' <= actor_cost a + rank (body m))%nat.
Proof.
  unfold complete. destruct (_ =? USER).
  - pose proof (ranked (body m)) as Hr. destruct (do_work (body m)) as [es r|es]; cbn [work_effects] in Hr; pose proof (do_effects_cost es a) as He.
    + intros E. apply bind_ok in E as (b & E & [= <- _]). apply stop_if_cost in E. unfold actor_cost in *. cbn in E. lia.
    + intros [= <- _]. unfold actor_cost in *. cbn. lia.
  - destruct (_ =? PEACE_STOP); [|destruct (_ =? FORCE_STOP); [|done]]; intros E; apply bind_ok in E as (b & E & [= <- _]); apply stop_child_cost in E;
      unfold actor_cost in *; cbn; lia.
Qed.

#[local] Arguments stop_cost : simpl never.
(** *** Groups *)
Definition stop_list (os : list out) : Prop := Forall (fun p => is_stop (snd p) = true) (child_msgs os).
Lemma group_activate_cost (g : group (Sem := Sem)) : group_cost (Group.activate g) = group_cost g.
Proof. unfold Group.activate. now destruct (Group.activatable g). Qed.
Lemma activate_idle_same (g : group (Sem := Sem)) : Group.trace (Group.activate_if_idle g) = Group.trace g /\ group_cost (Group.activate_if_idle g) = group_cost g.
Proof. unfold Group.activate_if_idle. destruct (_ && _); [|done]. split; [|apply group_activate_cost]. unfold Group.activate. now destruct (Group.activatable g). Qed.

Lemma parent_stop_cost force (g : group (Sem := Sem)) : exists os, Group.trace (Group.parent_stop force g) = Group.trace g ++ os /\ stop_list os /\
  (group_cost (Group.parent_stop force g) + stop_cost * length (child_msgs os) <= group_cost g)%nat.
Proof.
  assert (Hn : exists os, Group.trace g = Group.trace g ++ os /\ stop_list os /\ (group_cost g + stop_cost * length (child_msgs os) <= group_cost g)%nat)
    by (exists []; rewrite app_nil_r; split; [done|split; [constructor|cbn; lia]]).
  unfold Group.parent_stop. destruct (Group.listed g); [|exact Hn]. unfold Group.stop. destruct (Group.stopping g) eqn:Es; [exact Hn|]. clear Hn.
  change (if force then _ else _) with (stop_body force g). destruct (stop_body_outs force g) as (woken & ms & Htr & _). cbv zeta in Htr.
  destruct (activate_idle_same (stop_body force g)) as [Ht Hc]. exists ((Scheduled <$> woken) ++ stop_msgs (if force then FORCE_STOP else PEACE_STOP) (Group.inst_map g) ++ (Reclaimed <$> ms)).
  assert (Hm : child_msgs ((Scheduled <$> woken) ++ stop_msgs (if force then FORCE_STOP else PEACE_STOP) (Group.inst_map g) ++ (Reclaimed <$> ms)) =
    (fun id => (id, if force then FORCE_STOP else PEACE_STOP)) <$> pointers (Group.inst_map g)).
  { unfold stop_msgs. rewrite !child_msgs_app, (child_msgs_quiet Scheduled), (child_msgs_quiet Reclaimed), child_msgs_stop_all, app_nil_r by done. done. }
  split; [cbn; now rewrite Ht|]. unfold stop_list. rewrite Hm. split; [apply Forall_fmap, Forall_true; intros; now destruct force|].
  rewrite length_fmap. change (group_cost (Group.with_listed false ?x)) with (group_cost x). rewrite Hc. fold (children (Group.inst_map g)).
  destruct (stop_body_fields force g) as (F1 & F2 & F3 & F4 & F5 & F6 & F7).
  assert (Hlen : (length (Group.mailbox (stop_body force g)) <= length (Group.mailbox g))%nat) by (destruct force; cbn; lia).
  unfold group_cost. rewrite Es, F7. lia.
Qed.
Lemma process_message_cost m q (g g' : group (Sem := Sem)) : Group.mailbox g = m :: q -> process_message m (Group.with_mailbox q g) = Ok g' ->
  stop_list (o_outs (OGroup g : obj) (OGroup g')) /\ (group_cost g' + stop_cost * length (child_msgs (o_outs (OGroup g : obj) (OGroup g'))) < group_cost g)%nat.
Proof.
  intros Em E. assert (Hg : group_cost g = S (group_cost (Group.with_mailbox q g))) by (unfold group_cost; rewrite Em; done).
  assert (Hk : forall force, Ok (Group.emit [Reclaimed m] (Group.with_cancel (g_src m, g_pr m) (Group.parent_stop force (Group.with_mailbox q g)))) = Ok g' ->
    stop_list (o_outs (OGroup g : obj) (OGroup g')) /\ (group_cost g' + stop_cost * length (child_msgs (o_outs (OGroup g : obj) (OGroup g'))) < group_cost g)%nat).
  { intros force [= <-]. destruct (parent_stop_cost force (Group.with_mailbox q g)) as (os & Ht & Hs & Hc).
    assert (Ho : o_outs (OGroup g : obj) (OGroup (Group.emit [Reclaimed m] (Group.with_cancel (g_src m, g_pr m) (Group.parent_stop force (Group.with_mailbox q g))))) = os ++ [Reclaimed m]).
    { unfold o_outs. cbn. rewrite Ht, <-app_assoc. apply drop_app_length. }
    rewrite Ho. unfold stop_list. rewrite child_msgs_app. cbn [child_msgs omap list_omap]. rewrite app_nil_r. split; [exact Hs|]. rewrite Hg.
    change (group_cost (Group.emit _ (Group.with_cancel _ ?x))) with (group_cost x). lia. }
  unfold process_message in E. destruct (_ =? PEACE_STOP); [exact (Hk _ E)|]. destruct (_ =? FORCE_STOP); [exact (Hk _ E)|done].
Qed.
Lemma children_forget id (m : gmap Z bool) : (children (<[id := false]> m) <= children m)%nat.
Proof.
  apply submseteq_length, NoDup_submseteq; [apply pointers_spec|]. intros x Hx. apply pointers_spec in Hx. apply pointers_spec.
  rewrite lookup_insert in Hx. now case_decide.
Qed.

(** *** The tree *)
Lemma left_set p o o' (T : shard) : objs T !! p = Some o -> (left_in (set_obj p o' T) + o_cost o = left_in T + o_cost o')%nat.
Proof. intros Ho. now apply total_update. Qed.
Lemma core_cost (o o' : obj) : core o' = core o -> o_cost o' = o_cost o.
Proof.
  destruct o as [a|g], o' as [a'|g']; cbn; intros H; try discriminate.
  - injection H as _ H1 H2 _ _ _ _ _ _ _ _ _ _. unfold actor_cost. now rewrite H1, H2.
  - injection H as H1 H2 _ H3 _ _ _ _ _ _. unfold group_cost, Group.stopping. now rewrite H1, H2, H3.
Qed.
Lemma stable_left (T T' : shard) : stable T T' -> left_in T' = left_in T.
Proof.
  intros [_ H]. assert (Hle : forall A B : shard, (forall rp, core <$> objs B !! rp = core <$> objs A !! rp) -> (left_in B <= left_in A)%nat).
  { intros A B HAB. apply total_le. intros k y Ey. specialize (HAB k). rewrite Ey in HAB. destruct (objs A !! k) as [x|] eqn:Ex; [|done]. injection HAB as Hc.
    exists x. split; [done|]. now rewrite (core_cost _ _ Hc). }
  pose proof (Hle T T' H). pose proof (Hle T' T ltac:(intros rp; now rewrite H)). lia.
Qed.
Lemma add_task_stable rp : forall id (T T' : shard), add_task rp id T = Ok T' -> stable T T'.
Proof.
  induction rp as [|pid rq IH]; intros id T T'; [intros [= <-]; now split|]. cbn [add_task]. destruct (objs T !! (pid :: rq)) as [[a|g]|] eqn:Eg; [done| |done].
  assert (Hs : stable T (set_obj (pid :: rq) (OGroup (Group.add_task id g)) T)).
  { split; [done|]. intros q. cbn [objs set_obj]. destruct (decide (q = pid :: rq)) as [->|Hq]; [|now rewrite lookup_insert_ne]. rewrite lookup_insert_eq, Eg. cbn. f_equal.
    unfold Group.add_task, Group.activate. now destruct (Group.activatable _). }
  destruct (_ <? _)%nat; [|intros [= <-]; exact Hs]. intros E. eapply stable_trans; [exact Hs|]. eapply IH. exact E.
Qed.
Lemma settle_left id rp o o' (T T' : shard) : settle id rp o o' T = Ok T' -> objs T !! (id :: rp) = Some o ->
  (left_in T' + o_cost o = left_in T + o_cost o')%nat /\ stable (set_obj (id :: rp) o' T) T'.
Proof.
  intros E Ho. assert (Hs : stable (set_obj (id :: rp) o' T) T').
  { unfold settle in E. destruct (_ <? _)%nat; [eapply add_task_stable; exact E|injection E as <-; now split]. }
  split; [|exact Hs]. rewrite (stable_left _ _ Hs). now apply left_set.
Qed.
Lemma o_schedule_core (o o' : obj) : o_schedule o = Ok o' -> core o' = core o /\ o_sched o = INITIALIZED /\ o_sched o' = SCHEDULED /\ o_queued o' = S (o_queued o).
Proof.
  destruct o as [a|g]; cbn; intros E; apply bind_ok in E as (x & E & [= <-]); apply bind_ok in E as (u & Eu & [= <-]); unfold assert in Eu;
    (case_bool_decide as Hs; [|done]); done.
Qed.
Lemma schedule_at_left id rp (T T' : shard) : schedule_at id rp T = Ok T' -> left_in T' = left_in T.
Proof.
  unfold schedule_at. intros E. apply bind_ok in E as (o & Eo & E). apply bind_ok in E as (o' & Es & E). destruct (objs T !! (id :: rp)) as [x|] eqn:Ex; [|done].
  injection Eo as ->. destruct (settle_left _ _ _ _ _ _ E Ex) as [H _]. destruct (o_schedule_core _ _ Es) as (Hc & _). rewrite (core_cost _ _ Hc) in H. lia.
Qed.
Lemma stop_message_cost t (o : obj) : is_stop t = true -> (o_cost (o_enqueue (stop_message t) o) <= o_cost o + stop_cost)%nat.
Proof.
  intros Ht. destruct (stop_message_type (D := D) (Q := Q) t Ht) as (Hu & Ha & Hg). destruct o as [a|g]; cbn [o_enqueue o_cost]; rewrite Hu.
  - unfold Actor.enque_urgent_message. rewrite activate_cost. costs. unfold msg_cost, stop_cost. unfold actor_msg. cbn [body].
    apply orb_prop in Ht as [->%Z.eqb_eq| ->%Z.eqb_eq]; lia.
  - unfold Group.enque_urgent_message. rewrite group_activate_cost. assert (0 < stop_cost)%nat by (unfold stop_cost; lia).
    unfold group_cost, Group.stopping. cbn. lia.
Qed.
Lemma do_outs_left rp os : forall T T' : shard, stop_list os -> do_outs rp os T = Ok T' -> (left_in T' <= left_in T + stop_cost * length (child_msgs os))%nat.
Proof.
  induction os as [|x os IH]; intros T T' Hs; cbn [do_outs]; [intros [= <-]; lia|]. intros E. apply bind_ok in E as (T1 & E1 & E).
  destruct x as [id|id|id t|id f|m| |a b]; cbn [do_out] in E1; unfold stop_list in Hs; cbn [child_msgs omap list_omap] in *; fold (child_msgs os) in *;
    try (injection E1 as <-; exact (IH _ _ Hs E)).
  - rewrite <-(schedule_at_left _ _ _ _ E1). exact (IH _ _ Hs E).
  - apply Forall_cons in Hs as [Ht Hs]. cbn [snd] in Ht. specialize (IH _ _ Hs E). unfold deliver in E1. destruct (objs T !! (id :: rp)) as [o|] eqn:Eo; [|done].
    destruct (settle_left _ _ _ _ _ _ E1 Eo) as [H _]. pose proof (stop_message_cost t o Ht). cbn [length]. lia.
Qed.
Lemma forget_left id rp force (T T' : shard) : forget id rp force T = Ok T' -> (left_in T' <= left_in T)%nat /\ objs T' !! (id :: rp) = objs T !! (id :: rp).
Proof.
  unfold forget. destruct rp as [|pid rq]; [intros E; apply bind_ok in E as (e & _ & [= <-]); done|].
  destruct (objs T !! (pid :: rq)) as [[a|g]|] eqn:Eg; [done| |done]. intros E. apply bind_ok in E as (g' & E & [= <-]).
  assert (Hc : (group_cost g' <= group_cost g)%nat).
  { unfold Group.stop_child_actor in E. destruct (Group.inst_map g !! id) as [[]|]; [|now injection E as <-|done]. injection E as <-.
    unfold group_cost, Group.stopping. cbn. pose proof (children_forget id (Group.inst_map g)). case_bool_decide; cbn; [nia|lia]. }
  pose proof (left_set (pid :: rq) (OGroup g) (OGroup g') T Eg) as H. cbn [o_cost] in H. split; [lia|]. cbn [objs set_obj].
  apply lookup_insert_ne. intros E2. symmetry in E2. now apply not_below in E2.
Qed.
Lemma update_left id rp o o' (T T' : shard) : stop_list (o_outs o o') -> objs T !! (id :: rp) = Some o -> update id rp o o' T = Ok T' ->
  (left_in T' + o_cost o <= left_in T + o_cost o' + stop_cost * length (child_msgs (o_outs o o')))%nat.
Proof.
  intros Hs Ho E. unfold update in E. apply bind_ok in E as (T1 & E1 & E). apply bind_ok in E as (T2 & E2 & E).
  assert (H1 : (left_in T1 <= left_in T)%nat /\ objs T1 !! (id :: rp) = Some o)
    by (destruct (_ && _); [apply forget_left in E1 as [? H]; split; [done|congruence]|injection E1 as <-; done]).
  destruct H1 as [H1 Ho1]. destruct (settle_left _ _ _ _ _ _ E2 Ho1) as [H2 _]. pose proof (do_outs_left _ _ _ _ Hs E) as H3. lia.
Qed.

(** ** Who is not idle *)
Definition active (o : obj) : nat := if bool_decide (o_sched o = SCHEDULABLE) then 0 else 1.
Definition active_in (T : shard) : nat := total active (objs T).
Definition queued_in (T : shard) : nat := total o_queued (objs T).
(** The parent is running. *)
Definition parent_runs (rp : list Z) (T : shard) : Prop :=
  match rp with [] => True | _ => exists g, objs T !! rp = Some (OGroup g) /\ Group.sched g <> SCHEDULABLE end.

Lemma active_set p o o' (T : shard) : objs T !! p = Some o -> (active_in (set_obj p o' T) + active o = active_in T + active o')%nat.
Proof. intros Ho. now apply total_update. Qed.
Lemma queued_set p o o' (T : shard) : objs T !! p = Some o -> (queued_in (set_obj p o' T) + o_queued o = queued_in T + o_queued o')%nat.
Proof. intros Ho. now apply total_update. Qed.
Lemma active_sched (o o' : obj) : o_sched o' = o_sched o -> active o' = active o.
Proof. unfold active. now intros ->. Qed.
Lemma parent_runs_set id rp o (T : shard) : parent_runs rp T -> parent_runs rp (set_obj (id :: rp) o T).
Proof.
  destruct rp as [|pid rq]; [done|]. intros (g & Eg & Hg). exists g. split; [|done]. cbn [objs set_obj]. rewrite lookup_insert_ne; [done|]. apply not_below.
Qed.
Lemma add_task_busy id rp (T T' : shard) : parent_runs rp T -> add_task rp id T = Ok T' ->
  active_in T' = active_in T /\ queued_in T' = queued_in T /\ parent_runs rp T'.
Proof.
  destruct rp as [|pid rq]; [intros _ [= <-]; done|]. intros (g & Eg & Hg). cbn [add_task]. rewrite Eg.
  assert (Ha : Group.add_task id g = Group.with_tq (push_task id (Group.tq g)) g) by (unfold Group.add_task, Group.activate, Group.activatable; cbn; now rewrite bool_decide_eq_false_2).
  rewrite Ha. cbn [Group.queued Group.with_tq]. rewrite Nat.ltb_irrefl. intros [= <-].
  set (g' := Group.with_tq (push_task id (Group.tq g)) g). pose proof (active_set _ _ (OGroup g') T Eg) as H1. pose proof (queued_set _ _ (OGroup g') T Eg) as H2.
  rewrite (active_sched (OGroup g) (OGroup g') eq_refl) in H1. change (o_queued (OGroup g')) with (o_queued (OGroup g : obj)) in H2. split; [lia|]. split; [lia|].
  eexists. cbn [objs set_obj]. rewrite lookup_insert_eq. split; [reflexivity|exact Hg].
Qed.
Lemma settle_busy id rp o o' (T T' : shard) : parent_runs rp T -> objs T !! (id :: rp) = Some o -> settle id rp o o' T = Ok T' ->
  (active_in T' + active o = active_in T + active o')%nat /\ (queued_in T' + o_queued o = queued_in T + o_queued o')%nat /\ parent_runs rp T'.
Proof.
  intros Hp Ho E. pose proof (active_set _ _ o' T Ho) as H1. pose proof (queued_set _ _ o' T Ho) as H2. pose proof (parent_runs_set id rp o' T Hp) as Hp'.
  unfold settle in E. destruct (_ <? _)%nat; [|injection E as <-; done]. destruct (add_task_busy _ _ _ _ Hp' E) as (H3 & H4 & H5). split; [lia|]. split; [lia|done].
Qed.
Lemma wake_active rp w : forall T T' : shard, do_outs rp (Scheduled <$> w) T = Ok T' -> left_in T' = left_in T /\ (parent_runs rp T -> active_in T' = active_in T).
Proof.
  induction w as [|id w IH]; intros T T'; cbn [fmap list_fmap do_outs]; [intros [= <-]; done|]. intros E. apply bind_ok in E as (T1 & E1 & E). cbn [do_out] in E1.
  destruct (IH _ _ E) as [H1 H2]. rewrite H1, (schedule_at_left _ _ _ _ E1). split; [done|]. intros Hp. unfold schedule_at in E1.
  apply bind_ok in E1 as (o & Eo & E1). apply bind_ok in E1 as (o' & Es & E1). destruct (objs T !! (id :: rp)) as [x|] eqn:Ex; [|done]. injection Eo as ->.
  destruct (settle_busy _ _ _ _ _ _ Hp Ex E1) as (H3 & _ & H4). rewrite (H2 H4). destruct (o_schedule_core _ _ Es) as (_ & S1 & S2 & _).
  unfold active in H3. rewrite S1, S2, !bool_decide_eq_false_2 in H3 by done. lia.
Qed.

Lemma leave_removes id rp o (T T' : shard) : objs T !! (id :: rp) = Some o -> leave id rp T = Ok T' ->
  (left_in T' + o_cost o = left_in T)%nat /\ (parent_runs rp T -> (active_in T' + active o = active_in T)%nat).
Proof.
  intros Ho E. set (T0 := mk_shard (root T) (delete (id :: rp) (objs T)) (reactor T)) in *.
  assert (H0 : (left_in T = o_cost o + left_in T0)%nat /\ (active_in T = active o + active_in T0)%nat) by (split; now apply total_delete). destruct H0 as [HL0 HA0].
  enough (H : exists w T1, do_outs rp (Scheduled <$> w) T1 = Ok T' /\ left_in T1 = left_in T0 /\ active_in T1 = active_in T0 /\ (parent_runs rp T -> parent_runs rp T1)).
  { destruct H as (w & T1 & Ew & H1 & H2 & H3). destruct (wake_active rp w T1 T' Ew) as [H4 H5]. split; [lia|]. intros Hp. rewrite (H5 (H3 Hp)). lia. }
  unfold leave in E. cbv zeta in E. fold T0 in E. destruct rp as [|pid rq].
  - unfold update_root in E. change (root T0) with (root T) in E.
    destruct (notify_engine (Engine.alive (root T) ∖ {[id]}) (root T)) as (w & os & Htr & Hos & _). cbv zeta in Htr.
    rewrite Htr, drop_app_length, do_eouts_app in E. set (e' := Engine.notify_child_stopped _) in *.
    replace (do_eouts os (with_root e' T0)) with (Ok (with_root e' T0)) in E by (now destruct Hos as [-> | ->]). cbn [mbind res_bind] in E.
    rewrite do_eouts_scheduled in E. exists w, (with_root e' T0). done.
  - assert (Hne : pid :: rq <> id :: pid :: rq) by (intros E2; symmetry in E2; now apply not_below in E2).
    destruct (objs T0 !! (pid :: rq)) as [[a|g]|] eqn:Eg; [done| |done]. destruct (notify_group (Group.alive g ∖ {[id]}) g) as (w & Htr & _ & _ & Hm & _ & Hst & _ & Hmb & _ & Hsc).
    set (g' := Group.notify_child_stopped _) in *. cbv zeta in *. unfold o_outs in E. cbn [o_trace] in E. rewrite Htr, drop_app_length in E.
    exists w, (set_obj (pid :: rq) (OGroup g') T0). split; [exact E|].
    pose proof (left_set _ _ (OGroup g') T0 Eg) as H1. pose proof (active_set _ _ (OGroup g') T0 Eg) as H2. rewrite (active_sched (OGroup g) (OGroup g') Hsc) in H2.
    assert (Hc : group_cost g' = group_cost g) by (unfold group_cost, Group.stopping; now rewrite Hmb, Hst, Hm). cbn [o_cost] in H1. rewrite Hc in H1.
    split; [lia|]. split; [lia|]. intros (g0 & Eg0 & Hg0). assert (objs T0 !! (pid :: rq) = Some (OGroup g0)) as Eg1 by (cbn; now rewrite lookup_delete_ne).
    assert (g0 = g) as -> by congruence. exists g'. cbn [objs set_obj]. rewrite lookup_insert_eq. split; [done|congruence].
Qed.

(** *** The end of a run *)
(** Why an object goes back to the queue at once. *)
Definition pending (o : obj) : Prop :=
  match o with
  | OActor a => Actor.tasks a <> [] \/ Actor.mailbox a <> []
  | OGroup g => Group.mailbox g <> [] \/ TaskQueue.empty (Group.tq g) = false
  end.
Lemma finish_moves (o : obj) : o_deleted (o_finish o) = true \/ o_cost (o_finish o) = o_cost o /\
  (o_sched (o_finish o) = SCHEDULABLE \/ o_sched (o_finish o) = SCHEDULED /\ o_queued (o_finish o) = S (o_queued o) /\ pending o).
Proof.
  destruct o as [a|g]; cbn [o_finish o_deleted o_cost o_sched o_queued pending].
  - unfold Actor.finish. destruct (_ && _ && _); [now left|]. right. cbv zeta. destruct (_ || _) eqn:E; [|now auto]. rewrite activate_cost. split; [done|]. right. split; [done|]. split; [done|].
    change (Actor.tasks (Actor.set_activatable a)) with (Actor.tasks a) in E. change (Actor.mailbox (Actor.set_activatable a)) with (Actor.mailbox a) in E.
    destruct (Actor.tasks a); [right|now left]. now destruct (Actor.mailbox a).
  - unfold Group.finish. destruct (_ && _ && _ && _); [now left|]. right. cbv zeta. destruct (_ || _) eqn:E; [|now auto]. rewrite group_activate_cost. split; [done|]. right. split; [done|]. split; [done|].
    change (Group.mailbox (Group.set_activatable g)) with (Group.mailbox g) in E. change (Group.tq (Group.set_activatable g)) with (Group.tq g) in E.
    destruct (Group.mailbox g); [right|now left]. now apply negb_true_iff in E.
Qed.
Lemma final_left id rp o (s s' : state) : objs (tree s) !! (id :: rp) = Some o -> final id rp o s = Ok s' -> frame s' = back rp /\ (left_in (tree s') <= left_in (tree s))%nat.
Proof.
  intros Ho E. unfold final in E. cbv zeta in E. apply bind_ok in E as (T & E & [= <-]). split; [done|]. cbn [tree]. destruct (finish_moves o) as [Hd|[Hc _]].
  - rewrite Hd in E. destruct (leave_removes _ _ _ _ _ Ho E). lia.
  - destruct (o_deleted (o_finish o)); [destruct (leave_removes _ _ _ _ _ Ho E); lia|]. destruct (settle_left _ _ _ _ _ _ E Ho). lia.
Qed.
Lemma final_moves id rp o (s s' : state) : objs (tree s) !! (id :: rp) = Some o -> o_sched o <> SCHEDULABLE -> parent_runs rp (tree s) -> final id rp o s = Ok s' ->
  (active_in (tree s') < active_in (tree s))%nat \/ active_in (tree s') = active_in (tree s) /\ queued_in (tree s') = S (queued_in (tree s)) /\ pending o.
Proof.
  intros Ho Hs Hp E. unfold final in E. cbv zeta in E. apply bind_ok in E as (T & E & [= <-]). cbn [tree].
  assert (Ha : active o = 1%nat) by (unfold active; now rewrite bool_decide_eq_false_2).
  assert (Hleave : leave id rp (tree s) = Ok T -> (active_in T < active_in (tree s))%nat) by (intros E'; destruct (leave_removes _ _ _ _ _ Ho E') as [_ H]; specialize (H Hp); lia).
  destruct (finish_moves o) as [Hd|[_ Hm]]; [rewrite Hd in E; auto|]. destruct (o_deleted (o_finish o)); [auto|].
  destruct (settle_busy _ _ _ _ _ _ Hp Ho E) as (H1 & H2 & _). destruct Hm as [Hm|(Hm & Hq & Hpd)]; unfold active in H1 at 2; rewrite Hm in H1.
  - rewrite bool_decide_eq_true_2 in H1 by done. left. lia.
  - rewrite bool_decide_eq_false_2 in H1 by done. right. split; [lia|]. split; [lia|done].
Qed.

(** ** The measure *)
Definition frame_rank (s : state) : nat :=
  match frame s with
  | None => 0
  | Some (p, ph) =>
      match ph, objs (tree s) !! p with
      | Returned, _ => 6 * length p
      | Tasks, Some (OActor _) => 2
      | Tasks, Some (OGroup g) => match Group.mailbox g with [] => 1 | _ => 6 * length p - 1 end
      | Mailbox, Some (OActor a) => match Actor.tasks a with [] => 1 | _ => 6 * length p - 1 end
      | Mailbox, Some (OGroup _) => 2
      | _, _ => 0
      end
  end%nat.
Definition progress (s : state) : nat := (3 * queued_in (tree s) + frame_rank s)%nat.
Definition smaller (s' s : state) : Prop :=
  (left_to_do s' < left_to_do s \/ left_to_do s' <= left_to_do s /\
    (active_in (tree s') < active_in (tree s) \/ active_in (tree s') <= active_in (tree s) /\ progress s' < progress s))%nat.

Lemma smaller_wf : well_founded smaller.
Proof.
  assert (H : forall x y z s, (left_to_do s <= x -> active_in (tree s) <= y -> progress s <= z -> Acc smaller s)%nat).
  { induction x as [x IHx] using lt_wf_ind. induction y as [y IHy] using lt_wf_ind. induction z as [z IHz] using lt_wf_ind. intros s H1 H2 H3. constructor.
    intros s' [Hs|[Hle [Hs|[Hle2 Hs]]]].
    - apply (IHx (left_to_do s') ltac:(lia) (active_in (tree s')) (progress s')); lia.
    - apply (IHy (active_in (tree s')) ltac:(lia) (progress s')); lia.
    - apply (IHz (progress s')); lia. }
  intros s. now apply (H (left_to_do s) (active_in (tree s)) (progress s)).
Qed.

Lemma back_rank rp (s : state) : frame s = back rp -> frame_rank s = (6 * length rp)%nat /\ hand_cost s = 0%nat.
Proof. intros Ef. unfold frame_rank, hand_cost, inhand. rewrite Ef. now destruct rp. Qed.

Abbreviation next := (next (D := D) (Q := Q) (P := P) (Sem := Sem)).
Lemma next_smaller id rp o o' yield ph (s s' : state) : objs (tree s) !! (id :: rp) = Some o -> stop_list (o_outs o o') -> (forall m, ph <> Handling m) ->
  (o_cost o' + stop_cost * length (child_msgs (o_outs o o')) < o_cost o + hand_cost s)%nat -> next id rp o o' yield ph s = Ok s' -> smaller s' s.
Proof.
  intros Ho Hs Hph Hlt E. left. unfold next in E. apply bind_ok in E as (T & E1 & E). pose proof (update_left _ _ _ _ _ _ Hs Ho E1) as Hu. unfold left_to_do. destruct yield.
  - apply bind_ok in E as (x & Ex & E). destruct (objs T !! (id :: rp)) as [y|] eqn:Ey; [|done]. injection Ex as ->.
    destruct (final_left id rp x (with_frame (frame s) T s) s' Ey E) as [Hf Hl]. cbn [tree with_frame] in Hl. destruct (back_rank _ _ Hf) as [_ Hh]. lia.
  - injection E as <-. cbn [tree with_frame]. unfold hand_cost at 1, inhand. cbn [frame with_frame]. destruct ph; try lia. now destruct (Hph m).
Qed.
Lemma final_smaller id rp o ph (s s' : state) : frame s = Some (id :: rp, ph) -> objs (tree s) !! (id :: rp) = Some o -> o_sched o <> SCHEDULABLE -> parent_runs rp (tree s) ->
  (pending o -> 6 * length rp + 3 < frame_rank s)%nat -> final id rp o s = Ok s' -> smaller s' s.
Proof.
  intros Hf Ho Hs Hp Hr E. right. destruct (final_left _ _ _ _ _ Ho E) as [Hb Hl]. destruct (back_rank _ _ Hb) as [Hfr Hh]. unfold left_to_do. rewrite Hh. split; [lia|].
  destruct (final_moves _ _ _ _ _ Ho Hs Hp E) as [?|(H1 & H2 & H3)]; [now left|right]. split; [lia|]. specialize (Hr H3). unfold progress. rewrite Hfr. lia.
Qed.

(** ** Every step *)
Lemma running_facts id rp ph o (s : state) : inv s -> frame s = Some (id :: rp, ph) -> objs (tree s) !! (id :: rp) = Some o ->
  o_sched o <> SCHEDULABLE /\ parent_runs rp (tree s) /\ phase_ok ph o.
Proof.
  intros [Ht _ Hf] Ef Ho. unfold cur in Ht. rewrite Ef in Ht, Hf. cbn [fmap option_fmap option_map fst] in Ht. destruct Hf as (o2 & Eo2 & Hph).
  assert (o2 = o) as -> by congruence. pose proof (t_live _ _ _ _ _ Ht _ _ Ho) as Hl. rewrite busy_self in Hl. apply o_running_sched in Hl. split; [congruence|]. split; [|done].
  destruct rp as [|pid rq]; [done|]. destruct (parent_group kind_of _ _ id pid rq _ Ht ltac:(eauto)) as [g Eg]. exists g. split; [done|].
  pose proof (t_live _ _ _ _ _ Ht _ _ Eg) as Hg. rewrite busy_parent_self in Hg. apply o_running_sched in Hg. cbn in Hg. congruence.
Qed.
Lemma start_moves p o (T : shard) (s s' : state) : objs T !! p = Some o -> o_queued o = 1%nat -> start p T s = Ok s' ->
  (left_in (tree s') <= left_in T /\ active_in (tree s') = active_in T /\ queued_in T = S (queued_in (tree s')) /\ frame_rank s' = 2 /\ hand_cost s' = 0)%nat.
Proof.
  intros Ho Hq E. unfold start in E. rewrite Ho in E. cbn [of_option mbind res_bind] in E. injection E as <-. cbn [tree with_frame].
  assert (H : (o_cost (started o) <= o_cost o /\ o_sched (started o) = o_sched o /\ o_queued (started o) = 0)%nat).
  { destruct o as [a|g]; cbn in *; rewrite Hq; [|done]. destruct (force_stopping _); [|done]. split; [|done].
    etrans; [apply cancel_tasks_cost|]. done. }
  destruct H as (H1 & H2 & H3). pose proof (left_set p o (started o) T Ho) as L1. pose proof (active_set p o (started o) T Ho) as L2. pose proof (queued_set p o (started o) T Ho) as L3.
  rewrite (active_sched o (started o) H2) in L2. split; [lia|]. split; [lia|]. split; [lia|].
  unfold frame_rank, hand_cost, inhand. cbn [frame tree with_frame objs set_obj]. rewrite lookup_insert_eq. now destruct o.
Qed.

Lemma actor_step_smaller id rp ph a yield (s s' : state) : inv s -> frame s = Some (id :: rp, ph) -> objs (tree s) !! (id :: rp) = Some (OActor a) ->
  actor_step do_work id rp ph a yield s = Ok s' -> smaller s' s.
Proof.
  intros Hi Ef Ho E. destruct (running_facts id rp ph _ s Hi Ef Ho) as (Hs & Hp & Hph).
  destruct ph as [| | |m]; cbn [actor_step] in E; [| |done|].
  - assert (Hh : hand_cost s = 0%nat) by (unfold hand_cost, inhand; now rewrite Ef). destruct (Actor.tasks a) as [|t q] eqn:Et.
    + right. unfold left_to_do. destruct (_ =? _).
      * apply bind_ok in E as (T & E & [= <-]). cbn [tree with_frame]. destruct (settle_left _ _ _ _ _ _ E Ho) as [H1 _]. destruct (settle_busy _ _ _ _ _ _ Hp Ho E) as (H2 & _).
        destruct (back_rank rp (with_frame (back rp) T s) eq_refl) as [_ ->]. change (o_cost (OActor (Actor.set_activatable a))) with (o_cost (OActor a)) in H1.
        unfold active in H2. rewrite (bool_decide_eq_false_2 _ Hs), bool_decide_eq_true_2 in H2 by done. split; [lia|left; lia].
      * injection E as <-. cbn [tree with_frame]. change (hand_cost (with_frame (Some (id :: rp, Mailbox)) (tree s) s)) with 0%nat. split; [lia|]. right. split; [done|].
        unfold progress, frame_rank. rewrite Ef. cbn [frame tree with_frame]. rewrite Ho, Et. lia.
    + pose proof (run_task_cost t q a Et) as Hr. destruct (run_task t (Actor.with_tasks q a)) as [b st]. cbn [fst] in Hr. apply bind_ok in E as (b' & Eb & E).
      apply stop_if_cost in Eb. apply (next_smaller id rp (OActor a) (OActor b') yield Tasks s s' Ho); [constructor|done| |exact E]. cbn [o_cost]. cbn. lia.
  - assert (Hh : hand_cost s = 0%nat) by (unfold hand_cost, inhand; now rewrite Ef). destruct (Actor.mailbox a) as [|m q] eqn:Em.
    + eapply final_smaller; [exact Ef|exact Ho|exact Hs|exact Hp| |exact E]. intros [Ht|Hm]; [|congruence]. unfold frame_rank. rewrite Ef, Ho. cbn [length].
      destruct (Actor.tasks a); [done|]. lia.
    + injection E as <-. left. unfold left_to_do. cbn [tree with_frame]. rewrite Hh. unfold hand_cost, inhand. cbn [frame with_frame].
      pose proof (left_set (id :: rp) _ (OActor (begin m (Actor.with_mailbox q a))) (tree s) Ho) as H1. cbn [o_cost] in H1.
      assert (Hc : (actor_cost (begin m (Actor.with_mailbox q a)) + msg_cost m = actor_cost a)%nat) by (unfold begin; destruct (_ =? _); unfold actor_cost; rewrite Em; cbn; rewrite mail_cost_cons; lia).
      unfold msg_cost in Hc. lia.
  - apply bind_ok in E as ([a' full] & Ec & E). apply complete_cost in Ec. apply (next_smaller id rp (OActor a) (OActor a') (full || yield) Mailbox s s' Ho); [constructor|done| |exact E].
    unfold hand_cost, inhand. rewrite Ef. cbn. lia.
Qed.
Lemma group_step_smaller id rp ph g yield (s s' : state) : inv s -> frame s = Some (id :: rp, ph) -> objs (tree s) !! (id :: rp) = Some (OGroup g) ->
  group_step id rp ph g yield s = Ok s' -> smaller s' s.
Proof.
  intros Hi Ef Ho E. destruct (running_facts id rp ph _ s Hi Ef Ho) as (Hs & Hp & Hph). destruct ph as [| | |m]; cbn [group_step] in E; [| | |done];
    (assert (Hh : hand_cost s = 0%nat) by (unfold hand_cost, inhand; now rewrite Ef)).
  - destruct (TaskQueue.empty (Group.tq g)) eqn:Ee.
    + eapply final_smaller; [exact Ef|exact Ho|exact Hs|exact Hp| |exact E]. intros [Hm|Hm]; [|congruence]. unfold frame_rank. rewrite Ef, Ho. cbn [length].
      destruct (Group.mailbox g); [done|]. lia.
    + destruct Hi as [Ht _ _]. unfold cur in Ht. rewrite Ef in Ht. cbn [fmap option_fmap option_map fst] in Ht. pose proof (t_live _ _ _ _ _ Ht _ _ Ho) as Hl. rewrite busy_self in Hl. cbn [o_live] in Hl.
      destruct (pop_task_spec (Group.tq g) (b_tq _ (proj1 Hl)) Ee) as (x & q & Epop & _ & Hperm & _). rewrite Epop in E. cbn [mbind res_bind] in E.
      assert (Hin : x ∈ queued_tasks (Group.tq g)) by (rewrite Hperm; now left).
      destruct (proj2 (t_alive _ _ _ _ _ Ht x (id :: rp))) as [o Eo]; [cbn [alive_at]; rewrite Ho; now apply (b_members _ (proj1 Hl))|].
      assert (Hq : o_queued o = 1%nat) by (rewrite (t_queued _ _ _ _ _ Ht _ _ _ Eo); unfold tasks_at; rewrite Ho; cbn [o_tasks]; rewrite decide_True by done; done).
      set (g' := Group.with_tq q g) in *. pose proof (left_set _ _ (OGroup g') (tree s) Ho) as L1. pose proof (active_set _ _ (OGroup g') (tree s) Ho) as L2.
      pose proof (queued_set _ _ (OGroup g') (tree s) Ho) as L3. rewrite (active_sched (OGroup g) (OGroup g') eq_refl) in L2. change (o_cost (OGroup g')) with (o_cost (OGroup g : obj)) in L1.
      change (o_queued (OGroup g')) with (o_queued (OGroup g : obj)) in L3.
      assert (Eo' : objs (set_obj (id :: rp) (OGroup g') (tree s)) !! (x :: id :: rp) = Some o) by (cbn [objs set_obj]; rewrite lookup_insert_ne; [done|intros E2; symmetry in E2; now apply not_below in E2]).
      destruct (start_moves _ _ _ _ _ Eo' Hq E) as (M1 & M2 & M3 & M4 & M5). right. unfold left_to_do. rewrite M5. split; [lia|]. right. split; [lia|].
      unfold progress. rewrite M4. lia.
  - destruct (Group.mailbox g) as [|m q] eqn:Em.
    + injection E as <-. right. unfold left_to_do. cbn [tree with_frame]. change (hand_cost (with_frame (Some (id :: rp, Tasks)) (tree s) s)) with 0%nat. split; [lia|]. right. split; [done|].
      unfold progress, frame_rank. rewrite Ef. cbn [frame tree with_frame]. rewrite Ho, Em. lia.
    + apply bind_ok in E as (g' & Eg & E). destruct (process_message_cost m q g g' Em Eg) as [H1 H2]. apply (next_smaller id rp (OGroup g) (OGroup g') yield Mailbox s s' Ho H1); [done| |exact E]. cbn [o_cost]. lia.
  - destruct yield.
    + eapply final_smaller; [exact Ef|exact Ho|exact Hs|exact Hp| |exact E]. intros _. unfold frame_rank. rewrite Ef. cbn [length]. lia.
    + injection E as <-. right. unfold left_to_do. cbn [tree with_frame]. change (hand_cost (with_frame (Some (id :: rp, Tasks)) (tree s) s)) with 0%nat. split; [lia|]. right. split; [done|].
      unfold progress, frame_rank. rewrite Ef. cbn [frame tree with_frame]. rewrite Ho. cbn [length]. destruct (Group.mailbox g); lia.
Qed.

(** ** The shard alone *)
(** The reactor takes a task when nothing runs; what runs goes on. *)
Definition alone (yield : bool) (s : state) : res state := step (match frame s with None => Reactor | Some _ => Run yield end) s.
Fixpoint alone_run (yields : list bool) (s : state) : res state :=
  match yields with [] => Ok s | yield :: yields => s ← alone yield s; alone_run yields s end.
Definition quiet (s : state) : Prop := frame s = None /\ reactor (tree s) = [].

Lemma alone_quiet yield (s : state) : quiet s -> alone yield s = Ok s.
Proof. intros [Hf Hr]. unfold alone. rewrite Hf. cbn. now rewrite Hf, Hr. Qed.
Lemma alone_smaller yield (s s' : state) : inv s -> ~ quiet s -> alone yield s = Ok s' -> smaller s' s.
Proof.
  intros Hi Hn E. unfold alone in E. destruct (frame s) as [[p ph]|] eqn:Ef; cbn [TreeRun.step] in E.
  - unfold run_step in E. rewrite Ef in E. pose proof (v_frame _ _ Hi) as Hf. rewrite Ef in Hf. destruct Hf as (o & Eo & _).
    destruct p as [|id rp]; [now rewrite (t_root _ _ _ _ _ (v_tree _ _ Hi)) in Eo|]. rewrite Eo in E. destruct o as [a|g]; [eapply actor_step_smaller|eapply group_step_smaller]; eassumption.
  - rewrite Ef in E. destruct (reactor (tree s)) as [|id r] eqn:Er; [destruct Hn; now split|]. destruct Hi as [Ht _ _]. unfold cur, inhand in Ht. rewrite Ef in Ht. cbn in Ht.
    assert (Hin : id ∈ Engine.alive (root (tree s))) by (apply (t_reactor _ _ _ _ _ Ht); rewrite Er; now left).
    destruct (proj2 (t_alive _ _ _ _ _ Ht id []) Hin) as [o Eo].
    assert (Hq : o_queued o = 1%nat) by (rewrite (t_queued _ _ _ _ _ Ht _ _ _ Eo); cbn [tasks_at]; rewrite Er, decide_True by (now left); done).
    destruct (start_moves [id] o (mk_shard (root (tree s)) (objs (tree s)) r) s s' Eo Hq E) as (M1 & M2 & M3 & M4 & M5). right. unfold left_to_do. rewrite M5.
    change (left_in (mk_shard (root (tree s)) (objs (tree s)) r)) with (left_in (tree s)) in M1. change (active_in (mk_shard (root (tree s)) (objs (tree s)) r)) with (active_in (tree s)) in M2.
    change (queued_in (mk_shard (root (tree s)) (objs (tree s)) r)) with (queued_in (tree s)) in M3. split; [lia|]. right. split; [lia|]. unfold progress. lia.
Qed.

(** The actor system of a shard is not started or stopped by it alone. *)
Abbreviation status T := (Engine.status (root T)).
Lemma leave_status id rp (T T' : shard) : leave id rp T = Ok T' -> status T' = status T.
Proof.
  unfold leave. cbv zeta. set (T0 := mk_shard (root T) (delete (id :: rp) (objs T)) (reactor T)). destruct rp as [|pid rq].
  - unfold update_root. change (root T0) with (root T). destruct (notify_engine (Engine.alive (root T) ∖ {[id]}) (root T)) as (w & os & Htr & Hos & _ & _ & _ & Hst). cbv zeta in Htr.
    rewrite Htr, drop_app_length, do_eouts_app. set (e' := Engine.notify_child_stopped _) in *. replace (do_eouts os (with_root e' T0)) with (Ok (with_root e' T0)) by (now destruct Hos as [-> | ->]).
    cbn [mbind res_bind]. rewrite do_eouts_scheduled. intros E. rewrite (do_outs_same _ _ _ _ E). exact Hst.
  - destruct (objs T0 !! (pid :: rq)) as [[a|g]|]; [done| |done]. intros E. now rewrite (do_outs_same _ _ _ _ E).
Qed.
Lemma final_status id rp o (s s' : state) : final id rp o s = Ok s' -> status (tree s') = status (tree s).
Proof.
  unfold final. cbv zeta. intros E. apply bind_ok in E as (T & E & [= <-]). destruct (o_deleted _); [exact (leave_status _ _ _ _ E)|]. cbn [tree]. now rewrite (settle_same _ _ _ _ _ _ E).
Qed.
Lemma next_status id rp o o' yield ph (s s' : state) : next id rp o o' yield ph s = Ok s' -> status (tree s') = status (tree s).
Proof.
  unfold next. intros E. apply bind_ok in E as (T & E1 & E). assert (Hs : status T = status (tree s)).
  { unfold update in E1. apply bind_ok in E1 as (T1 & E1 & E2). apply bind_ok in E2 as (T2 & E2 & E3). rewrite (do_outs_same _ _ _ _ E3), (settle_same _ _ _ _ _ _ E2).
    destruct (_ && _); [|now injection E1 as <-]. unfold forget in E1. destruct rp as [|pid rq].
    - apply bind_ok in E1 as (e & E1 & [= <-]). unfold Engine.stop_child_actor in E1. apply bind_ok in E1 as (b & _ & [= <-]). now destruct b.
    - destruct (objs (tree s) !! (pid :: rq)) as [[a|g]|]; [done| |done]. now apply bind_ok in E1 as (g' & _ & [= <-]). }
  destruct yield; [|injection E as <-; exact Hs]. apply bind_ok in E as (x & _ & E). rewrite (final_status _ _ _ _ _ E). exact Hs.
Qed.
Lemma alone_status yield (s s' : state) : alone yield s = Ok s' -> status (tree s') = status (tree s).
Proof.
  assert (Hstart : forall p T, status T = status (tree s) -> start p T s = Ok s' -> status (tree s') = status (tree s)) by (intros p T Hs E; unfold start in E; apply bind_ok in E as (o & _ & [= <-]); exact Hs).
  unfold alone. destruct (frame s) as [[p ph]|] eqn:Ef; cbn [TreeRun.step].
  - unfold run_step. rewrite Ef. destruct p as [|id rp]; [now intros [= <-]|]. destruct (objs (tree s) !! (id :: rp)) as [[a|g]|]; [| |done].
    + unfold actor_step. destruct ph as [| | |m]; [| |done|].
      * destruct (Actor.tasks a); [destruct (_ =? _)|destruct (run_task _ _) as [b st]]; intros E.
        -- apply bind_ok in E as (T & E & [= <-]). cbn [tree with_frame]. now rewrite (settle_same _ _ _ _ _ _ E).
        -- now injection E as <-.
        -- apply bind_ok in E as (b' & _ & E). exact (next_status _ _ _ _ _ _ _ _ E).
      * destruct (Actor.mailbox a); [apply final_status|now intros [= <-]].
      * intros E. apply bind_ok in E as ([b full] & _ & E). exact (next_status _ _ _ _ _ _ _ _ E).
    + unfold group_step. destruct ph as [| | |m]; [| | |done].
      * destruct (TaskQueue.empty _); [apply final_status|]. intros E. apply bind_ok in E as ([x q] & _ & E). eapply Hstart; [|exact E]. done.
      * destruct (Group.mailbox g); [now intros [= <-]|]. intros E. apply bind_ok in E as (g' & _ & E). exact (next_status _ _ _ _ _ _ _ _ E).
      * destruct yield; [apply final_status|now intros [= <-]].
  - rewrite Ef. destruct (reactor (tree s)); [now intros [= <-]|]. now apply Hstart.
Qed.

Lemma quiet_dec (s : state) : quiet s \/ ~ quiet s.
Proof. unfold quiet. destruct (frame s); [right; now intros [? _]|]. destruct (reactor (tree s)); [now left|right; now intros [_ ?]]. Qed.

(** *** Coming to rest *)
Hypothesis kinds_ordered : forall t c, kind_of t = GroupKind c -> comparator_ok c.
(** The running object has taken a message of a type that it does not handle. *)
Definition stuck (s : state) : Prop := exists rp ph o, frame s = Some (rp, ph) /\ objs (tree s) !! rp = Some o /\ bad_message ph o.

Lemma alone_ok yield (s : state) : inv s -> match alone yield s with Ok s' => inv s' | Fault f => f = AssertFail /\ stuck s end.
Proof.
  intros Hi. unfold alone. set (ev := match frame s with None => Reactor | Some _ => Run yield end).
  pose proof (event_ok promise_set_value promise_set_exception this_gsid is_local canceled_text kind_of do_work kinds_ordered ev s Hi) as H.
  destruct (step ev s) as [s'|f]; [apply H; unfold ev; now destruct (frame s)|]. specialize (H ltac:(unfold ev; now destruct (frame s))).
  unfold ev in H. destruct (frame s) eqn:Ef; cbn [failed] in H; [|done]. exact H.
Qed.
Lemma alone_settles (s : state) : inv s -> exists n, forall yields, (n <= length yields)%nat ->
  match alone_run yields s with
  | Ok s' => quiet s' /\ inv s' /\ status (tree s') = status (tree s)
  | Fault f => f = AssertFail /\ exists before s', alone_run before s = Ok s' /\ stuck s'
  end.
Proof.
  induction s as [s IH] using (well_founded_induction smaller_wf). intros Hi. destruct (quiet_dec s) as [Hq|Hq].
  { exists 0%nat. intros yields _. replace (alone_run yields s) with (Ok s) by (induction yields as [|y ys IHy]; cbn [alone_run]; [done|now rewrite (alone_quiet y s Hq)]). done. }
  assert (Hb : forall y, exists n, forall ys, (n <= length ys)%nat -> match alone_run (y :: ys) s with
    | Ok s' => quiet s' /\ inv s' /\ status (tree s') = status (tree s)
    | Fault f => f = AssertFail /\ exists before s', alone_run before s = Ok s' /\ stuck s' end).
  { intros y. cbn [alone_run]. pose proof (alone_ok y s Hi) as Ho. destruct (alone y s) as [s1|f] eqn:E; cbn [mbind res_bind].
    - destruct (IH s1 (alone_smaller y s s1 Hi Hq E) Ho) as [n Hn]. exists n. intros ys Hys. specialize (Hn ys Hys). destruct (alone_run ys s1) as [s2|f].
      + destruct Hn as (? & ? & Hst). split; [done|]. split; [done|]. rewrite Hst. exact (alone_status _ _ _ E).
      + destruct Hn as (? & before & s2 & Eb & ?). split; [done|]. exists (y :: before), s2. cbn [alone_run]. now rewrite E.
    - destruct Ho as [-> Hst]. exists 0%nat. intros ys _. split; [done|]. exists [], s. done. }
  destruct (Hb true) as [nt Ht]. destruct (Hb false) as [nf Hf]. exists (S (Nat.max nt nf)). intros [|y ys] Hys; [cbn in Hys; lia|]. cbn [length] in Hys.
  destruct y; [apply Ht|apply Hf]; lia.
Qed.

(** Waiting for its turn to start, or for a future of [do_work]. *)
Definition waits (o : obj) : bool :=
  bool_decide (o_sched o = INITIALIZED) || match o with OActor a => match Actor.flying a with [] => false | _ => true end | OGroup _ => false end.

(** No message and no task left. *)
Definition finished (o : obj) : bool :=
  match o with
  | OActor a => match Actor.mailbox a, Actor.tasks a with [], [] => true | _, _ => false end
  | OGroup g => match Group.mailbox g, queued_tasks (Group.tq g) with [], [] => true | _, _ => false end
  end.
(** The object or one of its parents waits. *)
Definition waits_above (rp : list Z) (T : shard) : Prop := exists q o, q `suffix_of` rp /\ objs T !! q = Some o /\ waits o = true.

Lemma runnable_waits rp (T : shard) : reactor T = [] -> runnable None T rp -> waits_above rp T.
Proof.
  intros Hr. induction rp as [|id rq IH]; [done|]. cbn [runnable]. intros [Hin H]. destruct rq as [|pid rq]; [cbn [tasks_at] in Hin; rewrite Hr in Hin; now apply not_elem_of_nil in Hin|].
  destruct H as (g & Eg & [H|[H|[_ H]]]); [|done|].
  - exists (pid :: rq), (OGroup g). split; [apply suffix_cons_r; reflexivity|]. split; [done|]. unfold waits. cbn [o_sched]. now rewrite bool_decide_eq_true_2.
  - destruct (IH H) as (q & o & Hq & Ho). exists q, o. split; [now apply suffix_cons_r|done].
Qed.
Lemma quiet_finished (s : state) rp o : inv s -> quiet s -> objs (tree s) !! rp = Some o -> finished o = true \/ waits_above rp (tree s).
Proof.
  intros [Ht _ _] [Hf Hr] Ho. unfold cur, inhand in Ht. rewrite Hf in Ht. cbn in Ht.
  assert (Hself : waits o = true -> waits_above rp (tree s)) by (intros Hw; exists rp, o; split; [reflexivity|done]).
  destruct (o_sched o) eqn:Es.
  - right. apply Hself. unfold waits. now rewrite bool_decide_eq_true_2.
  - pose proof (t_live _ _ _ _ _ Ht _ _ Ho) as Hl. destruct o as [a|g]; cbn in Hl, Es; cbn [finished].
    + destruct Hl as ([Hb _] & Hidle & _). destruct (Hidle Es) as (Htk & [Hm|Hm] & _); [left; now rewrite Hm, Htk|]. right. apply Hself.
      pose proof (b_cur _ _ Hb) as Hc. pose proof (Actor.b_max _ _ Hb). rewrite Htk in Hc. unfold waits. destruct (Actor.flying a); [cbn in Hc; lia|]. apply orb_true_r.
    + destruct Hl as (_ & _ & Hidle & _). destruct (Hidle Es) as (-> & -> & _). now left.
  - destruct (scheduled_runnable _ _ _ _ _ _ Ht Ho Es) as [Hb|Hb]; [now destruct rp|]. right. now apply runnable_waits.
Qed.

(** C1: A shard that is left alone does what there is to do and comes to rest.  When no message comes, no future resolves and no continuation
    becomes ready, then after finitely many steps the reactor has no task and nothing runs, whatever the running objects answer to
    [need_yield]; the only way not to get there is a message of a type its receiver asserts not to get.  (What user code does
    for a message is finite: [rank] counts it.)  Then every mailbox and every task queue is empty, but for objects that wait for a
    future or for their turn to start, or whose parents do.  If the actor system was stopped, the shard is empty and has waited
    for the others once, unless somebody waits. *)
Theorem shard_comes_to_rest s :
  reachable promise_set_value promise_set_exception this_gsid is_local canceled_text kind_of do_work s ->
  exists n, forall yields, (n <= length yields)%nat ->
  match alone_run yields s with
  | Ok s' => quiet s' /\
      (forall rp o, objs (tree s') !! rp = Some o -> finished o = true \/ waits_above rp (tree s')) /\
      (Engine.running (root (tree s)) = false ->
       (exists rp o, objs (tree s') !! rp = Some o /\ waits o = true) \/
       objs (tree s') = ∅ /\ Engine.num_actors_managed (root (tree s')) = 0 /\ barriers (Engine.trace (root (tree s'))) = 1%nat)
  | Fault f => f = AssertFail /\ exists before s', alone_run before s = Ok s' /\ stuck s'
  end.
Proof.
  intros Hr. destruct (alone_settles s (reachable_inv _ _ _ _ _ _ _ kinds_ordered s Hr)) as [n Hn]. exists n. intros yields Hy. specialize (Hn yields Hy).
  destruct (alone_run yields s) as [s'|f]; [|exact Hn]. destruct Hn as (Hq & Hi & Hst). split; [done|]. split; [intros rp o; now apply quiet_finished|]. destruct Hq as [Hf Hre]. intros Hrun.
  destruct (decide (map_Forall (fun _ o => waits o = false) (objs (tree s')))) as [Hw|Hw].
  - right. apply (rest_empties kind_of s' Hi).
    + split; [done|done| |].
      * intros rp o Ho Hs. specialize (Hw rp o Ho). unfold waits in Hw. now rewrite bool_decide_eq_true_2 in Hw.
      * intros rp a Ho. specialize (Hw rp _ Ho). unfold waits in Hw. apply orb_false_iff in Hw as [_ Hw]. now destruct (Actor.flying a).
    + unfold Engine.running in *. now rewrite Hst.
  - left. apply map_not_Forall in Hw as (rp & o & Ho & Hw); [|apply _]. exists rp, o. split; [done|]. now apply not_false_is_true.
Qed.
End Quiescence.

(** ** A group with two actors, one of which waits for a future, is stopped *)
Module QuiescenceExamples.
Import TreeExamples ShutdownExamples.
Abbreviation sample_alone := (alone_run (SM := counter_sem) toy_value toy_exception 1 toy_local [] sample_kind work_of).
Definition told_to_stop : sample_state := after (all_run ++ [Receive (to_root PEACE_STOP)]).
(** With an answer to [need_yield] that is always yes it takes more steps; the end is the same. *)
Example sample_rest :
  forall y, match sample_alone (replicate 40 y) told_to_stop with
  | Ok s => frame s = None /\ reactor (tree s) = [] /\ summary s = (0%nat, [([cell_key cell2; cell_key ex_group1], SCHEDULABLE); ([cell_key ex_group1], SCHEDULABLE)])
  | Fault _ => False
  end.
Proof. intros []; vm_compute; auto. Qed.

Lemma shard_comes_to_rest_witness :
  exists n, forall yields, (n <= length yields)%nat ->
  match sample_alone yields told_to_stop with
  | Ok s' => quiet s' /\
      (forall rp o, objs (tree s') !! rp = Some o -> finished o = true \/ waits_above rp (tree s')) /\
      (Engine.running (root (tree told_to_stop)) = false ->
       (exists rp o, objs (tree s') !! rp = Some o /\ waits o = true) \/
       objs (tree s') = ∅ /\ Engine.num_actors_managed (root (tree s')) = 0 /\ barriers (Engine.trace (root (tree s'))) = 1%nat)
  | Fault f => f = AssertFail /\ exists before s', sample_alone before told_to_stop = Ok s' /\ stuck s'
  end.
Proof.
  apply (shard_comes_to_rest toy_value toy_exception 1 toy_local [] sample_kind work_of (fun _ => 0%nat)).
  - intros m. unfold work_of. destruct (_ =? 1); cbn; lia.
  - exact sample_ordered.
  - apply stop_reachable.
Defined.
End QuiescenceExamples.
