(* ===== verification/Samples.v ===== *)
(** * The actors of the samples

    The applications of src/demos: the bank account (src/demos/bank_account/actor/bank_account.act.cc)
    and the items of a store with the groups that schedule them by date and by urgency
    (src/demos/actor_samples/actor/items.act.cc, item_groups.actg.h, item_store.h).  They are clients of
    the library: their state is what the methods of one actor change, one at a time as both
    classes are not reentrant; the groups' comparators read the meta data of [ActorBase] and order the task
    queue of [TaskQueue], whose theorems need them to be strict weak orders.

    [int] is 32 bits; arithmetic that leaves its range is undefined. *)
From S2P Require Import Prelude.
From S2P Require Import Bytes Address TaskQueue ActorBase.
From Stdlib Require Import Ascii.
From stdpp Require Import strings.
#[local] Open Scope Z_scope.

Definition int_ok (x : Z) : Prop := -2147483648 <= x < 2147483648.
Definition int_of (x : Z) : res Z := if (-2147483648 <=? x) && (x <? 2147483648) then Ok x else Fault SignedOverflow.
Lemma int_of_ok x : int_ok x -> int_of x = Ok x.
Proof. intros [H1 H2]. unfold int_of. now rewrite (proj2 (Z.leb_le _ _) H1), (proj2 (Z.ltb_lt _ _) H2). Qed.
Lemma int_of_inv x y : int_of x = Ok y -> y = x /\ int_ok x.
Proof. unfold int_of, int_ok. intros H. destruct (Z.leb_spec (-2147483648) x), (Z.ltb_spec x 2147483648); cbn in H; try discriminate. now injection H as <-. Qed.

(** ** The bank account *)
Module BankAccount.
(** A method's future is ready with a value or failed; the texts are [seastar::format]'s. *)
Inductive failure := amount_not_positive | balance_not_enough (request remaining : Z).
Abbreviation future := (failure + Z)%type.
Record bank_account := mk { balance : Z }.
Definition bank_account_new : bank_account := mk 0.

Definition withdraw (request : Z) (a : bank_account) : res (future * bank_account) :=
  if request <=? 0 then Ok (inl amount_not_positive, a)
  else if balance a <? request then Ok (inl (balance_not_enough request (balance a)), a)
  else b ← int_of (balance a - request); Ok (inr b, mk b).
Definition deposit (request : Z) (a : bank_account) : res (future * bank_account) :=
  if request <=? 0 then Ok (inl amount_not_positive, a)
  else b ← int_of (balance a + request); Ok (inr b, mk b).
Definition check (a : bank_account) : res (future * bank_account) := Ok (inr (balance a), a).

Inductive request := Withdraw (amount : Z) | Deposit (amount : Z) | Check.
Definition do_work (r : request) (a : bank_account) : res (future * bank_account) :=
  match r with Withdraw x => withdraw x a | Deposit x => deposit x a | Check => check a end.
Fixpoint serve (rs : list request) (a : bank_account) : res (list future * bank_account) :=
  match rs with
  | [] => Ok ([], a)
  | r :: rs => '(f, a) ← do_work r a; '(fs, a) ← serve rs a; Ok (f :: fs, a)
  end.

(** What a request that was answered with a value moved. *)
Definition moved (r : request) (f : future) : Z :=
  match r, f with Deposit x, inr _ => x | Withdraw x, inr _ => - x | _, _ => 0 end.
Definition total_moved (rs : list request) (fs : list future) : Z := foldr (fun p s => moved (fst p) (snd p) + s) 0 (zip rs fs).

Lemma do_work_ok r a f a' : do_work r a = Ok (f, a') -> 0 <= balance a -> 
  balance a' = balance a + moved r f /\ 0 <= balance a' /\ (forall b, f = inr b -> b = balance a') /\ (int_ok (balance a) -> int_ok (balance a')).
Proof.
  intros H H0. destruct r as [x|x|]; cbn [do_work] in H; [unfold withdraw in H|unfold deposit in H|].
  - destruct (Z.leb_spec x 0) as [Hx|Hx]; [injection H as <- <-; cbn; split_and!; done || lia|].
    destruct (Z.ltb_spec (balance a) x) as [Hb|Hb]; [injection H as <- <-; cbn; split_and!; done || lia|].
    apply bind_ok in H as (b & Hi & [= <- <-]). apply int_of_inv in Hi as [-> Hi]. cbn. split_and!; try lia; [intros b [= <-]; done|done].
  - destruct (Z.leb_spec x 0) as [Hx|Hx]; [injection H as <- <-; cbn; split_and!; done || lia|].
    apply bind_ok in H as (b & Hi & [= <- <-]). apply int_of_inv in Hi as [-> Hi]. cbn. split_and!; try lia; [intros b [= <-]; done|done].
  - injection H as <- <-. cbn. split_and!; try lia; [intros b [= <-]; done|done].
Qed.

(** The balance of an account is what was deposited less what was withdrawn, of the requests that were not refused,
    and never negative. *)
Theorem account_balanced rs : forall a fs a',
  serve rs a = Ok (fs, a') -> 0 <= balance a -> balance a' = balance a + total_moved rs fs /\ 0 <= balance a' /\ length fs = length rs.
Proof.
  induction rs as [|r rs IH]; intros a fs a' H H0; cbn [serve] in H.
  - injection H as <- <-. unfold total_moved. cbn. split_and!; lia || done.
  - apply bind_ok in H as ([f a1] & H1 & H). apply bind_ok in H as ([fs1 a2] & H2 & [= <- <-]).
    destruct (do_work_ok _ _ _ _ H1 H0) as (E1 & P1 & _). destruct (IH _ _ _ H2 P1) as (E2 & P2 & L2). unfold total_moved in *. cbn. lia.
Qed.

(** A withdrawal never fails; a deposit does when the balance would leave the range of [int]. *)
Theorem deposit_overflows a x : int_ok (balance a) -> 0 <= balance a ->
  (exists f a', withdraw x a = Ok (f, a')) /\ (0 < x -> 2147483648 <= balance a + x -> deposit x a = Fault SignedOverflow).
Proof.
  intros Ha H0. split.
  - unfold withdraw. destruct (Z.leb_spec x 0); [eauto|]. destruct (Z.ltb_spec (balance a) x); [eauto|]. rewrite int_of_ok by (unfold int_ok in *; lia). cbn. eauto.
  - intros Hx Hov. unfold deposit. rewrite (proj2 (Z.leb_gt _ _)) by lia. unfold int_of. now rewrite (proj2 (Z.ltb_ge (balance a + x) _)), andb_false_r by lia.
Qed.

(** The sample: deposit 5, withdraw 8, check, withdraw 3. *)
Example simulate : serve [Deposit 5; Withdraw 8; Check; Withdraw 3] bank_account_new = Ok ([inr 5; inl (balance_not_enough 8 5); inr 5; inr 2], mk 2).
Proof. reflexivity. Qed.
End BankAccount.

(** ** The store *)
Module Items.
Record food_info := mk_food { f_name : string; production_date : string }.
Record medicine_info := mk_medicine { m_name : string; urgency_level : Z }.
Definition food_store : list (Z * food_info) :=
  [(0, mk_food "Apple" "2021.04.03"); (1, mk_food "Cake" "2021.07.23"); (2, mk_food "Ham" "2019.09.17");
   (3, mk_food "Beer" "2020.12.11"); (4, mk_food "Steak" "2021.10.18"); (5, mk_food "Juice" "2021.06.05")].
Definition medicine_store : list (Z * medicine_info) :=
  [(0, mk_medicine "Amoxicillin" 2); (1, mk_medicine "Vitamin C" 1); (2, mk_medicine "Heart Reliever" 5);
   (3, mk_medicine "Band Aid" 3); (4, mk_medicine "Disinfectant" 2); (5, mk_medicine "Antihistamine" 4)].
(** [std::unordered_map::at]. *)
Fixpoint find {A} (l : list (Z * A)) (id : Z) : thrown + A :=
  match l with [] => inl out_of_range | (i, a) :: l => if i =? id then inr a else find l id end.

(** The types that are put into the table of meta data. *)
Inductive ctype := FoodInfo | MedicineInfo | StdString.
#[export] Instance ctype_eq_dec : EqDecision ctype.
Proof. solve_decision. Defined.
Definition value_of (t : ctype) : Type := match t with FoodInfo => food_info | MedicineInfo => medicine_info | StdString => string end.
Abbreviation meta := (gmap string (any value_of)).

(** *** Items: an actor's id, its stock and its meta data *)
Record generic_item := mk_item { _item_id : Z; _stock : Z; item_meta : meta }.
Definition generic_item_new (actor_id : Z) : generic_item := mk_item actor_id 10 ∅.
Definition with_meta m (i : generic_item) := mk_item (_item_id i) (_stock i) m.

(** An exception in a constructor leaves no object. *)
Definition food_item_new (actor_id : Z) : thrown + generic_item :=
  let i := generic_item_new actor_id in
  match find food_store (_item_id i) with inr x => inr (with_meta (add_meta value_of (item_meta i) "food" FoodInfo x) i) | inl e => inl e end.
Definition medicine_item_new (actor_id : Z) : thrown + generic_item :=
  let i := generic_item_new actor_id in
  match find medicine_store (_item_id i) with inr x => inr (with_meta (add_meta value_of (item_meta i) "medicine" MedicineInfo x) i) | inl e => inl e end.

Inductive failure := stock_not_enough (request remaining : Z).
Definition buy (num : Z) (i : generic_item) : res ((failure + Z) * generic_item) :=
  if _stock i <? num then Ok (inl (stock_not_enough num (_stock i)), i)
  else s ← int_of (_stock i - num); Ok (inr s, mk_item (_item_id i) s (item_meta i)).

(** A purchase that is answered takes what it asked for, and the stock is never negative; but nothing stops a
    purchase of a negative quantity, which fills the stock up, past what [int] holds if it is large enough. *)
Theorem buy_takes i num r i' : buy num i = Ok (r, i') -> 0 <= _stock i ->
  0 <= _stock i' /\ match r with inr s => s = _stock i' /\ _stock i' = _stock i - num | inl _ => i' = i /\ _stock i < num end.
Proof.
  unfold buy. intros H H0. destruct (Z.ltb_spec (_stock i) num); [injection H as <- <-; done|].
  apply bind_ok in H as (s & Hs & [= <- <-]). apply int_of_inv in Hs as [-> _]. cbn. split_and!; lia.
Qed.
Theorem buy_negative_fills i num : 0 <= _stock i -> num < 0 ->
  buy num i = if _stock i - num <? 2147483648 then Ok (inr (_stock i - num), mk_item (_item_id i) (_stock i - num) (item_meta i)) else Fault SignedOverflow.
Proof.
  intros H0 Hn. unfold buy. rewrite (proj2 (Z.ltb_ge _ _)) by lia. unfold int_of. rewrite (proj2 (Z.leb_le _ _)) by lia. cbn [andb].
  now destruct (_ <? _).
Qed.

(** *** The groups' comparators

    A comparator that throws, or follows a null pointer, ends the process: [run_and_dispose] is noexcept. *)
Definition meta_ptr {A} (x : thrown + option A) : res A :=
  match x with inr (Some a) => Ok a | inr None => Fault NullDeref | inl _ => Fault AssertFail end.
Definition meta_val {A} (x : thrown + A) : res A := match x with inr a => Ok a | inl _ => Fault AssertFail end.

(** [std::string]'s order: characters as unsigned bytes. *)
Fixpoint chars_lt (s t : list Z) : bool :=
  match s, t with
  | _, [] => false
  | [], _ :: _ => true
  | a :: s, b :: t => if a =? b then chars_lt s t else a <? b
  end.
Definition chars (s : string) : list Z := (fun a => Z.of_N (N_of_ascii a)) <$> String.list_ascii_of_string s.
Definition string_lt (s t : string) : bool := chars_lt (chars s) (chars t).

(** What [print_info] prints, without the shard: a constructed item has its entry. *)
Definition food_print_info (i : generic_item) : res (Z * string * string * Z) :=
  info ← meta_ptr (get_meta_ptr value_of (item_meta i) "food" FoodInfo);
  Ok (_item_id i, f_name info, production_date info, _stock i).
Definition medicine_print_info (i : generic_item) : res (Z * string * Z * Z) :=
  info ← meta_ptr (get_meta_ptr value_of (item_meta i) "medicine" MedicineInfo);
  Ok (_item_id i, m_name info, urgency_level info, _stock i).

Definition food_compare (a b : meta) : res bool :=
  x ← meta_ptr (get_meta_ptr value_of a "food" FoodInfo); y ← meta_ptr (get_meta_ptr value_of b "food" FoodInfo);
  Ok (string_lt (production_date y) (production_date x)).
Definition medicine_compare (a b : meta) : res bool :=
  x ← meta_ptr (get_meta_ptr value_of a "medicine" MedicineInfo); y ← meta_ptr (get_meta_ptr value_of b "medicine" MedicineInfo);
  Ok (urgency_level x <? urgency_level y).
Definition food_group_meta : meta := add_meta value_of ∅ "group_name" StdString "food_group".
Definition medicine_group_meta : meta := add_meta value_of ∅ "group_name" StdString "medicine_group".
Definition item_compare (a b : meta) : res bool :=
  x ← meta_val (get_meta value_of a "group_name" StdString);
  if bool_decide (x = "medicine_group") then Ok false
  else y ← meta_val (get_meta value_of b "group_name" StdString); Ok (bool_decide (y = "medicine_group")).

Lemma chars_lt_asym s : forall t, chars_lt s t = true -> chars_lt t s = false.
Proof.
  induction s as [|a s IH]; intros [|b t] H; cbn in *; try done. rewrite (Z.eqb_sym b a). destruct (Z.eqb_spec a b); [auto|].
  apply Z.ltb_lt in H. apply Z.ltb_ge. lia.
Qed.
Lemma chars_lt_negtrans s : forall t u, chars_lt s t = false -> chars_lt t u = false -> chars_lt s u = false.
Proof.
  induction s as [|a s IH]; intros [|b t] [|c u] H1 H2; cbn in *; try done.
  destruct (Z.eqb_spec a b) as [->|Hab]; [destruct (Z.eqb_spec b c); [eauto|done]|]. apply Z.ltb_ge in H1.
  destruct (Z.eqb_spec b c) as [->|Hbc]; [rewrite (proj2 (Z.eqb_neq _ _) Hab); now apply Z.ltb_ge|]. apply Z.ltb_ge in H2.
  rewrite (proj2 (Z.eqb_neq a c)) by lia. apply Z.ltb_ge. lia.
Qed.

(** A comparator by a key that both sides have. *)
Lemma key_order {A B} (key : A -> B) (lt : B -> B -> bool) : weak_order lt -> weak_order (fun x y => lt (key x) (key y)).
Proof. intros [H1 H2]. split; [intros x y; apply H1|intros x y z; apply H2]. Qed.
Lemma string_gt_order : weak_order (fun s t => string_lt t s).
Proof. split; unfold string_lt; [intros s t; apply chars_lt_asym|]. intros s t u H1 H2. eapply chars_lt_negtrans; [exact H2|exact H1]. Qed.
Lemma urgency_order : weak_order Z.ltb.
Proof. split; [intros x y H; apply Z.ltb_lt in H; apply Z.ltb_ge; lia|intros x y z H1 H2; apply Z.ltb_ge in H1, H2; apply Z.ltb_ge; lia]. Qed.

(** The keys of the items that can be created. *)
Definition date_of (id : Z) : string := match find food_store id with inr x => production_date x | inl _ => "" end.
Definition urgency_of (id : Z) : Z := match find medicine_store id with inr x => urgency_level x | inl _ => 0 end.
Definition food_lt (a b : Z) : bool := string_lt (date_of b) (date_of a).
Definition medicine_lt (a b : Z) : bool := urgency_of a <? urgency_of b.

(** The samples' comparators are strict weak orders of what they schedule, as the task queue needs them: food items by
    their dates, medicine items by their urgency, and the medicine group before the food group.  No comparison of items that were
    created ends the process. *)
Theorem groups_ordered :
  (forall a b x y, food_item_new a = inr x -> food_item_new b = inr y -> food_compare (item_meta x) (item_meta y) = Ok (food_lt a b)) /\
  (forall a b x y, medicine_item_new a = inr x -> medicine_item_new b = inr y -> medicine_compare (item_meta x) (item_meta y) = Ok (medicine_lt a b)) /\
  weak_order food_lt /\ weak_order medicine_lt /\
  item_compare food_group_meta medicine_group_meta = Ok true /\ item_compare medicine_group_meta food_group_meta = Ok false /\
  item_compare food_group_meta food_group_meta = Ok false /\ item_compare medicine_group_meta medicine_group_meta = Ok false.
Proof.
  split; [|split; [|split; [|split; [|split_and!; vm_compute; reflexivity]]]].
  - intros a b x y Hx Hy. unfold food_item_new, food_lt, date_of in *. cbn [_item_id generic_item_new] in *.
    destruct (find food_store a), (find food_store b); try done. injection Hx as <-. injection Hy as <-. done.
  - intros a b x y Hx Hy. unfold medicine_item_new, medicine_lt, urgency_of in *. cbn [_item_id generic_item_new] in *.
    destruct (find medicine_store a), (find medicine_store b); try done. injection Hx as <-. injection Hy as <-. done.
  - exact (key_order date_of _ string_gt_order).
  - exact (key_order urgency_of _ urgency_order).
Qed.

(** The scheduling sample: the items print themselves in the order of their dates and of their urgency; items 0 and 4 are equally urgent. *)
Definition six : list Z := [0; 1; 2; 3; 4; 5].
Example simulate_food : snd <$> TaskQueue.run ((Push <$> six) ++ (const Pop <$> six)) (queue_of (Some food_lt)) [] = Ok [2; 3; 0; 5; 1; 4].
Proof. vm_compute. reflexivity. Qed.
Example simulate_medicine : snd <$> TaskQueue.run ((Push <$> six) ++ (const Pop <$> six)) (queue_of (Some medicine_lt)) [] = Ok [2; 5; 3; 0; 4; 1].
Proof. vm_compute. reflexivity. Qed.
End Items.
