(* ===== verification/Harness.v ===== *)
(** * A call of an actor's method, from the reference to the answer

    The actor of the repository's tests (src/tests/actor_harness.hh, src/tests/actor_harness.cc) and the
    test that calls it (src/tests/actor_test.cc).  Its [do_work] has the form the code generator gives to
    every actor: read the arguments, from the object or from the queue of a message that
    came over the network, call the method, and send what its future holds back to the shard that asked,
    as a response or as an exception response.  [remote_call] follows one call through the
    client's engine, the actor and back.  The other modules run the tests of the column batches and of the thread pools
    (src/tests) and the calls of the sample programs (src/demos) on the model and compare what comes out. *)
From S2P Require Import Prelude.
From S2P Require Import Bytes BufferQueue TmpBuf ColumnBatch.
From S2P Require Import DataType Address Message Actor Group PromiseManager ThreadPools TaskQueue Engine Samples.
From Stdlib Require Import Strings.String Strings.Byte.

Module Count.
Import SerializablePrimitive.
Section Count.
Context {Q P Sem : Type} {BQ : BufferQueue Q} {BQL : BufferQueueLaws Q} {SM : Semaphore Sem}.
Abbreviation emsg := (emsg (D := Integer) (Q := Q)).
Abbreviation edata := (edata (D := Integer) (Q := Q)).
Abbreviation engine := (engine (D := Integer) (Q := Q) (P := P) (Sem := Sem)).
Variable new_promise : P.
Variable promise_set_value : P -> emsg -> P.
Variable promise_set_exception : P -> ex -> P.
(** [machine_info::is_local], on the shard of the first argument. *)
Variable is_local : Z -> Z -> bool.
Variable disabled_below : Z -> emsg -> bool.
Variable canceled_text : bytes.
(** [actor_engine().send] on the shard [gsid]. *)
Abbreviation send_on gsid := (send promise_set_value promise_set_exception gsid (is_local gsid) disabled_below canceled_text).
Abbreviation receive_on gsid := (receive promise_set_value promise_set_exception gsid (is_local gsid) disabled_below canceled_text).
Abbreviation request_on gsid := (client_request new_promise promise_set_value promise_set_exception gsid (is_local gsid) disabled_below canceled_text).

Definition k_count_check : Z := 0.
Definition k_count_increase : Z := 1.

(** ** count *)
Record count := mk_count { count_res : Z }.
Definition count_new : count := mk_count 0.
Definition not_positive_text : bytes := list_byte_of_string "The increase amount must be greater than 0.".
(** A method's future holds the value or the text of the exception. *)
Definition increase (amount : Integer) (c : count) : res ((bytes + Integer) * count) :=
  let request := int_val amount in
  if request <=? 0 then Ok (inl not_positive_text, c)
  else n ← int_of (count_res c + request); Ok (inr (mk_Integer n), mk_count n).
Definition check (c : count) : bytes + Integer := inr (mk_Integer (count_res c)).

(** The continuation of a method's future. *)
Definition respond (gsid : Z) (m : emsg) (f : bytes + Integer) (e : engine) : res engine :=
  match f with
  | inl text =>
      h ← response_header (src_shard_id (e_hdr m)) (pr_id (e_hdr m)) EXCEPTION_RESPONSE;
      send_on gsid (mk_emsg h (Str text)) e
  | inr v =>
      h ← response_header (src_shard_id (e_hdr m)) (pr_id (e_hdr m)) RESPONSE;
      send_on gsid (mk_emsg h (Data v)) e
  end.
Definition apply_increase (m : emsg) (c : count) : res ((bytes + Integer) * count) :=
  amount ← (if negb (from_network (e_hdr m)) then match e_data m with Data v => Ok v | _ => Fault BadCast end
            else match e_data m with Net q => '(v, _) ← load_from q; Ok v | _ => Fault BadCast end);
  increase amount c.
(** The boolean is the stop reaction. *)
Definition do_work (gsid : Z) (m : emsg) (c : count) (e : engine) : res (bool * count * engine) :=
  if behavior_tid (e_hdr m) =? k_count_check then e ← respond gsid m (check c) e; Ok (false, c, e)
  else if behavior_tid (e_hdr m) =? k_count_increase then
    '(f, c) ← apply_increase m c; e ← respond gsid m f e; Ok (false, c, e)
  else Ok (true, c, e).

(** ** count_ref *)
Definition ref_check (gsid : Z) (a : address) (e : engine) : res (address * (Z * engine)) :=
  a ← set_method_actor_tid a 0;
  r ← request_on gsid a k_count_check NoData USER e; Ok (a, r).
Definition ref_increase (gsid : Z) (a : address) (amount : Integer) (e : engine) : res (Z * engine) :=
  request_on gsid a k_count_increase (Data amount) USER e.

(** The caller's continuation, with the two casts it makes for [Integer]. *)
Definition as_integer (d : edata) : option Integer := match d with Data v => Some v | _ => None end.
Definition load_integer (q : Q) : res Integer := '(v, _) ← load_from q; Ok v.
Definition returned (id : Z) (result : ex + emsg) (e : engine) : res ((ex + Integer) * engine) :=
  send_and_wait_done as_integer load_integer id None result e.

(** ** A call *)
(** What [actor_engine().send] does with a message for another shard. *)
Definition leaves (gsid dst : Z) (m : emsg) : eout (D := Integer) (Q := Q) := if is_local gsid dst then ESendLocal m else ESendNet m.
(** How a message arrives: as it is within a machine, with its payload in a queue from another one, a value
    ([typed_payload_roundtrip] of [Message]) or the text of an exception. *)
Inductive arrives (m : emsg) : emsg -> Prop :=
  | within : arrives m m
  | across v q q' : e_data m = Data v -> load_from q = Ok (v, q') -> arrives m (mk_emsg (as_received (e_hdr m)) (Net q))
  | across_text text q : e_data m = Str text -> arrives m (mk_emsg (as_received (e_hdr m)) (Net q)).

Lemma respond_ok gsid m f (e : engine) : in_u 32 (src_shard_id (e_hdr m)) -> src_shard_id (e_hdr m) <> gsid ->
  exists r e', respond gsid m f e = Ok e' /\ trace e' = trace e ++ [leaves gsid (src_shard_id (e_hdr m)) r] /\ to_root r /\
    pr_id (e_hdr r) = pr_id (e_hdr m) /\ from_network (e_hdr r) = false /\
    (Message.m_type (e_hdr r), e_data r) = match f with inl text => (EXCEPTION_RESPONSE, Str text) | inr v => (RESPONSE, Data v) end.
Proof.
  intros Hs Hne. assert (H : forall t d, exists r e', (h ← response_header (src_shard_id (e_hdr m)) (pr_id (e_hdr m)) t; send_on gsid (mk_emsg h d) e) = Ok e' /\
    trace e' = trace e ++ [leaves gsid (src_shard_id (e_hdr m)) r] /\ to_root r /\ pr_id (e_hdr r) = pr_id (e_hdr m) /\ from_network (e_hdr r) = false /\ Message.m_type (e_hdr r) = t /\ e_data r = d).
  { intros t d. destruct (response_address (src_shard_id (e_hdr m)) (pr_id (e_hdr m)) t) as (h & Eh & R & H1 & H2 & H3). rewrite Eh. cbn [mbind res_bind].
    unfold send, send_with. cbn [e_hdr]. rewrite (repr_get_shard _ _ _ R). cbn [mbind res_bind]. replace (u32 (src_shard_id (e_hdr m))) with (src_shard_id (e_hdr m)) by (symmetry; now apply wrap_small).
    rewrite (proj2 (Z.eqb_neq _ _)) by done. cbn [negb]. eexists (mk_emsg h d), _. split; [reflexivity|]. split; [done|]. split; [exact (repr_length _ _ _ R)|]. done. }
  destruct f as [text|v]; [destruct (H EXCEPTION_RESPONSE (Str text)) as (r & e' & E & ? & ? & ? & ? & Ht & Hd)|destruct (H RESPONSE (Data v)) as (r & e' & E & ? & ? & ? & ? & Ht & Hd)];
    exists r, e'; rewrite Ht, Hd; done.
Qed.
Lemma arrives_header m m' : arrives m m' -> addr (e_hdr m') = addr (e_hdr m) /\ behavior_tid (e_hdr m') = behavior_tid (e_hdr m) /\
  src_shard_id (e_hdr m') = src_shard_id (e_hdr m) /\ pr_id (e_hdr m') = pr_id (e_hdr m) /\ Message.m_type (e_hdr m') = Message.m_type (e_hdr m).
Proof. now intros []. Qed.
Lemma apply_increase_ok m m' v c : e_data m = Data v -> from_network (e_hdr m) = false -> arrives m m' -> apply_increase m' c = increase v c.
Proof.
  intros Hd Hn [|v' q q' Hd' Hl|text q Ht]; unfold apply_increase; [..|congruence].
  - now rewrite Hn, Hd.
  - cbn [e_hdr e_data from_network as_received negb]. rewrite Hl. cbn [mbind res_bind]. assert (v' = v) as -> by congruence. done.
Qed.

End Count.
End Count.

(** ** actor_test

    Two shards of one machine: the test runs on shard 1, the actor 10 of group 1 is on shard [10 mod 2]. *)
Module ActorTest.
Import Count SerializablePrimitive.
Abbreviation test_msg := (emsg (D := Integer) (Q := list tmpbuf)).
Definition test_promise : Type := option (ex + test_msg).
Abbreviation test_engine := (engine (D := Integer) (Q := list tmpbuf) (P := test_promise) (Sem := Z * list Z)).
Definition set_value (p : test_promise) (m : test_msg) : test_promise := Some (inr m).
Definition set_exception (p : test_promise) (x : ex) : test_promise := Some (inl x).
Definition here (gsid dst : Z) : bool := dst <? 2.
Definition enabled (id : Z) (m : test_msg) : bool := false.
Definition new_table : pr_manager (P := test_promise) := pr_manager_new None set_value (mk_emsg (mk_header address_zero 0 0 0 RESPONSE false) NoData).
Definition new_shard : test_engine := engine_new new_table.
Abbreviation test_increase := (ref_increase None set_value set_exception here enabled []).
Abbreviation test_check := (ref_check None set_value set_exception here enabled []).
Abbreviation test_work := (do_work set_value set_exception here enabled []).
Abbreviation test_receive gsid := (receive set_value set_exception gsid (here gsid) enabled []).

(** [count_builder.build_ref<count_ref>(cid)]; the type id of [actor_group] is the generated code's. *)
Definition count_address (shards : Z) : res address :=
  b ← ScopeBuilder.scope_builder_default ex_garbage;
  b ← ScopeBuilder.set_shard b (10 mod shards);
  b ← ScopeBuilder.enter_sub_scope b ex_group1;
  ScopeBuilder.build_ref b ex_garbage 0 10.

(** The message a shard sent last. *)
Definition last_sent (e : test_engine) : res test_msg :=
  match last (trace e) with Some (ESendLocal m) => Ok m | _ => Fault NullDeref end.
(** The actor answers the request [id], and the caller goes on. *)
Definition answered (id : Z) (c : count) (client server : test_engine) : res ((ex + Integer) * (count * test_engine * test_engine)) :=
  r ← last_sent client;
  '(_, c, server) ← test_work 0 r c server;
  m ← last_sent server;
  client ← test_receive 1 m client;
  p ← get_future (response_pr_manager client) id;
  result ← of_option NullDeref p;
  '(v, client) ← returned id result client;
  Ok (v, (c, client, server)).
Definition call_increase (a : address) (amount : Z) (s : count * test_engine * test_engine) :=
  let '(c, client, server) := s in
  '(id, client) ← test_increase 1 a (mk_Integer amount) client; answered id c client server.
Definition call_check (a : address) (s : count * test_engine * test_engine) :=
  let '(c, client, server) := s in
  '(a, (id, client)) ← test_check 1 a client; answered id c client server.

(** The answers the test looks at. *)
Definition actor_test (s : count * test_engine * test_engine) : res (list (ex + Integer)) :=
  a ← count_address 2;
  '(v1, s) ← call_increase a 45 s;
  '(v2, s) ← call_increase a 1 s;
  '(v3, s) ← call_increase a (-10) s;
  '(v4, s) ← call_check a s;
  Ok [v1; v2; v3; v4].
Example actor_test_passes :
  actor_test (count_new, new_shard, new_shard) = Ok [inr (mk_Integer 45); inr (mk_Integer 46); inl (MethodException not_positive_text); inr (mk_Integer 46)].
Proof. vm_compute. reflexivity. Qed.

Lemma count_repr : exists a, count_address 2 = Ok a /\ repr a 0 [ex_group1; ScopeBuilder.mk_scope 0 10].
Proof. eexists. split; [vm_compute; reflexivity|]. constructor; (reflexivity || cbn; addr_lia). Qed.
End ActorTest.

(** ** column_batch_test

    The four tests of src/tests/column_batch_test.cc, each with the conjunction of its checks. *)
Module ColumnBatchTest.
Import SerializablePrimitive.
Section Tests.
Context {B : Type} {TB : TmpBuf B}.
Definition upto (n : Z) : list Z := seqZ 0 n.
Fixpoint each {A} (f : Z -> res A) (ids : list Z) : res (list A) :=
  match ids with [] => Ok [] | i :: ids => a ← f i; l ← each f ids; Ok (a :: l) end.

(** [int64_t] rows follow the count at offset 8, [int32_t] rows at offset 4. *)
Definition fixed_cb_dump : res bool :=
  let '(h, fcb) := Fixed.new (B := B) 8 8 ∅ [] 10 in
  '(h, fcb) ← Fixed.push_rows 8 h fcb ((fun i => enc_uint 8 (5102 + i)) <$> upto 6);
  '(h, fcb, tmp_buf) ← Fixed.dump_to 8 8 h fcb tb_null;
  r_fcb ← Fixed.from_buf 8 h tmp_buf;
  rows ← each (Fixed.get 8 h r_fcb) (upto (Fixed.size r_fcb));
  Ok ((Fixed.size r_fcb =? 6) && bool_decide (dec_uint <$> rows = (fun i => 5102 + i) <$> upto (Fixed.size r_fcb))).
Definition fixed_cb_ref_count : res bool :=
  let '(h, ib_0) := Fixed.new (B := B) 4 4 ∅ [] 10 in
  '(h, ib_0) ← Fixed.push_rows 4 h ib_0 ((fun i => enc_uint 4 (i + 10)) <$> upto 6);
  let ib_1 := Fixed.share ib_0 in
  rows_0 ← each (Fixed.get 4 h ib_0) (upto (Fixed.size ib_1));
  rows_1 ← each (Fixed.get 4 h ib_1) (upto (Fixed.size ib_1));
  Ok ((Fixed.size ib_1 =? Fixed.size ib_0) && (Fixed.capacity ib_1 =? Fixed.capacity ib_0) && bool_decide (rows_0 = rows_1)).

(** Six paths of three elements of [int64_t], counted from 1. *)
Definition path (i : Z) : Columns.span := Columns.mk_span (enc_uint 8 (3 * i + 1) ++ enc_uint 8 (3 * i + 2) ++ enc_uint 8 (3 * i + 3)) 3.
Fixpoint push_paths (h : store) (b : Dynamic.dynamic_column_batch B) (ids : list Z) : res (store * Dynamic.dynamic_column_batch B) :=
  match ids with
  | [] => Ok (h, b)
  | i :: ids => '(h, b) ← Columns.path_push_back h [] b (path i); push_paths h b ids
  end.
Definition row (h : store) (b : Dynamic.dynamic_column_batch B) (i : Z) : res (Z * bytes) :=
  t ← Dynamic.get 8 h b i; bs ← Dynamic.elements 8 h t; Ok (t.2, bs).
Definition dynamic_cb_dump : res bool :=
  let '(h, dcb) := Dynamic.new (B := B) 8 ∅ [] [] 10 10 in
  '(h, dcb) ← push_paths h dcb (upto 6);
  '(h, dcb, buf_0, buf_1) ← Dynamic.dump_to 8 h dcb tb_null tb_null;
  r_dcb ← Dynamic.from_bufs h buf_0 buf_1;
  rows ← each (row h r_dcb) (upto (Dynamic.size r_dcb));
  Ok ((Dynamic.size r_dcb =? 6) && bool_decide (rows = (fun i => (3, Columns.ptr (path i))) <$> upto (Dynamic.size r_dcb))).
Definition dynamic_cb_ref_count : res bool :=
  let '(h, pb_0) := Dynamic.new (B := B) 8 ∅ [] [] 10 20 in
  '(h, pb_0) ← push_paths h pb_0 (upto 6);
  let pb_1 := Dynamic.share pb_0 in
  rows_0 ← each (row h pb_0) (upto (Dynamic.size pb_1));
  rows_1 ← each (row h pb_1) (upto (Dynamic.size pb_1));
  Ok ((Dynamic.size pb_1 =? Dynamic.size pb_0) && (Dynamic.capacity pb_1 =? Dynamic.capacity pb_0) && bool_decide (rows_0 = rows_1)).
End Tests.

Example column_batch_tests_pass :
  fixed_cb_dump (B := view) = Ok true /\ dynamic_cb_dump (B := view) = Ok true /\
  fixed_cb_ref_count (B := view) = Ok true /\ dynamic_cb_ref_count (B := view) = Ok true.
Proof. split_and!; vm_compute; reflexivity. Qed.
End ColumnBatchTest.

(** ** The tests of the thread pools

    The threads run in any order; these are orders in which the tests end. *)
Module PoolTests.
(** src/tests/alien_pool_test.cc: four tasks, four threads. *)
Definition alien_pool (schedule : list nat) : Alien.alien_thread_pool (Task := Z) :=
  let thread_pool := Alien.run (Alien.Add <$> seqZ 0 4) Alien.alien_thread_pool_new in
  Alien.run (Alien.Thread <$> schedule) (Alien.initialize_and_run 4 thread_pool).
Example alien_pool_passes :
  let p := alien_pool (seq 0 4 ++ seq 0 4 ++ seq 0 4) in
  Alien.joined p = true /\ Alien.started p = seqZ 0 4 /\ Alien.alien_thread_pool_destroy p = Ok tt.
Proof. split_and!; vm_compute; reflexivity. Qed.

(** src/tests/thread_pool_test.cc: every shard submits [id * id] and looks at the answer. *)
Definition thread_pool (shards : nat) (schedule : list (Resource.event (F := Z))) : res bool :=
  p ← Resource.configure (T := Z) (RT := list nat) (RC := list (Resource.work_item * Z)) (Resource.mk_options (Some true) None None);
  '(p, _) ← Resource.run (fun id => id * id) shards p [] (((fun id => Resource.Submit id (Z.of_nat id)) <$> seq 0 shards) ++ schedule);
  Ok (forallb (fun id => bool_decide (snd <$> Resource.resolved p id = [Z.of_nat id * Z.of_nat id])) (seq 0 shards)).
Example thread_pool_passes :
  thread_pool 2 ((Resource.Work <$> [0; 1; 0; 1; 0; 1]%nat) ++ (Resource.Poll <$> [0; 1]%nat)) = Ok true.
Proof. vm_compute. reflexivity. Qed.
End PoolTests.

(** ** The sample programs

    What src/demos/bank_account/bank_account_sample.cc and src/demos/actor_samples/simple_actor_sample.cc ask, and the answers they print. *)
Module SamplePrograms.
Import ScopeBuilder.
(** The actor types and the type of [actor_group] have generated numbers. *)
Definition bank_account_type : Z := 0.
Definition food_item_type : Z := 1.

(** The account 10 of group 1: the address, the answers, the account. *)
Definition bank_account_simulate (shards : Z) : res (address * (list BankAccount.future * BankAccount.bank_account)) :=
  let ba_id := 10 in
  b ← scope_builder_default ex_garbage;
  b ← set_shard b (ba_id mod shards);
  b ← enter_sub_scope b ex_group1;
  ba_ref ← build_ref b ex_garbage bank_account_type ba_id;
  r ← BankAccount.serve [BankAccount.Deposit 5; BankAccount.Withdraw 8; BankAccount.Check; BankAccount.Withdraw 3] BankAccount.bank_account_new;
  Ok (ba_ref, r).

(** Six items of food on the shards in turn; of item [i] a customer buys [i + 6]. *)
Fixpoint food_refs (shards : Z) (b : t) (ids : list Z) : res (list address) :=
  match ids with
  | [] => Ok []
  | i :: ids =>
      b ← set_shard b (i mod shards);
      a ← build_ref b ex_garbage food_item_type i;
      l ← food_refs shards b ids; Ok (a :: l)
  end.
Fixpoint purchases (ids : list Z) : res (list (Items.failure + Z)) :=
  match ids with
  | [] => Ok []
  | i :: ids =>
      item ← match Items.food_item_new i with inr item => Ok item | inl _ => Fault AssertFail end;
      '(r, _) ← Items.buy (i + 6) item;
      l ← purchases ids; Ok (r :: l)
  end.
Definition simple_simulate (shards : Z) : res (list address * list (Items.failure + Z)) :=
  food_builder ← scope_builder_default ex_garbage;
  food_builder ← enter_sub_scope food_builder ex_group1;
  food_item_refs ← food_refs shards food_builder (seqZ 0 6);
  rs ← purchases (seqZ 0 6); Ok (food_item_refs, rs).

(** src/demos/actor_samples/actor_scheduling_sample.cc: two groups below one group of items, six actors in each; the
    actors are asked to print themselves in the order of their numbers, and print in the order their group gives them. *)
Definition item_group : scope := mk_scope 61441 1.
Definition food_group : scope := mk_scope 61442 1.
Definition medicine_group : scope := mk_scope 61443 2.
Fixpoint refs_below (b : t) (type : Z) (ids : list Z) : res (list address) :=
  match ids with
  | [] => Ok []
  | i :: ids => a ← build_ref b ex_garbage type i; l ← refs_below b type ids; Ok (a :: l)
  end.
Fixpoint print_food (ids : list Z) : res (list (Z * string * string * Z)) :=
  match ids with
  | [] => Ok []
  | i :: ids =>
      item ← match Items.food_item_new i with inr item => Ok item | inl _ => Fault AssertFail end;
      x ← Items.food_print_info item; l ← print_food ids; Ok (x :: l)
  end.
Definition scheduling_simulate : res (list address * list address * list (Z * string * string * Z)) :=
  food_builder ← scope_builder_scopes ex_garbage 0 [item_group; food_group];
  food_item_refs ← refs_below food_builder food_item_type (seqZ 0 6);
  medicine_builder ← scope_builder_scopes ex_garbage 0 [item_group; medicine_group];
  medicine_item_refs ← refs_below medicine_builder 2 (seqZ 0 6);
  '(_, order) ← TaskQueue.run ((TaskQueue.Push <$> seqZ 0 6) ++ (const TaskQueue.Pop <$> seqZ 0 6)) (TaskQueue.queue_of (Some Items.food_lt)) [];
  lines ← print_food order;
  Ok (food_item_refs, medicine_item_refs, lines).
Example food_is_printed_by_date :
  exists l1 l2, scheduling_simulate = Ok (l1, l2,
    [(2, "Ham", "2019.09.17", 10); (3, "Beer", "2020.12.11", 10); (0, "Apple", "2021.04.03", 10);
     (5, "Juice", "2021.06.05", 10); (1, "Cake", "2021.07.23", 10); (4, "Steak", "2021.10.18", 10)])%string.
Proof. eexists _, _. vm_compute. reflexivity. Qed.

(** The actors are on the shards that were asked for, and the items that are sold out say so. *)
Example samples_answer :
  (exists a r, bank_account_simulate 4 = Ok (a, r) /\ get_shard_id a = Ok 2 /\
    fst r = [inr 5; inl (BankAccount.balance_not_enough 8 5); inr 5; inr 2]) /\
  (exists l rs, simple_simulate 4 = Ok (l, rs) /\ (get_shard_id <$> l) = (Ok <$> [0; 1; 2; 3; 0; 1]) /\
    rs = [inr 4; inr 3; inr 2; inr 1; inr 0; inl (Items.stock_not_enough 11 10)]).
Proof. split; eexists _, _; (split; [vm_compute; reflexivity|split; vm_compute; reflexivity]). Qed.
End SamplePrograms.
