(* ===== verification/App.v ===== *)
(** * The life of a machine: configuration, run, end

    [actor_smp::configure] and [cleanup_cpu], [actor_app::run] (src/src/core/actor-app.cc);
    [allocate_actor_engine], [register_actor_pollers], [deregister_actor_pollers] and
    [clear_actor_system] (src/src/core/root_actor_group.cc).

    [smp::invoke_on_all] runs its function on every shard, in an order that is not
    specified; a shard whose pollers are registered polls whenever it likes. *)
From S2P Require Import Prelude NetworkConfig.
From S2P Require Import Bytes Address Message PromiseManager Actor Group.
From S2P Require Import MessageQueue Channels Engine Machine ThreadPools Timer Registry.

(** ** actor_smp::configure *)
Module Smp.
Section Smp.
Context {R M : Type} {SQ : Spsc R M}.
Abbreviation chan := (channel (R := R) (M := M)).
(** The number of shards, [semaphore::max_counter()]; whether the thread pool is open and
    HIACTOR_GPU_ENABLE. *)
Variables (n : nat) (max_counter : Z) (pool_active gpu_enabled : bool).

Inductive poller := SmpPoller | CoordPoller | ThreadResourcePoller | GpuResourcePoller.

Record smp := mk_smp {
  _root_actor_groups : list (option nat);        (* the shard whose engine it points to *)
  service_groups : nat -> list (list Z);          (* [actor_msg_service_groups] of each shard *)
  engines : nat -> bool;                          (* [rag_holder] *)
  worker_launched : bool;
  remotes : list (option nat);                    (* what the queues were constructed with *)
  local_qs : option chan;
  network_qs : option chan;
  pollers : nat -> list poller
}.
Definition smp_new : smp := mk_smp [] (fun _ => []) (fun _ => false) false [] None None (fun _ => []).

Definition resize_groups (s : smp) : smp :=
  mk_smp (replicate n None) (service_groups s) (engines s) (worker_launched s) (remotes s) (local_qs s) (network_qs s) (pollers s).

(** [allocate_actor_engine] *)
Definition allocate_actor_engine (i : nat) (s : smp) : res smp :=
  _ ← assert (negb (engines s i));
  Ok (mk_smp (_root_actor_groups s) (service_groups s) (set (engines s) i true) (worker_launched s) (remotes s) (local_qs s) (network_qs s) (pollers s)).

(** The first function that runs on every shard. *)
Definition prepare_shard (i : nat) (s : smp) : res smp :=
  let s := mk_smp (_root_actor_groups s) (set (service_groups s) i (ServiceGroups.init_default max_counter n (service_groups s i)))
             (engines s) (worker_launched s) (remotes s) (local_qs s) (network_qs s) (pollers s) in
  s ← allocate_actor_engine i s;
  Ok (mk_smp (<[i := Some i]> (_root_actor_groups s)) (service_groups s) (engines s) (worker_launched s) (remotes s) (local_qs s) (network_qs s) (pollers s)).
Fixpoint prepare_shards (order : list nat) (s : smp) : res smp :=
  match order with
  | [] => Ok s
  | i :: order => s ← prepare_shard i s; prepare_shards order s
  end.

(** What shard 0 does in between: the coordinator's worker, the queues (the pools are
    [ThreadPools] and [GpuPool]). *)
Definition create_channels (s : smp) : smp :=
  let nr_cpu := length (_root_actor_groups s) in
  mk_smp (_root_actor_groups s) (service_groups s) (engines s) true (_root_actor_groups s)
    (Some (create_qs nr_cpu)) (Some (create_qs nr_cpu)) (pollers s).

Definition register_actor_pollers (i : nat) (s : smp) : smp :=
  mk_smp (_root_actor_groups s) (service_groups s) (engines s) (worker_launched s) (remotes s) (local_qs s) (network_qs s)
    (set (pollers s) i ([SmpPoller] ++ (if (i =? 0)%nat then [CoordPoller] else []) ++
       (if pool_active then [ThreadResourcePoller] else []) ++ (if gpu_enabled then [GpuResourcePoller] else []))).

Definition set_qs (l k : chan) (s : smp) : smp :=
  mk_smp (_root_actor_groups s) (service_groups s) (engines s) (worker_launched s) (remotes s) (Some l) (Some k) (pollers s).

(** The second function that runs on every shard.  [start_all_queues] starts both kinds of queues
    in one loop, which do not touch each other. *)
Definition start_shard (i : nat) (s : smp) : res smp :=
  l ← of_option NullDeref (local_qs s); l ← start_all_queues i l;
  k ← of_option NullDeref (network_qs s); k ← start_all_queues i k;
  Ok (register_actor_pollers i (set_qs l k s)).

(** [actor_smp_pollfn::poll] on a shard whose poller is registered: what it received. *)
Definition poll_shard (i : nat) (s : smp) : res (list M * smp) :=
  match pollers s i with
  | [] => Ok ([], s)
  | _ =>
      l ← of_option NullDeref (local_qs s); '(_, ml, l) ← poll_queues i l;
      k ← of_option NullDeref (network_qs s); '(_, mn, k) ← poll_queues i k;
      Ok (ml ++ mn, set_qs l k s)
  end.

(** [actor_smp_pollfn::pure_poll] *)
Definition pure_poll_shard (i : nat) (s : smp) : res smp :=
  match pollers s i with
  | [] => Ok s
  | _ =>
      l ← of_option NullDeref (local_qs s); '(_, l) ← local_pure_poll_queues i l;
      k ← of_option NullDeref (network_qs s); '(_, k) ← network_pure_poll_queues i k;
      Ok (set_qs l k s)
  end.

(** The second [invoke_on_all], with the polls of the shards that are done. *)
Inductive event := StartShard (i : nat) | PollShard (i : nat) | PurePollShard (i : nat).
Fixpoint start_shards (evs : list event) (s : smp) : res (list M * smp) :=
  match evs with
  | [] => Ok ([], s)
  | StartShard i :: evs => s ← start_shard i s; start_shards evs s
  | PollShard i :: evs => '(ms, s) ← poll_shard i s; '(ms', s) ← start_shards evs s; Ok (ms ++ ms', s)
  | PurePollShard i :: evs => s ← pure_poll_shard i s; start_shards evs s
  end.
(** Whether some shard that is done, or in [S], is polled by [pure_poll]. *)
Fixpoint pure_polls (S : list nat) (evs : list event) : bool :=
  match evs with
  | [] => false
  | StartShard i :: evs => pure_polls (i :: S) evs
  | PollShard _ :: evs => pure_polls S evs
  | PurePollShard i :: evs => bool_decide (i ∈ S) || pure_polls S evs
  end.
Definition started (evs : list event) : list nat := omap (fun ev => match ev with StartShard i => Some i | _ => None end) evs.

Definition configure (order : list nat) (evs : list event) (s : smp) : res (list M * smp) :=
  s ← prepare_shards order (resize_groups s);
  start_shards evs (create_channels s).

(** ** While the shards start *)

(** The queues of the shards in [S] are started; nothing was sent. *)
Record idle (S : list nat) (ch : chan) : Prop := {
  id_count : count ch = n;
  id_ring : forall i j, ring (_pending (_qs ch i j)) = [];
  id_fifo : forall i j, (i < n)%nat -> pending_fifo (_qs ch i j) = if decide (j ∈ S /\ i <> j) then Some [] else None
}.

Lemma idle_create : idle [] (create_qs n).
Proof.
  split; [done|intros; cbn; apply ring_new_empty|]. intros i j Hi. rewrite decide_False; [done|]. intros [H _]. now apply not_elem_of_nil in H.
Qed.

Lemma idle_start S ch i : (i < n)%nat -> idle S ch -> exists ch', start_all_queues i ch = Ok ch' /\ idle (i :: S) ch'.
Proof.
  intros Hi [Hc Hr Hf]. destruct (start_loop_spec i (seq 0 (count ch)) ch) as (ch' & E & Hc' & Hq); [lia|..].
  { apply Forall_forall. intros x Hx%elem_of_seq. lia. }
  exists ch'. split; [exact E|]. split; [congruence|..].
  - intros k j. rewrite Hq. case_decide; cbn; apply Hr.
  - intros k j Hk. rewrite Hq. destruct (decide (j = i /\ k ∈ seq 0 (count ch) /\ k <> i)) as [(-> & _ & Hne)|Hd].
    + rewrite decide_True by (split; [now left|done]). done.
    + rewrite (Hf k j Hk). assert (Hin : k ∈ seq 0 (count ch)) by (apply elem_of_seq; lia). repeat case_decide; set_solver.
Qed.

(** A poll of a started shard finds nothing and reads no queue that is not started. *)
Lemma idle_poll_loop S i shards : forall ch got rcvd,
  (i < n)%nat -> i ∈ S -> Forall (fun j => (j < n)%nat) shards -> idle S ch ->
  exists ch', poll_loop shards i ch (u64 got) rcvd = Ok (u64 got, rcvd, ch') /\ idle S ch'.
Proof.
  induction shards as [|j shards IH]; intros ch got rcvd Hi HS Hsh Hch; cbn [poll_loop]; [eauto|].
  apply Forall_cons in Hsh as [Hj Hsh]. case_decide as Hne; [|eauto]. pose proof Hch as [Hc Hr Hf].
  rewrite at_ok by lia. cbn [mbind res_bind]. unfold process_incoming, process_pop.
  pose proof (ring_pop_spec (_pending (_qs ch i j))) as Hp. destruct (ring_pop _) as [[m r]|]; [rewrite Hr in Hp; done|].
  cbn [mbind res_bind]. rewrite at_ok by (cbn; lia). cbn [mbind res_bind].
  rewrite upd_ne by congruence. unfold flush_request_batch, fifo. rewrite (Hf j i Hj), decide_True by (split; congruence || done).
  cbn [of_option mbind res_bind]. rewrite app_nil_r, u64_add, Z.add_0_r. apply IH; try done.
  assert (Hsame : forall a b, _qs (upd (upd ch i j (_qs ch i j)) j i (_qs ch j i)) a b = _qs ch a b).
  { intros a b. cbn. repeat case_decide; try done; intuition congruence. }
  split; [done|..]; intros; rewrite Hsame; auto.
Qed.

Lemma idle_poll S i ch : (i < n)%nat -> i ∈ S -> idle S ch ->
  exists ch', poll_queues i ch = Ok (false, [], ch') /\ idle S ch'.
Proof.
  intros Hi HS Hch. unfold poll_queues. rewrite (id_count _ _ Hch).
  destruct (idle_poll_loop S i (seq 0 n) ch 0 [] Hi HS) as (ch' & E & H'); [|done|].
  { apply Forall_forall. intros x Hx%elem_of_seq. lia. }
  change (u64 0) with 0 in E. rewrite E. cbn [mbind res_bind]. eauto.
Qed.

(** A [pure_poll] flushes what a started shard has for the others, which is nothing; with the shard's queue to
    itself, which the network channel does not skip, it fails. *)
Lemma idle_flush S i j ch : (j < n)%nat -> i ∈ S -> j <> i -> idle S ch -> flush_request_batch (_qs ch j i) = Ok (0, _qs ch j i).
Proof.
  intros Hj HS Hne [Hc Hr Hf]. unfold flush_request_batch, fifo. now rewrite (Hf j i Hj), decide_True.
Qed.

Lemma idle_pure_loop skip S i shards : forall ch, (i < n)%nat -> i ∈ S -> Forall (fun j => (j < n)%nat) shards -> idle S ch ->
  if negb skip && bool_decide (i ∈ shards) then pure_poll_loop skip shards i ch = Fault Uninit
  else exists ch', pure_poll_loop skip shards i ch = Ok (false, ch') /\ idle S ch'.
Proof.
  induction shards as [|j shards IH]; intros ch Hi HS Hsh Hch; cbn [pure_poll_loop]; [rewrite andb_false_r; eauto|].
  apply Forall_cons in Hsh as [Hj Hsh]. pose proof Hch as [Hc Hr Hf]. destruct (Nat.eqb_spec i j) as [<-|Hne].
  - rewrite bool_decide_true by now left. destruct skip; cbn [andb negb].
    + exact (IH ch Hi HS Hsh Hch).
    + rewrite at_ok by lia. cbn [mbind res_bind]. unfold flush_request_batch, fifo. rewrite (Hf i i Hi), decide_False by tauto. done.
  - rewrite andb_false_r, at_ok by lia. cbn [mbind res_bind]. rewrite (idle_flush S i j) by done. cbn [mbind res_bind].
    rewrite at_ok by (cbn; lia). cbn [mbind res_bind].
    assert (Hsame : forall a b, _qs (upd ch j i (_qs ch j i)) a b = _qs ch a b) by (intros a b; cbn; destruct (decide (a = j /\ b = i)) as [[-> ->]|]; done).
    rewrite Hsame. unfold pure_poll_rx. rewrite Hr.
    assert (Hb : bool_decide (i ∈ j :: shards) = bool_decide (i ∈ shards)).
    { apply bool_decide_ext. rewrite elem_of_cons. split; [|auto]. now intros [?|?]. }
    rewrite Hb. apply IH; try done. split; [done|..]; intros; rewrite Hsame; auto.
Qed.

Lemma idle_pure S i ch : (i < n)%nat -> i ∈ S -> idle S ch ->
  (exists ch', local_pure_poll_queues i ch = Ok (false, ch') /\ idle S ch') /\ network_pure_poll_queues i ch = Fault Uninit.
Proof.
  intros Hi HS Hch. assert (Hsh : Forall (fun j => (j < n)%nat) (seq 0 n)) by (apply Forall_forall; intros x Hx%elem_of_seq; lia).
  unfold local_pure_poll_queues, network_pure_poll_queues. rewrite (id_count _ _ Hch). split.
  - exact (idle_pure_loop true S i _ ch Hi HS Hsh Hch).
  - pose proof (idle_pure_loop false S i _ ch Hi HS Hsh Hch) as H. rewrite bool_decide_true in H; [exact H|apply elem_of_seq; lia].
Qed.

Lemma prepare_ok order : forall s,
  NoDup order -> Forall (fun i => (i < n)%nat) order -> length (_root_actor_groups s) = n ->
  (forall i, i ∈ order -> engines s i = false /\ service_groups s i = []) ->
  exists s', prepare_shards order s = Ok s' /\ length (_root_actor_groups s') = n /\ pollers s' = pollers s /\
    forall i, if decide (i ∈ order)
              then _root_actor_groups s' !! i = Some (Some i) /\ engines s' i = true /\ service_groups s' i = [replicate n max_counter]
              else _root_actor_groups s' !! i = _root_actor_groups s !! i /\ engines s' i = engines s i /\ service_groups s' i = service_groups s i.
Proof.
  induction order as [|k order IH]; intros s Hnd Hlt Hl Hnew; cbn [prepare_shards].
  - exists s. split; [done|]. split; [done|]. split; [done|]. intros i. rewrite decide_False; [done|]. apply not_elem_of_nil.
  - apply NoDup_cons in Hnd as [Hk Hnd]. apply Forall_cons in Hlt as [Hkn Hlt]. destruct (Hnew k ltac:(now left)) as [E1 E2].
    unfold prepare_shard, allocate_actor_engine. cbn [engines]. rewrite E1, E2. cbn [assert negb mbind res_bind].
    edestruct IH as (s' & -> & Hl' & Hp & Hi); [done|done|..].
    + cbn. now rewrite length_insert.
    + intros i Hin. cbn. rewrite !set_at_other by congruence. apply Hnew. now right.
    + exists s'. split; [done|]. split; [done|]. split; [exact Hp|]. intros i. specialize (Hi i). cbn in Hi.
      destruct (decide (i = k)) as [->|Hne].
      * rewrite decide_False in Hi by done. rewrite decide_True by now left. destruct Hi as (-> & -> & ->).
        rewrite !set_at_same, list_lookup_insert_eq by lia. done.
      * rewrite !set_at_other, list_lookup_insert_ne in Hi by congruence. destruct (decide (i ∈ order)) as [Hin|Hin].
        -- now rewrite decide_True by now right.
        -- rewrite decide_False; [done|]. now intros [?|?]%elem_of_cons.
Qed.

Definition registered (i : nat) : list poller := pollers (register_actor_pollers i smp_new) i.

(** The shards in [S] have started. *)
Definition starting (S : list nat) (s : smp) : Prop :=
  (exists l k, local_qs s = Some l /\ network_qs s = Some k /\ idle S l /\ idle S k) /\
  forall i, pollers s i = if decide (i ∈ S) then registered i else [].

Lemma register_pollers i s j :
  pollers (register_actor_pollers i s) j = if decide (j = i) then registered i else pollers s j.
Proof. unfold registered, register_actor_pollers, set. cbn. case_decide; [now rewrite decide_True|done]. Qed.

Lemma start_shards_ok evs : forall S s,
  Forall (fun i => (i < n)%nat) (started evs) -> Forall (fun i => (i < n)%nat) S -> starting S s ->
  if pure_polls S evs then start_shards evs s = Fault Uninit
  else exists s', start_shards evs s = Ok ([], s') /\ starting (rev (started evs) ++ S) s' /\
    _root_actor_groups s' = _root_actor_groups s /\ engines s' = engines s /\ service_groups s' = service_groups s /\
    remotes s' = remotes s /\ worker_launched s' = worker_launched s.
Proof.
  induction evs as [|[i|i|i] evs IH]; intros S s Hlt HS [(l & k & El & Ek & Hl & Hk) Hp]; cbn [start_shards pure_polls].
  - exists s. split; [done|]. split; [|done]. split; eauto 6.
  - apply Forall_cons in Hlt as [Hi Hlt]. unfold start_shard. rewrite El, Ek. cbn [of_option mbind res_bind].
    destruct (idle_start S l i Hi Hl) as (l' & -> & Hl'), (idle_start S k i Hi Hk) as (k' & -> & Hk'). cbn [mbind res_bind].
    assert (Hnext : starting (i :: S) (register_actor_pollers i (set_qs l' k' s))).
    { split; [exists l', k'; done|]. intros j. rewrite register_pollers. cbn [pollers set_qs]. rewrite Hp.
      destruct (decide (j = i)) as [->|Hj]; [now rewrite decide_True by now left|].
      destruct (decide (j ∈ S)); [now rewrite decide_True by now right|]. rewrite decide_False; [done|]. now intros [?|?]%elem_of_cons. }
    specialize (IH (i :: S) _ Hlt ltac:(now constructor) Hnext). destruct (pure_polls (i :: S) evs); [exact IH|]. destruct IH as (s' & -> & Hs' & Hrest).
    cbn [started omap list_omap rev]. exists s'. split; [done|]. split; [|exact Hrest]. rewrite <-app_assoc. exact Hs'.
  - unfold poll_shard. pose proof (Hp i) as Hpi. destruct (decide (i ∈ S)) as [Hin|Hni].
    + rewrite Hpi. unfold registered, register_actor_pollers, set. cbn [pollers]. rewrite decide_True by done. cbn [app].
      rewrite El, Ek. cbn [of_option mbind res_bind]. pose proof (proj1 (Forall_forall _ _) HS i Hin) as Hi. cbn beta in Hi.
      destruct (idle_poll S i l Hi Hin Hl) as (l' & -> & Hl'), (idle_poll S i k Hi Hin Hk) as (k' & -> & Hk'). cbn [mbind res_bind app].
      specialize (IH S (set_qs l' k' s) Hlt HS ltac:(split; [exists l', k'; done|exact Hp])). destruct (pure_polls S evs); [now rewrite IH|].
      destruct IH as (s' & -> & Hs'). cbn [mbind res_bind]. eauto.
    + rewrite Hpi. cbn [mbind res_bind]. specialize (IH S s Hlt HS ltac:(split; eauto 6)). destruct (pure_polls S evs); [now rewrite IH|].
      destruct IH as (s' & -> & Hs'). cbn [mbind res_bind]. eauto.
  - unfold pure_poll_shard. pose proof (Hp i) as Hpi. destruct (decide (i ∈ S)) as [Hin|Hni].
    + rewrite bool_decide_true, Hpi by done. unfold registered, register_actor_pollers, set. cbn [pollers]. rewrite decide_True by done. cbn [app orb].
      rewrite El, Ek. cbn [of_option mbind res_bind]. pose proof (proj1 (Forall_forall _ _) HS i Hin) as Hi. cbn beta in Hi.
      destruct (idle_pure S i l Hi Hin Hl) as [(l' & -> & _) _], (idle_pure S i k Hi Hin Hk) as [_ ->]. done.
    + rewrite bool_decide_false, Hpi by done. cbn [mbind res_bind orb]. exact (IH S s Hlt HS ltac:(split; eauto 6)).
Qed.

Lemma idle_all S ch : (forall i, (i < n)%nat -> i ∈ S) -> idle S ch -> chan_ok ch.
Proof.
  intros HS [Hc Hr Hf]. split; rewrite Hc.
  - intros i j Hi Hj Hij. rewrite Hf, decide_True; [done|split; [auto|done]|done].
  - intros i Hi. rewrite Hf, decide_False; [done|now intros [_ ?]|done].
  - intros i j _ _. rewrite Hr. cbn. lia.
Qed.

End Smp.
End Smp.

(** ** actor_app::run *)
Module Run.
Section Run.
Context {D Q P Sem R : Type} {SM : Semaphore Sem} {SQ : Spsc R (emsg (D := D) (Q := Q))}.
Abbreviation emsg := (emsg (D := D) (Q := Q)).
Abbreviation engine := (engine (D := D) (Q := Q) (P := P) (Sem := Sem)).
Abbreviation chan := (channel (R := R) (M := emsg)).
Variable promise_set_value : P -> emsg -> P.
Variable promise_set_exception : P -> ex -> P.
Variable disabled_below : Z -> emsg -> bool.
Variable canceled_text : bytes.
(** [local_shard_count()] *)
Variable n : nat.

(** What [f.get()] throws, by the clause that catches it. *)
Inductive exn := BpoError | RuntimeError | TimedOutError | OtherError.

(** [machine_info]'s static members when [start_network] has returned: set in two steps, and not at all
    before the list of nodes is accepted. *)
Definition info_after (o : options) : machine_info :=
  match o_worker_node_list o with
  | None => machine_info_set (Z.of_nat n) 0 (Z.of_nat n)
  | Some rows =>
      match o_machine_id o with
      | None => mk_info 0 0 0 0
      | Some mid =>
          match load_worker_node_list rows [] mid (Z.of_nat n) with
          | inr _ => mk_info 0 0 0 0
          | inl configs =>
              match set_network_config configs mid (o_p2p_connection_count o) (Z.of_nat n) with
              | Ok (_, num, anchor) =>
                  if o_network_timeout_sec o =? 0 then mk_info num anchor 0 0 else machine_info_set num anchor (Z.of_nat n)
              | Fault _ => mk_info 0 0 0 0
              end
          end
      end
  end.

(** The messages [exit] sends from shard 0; [routes]: the routing table was built. *)
Fixpoint forward (anchor : Z) (routes : bool) (os : list (eout (D := D) (Q := Q))) (ch : chan) (out : list emsg) : res (chan * list emsg) :=
  match os with
  | [] => Ok (ch, out)
  | ESendLocal m :: os =>
      g ← get_shard_id (addr (e_hdr m));
      ch ← send_helper ch 0 anchor g m; forward anchor routes os ch out
  | ESendNet m :: os => _ ← (if routes then Ok tt else Fault NullDeref); forward anchor routes os ch (out ++ [m])
  | _ :: os => forward anchor routes os ch out
  end.

(** [actor_engine().exit()] on shard 0. *)
Definition exit (mi : machine_info) (routes : bool) (e : engine) (ch : chan) : res (engine * chan * list emsg) :=
  let gsid := u32 (_sid_anchor mi + 0) in
  e' ← Engine.exit promise_set_value promise_set_exception gsid (_num_shards mi) (is_local mi) disabled_below canceled_text false e;
  '(ch, out) ← forward (_sid_anchor mi) routes (drop (length (trace e)) (trace e')) ch [];
  Ok (e', ch, out).

(** [run] after [configure]: [connected] is the outcome of [network_io::start_and_connect], [fn] that of the
    application's function.  The message printed, shard 0's engine, the channel, what was sent to the network. *)
Definition run (o : options) (connected fn : option exn) (e : engine) (ch : chan) : res (option exn * engine * chan * list emsg) :=
  r ← start_network o (Z.of_nat n);
  let '(failure, routes) :=
    match r with
    | inr _ => (Some BpoError, false)
    | inl (_, _, _, start) =>
        if (start : bool) then match connected with Some x => (Some x, false) | None => (fn, true) end else (fn, false)
    end in
  match failure with
  | None => Ok (None, e, ch, [])
  | Some x => '(e, ch, out) ← exit (info_after o) routes e ch; Ok (Some x, e, ch, out)
  end.

Lemma start_network_info o nc mi t b : start_network o (Z.of_nat n) = Ok (inl (nc, mi, t, b)) -> info_after o = mi.
Proof.
  unfold start_network, info_after. destruct (o_worker_node_list o) as [rows|]; [|intros H; now simplify_eq].
  destruct (o_machine_id o) as [mid|]; [|done]. destruct (load_worker_node_list _ _ _ _) as [configs|]; [|done].
  destruct (set_network_config _ _ _ _) as [[[nc' num] anchor]|]; cbn [mbind res_bind]; [|done].
  destruct (_ =? 0); intros H; now simplify_eq.
Qed.

Lemma start_network_error o err : start_network o (Z.of_nat n) = Ok (inr err) ->
  match err with
  | ZeroTimeout => _min_sid (info_after o) = 0 /\ _max_sid (info_after o) = 0
  | _ => info_after o = mk_info 0 0 0 0
  end.
Proof.
  unfold start_network, info_after. destruct (o_worker_node_list o) as [rows|]; [|done].
  destruct (o_machine_id o) as [mid|]; [|intros H; now simplify_eq].
  destruct (load_worker_node_list rows [] mid (Z.of_nat n)) as [configs|err'] eqn:El.
  - destruct (set_network_config _ _ _ _) as [[[nc' num] anchor]|]; cbn [mbind res_bind]; [|done].
    destruct (_ =? 0); intros H; now simplify_eq.
  - intros H. simplify_eq. unfold load_worker_node_list in El. cbn [app] in El.
    destruct (rows !! _); [|now simplify_eq]. destruct (negb _); [now simplify_eq|]. destruct (negb _); now simplify_eq.
Qed.

(** A configuration that is refused never ends the program: the error is printed and [exit] is called, but the
    number of shards is still 0, so no shard, not even the caller, is told to stop; only a timeout of
    zero is refused after the numbers are set. *)
Theorem refused_configuration_never_exits o err connected fn (e : engine) ch :
  start_network o (Z.of_nat n) = Ok (inr err) -> err <> ZeroTimeout ->
  run o connected fn e ch = Ok (Some BpoError, e, ch, []).
Proof.
  intros H Hne. pose proof (start_network_error o err H) as Hi. unfold run. rewrite H. cbn [mbind res_bind].
  replace (info_after o) with (mk_info 0 0 0 0) by (destruct err; done).
  unfold exit, Engine.exit. cbn [_num_shards]. change (Z.to_nat 0) with 0%nat. cbn [broadcast mbind res_bind]. cbn zeta.
  now rewrite (drop_ge (trace e)) by done.
Qed.

Lemma forward_fault anchor os : forall ch out,
  (exists m, ESendNet m ∈ os) \/ (exists m g, ESendLocal m ∈ os /\ get_shard_id (addr (e_hdr m)) = Ok g /\ (count ch <= Z.to_nat (u32 (g - anchor)))%nat) ->
  exists f, forward anchor false os ch out = Fault f.
Proof.
  induction os as [|o os IH]; intros ch out H.
  - destruct H as [[m Hm]|(m & g & Hm & _)]; now apply not_elem_of_nil in Hm.
  - assert (Hrest : (forall m, o <> ESendNet m) -> (forall m, o <> ESendLocal m) ->
      (exists m, ESendNet m ∈ os) \/ (exists m g, ESendLocal m ∈ os /\ get_shard_id (addr (e_hdr m)) = Ok g /\ (count ch <= Z.to_nat (u32 (g - anchor)))%nat)).
    { intros H1 H2. destruct H as [[m [Hm|Hm]%elem_of_cons]|(m & g & [Hm|Hm]%elem_of_cons & Hg)]; subst; try (now destruct (H1 m)); try (now destruct (H2 m));
        [left|right]; eauto. }
    destruct o as [| | | |m|m| |]; cbn [forward]; try (apply IH, Hrest; done); [|cbn; eauto].
    destruct (get_shard_id (addr (e_hdr m))) as [g|] eqn:Eg; cbn [mbind res_bind]; [|eauto].
    unfold send_helper, at_. destruct (Nat.ltb_spec (Z.to_nat (u32 (g - anchor))) (count ch)) as [Hlt|Hge]; cbn [andb mbind res_bind]; [|eauto].
    destruct (0 <? count ch)%nat; cbn [mbind res_bind]; [|eauto]. destruct (MessageQueue.send _ m) as [[nr q]|]; cbn [mbind res_bind]; [|eauto].
    apply IH. destruct H as [[m' [Hm|Hm]%elem_of_cons]|(m' & g' & [Hm|Hm]%elem_of_cons & Hg & Hge)]; [done|left; eauto| |right; cbn; eauto 6].
    injection Hm as ->. rewrite Eg in Hg. injection Hg as ->. lia.
Qed.

(** A timeout of zero is refused when the number of shards is set but not which are local: in
    a cluster of more than one shard, [exit] then takes a shard of the machine for a remote one, or the
    first shard of the cluster for one of this machine, and uses a null pointer or an index out of range. *)
Theorem zero_timeout_crashes o connected fn (e : engine) ch :
  start_network o (Z.of_nat n) = Ok (inr ZeroTimeout) ->
  2 <= _num_shards (info_after o) <= 4294967296 -> 0 <= _sid_anchor (info_after o) < _num_shards (info_after o) ->
  (Z.of_nat (count ch) + _sid_anchor (info_after o) <= 4294967296) ->
  exists f, run o connected fn e ch = Fault f.
Proof.
  intros H Hn Ha Hc. destruct (start_network_error o _ H) as [Hmin Hmax]. unfold run. rewrite H. cbn [mbind res_bind].
  set (mi := info_after o) in *. unfold exit. rewrite Z.add_0_r, u32_small by lia. pose proof (@root_address) as Ra.
  destruct (broadcast_total promise_set_value promise_set_exception (_sid_anchor mi) (is_local mi) disabled_below canceled_text
    false _ (Z.to_nat (_num_shards mi)) 0 e Ra ltac:(lia) ltac:(lia)) as (e' & Ex & _). unfold Engine.exit.
  change FORCE_STOP with (stop_type true) in *. rewrite Ex. cbn [mbind res_bind].
  destruct (broadcast_sent promise_set_value promise_set_exception (_sid_anchor mi) (is_local mi) disabled_below canceled_text
    [] _ (stop_type false) (Z.to_nat (_num_shards mi)) 0 e e' Ra ltac:(lia) ltac:(lia) Ex) as (rs & Hs & HF).
  pose proof (broadcast_extends promise_set_value promise_set_exception (_sid_anchor mi) (is_local mi) disabled_below canceled_text
    _ _ _ _ _ _ Ex) as (os & Et & Hw).
  assert (Hos : sent os = rs) by (rewrite Et, sent_app in Hs; now apply app_inv_head in Hs).
  rewrite Et, drop_app_length. enough (Hf : exists f, forward (_sid_anchor mi) false os ch [] = Fault f) by (destruct Hf as (f & ->); cbn; eauto).
  apply forward_fault. rewrite Z2Nat.id in HF by lia.
  set (g := if _sid_anchor mi =? 0 then 1 else 0).
  assert (Hg : g ∈ filter (fun s => s <> _sid_anchor mi) (seqZ 0 (_num_shards mi))).
  { apply list_elem_of_filter. unfold g. destruct (Z.eqb_spec (_sid_anchor mi) 0); (split; [lia|]); apply elem_of_seqZ; lia. }
  apply list_elem_of_lookup in Hg as [k Hk]. destruct (Forall2_lookup_l _ _ _ _ _ HF Hk) as (r & Hr & Rr & _).
  apply list_elem_of_lookup_2 in Hr. rewrite <-Hos in Hr. unfold sent in Hr. apply list_elem_of_omap in Hr as (x & Hx & Ex').
  pose proof (proj1 (Forall_forall _ _) Hw x Hx) as Hwx. destruct x as [| | | |m|m| |]; try done; injection Ex' as ->; cbn in Hwx.
  - right. destruct Hwx as (g' & Eg & Hg' & Hl). rewrite (repr_get_shard _ _ _ Rr) in Eg. injection Eg as <-.
    exists r, (u32 g). split; [done|]. split; [exact (repr_get_shard _ _ _ Rr)|].
    unfold is_local in Hl. rewrite Hmin, Hmax in Hl. unfold g in *. destruct (Z.eqb_spec (_sid_anchor mi) 0) as [E|E]; [done|].
    change (u32 0) with 0 in *. replace (u32 (0 - _sid_anchor mi)) with (4294967296 - _sid_anchor mi); [lia|].
    unfold wrap. change (2 ^ 32) with 4294967296. apply (Z.mod_unique_pos _ _ (-1)); lia.
  - left. eauto.
Qed.
End Run.
End Run.

(** ** clear_actor_system *)
Module Clear.
Import Smp.
Section Clear.
Context {R M : Type} {SQ : Spsc R M} {F T RT RC : Type} {MT : MpQueue RT nat} {MC : MpQueue RC (Resource.work_item (F := F) * T)}.
Abbreviation pool := (Resource.pool (F := F) (RT := RT) (RC := RC) (T := T)).
Abbreviation smp := (smp (R := R) (M := M)).
Variable n : nat.

(** [actor_smp::cleanup_cpu]: [stop] of the queues a shard sends to, which only ends their metrics. *)
Fixpoint stop_queues (is_ : list nat) (sid : nat) (ch : channel (R := R) (M := M)) : res unit :=
  match is_ with
  | [] => Ok tt
  | i :: is_ => _ ← at_ ch i sid; stop_queues is_ sid ch
  end.
Definition cleanup_cpu (sid : nat) (s : smp) : res unit :=
  _ ← match local_qs s with Some ch => stop_queues (seq 0 n) sid ch | None => Ok tt end;
  match network_qs s with Some ch => stop_queues (seq 0 n) sid ch | None => Ok tt end.

Definition deregister_actor_pollers (sid : nat) (s : smp) : smp :=
  mk_smp (_root_actor_groups s) (service_groups s) (engines s) (worker_launched s) (remotes s) (local_qs s) (network_qs s) (set (pollers s) sid []).

(** What each shard runs. *)
Definition clear_shard (sid : nat) (s : smp) : res smp :=
  _ ← cleanup_cpu sid s; Ok (deregister_actor_pollers sid s).

(** The calls submitted to other shards are returned; the future that waits for them is dropped. *)
Definition clear_actor_system (sid : nat) (s : smp) (p : pool) : res (list nat * smp * pool) :=
  _ ← assert (sid =? 0)%nat;
  s ← clear_shard 0 s;
  '(_, p) ← Resource.stop n p;
  Ok (seq 1 (n - 1), s, p).

(** [wait_others_and_exit], once the barrier was passed: whether the reactor is told to exit. *)
Definition peace_stopped (sid : nat) (s : smp) (p : pool) : res (bool * list nat * smp * pool) :=
  if (sid =? 0)%nat then '(submitted, s, p) ← clear_actor_system sid s p; Ok (true, submitted, s, p) else Ok (false, [], s, p).

(** Shard 0 exits before any other shard has run what was submitted to it: their pollers are still registered. *)
Theorem exit_before_cleanup s p submitted s' p' :
  peace_stopped 0 s p = Ok (true, submitted, s', p') ->
  submitted = seq 1 (n - 1) /\ pollers s' 0 = [] /\ forall i, i ∈ submitted -> pollers s' i = pollers s i.
Proof.
  unfold peace_stopped, clear_actor_system, clear_shard. cbn [Nat.eqb assert mbind res_bind]. intros H. res_inv.
  repeat match goal with x : (_ * _)%type |- _ => destruct x end. res_inv.
  repeat match goal with x : (_ * _)%type |- _ => destruct x end. res_inv. simplify_eq. split; [done|]. cbn. split; [apply set_at_same|].
  intros i Hi%elem_of_seq. apply set_at_other. lia.
Qed.

Lemma assert_empty_fault shards (p : pool) : (exists i, i ∈ shards /\ Resource.pure_poll_queues i p = true) -> Resource.assert_empty shards p = Fault AssertFail.
Proof.
  induction shards as [|j shards IH]; intros (i & Hi & Hp); [now apply not_elem_of_nil in Hi|]. cbn [Resource.assert_empty].
  apply elem_of_cons in Hi as [<-|Hi]; [now rewrite Hp|]. destruct (Resource.pure_poll_queues j p); [done|]. cbn. apply IH. eauto.
Qed.

(** As the other shards are not waited for, a result one of them has not polled yet ends the program with a failed assertion. *)
Theorem unpolled_result_aborts s s' (p : pool) i :
  clear_shard 0 s = Ok s' -> Resource._active p = true -> (i < n)%nat -> mp_items (Resource._completed p i) <> [] ->
  peace_stopped 0 s p = Fault AssertFail.
Proof.
  intros Hs Ha Hi Hne. unfold peace_stopped, clear_actor_system. cbn [Nat.eqb assert mbind res_bind]. rewrite Hs. cbn [mbind res_bind].
  unfold Resource.stop. rewrite Ha. destruct (mp_consume_all (Resource._threads p)) as [ks r].
  rewrite assert_empty_fault; [done|]. exists i. split; [apply elem_of_seq; lia|]. unfold Resource.pure_poll_queues. cbn.
  now destruct (mp_items (Resource._completed p i)).
Qed.
End Clear.
End Clear.

(** ** Concrete runs *)
Module AppExamples.
Import Smp.


Definition no_machine_id : options := mk_options None (Some sample_configs) 1 60.
Definition sample_engine : engine (D := Z) (Q := list bytes) (Sem := Z * list Z) := engine_new toy_pm0.
Definition sample_chan : channel (R := list toy_msg) (M := toy_msg) := create_qs 2.

Lemma refused_configuration_never_exits_witness :
  Run.run toy_value toy_exception (fun _ _ => false) [] 2 no_machine_id None None sample_engine sample_chan =
    Ok (Some Run.BpoError, sample_engine, sample_chan, []).
Proof.
  apply (Run.refused_configuration_never_exits toy_value toy_exception (fun _ _ => false) [] 2 no_machine_id NoMachineId);
    [reflexivity|discriminate].
Defined.
End AppExamples.
